(* ===== verification/_CoqProject ===== *)
-Q . S2P
Prelude.v
NetOrder.v
Proto.v
MemoryPool.v
MemoryStream.v
RawMsg.v
RpcHeader.v
Reader.v
Timer.v
Connection.v
Csv.v
WildMatch.v
RpcContext.v
RpcChannel.v
RpcTask.v
Router.v
GoChannel.v
Select.v
Signal.v
Event.v
World.v
Service.v
Cmder.v
EnumMeta.v
CsvAdapter.v
SqlExpr.v
MysqlDb.v
DateTime.v
Waitable.v
ThreadPool.v
TcpServer.v
GameServer.v
GameClient.v
Gos.v
GameCodec.v
Json.v
Ptree.v
Xml.v
Room.v
Reflect.v
Variant.v
Invoke.v
