(* ===== verification/Prelude.v ===== *)
(** * network-core: a verification library

    The repository is a C++ framework for game servers: a tcp transport that
    cuts a byte stream into messages, an rpc layer above it, timers, memory
    pools, serialization and a number of utilities.  This library models the
    parts that carry the framework's own logic as executable definitions and
    proves what makes them correct, or exhibits how they are not.  File names
    below are those under [src/network].

    ** Files, bottom up

    - [Prelude]: computations that may meet undefined behaviour ([ub]),
      machine integers, bytes and plain structs, the tactics and the lemmas
      every other file uses.
    - [NetOrder] ([util/net.hpp]): the overload sets [ntoh] and [hton].
    - [Proto] ([net/common.hpp]): protocol numbers as a bit-field union, result
      and error codes.
    - [MemoryPool] ([base/memory_pool.hpp]): the allocator by powers of two
      over [boost::pool].
    - [MemoryStream] ([base/memory_stream.hpp]): the growable byte stream, and
      the interface [Allocator] it allocates through.
    - [RawMsg] ([net/raw_msg.hpp]): messages, their shared store and batches,
      over the interface [Header] of a header type.
    - [RpcHeader] ([rpc/net/msg_header.hpp]): the client, server and internal
      rpc headers and the union of the last two.
    - [Reader] ([net/tcp_connect.hpp], [connection_reader]): reassembly of
      messages from the chunks a socket delivers.
    - [Timer] ([timer/timer_manager.hpp], [timer/schedule_timer.hpp]): timers,
      their manager and their proxies; [TimerOwner] is the interface of the
      state a manager is part of.
    - [Connection] ([net/tcp_connect.hpp], [tcp_connection]): the connection as
      a state machine over the transport's completions; it uses the stream,
      messages, reader and timers.
    - [RpcContext] ([rpc/net/async_rpc_context.hpp], [net/exception.hpp]): the
      record of one call and the two call containers, behind the interfaces
      [CallHeader], [CallContainer] and [CallContainerLaws].
    - [RpcChannel] ([rpc/net/async_rpc_channel.hpp],
      [rpc/net/async_connection.hpp]): the channel that sends calls and matches
      replies, a state machine proved against those interfaces.
    - [RpcTask] ([rpc/net/rpc_task.hpp]): the tasks a call is made with: their
      connect, their timers, waiting, moving and copying.
    - [Router] ([rpc/net/router.hpp], [router_impl.hpp], [invoker_traits.hpp],
      [router_register.hpp]): the server's side of a call, over the interface
      [CallHeaderLaws] of the two headers, and a call's way through both
      channels.
    - [GoChannel], [Select] ([base/channel.h]): channels between threads with a
      mutex and condition variables, as interleaved steps, and [select].
    - [Signal], [Event] ([msgbus]): the reference-counted ring of handlers, and
      the dispatcher over it, proved against the operations of the ring.
    - [World] ([base/world.hpp], [type_map.hpp], [type_id.hpp]): maps of values
      of every type.
    - [Service] ([service], [module]): the factory of services by type, the
      manager that runs them through their life, and modules.
    - [Cmder], [Waitable] ([cmder], [base/waitable_object.hpp]): command lines
      and scripts of commands, and commands that wait for notifications.
    - [ThreadPool], [TcpServer] ([thread], [net/ios_pool.hpp],
      [net/ios_wrapper.hpp], [net/tcp_server.hpp]): workers on a queue of tasks,
      and the server that deals its connections out to io_services.
    - [EnumMeta] ([meta/enum_meta.hpp]): enumerators by their names.
    - [SqlExpr], [MysqlDb] ([orm]): the texts of conditions and statements, and
      the connection over the MySQL client.
    - [DateTime] ([base/date_time.hpp]): texts of times, the calendar and counts
      of seconds, over boost's points in time.
    - [GameServer], [GameClient] ([gameserver]): the center's server manager and
      its clients, proved against the interface [Codec] of message bodies;
      [GameClient] runs the timers of [Timer].
    - [Gos] ([serialize/gos_adapter.hpp], [serializer.hpp],
      [codec/codec_gos.hpp]): the binary serializer over a universe of types,
      on the memory stream.
    - [GameCodec] ([gameserver/protocol.hpp], [msg_pack.hpp]): the structs of the
      game servers as types of [Gos]; an instance of [Codec].
    - [Json] ([serialize/json_adapter.hpp], [serializer.hpp],
      [deserializer.hpp], [codec/codec_json.hpp]): the serializer over JSON
      documents, and the unpacking of a handler's arguments.
    - [Ptree], [Xml] ([serialize/xml_adapter.hpp], [codec/codec_xml.hpp]): the
      serializer over property trees, which the configurations are read with: the
      writer and the tree it builds; the reader, with properties, imports and
      shared attributes.
    - [Csv], [CsvAdapter] ([serialize/detail/csv_parser.hpp],
      [serialize/csv_adapter.hpp]): the CSV state machine, and typed tables read
      from its rows.
    - [WildMatch] ([util/string.hpp]): wildcard patterns and their search
      automaton.
    - [Reflect] ([reflect/ReflectionDatabase.h], [TypeData.h], [Type.h],
      [TypeInfo.h]): the type database of the reflection library.
    - [Variant], [Invoke] ([reflect/Variant.h], [VariantContainer.h],
      [Argument.h], [Field.h], [MethodInvoker.h] and the other invokers): variants
      over a heap of containers, and the calls of what the database finds.
    - [Room] ([example/room_server]): the application the framework is written
      for: players, rooms and the actions of the room server.

    ** How the code is read

    A class is a record of its members, a method a function on it with the
    method's name; a name that two classes share carries a prefix ([body_],
    [batch_], [context_], [chan_]).  Reading outside an object, dereferencing
    null, [front] or [pop] on an empty container and overflow of [int] are
    [Undef]; unsigned arithmetic wraps ([u16], [u32], [u64]).  A shared pointer
    that is mutated through several owners is an index into a store: messages
    ([msg_heap]), timers, call contexts.  The host is little endian, as the
    build's targets are.  Asynchronous code is a machine driven by labels: a
    label is a call, a posted task or the completion of an operation, and the
    operations in flight, the tasks posted and the callbacks made are part of
    the state.  A handler runs to its end: handlers of one connection are
    serialised by its io_service, and mutexes are not modelled, but in
    [GoChannel], whose steps are the critical sections of its threads.  What belongs
    to other code is a parameter: [boost::pool], the system's allocator, the
    asio transport (its completion conditions as its documentation states
    them), [memcpy] on overlapping ranges, [boost::trim], user callbacks.

    ** What is proved

    - Data: byte order conversions and protocol numbers are round trips and
      produce the documented layout; header conversions undo each other, and
      the accessors of the union implement one header ([NetOrder], [Proto],
      [RpcHeader]).
    - Memory: a block of the pool fits what was asked, unless its size wraps
      ([MemoryPool]); the
      stream refines a queue of bytes, and what is written is read back
      ([MemoryStream]).
    - Transport: framing does not depend on how the bytes are cut into chunks
      ([Reader]); a batch goes out as its messages' frames ([RawMsg]); writes
      reach the peer in the order they were made, and a session reports at most
      one disconnect ([Connection]).
    - Rpc: a channel sends every call once, in order, without undefined
      behaviour and without leaving one stuck; every call completes at most
      once; a reply by id reaches its call, a reply by protocol the oldest call
      that waits ([RpcContext], [RpcChannel]).
    - Rpc, both sides: a request is answered at most once, and a call comes back
      through both channels with what the handler returned ([Router]); the calls
      of tasks are conserved through connects, timeouts and moves ([RpcTask]).
    - Channels between threads: a bounded channel refines a queue, its waits and
      notifications lose no wakeup, and [select] tries every case once per round
      and ends when one is ready ([GoChannel], [Select]).
    - Events: connecting and disconnecting handlers refine a list, an emission
      calls them in order, and a dispatched event reaches its subscribers
      ([Signal], [Event]); values come out of a world at the type they went in
      ([World]).
    - Game servers: the server manager implements a registry of the servers that
      live, messages and announcements reach those they are for ([GameServer]);
      a client never gives up connecting ([GameClient]); and the address of the
      database server gets from its registration to the clients in bytes of the
      Gos serializer ([GameCodec]), which gives back what it packed ([Gos]), as
      JSON and XML do ([Json], [Xml]).
    - Reflection: whatever is registered and asked in whatever order, the database
      answers with what was declared ([Reflect]); variants hold values, references
      and wrappers as plain variables would, as long as no constant is written, and
      own their containers ([Variant]); and a call by the types of its arguments
      takes them as what they are, but for parameters that are arrays ([Invoke]).
    - Services and commands: a factory and a manager refine a registry of the
      classes registered, and the services go through their life in order
      ([Service]); scripts without jumps back end, and those without jumps are
      run node by node ([Cmder]); untimed waits get every notification
      ([Waitable]).
    - Threads: a pool runs each task once, wakes a worker for a queued task and
      closes ([ThreadPool]); connections take turns on the io_services
      ([TcpServer]).
    - Names, texts and queries: an enumeration's names are read back
      ([EnumMeta]); a condition reads as it was built, and statements name what
      was set ([SqlExpr]); a batch runs in order ([MysqlDb]); the text of a time
      tells the time, and months have their days ([DateTime]).
    - The room server: whatever players ask for, players and rooms fit together
      and no request meets undefined behaviour, but for those the findings name;
      an exit ends the room for all its members; the pages of the room list are
      the list ([Room]).
    - Timers: a timer fires when its time comes, and a stopped one is silent
      ([Timer]).
    - Text: a written table is parsed back ([Csv]) and read into structs, by a
      reader in static storage ([CsvAdapter]); matching without case
      decides the language of a pattern without ['?'] and is sound for all, and
      matching with case overruns its buffer ([WildMatch]).
    - Defects: theorems marked (defect) state what the code does where it
      does not do what it means to: wrong chunk freed, a rewind past the start
      of an object, an overlapping [memcpy], a timeout that never fires, calls
      that nothing but their own timer can complete, a matcher that misses matches.

    ** Bounds and fuel

    [WildMatch]: [next_loop], [kmp_loop] and [match_loop] take fuel; their
    callers give twice the length of the strings, and [match_decides_glob]
    proves that it is enough.  [Reader]: [parse_loop] alternates between a
    header and a body, so twice the bytes in the buffer is enough; [async_read]
    consumes a chunk or a byte each time ([segs_fuel]); [read_cycle] takes one
    more than the bytes to come; [reader_reassembles] proves the three
    sufficient.  The loops of [Signal] take more fuel than the ring has links, and
    [Select] as much as it has cases; their theorems prove that this is enough.
    [Cmder]'s executor takes fuel, and [forward_script_terminates] gives the runs
    it needs; [read_expr] of [SqlExpr] takes the length of the text
    ([height_length]); [page_loop] of [Room] one more than the rooms listed.
    [extend_loop] of [Xml] takes one more than the text is long
    ([extend_loop_ends]); [init], which follows imports and need not end, as much
    as the document has nodes when there are none ([init_plain]).  The other
    recursions are structural.

    ** Not modelled

    Logging and the io_services themselves; the serializers other than CSV, Gos,
    JSON and XML; files and paths; the Thrift bindings; the owners of a router and an acceptor or a
    channel in [rpc/server] and [rpc/client]; generated protocol code and the
    example programs but for the room server.  Within the modelled files: asio's
    socket options, log output, the parts that need C++ coroutine contexts,
    date-times in the Gos serializer, the conversion of database rows into
    objects, floating point values in SQL, the macros that make the field lists
    of enumerations and structs, and, but for JSON and XML, the unpacking of a handler's
    arguments, which is part of the handler. *)
From stdpp Require Import base option list numbers list_numbers gmap sorting.

Declare Scope core_scope.
Delimit Scope core_scope with core.
Local Open Scope Z_scope.

(** Facts about bytes and plain structs, and about defined computations. *)
Create HintDb bytes.
Create HintDb ub.

(** ** Computations that may run into undefined behaviour

    [Def a] is a C++ evaluation that completes with [a]; [Undef] is one that
    reads or writes outside an object, dereferences a null pointer, overflows
    a signed integer or otherwise leaves the language's guarantees. *)
Inductive ub (A : Type) : Type :=
| Def (a : A)
| Undef.
Arguments Def {A} a.
Arguments Undef {A}.

#[export] Instance ub_ret : MRet ub := λ A a, Def a.
#[export] Instance ub_bind : MBind ub := λ A B f m,
  match m with Def a => f a | Undef => Undef end.
#[export] Instance ub_fmap : FMap ub := λ A B f m,
  match m with Def a => Def (f a) | Undef => Undef end.
#[export] Instance ub_eq_dec `{EqDecision A} : EqDecision (ub A).
Proof. solve_decision. Defined.

(** [assert b] continues only when [b] holds. *)
Definition assert_ub (b : bool) : ub unit := if b then Def tt else Undef.

(** Dereferencing a possibly-null pointer. *)
Definition deref {A} (o : option A) : ub A :=
  match o with Some a => Def a | None => Undef end.

Lemma ub_bind_Def {A B} (m : ub A) (f : A → ub B) b :
  m ≫= f = Def b ↔ ∃ a, m = Def a ∧ f a = Def b.
Proof. destruct m; simpl; naive_solver. Qed.
Lemma ub_bind_Undef {A B} (m : ub A) (f : A → ub B) :
  m ≫= f = Undef ↔ m = Undef ∨ ∃ a, m = Def a ∧ f a = Undef.
Proof. destruct m; simpl; naive_solver. Qed.
Lemma ub_bind_assoc {A B C} (m : ub A) (f : A → ub B) (g : B → ub C) :
  (m ≫= f) ≫= g = m ≫= (λ a, f a ≫= g).
Proof. by destruct m. Qed.
Lemma ub_bind_ret {A} (m : ub A) : m ≫= mret = m.
Proof. by destruct m. Qed.
Lemma assert_ub_Def b u : assert_ub b = Def u ↔ b = true.
Proof. destruct b, u; naive_solver. Qed.
Lemma assert_ub_true : assert_ub true = Def tt.
Proof. done. Qed.
Lemma deref_Def {A} (o : option A) a : deref o = Def a ↔ o = Some a.
Proof. destruct o; simpl; naive_solver. Qed.

Notation is_Def m := (∃ a, m = Def a) (only parsing).
(** [m] completes with [a]. *)
Notation "m ⇓ a" := (m = Def a) (at level 70, no associativity, only parsing) : core_scope.
#[export] Hint Rewrite @ub_bind_assoc @ub_bind_ret : ub.
#[export] Hint Resolve assert_ub_true : ub.

(** Decompose a successful monadic run into its steps. *)
Ltac inv_def :=
  repeat match goal with
  | H : mbind _ _ = Def _ |- _ =>
      let a := fresh "a" in let Ha := fresh "Ha" in
      apply ub_bind_Def in H as (a & Ha & H)
  | H : assert_ub _ = Def _ |- _ => apply assert_ub_Def in H
  | H : deref _ = Def _ |- _ => apply deref_Def in H
  | H : mret _ = Def _ |- _ => unfold mret, ub_ret in H
  | H : Def _ = Def _ |- _ => injection H as H; try subst
  | H : Undef = Def _ |- _ => discriminate H
  | H : (_, _) = (_, _) |- _ => injection H as ? ?; try subst
  | a : _ * _ |- _ => destruct a
  | a : unit |- _ => destruct a
  end.

(** Counting in a list of which an element is replaced or removed. *)
Lemma sum_list_insert {A} (f : A → nat) (l : list A) (i : nat) (x y : A) :
  l !! i = Some x → (sum_list_with f (<[i := y]> l) + f x = sum_list_with f l + f y)%nat.
Proof.
  intros Hl. rewrite <- (take_drop_middle l i x Hl) at 2.
  rewrite (insert_take_drop l i y) by (by eapply lookup_lt_Some).
  rewrite !sum_list_with_app. simpl. lia.
Qed.
Lemma sum_list_delete {A} (f : A → nat) (l : list A) (i : nat) (x : A) :
  l !! i = Some x → (sum_list_with f (delete i l) + f x = sum_list_with f l)%nat.
Proof.
  intros Hl. rewrite <- (take_drop_middle l i x Hl) at 2.
  rewrite delete_take_drop. rewrite !sum_list_with_app. simpl. lia.
Qed.
Lemma mjoin_lookup {A} (l : list (option A)) (k : nat) (x : A) :
  mjoin (l !! k) = Some x → l !! k = Some (Some x).
Proof. destruct (l !! k) as [[]|]; naive_solver. Qed.

(** How many elements satisfy [f]. *)
Fixpoint count {A} (f : A → bool) (l : list A) : nat :=
  match l with [] => O | v :: l => (Nat.b2n (f v) + count f l)%nat end.
Lemma count_insert {A} (f : A → bool) l i (v y : A) :
  l !! i = Some v →
  (count f (<[i:=y]> l) + Nat.b2n (f v) = count f l + Nat.b2n (f y))%nat.
Proof.
  revert i; induction l as [|x l IH]; intros [|i] Hi; simplify_eq/=; [lia|].
  specialize (IH i Hi). lia.
Qed.
Lemma count_pos {A} (f : A → bool) l i (v : A) : l !! i = Some v → f v = true → (1 ≤ count f l)%nat.
Proof.
  revert i; induction l as [|x l IH]; intros [|i] Hi Hf; simplify_eq/=; [rewrite Hf; simpl; lia|].
  specialize (IH i Hi Hf). lia.
Qed.
Lemma count_zero {A} (f : A → bool) l : count f l = 0%nat → Forall (λ v : A, f v = false) l.
Proof.
  induction l as [|x l IH]; simpl; intros H; constructor; destruct (f x); simpl in H; try lia; auto.
Qed.
Lemma count_none {A} (f : A → bool) l : Forall (λ v : A, f v = false) l → count f l = 0%nat.
Proof. induction 1 as [|x l Hx _ IH]; simpl; [done|]. by rewrite Hx, IH. Qed.
Lemma count_exists {A} (f : A → bool) l : (0 < count f l)%nat → ∃ i v, l !! i = Some v ∧ f v = true.
Proof.
  induction l as [|x l IH]; simpl; [lia|]. destruct (f x) eqn:Hx; simpl.
  - by exists 0%nat, x.
  - intros (i&v&?&?)%IH. by exists (S i), v.
Qed.
Lemma count_replicate {A} (f : A → bool) n (v : A) : count f (replicate n v) = (n * Nat.b2n (f v))%nat.
Proof. induction n; simpl; lia. Qed.

Lemma count_app {A} (f : A → bool) l l' : count f (l ++ l') = (count f l + count f l')%nat.
Proof. induction l as [|v l IH]; simpl; lia. Qed.

(** Case analysis on the integer comparisons a definition branches on. *)
Ltac zcase :=
  match goal with
  | |- context [Z.ltb ?a ?b] => destruct (Z.ltb_spec a b)
  | |- context [Z.leb ?a ?b] => destruct (Z.leb_spec a b)
  | |- context [Z.eqb ?a ?b] => destruct (Z.eqb_spec a b)
  | |- context [Z.gtb ?a ?b] => rewrite (Z.gtb_ltb a b)
  | |- context [Z.geb ?a ?b] => rewrite (Z.geb_leb a b)
  end.
Ltac zcase_in H :=
  match type of H with
  | context [Z.ltb ?a ?b] => destruct (Z.ltb_spec a b)
  | context [Z.leb ?a ?b] => destruct (Z.leb_spec a b)
  | context [Z.eqb ?a ?b] => destruct (Z.eqb_spec a b)
  | context [Z.gtb ?a ?b] => rewrite (Z.gtb_ltb a b) in H
  | context [Z.geb ?a ?b] => rewrite (Z.geb_leb a b) in H
  end.
Ltac zcases := repeat (zcase; simpl); try done; try lia.

(** ** Machine integers *)
Definition u8 (z : Z) : Z := z `mod` 2 ^ 8.
Definition u16 (z : Z) : Z := z `mod` 2 ^ 16.
Definition u32 (z : Z) : Z := z `mod` 2 ^ 32.
Definition u64 (z : Z) : Z := z `mod` 2 ^ 64.

(** Two's-complement reading of the low [w] bits of [z]. *)
Definition to_signed (w z : Z) : Z :=
  let r := z `mod` 2 ^ w in if r <? 2 ^ (w - 1) then r else r - 2 ^ w.
Definition s16 : Z → Z := to_signed 16.
Definition s32 : Z → Z := to_signed 32.
Definition s64 : Z → Z := to_signed 64.

(** The value range of [int], and [int] arithmetic, whose overflow is
    undefined behaviour. *)
Definition int_range (z : Z) : bool := (- 2 ^ 31 <=? z) && (z <? 2 ^ 31).
Definition i32 (z : Z) : ub Z := if int_range z then Def z else Undef.

Lemma int_range_spec z : int_range z = true ↔ - 2 ^ 31 ≤ z < 2 ^ 31.
Proof. unfold int_range. rewrite andb_true_iff, Z.leb_le, Z.ltb_lt. done. Qed.
Lemma i32_in z : - 2 ^ 31 ≤ z < 2 ^ 31 → i32 z = Def z.
Proof. intros ?%int_range_spec. unfold i32. by destruct int_range. Qed.
Lemma i32_Def z y : i32 z = Def y ↔ y = z ∧ - 2 ^ 31 ≤ z < 2 ^ 31.
Proof.
  rewrite <-int_range_spec. unfold i32. destruct int_range; naive_solver.
Qed.

Lemma to_signed_small w z :
  0 < w → - 2 ^ (w - 1) ≤ z < 2 ^ (w - 1) → to_signed w (z `mod` 2 ^ w) = z.
Proof.
  intros Hw Hz. unfold to_signed.
  assert (2 ^ w = 2 * 2 ^ (w - 1)) as Hpow.
  { replace w with (Z.succ (w - 1)) at 1 by lia. by rewrite Z.pow_succ_r by lia. }
  rewrite Z.mod_mod by lia.
  destruct (decide (0 ≤ z)) as [Hpos|Hneg].
  - rewrite (Z.mod_small z) by lia. zcases.
  - assert (z `mod` 2 ^ w = z + 2 ^ w) as ->.
    { rewrite <-(Z.mod_small (z + 2 ^ w) (2 ^ w)) by lia.
      by rewrite <-(Z_mod_plus_full z 1 (2 ^ w)), Z.mul_1_l. }
    zcases.
Qed.
Lemma to_signed_range w z : 0 < w → - 2 ^ (w - 1) ≤ to_signed w z < 2 ^ (w - 1).
Proof.
  intros Hw. unfold to_signed.
  assert (2 ^ w = 2 * 2 ^ (w - 1)) as Hpow.
  { replace w with (Z.succ (w - 1)) at 1 by lia. by rewrite Z.pow_succ_r by lia. }
  assert (0 < 2 ^ (w - 1)) by (apply Z.pow_pos_nonneg; lia).
  pose proof (Z.mod_pos_bound z (2 ^ w)). zcases.
Qed.
Lemma to_signed_mod w z : 0 < w → to_signed w z `mod` 2 ^ w = z `mod` 2 ^ w.
Proof.
  intros Hw. unfold to_signed.
  assert (0 < 2 ^ w) by (apply Z.pow_pos_nonneg; lia).
  zcase; [by rewrite Z.mod_mod by lia|].
  rewrite <-(Z_mod_plus_full _ 1 (2 ^ w)).
  replace (z `mod` 2 ^ w - 2 ^ w + 1 * 2 ^ w) with (z `mod` 2 ^ w) by lia.
  by rewrite Z.mod_mod by lia.
Qed.
Lemma s32_small z : - 2 ^ 31 ≤ z < 2 ^ 31 → s32 z = z.
Proof.
  intros. unfold s32. rewrite <-(to_signed_small 32 z) at 2 by lia.
  unfold to_signed. by rewrite Z.mod_mod by lia.
Qed.
Lemma mod_small_range n z : 0 ≤ z < 2 ^ n → z `mod` 2 ^ n = z.
Proof. apply Z.mod_small. Qed.

(** ** Bytes

    A byte is an integer in [0, 256); the host is little endian, as the
    build's targets (x86, x64) are. *)
Notation byte_ok := (λ b : Z, 0 ≤ b < 2 ^ 8).
Definition bytes_ok (bs : list Z) : Prop := Forall byte_ok bs.
Definition le_bytes (n : Z) (z : Z) : list Z := Z_to_little_endian n 8 z.
Definition le_val (bs : list Z) : Z := little_endian_to_Z 8 bs.

Lemma le_bytes_length n z : 0 ≤ n → Z.of_nat (length (le_bytes n z)) = n.
Proof. apply length_Z_to_little_endian. Qed.
Lemma le_bytes_ok n z : 0 ≤ n → bytes_ok (le_bytes n z).
Proof. intros. by apply Z_to_little_endian_bound. Qed.
Lemma le_val_bytes n z : 0 ≤ n → le_val (le_bytes n z) = z `mod` 2 ^ (n * 8).
Proof. intros. by apply little_endian_to_Z_to_little_endian. Qed.
Lemma le_bytes_val n bs :
  n = Z.of_nat (length bs) → bytes_ok bs → le_bytes n (le_val bs) = bs.
Proof. intros. by apply Z_to_little_endian_to_Z. Qed.
Lemma le_val_bound bs :
  bytes_ok bs → 0 ≤ le_val bs < 2 ^ (Z.of_nat (length bs) * 8).
Proof. intros. by apply little_endian_to_Z_bound. Qed.

Lemma b2z_spec (b : bool) i :
  Z.testbit (Z.b2z b) i = bool_decide (i = 0) && b.
Proof.
  destruct (decide (i < 0)).
  { rewrite Z.testbit_neg_r, bool_decide_false by lia. done. }
  destruct b; simpl; [change 1 with (Z.ones 1); rewrite Z.ones_spec by lia|].
  - rewrite andb_true_r. apply bool_decide_ext. lia.
  - by rewrite Z.testbit_0_l, andb_false_r.
Qed.

(** A byte has no bits above the seventh. *)
Lemma byte_testbit_high b i : byte_ok b → 8 ≤ i → Z.testbit b i = false.
Proof.
  cbv beta. intros Hb Hi. replace b with (b `mod` 2 ^ 8) by (apply Z.mod_small; lia).
  by rewrite Z.mod_pow2_bits_high by lia.
Qed.

(** ** Lists *)

(** Bytes [\[off, off + n)] of a buffer, [Undef] outside it. *)
Definition read_at {A} (buf : list A) (off n : Z) : ub (list A) :=
  if (0 <=? off) && (0 <=? n) && (off + n <=? Z.of_nat (length buf))
  then Def (take (Z.to_nat n) (drop (Z.to_nat off) buf)) else Undef.

(** [memcpy] into a buffer at an offset, [Undef] when it does not fit. *)
Definition write_at {A} (buf : list A) (off : Z) (src : list A) : ub (list A) :=
  if (0 <=? off) && (off + Z.of_nat (length src) <=? Z.of_nat (length buf))
  then Def (take (Z.to_nat off) buf ++ src
            ++ drop (Z.to_nat off + length src) buf)
  else Undef.

Lemma read_at_in {A} (buf : list A) off n :
  0 ≤ off → 0 ≤ n → off + n ≤ Z.of_nat (length buf) →
  read_at buf off n = Def (take (Z.to_nat n) (drop (Z.to_nat off) buf)).
Proof. intros. unfold read_at. zcases. Qed.
Lemma read_at_Def {A} (buf : list A) off n bs :
  read_at buf off n = Def bs →
  0 ≤ off ∧ 0 ≤ n ∧ off + n ≤ Z.of_nat (length buf) ∧
  bs = take (Z.to_nat n) (drop (Z.to_nat off) buf) ∧ Z.of_nat (length bs) = n.
Proof.
  unfold read_at. intros H. repeat (zcase_in H; simpl in H); inv_def.
  rewrite length_take, length_drop. repeat split; lia.
Qed.
Lemma write_at_in {A} (buf : list A) off src :
  0 ≤ off → off + Z.of_nat (length src) ≤ Z.of_nat (length buf) →
  write_at buf off src =
    Def (take (Z.to_nat off) buf ++ src ++ drop (Z.to_nat off + length src) buf).
Proof. intros. unfold write_at. zcases. Qed.
Lemma write_at_Def {A} (buf : list A) off src buf' :
  write_at buf off src = Def buf' →
  0 ≤ off ∧ off + Z.of_nat (length src) ≤ Z.of_nat (length buf) ∧
  buf' = take (Z.to_nat off) buf ++ src ++ drop (Z.to_nat off + length src) buf.
Proof. unfold write_at. intros H. repeat (zcase_in H; simpl in H); by inv_def. Qed.
Lemma write_at_length {A} (buf : list A) off src buf' :
  write_at buf off src = Def buf' → length buf' = length buf.
Proof.
  intros (?&?&->)%write_at_Def.
  rewrite !length_app, length_take, length_drop. lia.
Qed.

(** The elements of a [std::map] in key order. *)
Definition key_le {A} (p q : Z * A) : Prop := p.1 <= q.1.
#[export] Instance key_le_dec {A} : RelDecision (@key_le A) := λ p q, Z_le_dec p.1 q.1.
Definition in_key_order {A} (m : gmap Z A) : list (Z * A) := merge_sort key_le (map_to_list m).
Lemma in_key_order_perm {A} (m : gmap Z A) : in_key_order m ≡ₚ map_to_list m.
Proof. apply merge_sort_Permutation. Qed.

(** ** Plain structs

    [pack ws vs] lays the fields [vs] out one after another, little endian, in
    [ws] bytes each; [unpack] reads them back.  The structs of the code have no
    padding. *)
Fixpoint pack (ws vs : list Z) : list Z :=
  match ws, vs with
  | w :: ws, v :: vs => le_bytes w v ++ pack ws vs
  | _, _ => []
  end.
Fixpoint unpack (ws bs : list Z) : list Z :=
  match ws with
  | [] => []
  | w :: ws => le_val (take (Z.to_nat w) bs) :: unpack ws (drop (Z.to_nat w) bs)
  end.
Definition field_ok (w v : Z) : Prop := 0 ≤ w ∧ 0 ≤ v < 2 ^ (w * 8).
Definition sizes_sum (ws : list Z) : Z := foldr Z.add 0 ws.

Lemma unpack_pack_app ws vs bs :
  Forall2 field_ok ws vs → unpack ws (pack ws vs ++ bs) = vs.
Proof.
  induction 1 as [|w v ws vs [Hw Hv] _ IH]; simpl; [done|].
  pose proof (le_bytes_length w v Hw) as Hl.
  replace (Z.to_nat w) with (length (le_bytes w v)) by lia.
  rewrite <-app_assoc, take_app_length, drop_app_length, le_val_bytes, IH by done.
  by rewrite Z.mod_small.
Qed.
Lemma pack_length ws vs :
  Forall2 field_ok ws vs → Z.of_nat (length (pack ws vs)) = sizes_sum ws.
Proof.
  induction 1 as [|w v ws vs [Hw Hv] _ IH]; simpl; [done|].
  rewrite length_app, Nat2Z.inj_add, le_bytes_length, IH by done. done.
Qed.
Lemma pack_ok ws vs : Forall (λ w, 0 ≤ w) ws → bytes_ok (pack ws vs).
Proof.
  intros Hws. revert vs. induction Hws as [|w ws Hw _ IH]; intros [|v vs]; simpl;
    try by constructor.
  apply Forall_app. split; [by apply le_bytes_ok|apply IH].
Qed.
Lemma unpack_ok ws bs :
  Forall (λ w, 0 ≤ w) ws → bytes_ok bs → Z.of_nat (length bs) = sizes_sum ws →
  Forall2 field_ok ws (unpack ws bs).
Proof.
  intros Hws. revert bs. induction Hws as [|w ws Hw Hws IH]; intros bs Hbs Hl; simpl;
    constructor.
  - assert (0 ≤ sizes_sum ws) by (clear -Hws; induction Hws; simpl; lia).
    simpl in Hl. split; [done|].
    pose proof (le_val_bound (take (Z.to_nat w) bs)) as Hb.
    rewrite length_take, (Nat.min_l _ _), Z2Nat.id in Hb by lia.
    apply Hb. by apply Forall_take.
  - assert (0 ≤ sizes_sum ws) by (clear -Hws; induction Hws; simpl; lia).
    simpl in Hl. apply IH; [by apply Forall_drop|]. rewrite length_drop. lia.
Qed.
Lemma pack_unpack ws bs :
  Forall (λ w, 0 ≤ w) ws → bytes_ok bs → Z.of_nat (length bs) = sizes_sum ws →
  pack ws (unpack ws bs) = bs.
Proof.
  intros Hws. revert bs. induction Hws as [|w ws Hw Hws IH]; intros bs Hbs Hl; simpl in *.
  { by destruct bs. }
  assert (0 ≤ sizes_sum ws) by (clear -Hws; induction Hws; simpl; lia).
  rewrite le_bytes_val, IH, take_drop; try done.
  - by apply Forall_drop.
  - rewrite length_drop. lia.
  - rewrite length_take. lia.
  - by apply Forall_take.
Qed.

(** Byte lists as sums. *)
Lemma le_val_cons b bs : byte_ok b → le_val (b :: bs) = b + 2 ^ 8 * le_val bs.
Proof.
  intros Hb. change (le_val (b :: bs)) with (Z.lor b (le_val bs ≪ 8)).
  assert (Z.land b (le_val bs ≪ 8) = 0) as Hz.
  { apply Z.bits_inj_iff'. intros i Hi. rewrite Z.land_spec, Z.shiftl_spec, Z.testbit_0_l by lia.
    destruct (decide (i < 8)).
    - by rewrite (Z.testbit_neg_r _ (i - 8)), andb_false_r by lia.
    - by rewrite byte_testbit_high by (done || lia). }
  rewrite <-Z.lxor_lor, <-Z.add_nocarry_lxor by done. rewrite Z.shiftl_mul_pow2 by lia. f_equal. apply Z.mul_comm.
Qed.
Lemma le_val_app l k :
  bytes_ok l → le_val (l ++ k) = le_val l + 2 ^ (Z.of_nat (length l) * 8) * le_val k.
Proof.
  induction 1 as [|b l Hb _ IH].
  { change (le_val []) with 0. change (Z.of_nat (length (@nil Z)) * 8) with 0.
    rewrite Z.pow_0_r. simpl app. lia. }
  simpl app. rewrite !le_val_cons, IH by done.
  replace (Z.of_nat (length (b :: l)) * 8) with (8 + Z.of_nat (length l) * 8)
    by (simpl length; lia).
  rewrite Z.pow_add_r by lia. ring.
Qed.

(** Bytes stay bytes. *)
Lemma bytes_ok_app l k : bytes_ok l → bytes_ok k → bytes_ok (l ++ k).
Proof. by apply Forall_app_2. Qed.
Lemma bytes_ok_take n l : bytes_ok l → bytes_ok (take n l).
Proof. apply Forall_take. Qed.
Lemma bytes_ok_drop n l : bytes_ok l → bytes_ok (drop n l).
Proof. apply Forall_drop. Qed.
Lemma bytes_ok_rev l : bytes_ok l → bytes_ok (rev l).
Proof. apply Forall_rev. Qed.
#[export] Hint Resolve le_bytes_ok pack_ok bytes_ok_app bytes_ok_take bytes_ok_drop bytes_ok_rev
  : bytes.
#[export] Hint Extern 2 (_ <= _) => lia : bytes.
