(* ===== verification/NetOrder.v ===== *)
(** * Byte order conversions ([network/util/net.hpp])

    [ntoh] and [hton] are overload sets; [net_type] names the overload that
    C++ picks for a static type, [T_other] being the generic template, which
    is the identity.  Integers are their values, [float] and [double] the bit
    patterns the code reinterprets them as.  [ntohs], [ntohl], [htons] and
    [htonl] are the POSIX functions on a little-endian host. *)
From stdpp Require Import base list numbers list_numbers.
From S2P Require Import Prelude.
Local Open Scope Z_scope.

(** ** Definitions *)

(** Reverse the [n] bytes of an unsigned integer. *)
Definition bswap (n : Z) (v : Z) : Z := le_val (rev (le_bytes n v)).
Definition ntohs (v : Z) : Z := bswap 2 v.
Definition htons (v : Z) : Z := bswap 2 v.
Definition ntohl (v : Z) : Z := bswap 4 v.
Definition htonl (v : Z) : Z := bswap 4 v.

Definition SWAP_LONG (l : Z) : Z :=
  Z.lor (Z.lor (Z.lor
    (Z.land (l ≫ 24) 0x000000FF)
    (Z.land (l ≫ 8) 0x0000FF00))
    (Z.land (l ≪ 8) 0x00FF0000))
    (Z.land (l ≪ 24) 0xFF000000).

Definition SWAP_LONGLONG (l : Z) : Z :=
  Z.lor (Z.lor (Z.lor (Z.lor (Z.lor (Z.lor (Z.lor
    (Z.land (l ≫ 56) 0x00000000000000FF)
    (Z.land (l ≫ 40) 0x000000000000FF00))
    (Z.land (l ≫ 24) 0x0000000000FF0000))
    (Z.land (l ≫ 8) 0x00000000FF000000))
    (Z.land (l ≪ 8) 0x000000FF00000000))
    (Z.land (l ≪ 24) 0x0000FF0000000000))
    (Z.land (l ≪ 40) 0x00FF000000000000))
    (Z.land (l ≪ 56) 0xFF00000000000000).

Inductive net_type :=
| T_short | T_ushort | T_int | T_uint | T_int64 | T_uint64
| T_float | T_double | T_other.
#[export] Instance net_type_eq_dec : EqDecision net_type.
Proof. solve_decision. Defined.

Definition ntoh (t : net_type) (v : Z) : Z :=
  match t with
  | T_short => s16 (ntohs (u16 v))
  | T_ushort => ntohs v
  | T_int => s32 (ntohl (u32 v))
  | T_uint => ntohl v
  | T_int64 => s64 (SWAP_LONGLONG (u64 v))
  | T_uint64 => u64 (SWAP_LONGLONG v)
  | T_float => u32 (SWAP_LONG v)
  | T_double => u64 (SWAP_LONGLONG v)
  | T_other => v
  end.

Definition hton (t : net_type) (v : Z) : Z :=
  match t with
  | T_short => s16 (htons (u16 v))
  | T_ushort => htons v
  | T_int => s32 (htonl (u32 v))
  | T_uint => htonl v
  | T_int64 => s64 (SWAP_LONGLONG (u64 v))
  | T_uint64 => u64 (SWAP_LONGLONG v)
  | T_float => u32 (SWAP_LONG v)
  | T_double => u64 (SWAP_LONGLONG v)
  | T_other => v
  end.

(** The width in bytes and the value range of each overload's operand. *)
Definition net_size (t : net_type) : Z :=
  match t with
  | T_short | T_ushort => 2
  | T_int | T_uint | T_float => 4
  | T_int64 | T_uint64 | T_double => 8
  | T_other => 1
  end.
Definition net_signed (t : net_type) : bool :=
  match t with T_short | T_int | T_int64 => true | _ => false end.
Definition net_range (t : net_type) (v : Z) : Prop :=
  if net_signed t
  then - 2 ^ (net_size t * 8 - 1) ≤ v < 2 ^ (net_size t * 8 - 1)
  else 0 ≤ v < 2 ^ (net_size t * 8).

(** ** Lemmas *)
Lemma bswap_range n v : 0 ≤ n → 0 ≤ bswap n v < 2 ^ (n * 8).
Proof.
  intros Hn. unfold bswap.
  pose proof (le_val_bound (rev (le_bytes n v))) as H.
  rewrite length_rev, le_bytes_length in H by done.
  apply H. auto with bytes.
Qed.

Lemma le_bytes_bswap n v : 0 ≤ n → le_bytes n (bswap n v) = rev (le_bytes n v).
Proof.
  intros Hn. unfold bswap. apply le_bytes_val.
  - by rewrite length_rev, le_bytes_length.
  - auto with bytes.
Qed.

Lemma bswap_involutive n v : 0 ≤ n → bswap n (bswap n v) = v `mod` 2 ^ (n * 8).
Proof.
  intros Hn. unfold bswap at 1.
  rewrite le_bytes_bswap, rev_involutive by done. by apply le_val_bytes.
Qed.

Lemma le_bytes_mod n v : 0 ≤ n → le_bytes n (v `mod` 2 ^ (n * 8)) = le_bytes n v.
Proof.
  intros Hn. rewrite <-le_val_bytes by done.
  apply le_bytes_val; [by rewrite le_bytes_length|auto with bytes].
Qed.

Lemma bswap_mod n v : 0 ≤ n → bswap n (v `mod` 2 ^ (n * 8)) = bswap n v.
Proof. intros. unfold bswap. by rewrite le_bytes_mod. Qed.

(** The masks of the swap macros are shifted runs of eight ones. *)
Lemma land_shifted_ones_spec v k i :
  0 ≤ k → 0 ≤ i →
  Z.testbit (Z.land v (Z.ones 8 ≪ k)) i =
  bool_decide (k ≤ i < k + 8) && Z.testbit v i.
Proof.
  intros. rewrite Z.land_spec, Z.shiftl_spec by lia.
  destruct (decide (i < k)).
  - rewrite (Z.testbit_neg_r (Z.ones 8)), (bool_decide_false (_ ≤ _ < _)) by lia.
    by rewrite andb_false_r.
  - rewrite Z.ones_spec by lia.
    rewrite (bool_decide_ext (i - k < 8) (k ≤ i < k + 8)) by lia.
    apply andb_comm.
Qed.

(** A byte list read as a number, bit by bit. *)
Lemma le_val_cons_spec b bs i :
  0 ≤ i → byte_ok b →
  Z.testbit (le_val (b :: bs)) i =
  if bool_decide (i < 8) then Z.testbit b i else Z.testbit (le_val bs) (i - 8).
Proof.
  intros Hi Hb. change (le_val (b :: bs)) with (Z.lor b (le_val bs ≪ 8)).
  rewrite Z.lor_spec, Z.shiftl_spec by lia. case_bool_decide.
  - rewrite (Z.testbit_neg_r _ (i - 8)) by lia. by rewrite orb_false_r.
  - cbv beta in Hb. replace b with (b `mod` 2 ^ 8) by (apply Z.mod_small; lia).
    by rewrite Z.mod_pow2_bits_high by lia.
Qed.

Lemma le_bytes_unfold n v :
  0 ≤ n → le_bytes (Z.succ n) v = Z.land v (Z.ones 8) :: le_bytes n (v ≫ 8).
Proof. intros. by apply Z_to_little_endian_succ. Qed.

Lemma land_ones8_ok v : byte_ok (Z.land v (Z.ones 8)).
Proof. rewrite Z.land_ones by lia. by apply Z.mod_pos_bound. Qed.

(** Both swap macros are byte reversals: compare the two sides bit by bit,
    splitting on the byte each bit index falls in. *)
Ltac bits_of_swap :=
  rewrite !le_bytes_unfold by lia; simpl rev;
  apply Z.bits_inj_iff'; intros i Hi;
  rewrite !Z.lor_spec, !land_shifted_ones_spec by lia;
  repeat (rewrite le_val_cons_spec by (lia || apply land_ones8_ok);
          case_bool_decide);
  rewrite ?Z.land_spec, ?Z.ones_spec by lia;
  repeat rewrite ?Z.shiftr_spec, ?Z.shiftl_spec by lia;
  repeat (case_bool_decide; try lia; simpl);
  rewrite ?orb_false_r, ?andb_true_r;
  try (f_equal; lia);
  change (le_val []) with 0; by rewrite Z.testbit_0_l.

Lemma SWAP_LONG_bswap l : SWAP_LONG l = bswap 4 l.
Proof.
  unfold bswap, SWAP_LONG.
  change 4 with (Z.succ (Z.succ (Z.succ (Z.succ 0)))).
  change 0x000000FF with (Z.ones 8 ≪ 0). change 0x0000FF00 with (Z.ones 8 ≪ 8).
  change 0x00FF0000 with (Z.ones 8 ≪ 16). change 0xFF000000 with (Z.ones 8 ≪ 24).
  bits_of_swap.
Qed.

Lemma SWAP_LONGLONG_bswap l : SWAP_LONGLONG l = bswap 8 l.
Proof.
  unfold bswap, SWAP_LONGLONG.
  change (le_bytes 8 l) with
    (le_bytes (Z.succ (Z.succ (Z.succ (Z.succ
      (Z.succ (Z.succ (Z.succ (Z.succ 0)))))))) l).
  change 0x00000000000000FF with (Z.ones 8 ≪ 0).
  change 0x000000000000FF00 with (Z.ones 8 ≪ 8).
  change 0x0000000000FF0000 with (Z.ones 8 ≪ 16).
  change 0x00000000FF000000 with (Z.ones 8 ≪ 24).
  change 0x000000FF00000000 with (Z.ones 8 ≪ 32).
  change 0x0000FF0000000000 with (Z.ones 8 ≪ 40).
  change 0x00FF000000000000 with (Z.ones 8 ≪ 48).
  change 0xFF00000000000000 with (Z.ones 8 ≪ 56).
  bits_of_swap.
Qed.

Lemma bswap_unsigned n v : 0 ≤ n → bswap n v `mod` 2 ^ (n * 8) = bswap n v.
Proof. intros. by apply Z.mod_small, bswap_range. Qed.

Lemma bswap_signed n v :
  0 < n → to_signed (n * 8) (bswap n (v `mod` 2 ^ (n * 8))) `mod` 2 ^ (n * 8) = bswap n v.
Proof. intros. by rewrite to_signed_mod, bswap_mod, bswap_unsigned by lia. Qed.

Lemma le_bytes_congr n v w :
  0 ≤ n → v `mod` 2 ^ (n * 8) = w `mod` 2 ^ (n * 8) → le_bytes n v = le_bytes n w.
Proof. intros Hn Heq. by rewrite <-(le_bytes_mod n v), Heq, le_bytes_mod. Qed.

(** Every sized overload is a byte reversal at the type's width. *)
Lemma hton_mod t v :
  t ≠ T_other →
  hton t v `mod` 2 ^ (net_size t * 8) = bswap (net_size t) v.
Proof.
  intros Ht. destruct t; try done; unfold hton, net_size;
    rewrite ?SWAP_LONGLONG_bswap, ?SWAP_LONG_bswap.
  - exact (bswap_signed 2 v eq_refl).
  - exact (bswap_unsigned 2 v ltac:(lia)).
  - exact (bswap_signed 4 v eq_refl).
  - exact (bswap_unsigned 4 v ltac:(lia)).
  - exact (bswap_signed 8 v eq_refl).
  - unfold u64. change 64 with (8 * 8). by rewrite Z.mod_mod, bswap_unsigned.
  - unfold u32. change 32 with (4 * 8). by rewrite Z.mod_mod, bswap_unsigned.
  - unfold u64. change 64 with (8 * 8). by rewrite Z.mod_mod, bswap_unsigned.
Qed.

Lemma net_size_pos t : 0 < net_size t.
Proof. by destruct t. Qed.

Lemma hton_bytes t v :
  t ≠ T_other → le_bytes (net_size t) (hton t v) = rev (le_bytes (net_size t) v).
Proof.
  intros Ht. pose proof (net_size_pos t).
  rewrite <-le_bytes_bswap, <-hton_mod by (done || lia).
  apply le_bytes_congr; [lia|]. by rewrite Z.mod_mod by lia.
Qed.

Lemma ntoh_hton_same t v : ntoh t v = hton t v.
Proof. unfold ntoh, ntohs, ntohl, hton, htons, htonl. destruct t; reflexivity. Qed.

Lemma hton_range t v : t ≠ T_other → net_range t (hton t v).
Proof.
  intros Ht. destruct t; try done; unfold net_range; simpl;
    rewrite ?SWAP_LONGLONG_bswap, ?SWAP_LONG_bswap;
    try (apply to_signed_range; lia); try (apply bswap_range; lia);
    apply Z.mod_pos_bound; lia.
Qed.

(** A value of the type's range is determined by its bytes. *)
Lemma net_bytes_inj t v w :
  net_range t v → net_range t w →
  le_bytes (net_size t) v = le_bytes (net_size t) w → v = w.
Proof.
  intros Hv Hw Heq%(f_equal le_val).
  rewrite !le_val_bytes in Heq by (destruct t; simpl; lia).
  unfold net_range in *. destruct (net_signed t).
  - rewrite <-(to_signed_small (net_size t * 8) v),
      <-(to_signed_small (net_size t * 8) w)
      by (destruct t; simpl in *; lia). by rewrite Heq.
  - by rewrite !Z.mod_small in Heq by lia.
Qed.

(** ** Properties *)

(** Host-to-network conversion followed by network-to-host conversion is the
    identity for every overload, over the type's whole value range; with it every
    message header field survives a send and a receive. *)
Theorem ntoh_hton t v : net_range t v → ntoh t (hton t v) = v.
Proof.
  intros Hv. destruct (decide (t = T_other)) as [->|Ht]; [done|].
  rewrite ntoh_hton_same.
  apply (net_bytes_inj t); [by apply hton_range|done|].
  by rewrite !hton_bytes, rev_involutive.
Qed.

Lemma ntoh_hton_witness :
  net_range T_int (-2) ∧ ntoh T_int (hton T_int (-2)) = -2.
Proof. split; [by vm_compute|]. apply (ntoh_hton T_int (-2)). by vm_compute. Defined.

(** [hton] produces network byte order: the bytes the host stores for the converted
    value are those of the value in reverse (big-endian) order, for every overload that
    converts; in particular the two swap macros agree with the POSIX byte reversal at
    their widths. *)
Theorem hton_big_endian t v :
  t ≠ T_other → le_bytes (net_size t) (hton t v) = rev (le_bytes (net_size t) v).
Proof. apply hton_bytes. Qed.

Lemma hton_big_endian_witness :
  T_uint ≠ T_other ∧ le_bytes 4 (hton T_uint 0x01020304) = [1; 2; 3; 4].
Proof. split; [done|]. by rewrite (hton_big_endian T_uint). Defined.
