(* ===== verification/Proto.v ===== *)
(** * Protocol numbers and result codes ([network/net/common.hpp])

    A protocol number is a 32-bit integer whose bytes overlay the bit-field
    struct [full_procotol] through a union.  The union is modelled by the bytes
    both members share: [id] takes bytes 0 and 1, [server_type] byte 2, and the
    three bit-fields byte 3 from its low bit up, the layout the x86 and x64
    ABIs give them. *)
From stdpp Require Import base list numbers list_numbers.
From S2P Require Import Prelude.
Local Open Scope Z_scope.

(** ** Definitions *)
Record full_procotol := FullProtocol {
  fp_id : Z;            (* uint16_t *)
  fp_server_type : Z;   (* uint8_t *)
  fp_need_reply : bool; (* 1 bit *)
  fp_is_reply : bool;   (* 1 bit *)
  fp_game_type : Z      (* 6 bits *)
}.
Definition full_ok (p : full_procotol) : Prop :=
  0 ≤ fp_id p < 2 ^ 16 ∧ 0 ≤ fp_server_type p < 2 ^ 8 ∧
  0 ≤ fp_game_type p < 2 ^ 6.

(** The byte the three bit-fields share. *)
Definition flag_byte (need_reply is_reply : bool) (game_type : Z) : Z :=
  Z.lor (Z.lor (Z.b2z need_reply) (Z.b2z is_reply ≪ 1))
        ((game_type `mod` 2 ^ 6) ≪ 2).

(** The union's bytes seen as the struct, and the struct's bytes. *)
Definition common_protocol_bytes (p : full_procotol) : list Z :=
  le_bytes 2 (fp_id p) ++
  [u8 (fp_server_type p);
   flag_byte (fp_need_reply p) (fp_is_reply p) (fp_game_type p)].

Definition to_protocol_id (p : full_procotol) : Z := le_val (common_protocol_bytes p).

Definition to_protocol (id : Z) : full_procotol :=
  let bytes := le_bytes 4 id in
  let b3 := nth 3 bytes 0 in
  {| fp_id := le_val (take 2 bytes);
     fp_server_type := nth 2 bytes 0;
     fp_need_reply := Z.testbit b3 0;
     fp_is_reply := Z.testbit b3 1;
     fp_game_type := b3 ≫ 2 |}.

Definition reply_fields (full : full_procotol) : full_procotol :=
  {| fp_id := fp_id full; fp_server_type := fp_server_type full;
     fp_need_reply := false; fp_is_reply := true;
     fp_game_type := fp_game_type full |}.
Definition reply_protocol (proto : Z) : Z :=
  to_protocol_id (reply_fields (to_protocol proto)).

(** [result_code : uint16_t] *)
Inductive result_code := rc_ok | rc_not_reply | rc_fail.
Definition result_code_val (r : result_code) : Z :=
  match r with rc_ok => 0 | rc_not_reply => 99 | rc_fail => 100 end.

Inductive error_code :=
| ec_ok | ec_fail | ec_unknown | ec_timeout | ec_cancel | ec_connect_fail
| ec_badconnect | ec_codec_fail | ec_invalid_header | ec_be_disconnected
| ec_repeat_connect | ec_no_handler | ec_remote_error | ec_recv_error
| ec_send_error.
#[export] Instance error_code_eq_dec : EqDecision error_code.
Proof. solve_decision. Defined.
Definition error_code_val (e : error_code) : Z :=
  match e with
  | ec_ok => 0
  | ec_fail => result_code_val rc_fail
  | ec_unknown => 101 | ec_timeout => 102 | ec_cancel => 103
  | ec_connect_fail => 104 | ec_badconnect => 105 | ec_codec_fail => 106
  | ec_invalid_header => 107 | ec_be_disconnected => 108
  | ec_repeat_connect => 109 | ec_no_handler => 110 | ec_remote_error => 111
  | ec_recv_error => 112 | ec_send_error => 113
  end.

(** ** Lemmas *)
Lemma common_protocol_bytes_length p : length (common_protocol_bytes p) = 4%nat.
Proof. done. Qed.

Lemma flag_byte_spec n r g i :
  0 ≤ i →
  Z.testbit (flag_byte n r g) i =
  if bool_decide (i = 0) then n else if bool_decide (i = 1) then r
  else bool_decide (i < 8) && Z.testbit g (i - 2).
Proof.
  intros Hi. unfold flag_byte.
  rewrite !Z.lor_spec, !Z.shiftl_spec, <-Z.land_ones, Z.land_spec, !b2z_spec by lia.
  destruct (decide (i < 2)).
  - rewrite (Z.testbit_neg_r g (i - 2)) by lia.
    repeat case_bool_decide; try lia; by destruct n, r.
  - rewrite Z.ones_spec by lia.
    repeat case_bool_decide; try lia; simpl; by rewrite ?andb_false_r, ?andb_true_r.
Qed.

Lemma flag_byte_ok n r g : byte_ok (flag_byte n r g).
Proof.
  apply Z.bounded_iff_bits_nonneg'; [lia| |].
  - unfold flag_byte. rewrite !Z.lor_nonneg, !Z.shiftl_nonneg.
    pose proof (Z.mod_pos_bound g (2 ^ 6)). destruct n, r; simpl; lia.
  - intros i Hi. rewrite flag_byte_spec by lia.
    repeat case_bool_decide; done || lia.
Qed.

Lemma flag_byte_fields n r g :
  0 ≤ g < 2 ^ 6 →
  Z.testbit (flag_byte n r g) 0 = n ∧ Z.testbit (flag_byte n r g) 1 = r ∧
  flag_byte n r g ≫ 2 = g.
Proof.
  intros Hg. rewrite !flag_byte_spec by lia. split_and!; [done..|].
  apply Z.bits_inj_iff'. intros i Hi.
  rewrite Z.shiftr_spec, flag_byte_spec by lia.
  repeat case_bool_decide; try lia; simpl; [f_equal; lia|].
  replace g with (g `mod` 2 ^ 6) by (apply Z.mod_small; lia).
  by rewrite Z.mod_pow2_bits_high by lia.
Qed.

(** The three bit-fields of a byte rebuild it. *)
Lemma flag_byte_eta b :
  byte_ok b → flag_byte (Z.testbit b 0) (Z.testbit b 1) (b ≫ 2) = b.
Proof.
  intros Hb. apply Z.bits_inj_iff'. intros i Hi.
  rewrite flag_byte_spec by lia.
  repeat case_bool_decide; subst; simpl; try done.
  - rewrite Z.shiftr_spec by lia. f_equal. lia.
  - symmetry. apply byte_testbit_high; [done|lia].
Qed.

Lemma common_protocol_bytes_ok p : bytes_ok (common_protocol_bytes p).
Proof.
  unfold common_protocol_bytes. apply bytes_ok_app; [auto with bytes|].
  repeat constructor; try apply flag_byte_ok; apply Z.mod_pos_bound; lia.
Qed.

Lemma to_protocol_ok id : full_ok (to_protocol id).
Proof.
  pose proof (le_bytes_ok 4 id ltac:(lia)) as Hok.
  unfold full_ok, to_protocol. simpl.
  change (le_bytes 4 id) with
    [Z.land id (Z.ones 8); Z.land (id ≫ 8) (Z.ones 8);
     Z.land (id ≫ 8 ≫ 8) (Z.ones 8); Z.land (id ≫ 8 ≫ 8 ≫ 8) (Z.ones 8)] in *.
  unfold bytes_ok in Hok. rewrite !Forall_cons in Hok. destruct Hok as (H0&H1&H2&H3&_).
  cbn [nth take]. split_and!; try apply H2.
  - apply (le_val_bound [_; _]). by do 2 (apply Forall_cons; split; [done|]).
  - apply (le_val_bound [_; _]). by do 2 (apply Forall_cons; split; [done|]).
  - apply Z.shiftr_nonneg, H3.
  - rewrite Z.shiftr_div_pow2 by lia. apply Z.div_lt_upper_bound; lia.
Qed.

Lemma to_protocol_pack p : full_ok p → to_protocol (to_protocol_id p) = p.
Proof.
  destruct p as [id st nr ir g]. intros (Hid & Hst & Hg). simpl in *.
  unfold to_protocol, to_protocol_id.
  rewrite le_bytes_val by (done || apply common_protocol_bytes_ok).
  pose proof (flag_byte_fields nr ir g Hg) as (H0&H1&H2).
  unfold common_protocol_bytes. simpl fp_id.
  change (le_bytes 2 id) with [Z.land id (Z.ones 8); Z.land (id ≫ 8) (Z.ones 8)].
  cbn [nth take app fp_server_type fp_need_reply fp_is_reply fp_game_type].
  rewrite H0, H1, H2. unfold u8. rewrite (Z.mod_small st) by lia. f_equal.
  change [Z.land id (Z.ones 8); Z.land (id ≫ 8) (Z.ones 8)] with (le_bytes 2 id).
  rewrite le_val_bytes by lia. by apply Z.mod_small.
Qed.

Lemma to_protocol_unpack id :
  0 ≤ id < 2 ^ 32 → to_protocol_id (to_protocol id) = id.
Proof.
  intros Hid. unfold to_protocol_id, common_protocol_bytes, to_protocol.
  cbn [fp_id fp_server_type fp_need_reply fp_is_reply fp_game_type].
  pose proof (le_bytes_ok 4 id ltac:(lia)) as Hok.
  pose proof (le_val_bytes 4 id ltac:(lia)) as Hval.
  rewrite Z.mod_small in Hval by done.
  change (le_bytes 4 id) with
    [Z.land id (Z.ones 8); Z.land (id ≫ 8) (Z.ones 8);
     Z.land (id ≫ 8 ≫ 8) (Z.ones 8); Z.land (id ≫ 8 ≫ 8 ≫ 8) (Z.ones 8)] in *.
  unfold bytes_ok in Hok.
  rewrite !Forall_cons in Hok. destruct Hok as (H0&H1&H2&H3&_).
  cbn [nth take]. rewrite flag_byte_eta by done.
  rewrite le_bytes_val by (done || by do 2 (apply Forall_cons; split; [done|])).

  unfold u8. rewrite (Z.mod_small (Z.land (id ≫ 8 ≫ 8) _)) by done. done.
Qed.

(** ** Properties *)

(** A protocol number splits into its fields and is rebuilt from them: the two
    overloads of [to_protocol] are inverse to each other, on every struct whose fields
    fit their bit widths and on every 32-bit number. *)
Theorem to_protocol_roundtrip :
  (∀ p, full_ok p → to_protocol (to_protocol_id p) = p) ∧
  (∀ id, 0 ≤ id < 2 ^ 32 → to_protocol_id (to_protocol id) = id).
Proof. split; [apply to_protocol_pack|apply to_protocol_unpack]. Qed.

Lemma to_protocol_roundtrip_witness :
  to_protocol (to_protocol_id (FullProtocol 9 10 false true 1)) =
    FullProtocol 9 10 false true 1 ∧
  to_protocol_id (to_protocol 0x40a0009) = 0x40a0009.
Proof. split; apply to_protocol_roundtrip; unfold full_ok; simpl; lia. Defined.

(** The reply to a protocol number is the same number with the reply bit set and
    the need-reply bit cleared, every other field kept; replying to a reply changes
    nothing. *)
Theorem reply_protocol_spec proto :
  to_protocol (reply_protocol proto) =
    {| fp_id := fp_id (to_protocol proto);
       fp_server_type := fp_server_type (to_protocol proto);
       fp_need_reply := false; fp_is_reply := true;
       fp_game_type := fp_game_type (to_protocol proto) |} ∧
  reply_protocol (reply_protocol proto) = reply_protocol proto.
Proof.
  assert (to_protocol (reply_protocol proto) = reply_fields (to_protocol proto)) as Heq.
  { unfold reply_protocol. apply to_protocol_pack.
    destruct (to_protocol_ok proto) as (?&?&?). done. }
  split; [exact Heq|]. unfold reply_protocol at 1. by rewrite Heq.
Qed.
