(* ===== verification/MemoryPool.v ===== *)
(** * The size-class allocator ([network/base/memory_pool.hpp])

    [memory_pool] keeps one [boost::pool] per power of two and stores the
    requested size in a four-byte head in front of every pooled block.
    [boost::pool] is not part of the repository: a section parameter with its
    three operations.  [::malloc] is the address (or null) the system returns,
    an argument of the operations that call it.  Addresses are integers, sizes
    are [size_t], and [heads] holds the four-byte heads the pool has written, as
    the [int] they are. *)
From Stdlib Require Import Sorted.
From stdpp Require Import base option list numbers gmap.
From S2P Require Import Prelude.
Local Open Scope Z_scope.
Set Default Proof Using "Type".

Section memory_pool.
Context {P : Type} (pool_malloc : P → option Z * P)
  (pool_free : P → Z → P) (pool_is_from : P → Z → bool).

(** ** Definitions *)
Record memory_pool := MemoryPool {
  pool_map : list (Z * P);        (* std::map, by increasing chunk size *)
  mp_is_init : bool;
  max_memory_pool_size : Z;
  heads : gmap Z Z
}.

Definition empty_pool : memory_pool := MemoryPool [] false 0 ∅.
Definition memory_head_size : Z := 4.

(** Which deallocator [free_memory] hands a pointer to. *)
Inductive free_call :=
| PoolFree (size ptr : Z)
| SystemFree (ptr : Z).

(** [bad_alloc] is thrown when [::malloc] fails. *)
Inductive alloc_result :=
| Allocated (ptr : Z)
| BadAlloc.

Definition init_sizes : list Z := (λ k : nat, 4 ≪ Z.of_nat k) <$> seq 0 16.
Definition init (new_pool : Z → P) (st : memory_pool) : memory_pool :=
  if mp_is_init st then st
  else {| pool_map := (λ s, (s, new_pool s)) <$> init_sizes;
          mp_is_init := true;
          max_memory_pool_size := default 0 (last init_sizes);
          heads := heads st |}.

(** The map split at the first class of at least [size] bytes. *)
Fixpoint get_iterator (size : Z) (m : list (Z * P)) : list (Z * P) * list (Z * P) :=
  match m with
  | [] => ([], [])
  | (s, p) :: m' =>
      if s <? size
      then let '(before, from) := get_iterator size m' in ((s, p) :: before, from)
      else ([], m)
  end.

(** In [size_t], so that it wraps. *)
Definition get_internal_size (alloc_size : Z) : Z := u64 (alloc_size + memory_head_size).

(** Ask each class from the iterator on until one has a chunk. *)
Fixpoint malloc_from (m : list (Z * P)) : option Z * list (Z * P) :=
  match m with
  | [] => (None, [])
  | (s, p) :: m' =>
      let '(r, p') := pool_malloc p in
      match r with
      | Some ptr => (Some ptr, (s, p') :: m')
      | None => let '(r', m'') := malloc_from m' in (r', (s, p') :: m'')
      end
  end.

Definition default_malloc (raw : option Z) : alloc_result :=
  match raw with Some ptr => Allocated ptr | None => BadAlloc end.

(** Write the head, an [int], and step over it. *)
Definition get_ptr (internal_ptr internal_size : Z) (hs : gmap Z Z) : Z * gmap Z Z :=
  (internal_ptr + memory_head_size, <[internal_ptr := s32 internal_size]> hs).

Definition malloc_memory (alloc_size : Z) (raw : option Z) (st : memory_pool)
    : alloc_result * memory_pool :=
  let internal_size := get_internal_size alloc_size in
  let '(before, from) := get_iterator internal_size (pool_map st) in
  match from with
  | [] => (default_malloc raw, st)
  | _ =>
      let '(r, from') := malloc_from from in
      let st' := {| pool_map := before ++ from'; mp_is_init := mp_is_init st;
                    max_memory_pool_size := max_memory_pool_size st;
                    heads := heads st |} in
      match r with
      | None => (default_malloc raw, st')
      | Some internal_ptr =>
          let '(ptr, hs) := get_ptr internal_ptr internal_size (heads st) in
          (Allocated ptr,
           {| pool_map := pool_map st'; mp_is_init := mp_is_init st;
              max_memory_pool_size := max_memory_pool_size st; heads := hs |})
      end
  end.

Definition get_internal_ptr (ptr : Z) : Z := ptr - memory_head_size.
Definition get_memory_size (st : memory_pool) (ptr : Z) : ub Z :=
  head ← deref (heads st !! get_internal_ptr ptr);
  Def (u64 head).

(** Give [ptr] back to the first class from the iterator on that owns it. *)
Fixpoint free_from (ptr : Z) (m : list (Z * P)) : option Z * list (Z * P) :=
  match m with
  | [] => (None, [])
  | (s, p) :: m' =>
      if pool_is_from p ptr then (Some s, (s, pool_free p ptr) :: m')
      else let '(r, m'') := free_from ptr m' in (r, (s, p) :: m'')
  end.

Definition free_memory (ptr : Z) (st : memory_pool) : ub (free_call * memory_pool) :=
  internal_size ← get_memory_size st ptr;
  if internal_size <? max_memory_pool_size st then
    let '(before, from) := get_iterator internal_size (pool_map st) in
    let '(r, from') := free_from ptr from in
    match r with
    | Some s =>
        Def (PoolFree s ptr,
             {| pool_map := before ++ from'; mp_is_init := mp_is_init st;
                max_memory_pool_size := max_memory_pool_size st; heads := heads st |})
    | None => Def (SystemFree ptr, st)
    end
  else Def (SystemFree ptr, st).

(** ** Lemmas *)
Lemma get_iterator_app size m before from :
  get_iterator size m = (before, from) → m = before ++ from.
Proof.
  revert before from. induction m as [|[s p] m IH]; intros b f; simpl; [by intros [= <- <-]|].
  destruct (Z.ltb_spec s size).
  - destruct (get_iterator size m) as [b' f']. intros [= <- <-].
    simpl. by rewrite (IH b' f').
  - by intros [= <- <-].
Qed.

(** Classes are listed by increasing size. *)
Definition sorted_classes (m : list (Z * P)) : Prop :=
  StronglySorted Z.lt (m.*1).

Lemma get_iterator_large size m before from :
  sorted_classes m → get_iterator size m = (before, from) →
  Forall (λ sp, size ≤ sp.1) from.
Proof.
  revert before from.
  induction m as [|[s p] m IH]; intros b f Hs; simpl; [intros [= <- <-]; constructor|].
  inversion Hs as [|? ? Hs' Hall]; subst. destruct (Z.ltb_spec s size).
  - destruct (get_iterator size m) as [b' f']. intros [= <- <-]. eauto.
  - intros [= <- <-]. constructor; [done|].
    rewrite Forall_fmap in Hall. eapply Forall_impl; [exact Hall|].
    intros [] ?; simpl in *; lia.
Qed.

Lemma malloc_from_class m ptr m' :
  malloc_from m = (Some ptr, m') →
  ∃ s p p', (s, p) ∈ m ∧ pool_malloc p = (Some ptr, p').
Proof.
  revert m'. induction m as [|[s p] m IH]; intros m'; simpl; [done|].
  destruct (pool_malloc p) as [[q|] p'] eqn:Hp.
  - intros [= <- <-]. exists s, p, p'. split; [left|done].
  - destruct (malloc_from m) as [r m''] eqn:Hm. intros [= -> <-].
    destruct (IH _ eq_refl) as (s0&p0&p0'&?&?). exists s0, p0, p0'. split; [by right|done].
Qed.

Lemma get_iterator_small size m before from :
  get_iterator size m = (before, from) → Forall (λ sp, sp.1 < size) before.
Proof.
  revert before from. induction m as [|[s p] m IH]; intros b f; simpl; [by intros [= <- <-]|].
  destruct (Z.ltb_spec s size); [|by intros [= <- <-]].
  destruct (get_iterator size m) as [b' f']. intros [= <- <-]. constructor; [done|]. by eapply IH.
Qed.
Lemma malloc_from_none m m' :
  malloc_from m = (None, m') → Forall (λ sp, (pool_malloc sp.2).1 = None) m.
Proof.
  revert m'. induction m as [|[s p] m IH]; intros m'; simpl; [constructor|].
  destruct (pool_malloc p) as [[q|] p'] eqn:Hp; [done|].
  destruct (malloc_from m) as [r m''] eqn:Hm. intros [= -> <-]. constructor; [simpl; by rewrite Hp|eauto].
Qed.

(** An initialised pool: its sixteen classes. Nothing changes them. *)
Definition initialised (st : memory_pool) : Prop := (pool_map st).*1 = init_sizes.
Lemma initialised_sorted st : initialised st → sorted_classes (pool_map st).
Proof. unfold initialised, sorted_classes. intros ->. vm_compute. repeat constructor. Qed.
Lemma initialised_class st s p : initialised st → (s, p) ∈ pool_map st → 4 ≤ s ≤ 131072.
Proof.
  unfold initialised. intros Hi Hin. apply (list_elem_of_fmap_2 fst) in Hin. rewrite Hi in Hin.
  simpl in Hin. assert (Forall (λ s, 4 ≤ s ≤ 131072) init_sizes) as Hall
    by by apply (bool_decide_eq_true_1 _).
  rewrite Forall_forall in Hall. by apply Hall.
Qed.
Lemma init_initialised (new_pool : Z → P) st :
  mp_is_init st = false → initialised (init new_pool st).
Proof.
  intros Hi. unfold initialised, init. rewrite Hi. cbn [pool_map].
  rewrite <-list_fmap_compose. apply list_fmap_id.
Qed.
Lemma malloc_from_sizes m r m' : malloc_from m = (r, m') → m'.*1 = m.*1.
Proof.
  revert r m'. induction m as [|[s p] m IH]; intros r m'; simpl; [by intros [= <- <-]|].
  destruct (pool_malloc p) as [[q|] p']; [by intros [= <- <-]|].
  destruct (malloc_from m) as [r' m''] eqn:Hm. intros [= <- <-]. csimpl. f_equal. by eapply IH.
Qed.
Lemma malloc_initialised n raw st r st' :
  malloc_memory n raw st = (r, st') → initialised st → initialised st'.
Proof.
  unfold malloc_memory, initialised.
  destruct (get_iterator _ _) as [before from] eqn:Hit. apply get_iterator_app in Hit.
  destruct from as [|c from]; [by intros [= <- <-]|].
  destruct (malloc_from _) as [[chunk|] from'] eqn:Hm; apply malloc_from_sizes in Hm;
    intros [= <- <-]; cbn [pool_map]; by rewrite Hit, !fmap_app, Hm.
Qed.
Lemma free_initialised ptr st c st' :
  free_memory ptr st = Def (c, st') → initialised st → initialised st'.
Proof.
  unfold free_memory, initialised. intros (n&_&Hf)%ub_bind_Def. destruct (_ <? _); [|by inv_def].
  destruct (get_iterator _ _) as [before from] eqn:Hit. apply get_iterator_app in Hit.
  assert (∀ r from', free_from ptr from = (r, from') → from'.*1 = from.*1) as Hff.
  { clear Hf Hit. induction from as [|[s p] m IH]; intros r from'; simpl; [by intros [= <- <-]|].
    destruct (pool_is_from p ptr); [by intros [= <- <-]|].
    destruct (free_from ptr m) as [r' m''] eqn:Hm. intros [= <- <-]. csimpl. f_equal. by eapply IH. }
  destruct (free_from ptr from) as [[s|] from'] eqn:Hfr; injection Hf as <- <-; [|done].
  cbn [pool_map]. by rewrite Hit, !fmap_app, (Hff _ _ eq_refl).
Qed.

(** What a request does: a chunk of a class that fits, or the system. *)
Definition from_class (st : memory_pool) (size : Z) (r : alloc_result) (st' : memory_pool) : Prop :=
  ∃ s p p' chunk, (s, p) ∈ pool_map st ∧ size ≤ s ∧ pool_malloc p = (Some chunk, p') ∧
    r = Allocated (chunk + 4) ∧ get_memory_size st' (chunk + 4) = Def size.
Definition from_system (st : memory_pool) (size : Z) (raw : option Z) (r : alloc_result)
    (st' : memory_pool) : Prop :=
  r = default_malloc raw ∧ heads st' = heads st ∧
  ∀ s p, (s, p) ∈ pool_map st → size ≤ s → (pool_malloc p).1 = None.
Lemma malloc_memory_cases n raw st r st' :
  initialised st → malloc_memory n raw st = (r, st') →
  from_class st (get_internal_size n) r st' ∨ from_system st (get_internal_size n) raw r st'.
Proof.
  intros Hi. unfold malloc_memory.
  destruct (get_iterator _ _) as [before from] eqn:Hit.
  pose proof (get_iterator_app _ _ _ _ Hit) as Happ.
  pose proof (get_iterator_large _ _ _ _ (initialised_sorted st Hi) Hit) as Hlarge.
  pose proof (get_iterator_small _ _ _ _ Hit) as Hsmall.
  assert (∀ r st', malloc_from from = (None, r) → heads st' = heads st →
    from_system st (get_internal_size n) raw (default_malloc raw) st') as Hsys.
  { intros m' st1 Hnone%malloc_from_none Hh. split_and!; [done..|]. intros s p Hin Hs.
    rewrite Happ in Hin. apply elem_of_app in Hin as [Hin|Hin].
    - rewrite Forall_forall in Hsmall. specialize (Hsmall _ Hin). simpl in Hsmall. lia.
    - rewrite Forall_forall in Hnone. apply (Hnone _ Hin). }
  destruct from as [|c from]; [intros [= <- <-]; right; by eapply Hsys|].
  destruct (malloc_from _) as [[chunk|] from'] eqn:Hm; intros [= <- <-];
    [left|right; by eapply Hsys].
  destruct (malloc_from_class _ _ _ Hm) as (s&p&p'&Hin&Hp).
  rewrite Forall_forall in Hlarge. specialize (Hlarge _ Hin). simpl in Hlarge.
  assert ((s, p) ∈ pool_map st) as Hin' by (rewrite Happ; apply elem_of_app; by right).
  pose proof (initialised_class _ _ _ Hi Hin').
  exists s, p, p', chunk. split_and!; [done|done|done|done|].
  unfold get_memory_size, get_internal_ptr, memory_head_size. simpl.
  replace (chunk + 4 - 4) with chunk by lia. rewrite lookup_insert_eq. simpl.
  assert (0 ≤ get_internal_size n) by (apply Z.mod_pos_bound; lia).
  rewrite s32_small by lia. f_equal. unfold u64. apply Z.mod_small. lia.
Qed.

(** ** Properties *)


(** Defect: [free_memory] gives the class a pointer it never handed out. Freeing a
    pooled block passes the caller's pointer, four bytes past the chunk that
    [boost::pool::malloc] returned, where [boost::pool::free] requires exactly the
    chunk; [get_internal_ptr] is not applied. *)
Theorem free_memory_wrong_chunk n raw st chunk st' call st'' :
  initialised st → raw ≠ Some (chunk + 4) →
  malloc_memory n raw st = (Allocated (chunk + 4), st') →
  free_memory (chunk + 4) st' = Def (call, st'') →
  ∀ s q, call = PoolFree s q →
    (∃ p p', pool_malloc p = (Some chunk, p')) ∧ q = chunk + 4 ∧ q ≠ chunk.
Proof.
  intros Hi Hraw Hm Hf s q ->.
  destruct (malloc_memory_cases _ _ _ _ _ Hi Hm) as [(s'&p&p'&c&_&_&Hp&[= Heq]&_)|(Hr&_)];
    [|destruct raw; simpl in Hr; congruence].
  replace c with chunk in * by lia.
  split; [eauto|]. unfold free_memory in Hf. inv_def.
  destruct (_ <? _); [|by inv_def].
  destruct (get_iterator _ _) as [before from].
  destruct (free_from _ _) as [[] ?]; inv_def; [lia|done].
Qed.

(** Defect: An allocation beyond the largest class has no head, so freeing it
    reads four bytes in front of the block, memory the allocator does not own. *)
Theorem free_large_block_undefined n raw st :
  Forall (λ sp, sp.1 < n + 4) (pool_map st) → 0 ≤ n → n + 4 < 2 ^ 64 →
  heads st !! (raw - 4) = None →
  malloc_memory n (Some raw) st = (Allocated raw, st) ∧
  free_memory raw st = Undef.
Proof.
  intros Hall Hn0 Hn Hh. split.
  - unfold malloc_memory.
    assert (get_iterator (get_internal_size n) (pool_map st) = (pool_map st, [])) as ->;
      [|done].
    unfold get_internal_size, u64, memory_head_size. rewrite Z.mod_small by lia.
    induction (pool_map st) as [|[s p] m IH]; [done|]. inversion Hall; subst.
    simpl in *. rewrite (IH ltac:(done)). zcases.
  - unfold free_memory, get_memory_size, get_internal_ptr, memory_head_size.
    by rewrite Hh.
Qed.

(** Defect: A request whose size with the head does not fit [size_t] is served
    with a chunk of the smallest class instead of being refused. *)
Theorem huge_request_gets_small_block n raw st s p chunk p' m :
  2 ^ 64 - 4 ≤ n < 2 ^ 64 → pool_map st = (s, p) :: m → 4 ≤ s →
  pool_malloc p = (Some chunk, p') →
  (malloc_memory n raw st).1 = Allocated (chunk + 4).
Proof.
  intros Hn Hm Hs Hp. unfold malloc_memory.
  assert (get_internal_size n = n + 4 - 2 ^ 64) as ->.
  { symmetry. apply (Z.mod_unique _ _ 1); unfold memory_head_size; lia. }
  rewrite Hm. simpl. rewrite (proj2 (Z.ltb_ge _ _)) by lia. simpl. by rewrite Hp.
Qed.
End memory_pool.

(** ** A concrete allocator: a bump pointer that owns an address range *)
Module BumpPool.
Record t := Bump { base : Z; next : Z; free_list : list Z }.
Definition malloc (p : t) : option Z * t :=
  match free_list p with
  | a :: l => (Some a, Bump (base p) (next p) l)
  | [] => (Some (next p), Bump (base p) (next p + 4096) [])
  end.
Definition free (p : t) (a : Z) : t := Bump (base p) (next p) (a :: free_list p).
Definition is_from (p : t) (a : Z) : bool := (base p <=? a) && (a <? next p).
Definition new_pool (size : Z) : t := Bump (size * 1000000) (size * 1000000) [].
Definition initial : memory_pool := init new_pool empty_pool.
End BumpPool.


(** Allocate, free, allocate again: the second block starts four bytes later
    and no longer fits its chunk. *)
Lemma free_memory_wrong_chunk_witness :
  ∃ st' st'',
    malloc_memory BumpPool.malloc 100 None BumpPool.initial = (Allocated 128000004, st') ∧
    free_memory BumpPool.free BumpPool.is_from 128000004 st' =
      Def (PoolFree 128 128000004, st'') ∧ 128000004 ≠ 128000000 ∧
    fst (malloc_memory BumpPool.malloc 100 None st'') = Allocated 128000008.
Proof.
  set (r := malloc_memory BumpPool.malloc 100 None BumpPool.initial).
  set (f := free_memory BumpPool.free BumpPool.is_from 128000004 (snd r)).
  exists (snd r), (match f with Def (_, s) => s | Undef => snd r end).
  split; [by vm_compute|]. split; [by vm_compute|]. split; [|by vm_compute].
  refine (proj2 (proj2 (free_memory_wrong_chunk BumpPool.malloc BumpPool.free
    BumpPool.is_from 100 None BumpPool.initial 128000000 (snd r) (PoolFree 128 128000004)
    (match f with Def (_, s) => s | Undef => snd r end) _ _ _ _ 128 128000004 eq_refl))).
  - by apply (init_initialised BumpPool.new_pool empty_pool).
  - by vm_compute.
  - by vm_compute.
  - by vm_compute.
Defined.

Lemma free_large_block_undefined_witness :
  free_memory BumpPool.free BumpPool.is_from 5000 BumpPool.initial = Undef.
Proof.
  refine (proj2 (free_large_block_undefined BumpPool.malloc BumpPool.free BumpPool.is_from
    200000 5000 BumpPool.initial _ _ _ _)); [|lia|lia|by vm_compute].
  by apply (bool_decide_eq_true_1 _).
Defined.
