(* ===== verification/MemoryStream.v ===== *)
(** * The byte stream ([network/base/memory_stream.hpp])

    A growable buffer with a read and a write position.  The buffer is a list
    of bytes, possibly null; every [memcpy] is a bounds-checked copy whose
    failure is [Undef], and the [int] arithmetic on sizes overflows into
    [Undef].  The stream allocates through the interface [Allocator]. *)
From stdpp Require Import base option list numbers list_numbers.
From S2P Require Import Prelude.
Local Open Scope Z_scope.

(** ** What the stream needs of the allocator: a fresh block of the requested
    size, of unspecified contents. *)
Class Allocator := {
  fresh_bytes : Z → list Z;
  fresh_bytes_length n : 0 ≤ n → Z.of_nat (length (fresh_bytes n)) = n;
  fresh_bytes_ok n : bytes_ok (fresh_bytes n)
}.

(** ** Definitions *)
Record memory_stream := MemoryStream {
  ms_data : option (list Z);
  ms_data_size : Z;
  ms_alloc_type : Z; (* 0: a buffer the stream does not own *)
  ms_wr_pos : Z;
  ms_rd_pos : Z
}.
#[export] Instance memory_stream_eq_dec : EqDecision memory_stream.
Proof. solve_decision. Defined.

Definition set_data (st : memory_stream) (d : option (list Z)) (size : Z) :=
  MemoryStream d size (ms_alloc_type st) (ms_wr_pos st) (ms_rd_pos st).
Definition set_wr (st : memory_stream) (wr : Z) :=
  MemoryStream (ms_data st) (ms_data_size st) (ms_alloc_type st) wr (ms_rd_pos st).
Definition set_rd (st : memory_stream) (rd : Z) :=
  MemoryStream (ms_data st) (ms_data_size st) (ms_alloc_type st) (ms_wr_pos st) rd.
Definition set_alloc_type (st : memory_stream) (alloc_type : Z) :=
  MemoryStream (ms_data st) (ms_data_size st) alloc_type (ms_wr_pos st) (ms_rd_pos st).

Section stream.
Context `{Allocator}.

(** [MALLOC_MP(char, n)]; a negative [n] is a huge [size_t], which throws. *)
Definition malloc_mp (n : Z) : ub (list Z) :=
  if 0 <=? n then Def (fresh_bytes n) else Undef.

(** [FREE_MP(data_)] reads the four-byte head in front of the block, which a
    null pointer does not have; releasing a buffer the stream does not own
    leaves its owner with a dangling pointer. *)
Definition free_mp (st : memory_stream) : ub unit :=
  match ms_data st with
  | None => Undef
  | Some _ => assert_ub (negb (ms_alloc_type st =? 0))
  end.

Definition default_data_size : Z := 1024.

Definition memory_stream_sized (data_size : Z) : memory_stream :=
  {| ms_data := if 0 <? data_size then Some (fresh_bytes data_size) else None;
     ms_data_size := data_size; ms_alloc_type := 1;
     ms_wr_pos := 0; ms_rd_pos := 0 |}.
Definition memory_stream_default : memory_stream :=
  memory_stream_sized default_data_size.

Definition memory_stream_wrap (data : list Z) (len alloc_type : Z)
    : ub memory_stream :=
  if alloc_type =? 0 then
    Def {| ms_data := Some data; ms_data_size := len; ms_alloc_type := 0;
           ms_wr_pos := len; ms_rd_pos := 0 |}
  else
    size ← i32 ((len + 8) * 2);
    p ← malloc_mp size;
    src ← read_at data 0 len;
    p' ← write_at p 0 src;
    Def {| ms_data := Some p'; ms_data_size := size; ms_alloc_type := alloc_type;
           ms_wr_pos := len; ms_rd_pos := 0 |}.

(** Move construction: the new stream and what is left of the source. *)
Definition memory_stream_move (other : memory_stream) : memory_stream * memory_stream :=
  (other, MemoryStream None 0 0 0 0).

(** Whether the destructor releases the buffer. *)
Definition destructor_frees (st : memory_stream) : bool :=
  negb (ms_alloc_type st =? 0) && bool_decide (is_Some (ms_data st)).

(** Move assignment: its parameter is a const rvalue, so the source keeps its
    buffer, its ownership and its positions. *)
Definition memory_stream_assign (st other : memory_stream)
    : memory_stream * memory_stream := (other, other).

Definition reset (st : memory_stream) : memory_stream := set_rd (set_wr st 0) 0.
Definition length_ (st : memory_stream) : Z :=
  if ms_rd_pos st <? ms_wr_pos st then ms_wr_pos st - ms_rd_pos st else 0.
Definition space (st : memory_stream) : Z := ms_data_size st - ms_wr_pos st.

Definition crunch (st : memory_stream) : ub memory_stream :=
  if ms_rd_pos st =? 0 then Def st
  else if ms_wr_pos st <=? ms_rd_pos st then Def (reset st)
  else
    let len := length_ st in
    buf ← deref (ms_data st);
    src ← read_at buf (ms_rd_pos st) len;
    buf' ← write_at buf 0 src;
    Def (set_wr (set_rd (set_data st (Some buf') (ms_data_size st)) 0) len).

Definition check_space (st : memory_stream) (len : Z) : ub memory_stream :=
  need ← i32 (ms_wr_pos st + len);
  if need <=? ms_data_size st then Def st
  else
    data_size ← i32 (need * 2);
    p ← malloc_mp data_size;
    p' ← (if ms_wr_pos st =? 0 then Def p
          else buf ← deref (ms_data st);
               src ← read_at buf 0 (ms_wr_pos st);
               write_at p 0 src);
    _ ← free_mp st;
    Def (set_data st (Some p') data_size).

Definition reallocate (st : memory_stream) (len : Z) : memory_stream :=
  if 0 <? len then
    {| ms_data := Some (fresh_bytes len); ms_data_size := len;
       ms_alloc_type := 1; ms_wr_pos := 0; ms_rd_pos := 0 |}
  else st.

(** The pointer accessors return an offset into the buffer, or null. *)
Definition rd_ptr (st : memory_stream) : option Z :=
  if ms_rd_pos st <=? ms_wr_pos st then Some (ms_rd_pos st) else None.
Definition rd_ptr_advance (st : memory_stream) (offset : Z) : option Z * memory_stream :=
  let offset := offset + ms_rd_pos st in
  if (offset <? 0) || (ms_wr_pos st <? offset) then (None, st)
  else (Some offset, set_rd st offset).
Definition rd_ptr_set (st : memory_stream) (ptr : Z) : memory_stream := set_rd st ptr.
Definition wr_ptr (st : memory_stream) : option Z :=
  if ms_wr_pos st <? ms_data_size st then Some (ms_wr_pos st) else None.
Definition wr_ptr_advance (st : memory_stream) (offset : Z) : option Z * memory_stream :=
  let offset := offset + ms_wr_pos st in
  if (offset <? 0) || (ms_data_size st <? offset) then (None, st)
  else (Some offset, set_wr st offset).

(** Copy bytes to the write position and advance it. *)
Definition put (st : memory_stream) (bs : list Z) : ub memory_stream :=
  buf ← deref (ms_data st);
  buf' ← write_at buf (ms_wr_pos st) bs;
  Def (set_wr (set_data st (Some buf') (ms_data_size st))
              (ms_wr_pos st + Z.of_nat (length bs))).

(** [write_value<T>] for a [T] of [n] bytes, [read_value<T>] likewise. *)
Definition write_value (n : Z) (st : memory_stream) (t : Z) : ub memory_stream :=
  st ← check_space st n;
  put st (le_bytes n t).

Definition read_value (n : Z) (st : memory_stream) : ub (option (list Z) * memory_stream) :=
  if ms_wr_pos st <? s32 (ms_rd_pos st + n) then Def (None, st)
  else
    buf ← deref (ms_data st);
    bs ← read_at buf (ms_rd_pos st) n;
    Def (Some bs, set_rd st (ms_rd_pos st + n)).

(** The named wrappers, one per C++ type; [float] and [double] are their bit
    patterns. *)
Inductive scalar :=
| S_char | S_uchar | S_short | S_ushort | S_int | S_uint
| S_int64 | S_uint64 | S_float | S_double.
Definition scalar_size (t : scalar) : Z :=
  match t with
  | S_char | S_uchar => 1
  | S_short | S_ushort => 2
  | S_int | S_uint | S_float => 4
  | S_int64 | S_uint64 | S_double => 8
  end.
Definition scalar_signed (t : scalar) : bool :=
  match t with S_char | S_short | S_int | S_int64 => true | _ => false end.
Definition scalar_of_bytes (t : scalar) (bs : list Z) : Z :=
  if scalar_signed t then to_signed (scalar_size t * 8) (le_val bs) else le_val bs.

Definition write_scalar (t : scalar) (st : memory_stream) (v : Z) : ub memory_stream :=
  write_value (scalar_size t) st v.
Definition write_bool (st : memory_stream) (v : bool) : ub memory_stream :=
  let uval := if v then 1 else 0 in write_scalar S_uchar st uval.

(** The reads return the status and store through a reference: [val] is the
    variable's value before the call. *)
Definition read_scalar (t : scalar) (st : memory_stream) (val : Z)
    : ub (bool * Z * memory_stream) :=
  '(r, st') ← read_value (scalar_size t) st;
  match r with
  | None => Def (false, val, st')
  | Some bs => Def (true, scalar_of_bytes t bs, st')
  end.
Definition read_bool (st : memory_stream) : ub (bool * bool * memory_stream) :=
  '(ret, uval, st') ← read_scalar S_uchar st 0;
  Def (ret, uval =? 1, st').

(** A length prefix is the two low bytes of an [int]. *)
Definition length_size : Z := 2.

Definition write_string (st : memory_stream) (str : list Z) : ub memory_stream :=
  len ← i32 (Z.of_nat (length str));
  total ← i32 (len + length_size);
  st ← check_space st total;
  st ← put st (le_bytes length_size len);
  put st str.

(** The bytes of a C string: up to the first zero, which must be there. *)
Fixpoint c_string (bs : list Z) : ub (list Z) :=
  match bs with
  | [] => Undef
  | b :: bs' => if b =? 0 then Def [] else s ← c_string bs'; Def (b :: s)
  end.

Definition read_string (st : memory_stream) (str : list Z)
    : ub (bool * list Z * memory_stream) :=
  if ms_wr_pos st <=? s32 (ms_rd_pos st + length_size) then Def (false, str, st)
  else
    buf ← deref (ms_data st);
    bs ← read_at buf (ms_rd_pos st) length_size;
    let len := s16 (le_val bs) in
    let st := set_rd st (ms_rd_pos st + length_size) in
    if len =? 0 then Def (true, [], st)
    else
      c ← read_at buf (ms_rd_pos st + len) 1;
      buf0 ← write_at buf (ms_rd_pos st + len) [0];
      str' ← c_string (drop (Z.to_nat (ms_rd_pos st)) buf0);
      buf' ← write_at buf0 (ms_rd_pos st + len) c;
      Def (true, str',
           set_rd (set_data st (Some buf') (ms_data_size st)) (ms_rd_pos st + len)).

(** [wchar_t] has four bytes on the Linux target. *)
Definition wchar_size : Z := 4.
Definition wchars_bytes (ws : list Z) : list Z := ws ≫= le_bytes wchar_size.

Definition write_wstring (st : memory_stream) (wstr : list Z) : ub memory_stream :=
  len ← i32 (Z.of_nat (length wstr));
  st ← check_space st (s32 (len * wchar_size + length_size)); (* size_t to int *)
  st ← put st (le_bytes length_size len);
  put st (wchars_bytes wstr).

(** The wide characters up to the first zero one. *)
Fixpoint c_wstring (fuel : nat) (bs : list Z) : ub (list Z) :=
  match fuel with
  | O => Undef
  | S fuel =>
      w ← read_at bs 0 wchar_size;
      if le_val w =? 0 then Def []
      else s ← c_wstring fuel (drop (Z.to_nat wchar_size) bs); Def (le_val w :: s)
  end.

Definition read_wstring (st : memory_stream) (wstr : list Z)
    : ub (bool * list Z * memory_stream) :=
  if ms_wr_pos st <=? s32 (ms_rd_pos st + length_size) then Def (false, wstr, st)
  else
    buf ← deref (ms_data st);
    bs ← read_at buf (ms_rd_pos st) length_size;
    let len := s16 (le_val bs) in
    let st := set_rd st (ms_rd_pos st + length_size) in
    if len =? 0 then Def (true, [], st)
    else
      let at_end := ms_rd_pos st + len * wchar_size in
      c ← read_at buf at_end wchar_size;
      buf0 ← write_at buf at_end (le_bytes wchar_size 0);
      wstr' ← c_wstring (length buf0) (drop (Z.to_nat (ms_rd_pos st)) buf0);
      buf' ← write_at buf0 at_end c;
      Def (true, wstr',
           set_rd (set_data st (Some buf') (ms_data_size st)) at_end).

Definition write_object (st : memory_stream) (obj : list Z) : ub memory_stream :=
  let object_size := Z.of_nat (length obj) in
  total ← i32 (object_size + length_size);
  st ← check_space st total;
  st ← put st (le_bytes length_size object_size);
  put st obj.

Definition write_binary (st : memory_stream) (bs : list Z) : ub memory_stream :=
  len ← i32 (Z.of_nat (length bs));
  st ← check_space st len;
  put st bs.

(** The returned length, the bytes copied to the caller's object, and the
    stream. *)
Definition read_object (st : memory_stream) (obj_size : Z)
    : ub (Z * list Z * memory_stream) :=
  buf ← deref (ms_data st);
  bs ← read_at buf (ms_rd_pos st) length_size;
  let len := s16 (le_val bs) in
  let rd := ms_rd_pos st + length_size in
  if obj_size <? len then Def (len, [], set_rd st (rd - (length_size + 1)))
  else
    obj ← read_at buf rd len;
    Def (len, obj, set_rd st (rd + len)).

Definition read_binary (st : memory_stream) (rd_sz : Z)
    : ub (bool * list Z * memory_stream) :=
  buf ← deref (ms_data st);
  bs ← read_at buf (ms_rd_pos st) rd_sz;
  Def (true, bs, set_rd st (ms_rd_pos st + rd_sz)).

(** ** The abstract stream: a queue of bytes

    [stream_repr st q]: the unread bytes of [st] are [q]; what was read
    before them is still in the buffer, and [tail] is free space. *)
Definition max_stream : Z := 2 ^ 31 - 8.
Definition stream_repr (st : memory_stream) (q : list Z) : Prop :=
  ∃ pre tail, ms_data st = Some (pre ++ q ++ tail) ∧
    ms_rd_pos st = Z.of_nat (length pre) ∧
    ms_wr_pos st = Z.of_nat (length pre + length q) ∧
    ms_data_size st = Z.of_nat (length pre + length q + length tail) ∧
    ms_data_size st < max_stream ∧ bytes_ok q.
Definition owned (st : memory_stream) : Prop := ms_alloc_type st ≠ 0.

End stream.

(** The operations of the queue. *)
Definition queue_push (q bs : list Z) : list Z := q ++ bs.
Definition queue_pop (n : Z) (q : list Z) : option (list Z) * list Z :=
  if n <=? Z.of_nat (length q)
  then (Some (take (Z.to_nat n) q), drop (Z.to_nat n) q) else (None, q).

(** ** Lemmas *)

(** Positions in a three-part buffer. *)
Lemma write_at_mid (l m r bs : list Z) :
  (length bs ≤ length r)%nat →
  write_at (l ++ m ++ r) (Z.of_nat (length l + length m)) bs =
  Def (l ++ (m ++ bs) ++ drop (length bs) r).
Proof.
  intros Hle. rewrite write_at_in by (rewrite ?length_app; lia).
  rewrite Nat2Z.id, !(app_assoc l m), <-length_app, take_app_length.
  rewrite drop_app_ge by lia.
  replace (length (l ++ m) + length bs - length (l ++ m))%nat with (length bs) by lia.
  by rewrite !app_assoc.
Qed.

Lemma read_at_mid (l m r : list Z) :
  read_at (l ++ m ++ r) (Z.of_nat (length l)) (Z.of_nat (length m)) = Def m.
Proof.
  rewrite read_at_in by (rewrite ?length_app; lia).
  by rewrite !Nat2Z.id, drop_app_length, take_app_length.
Qed.

Lemma read_at_prefix (m r : list Z) : read_at (m ++ r) 0 (Z.of_nat (length m)) = Def m.
Proof. exact (read_at_mid [] m r). Qed.

Section stream_lemmas.
Context `{Allocator}.
Implicit Types st : memory_stream.

Lemma check_space_repr st q len :
  stream_repr st q → owned st → 0 ≤ len → (ms_wr_pos st + len) * 2 < max_stream →
  ∃ st', check_space st len = Def st' ∧ stream_repr st' q ∧ owned st' ∧
    ms_rd_pos st' = ms_rd_pos st ∧ ms_wr_pos st' = ms_wr_pos st ∧
    ms_wr_pos st' + len ≤ ms_data_size st'.
Proof.
  intros (pre&tail&Hd&Hrd&Hwr&Hsz&Hmax&Hq) Hown Hlen Hbig.
  unfold check_space, max_stream in *. rewrite i32_in by lia. simpl.
  zcase; [by exists st; repeat split; try done; exists pre, tail|].
  rewrite i32_in by lia. simpl. unfold malloc_mp. zcase; [|lia]. simpl.
  set (n := (ms_wr_pos st + len) * 2) in *.
  pose proof (fresh_bytes_length n ltac:(lia)) as Hfresh.
  unfold free_mp. rewrite Hd.
  assert (∃ tail', (if ms_wr_pos st =? 0 then Def (fresh_bytes n)
    else buf ← deref (Some (pre ++ q ++ tail)); src ← read_at buf 0 (ms_wr_pos st);
         write_at (fresh_bytes n) 0 src) = Def (pre ++ q ++ tail') ∧
    Z.of_nat (length pre + length q + length tail') = n) as (tail'&->&Htail).
  { zcase.
    - assert (pre = [] ∧ q = []) as [-> ->]
        by (split; apply length_zero_iff_nil; lia).
      exists (fresh_bytes n). simpl. split; [done|lia].
    - exists (drop (length (pre ++ q)) (fresh_bytes n)).
      rewrite Hwr, app_assoc, <-length_app. simpl.
      rewrite read_at_prefix. simpl.
      rewrite write_at_in by (rewrite ?length_app in *; lia). simpl.
      rewrite <-app_assoc. split; [done|].
      rewrite length_drop, !length_app in *. lia. }
  simpl. destruct (Z.eqb_spec (ms_alloc_type st) 0); [done|]. simpl.
  eexists. split; [done|]. split; [|simpl; split_and!; try done; lia].
  exists pre, tail'. simpl. unfold max_stream. split_and!; try done; lia.
Qed.

Lemma put_repr st q bs :
  stream_repr st q → bytes_ok bs →
  ms_wr_pos st + Z.of_nat (length bs) ≤ ms_data_size st →
  ∃ st', put st bs = Def st' ∧ stream_repr st' (queue_push q bs) ∧
    ms_alloc_type st' = ms_alloc_type st ∧ ms_rd_pos st' = ms_rd_pos st ∧
    ms_data_size st' = ms_data_size st ∧
    ms_wr_pos st' = ms_wr_pos st + Z.of_nat (length bs).
Proof.
  intros (pre&tail&Hd&Hrd&Hwr&Hsz&Hmax&Hq) Hbs Hfit.
  unfold put. rewrite Hd. simpl. rewrite Hwr, Nat2Z.inj_add, <-Nat2Z.inj_add.
  rewrite write_at_mid by lia. simpl.
  eexists. split; [done|]. split; [|simpl; split_and!; try done; lia].
  exists pre, (drop (length bs) tail). unfold queue_push. simpl.
  rewrite length_app, length_drop. split_and!; try done; try lia.
  by apply Forall_app.
Qed.

Lemma read_value_repr n st q :
  0 < n ≤ 8 → stream_repr st q →
  ∃ st', read_value n st = Def ((queue_pop n q).1, st') ∧
    stream_repr st' (queue_pop n q).2 ∧
    ms_alloc_type st' = ms_alloc_type st ∧ ms_wr_pos st' = ms_wr_pos st ∧
    ms_data_size st' = ms_data_size st.
Proof.
  intros Hn (pre&tail&Hd&Hrd&Hwr&Hsz&Hmax&Hq). unfold max_stream in *.
  unfold read_value, queue_pop.
  assert (s32 (ms_rd_pos st + n) = ms_rd_pos st + n) as ->.
  { unfold s32. rewrite <-(to_signed_small 32 (ms_rd_pos st + n)) at 2 by lia.
    unfold to_signed. by rewrite Z.mod_mod by lia. }
  destruct (Z.ltb_spec (ms_wr_pos st) (ms_rd_pos st + n)).
  - zcase; [lia|]. exists st. simpl. split_and!; try done. by exists pre, tail.
  - zcase; [|lia]. rewrite Hd. simpl.
    set (k := Z.to_nat n) in *.
    assert (length (take k q) = k) as Hk by (rewrite length_take; lia).
    assert (read_at (pre ++ q ++ tail) (ms_rd_pos st) n = Def (take k q)) as ->.
    { rewrite Hrd, <-(take_drop k q) at 1. rewrite <-(app_assoc (take k q)).
      rewrite <-(read_at_mid pre (take k q) (drop k q ++ tail)). f_equal. lia. }
    simpl. eexists. split; [done|].
    split; [|done]. exists (pre ++ take k q), tail. simpl.
    rewrite <-app_assoc, (app_assoc (take k q)), take_drop, length_app, length_drop.
    unfold max_stream. split_and!; try done; try lia.
    apply Forall_drop. done.
Qed.

Lemma crunch_repr st q :
  stream_repr st q →
  ∃ st', crunch st = Def st' ∧ stream_repr st' q ∧ ms_rd_pos st' = 0 ∧
    ms_alloc_type st' = ms_alloc_type st ∧ ms_data_size st' = ms_data_size st.
Proof.
  intros (pre&tail&Hd&Hrd&Hwr&Hsz&Hmax&Hq). unfold crunch.
  destruct (Z.eqb_spec (ms_rd_pos st) 0).
  { exists st. split; [done|]. split; [by exists pre, tail|done]. }
  zcase.
  - assert (q = []) as -> by (apply length_zero_iff_nil; lia).
    eexists. split_and!; [done| |done..]. exists [], (pre ++ tail).
    unfold reset. simpl. rewrite Hd, length_app. split_and!; try done; lia.
  - unfold length_. zcase; [|lia].
    replace (ms_wr_pos st - ms_rd_pos st) with (Z.of_nat (length q)) by lia.
    rewrite Hd. simpl. rewrite Hrd, read_at_mid. simpl.
    rewrite write_at_in by (rewrite ?length_app; lia). simpl.
    eexists. split_and!; [done| |done..].
    exists [], (drop (length q) (pre ++ q ++ tail)). simpl.
    rewrite length_drop, !length_app. split_and!; try done; lia.
Qed.
End stream_lemmas.

(** *** Strings *)
Lemma c_string_app s r : 0 ∉ s → c_string (s ++ 0 :: r) = Def s.
Proof.
  induction s as [|b s IH]; simpl; [done|]. intros [? ?]%not_elem_of_cons.
  destruct (Z.eqb_spec b 0); [done|]. by rewrite IH.
Qed.

Lemma read_at_one (l : list Z) x r :
  read_at (l ++ x :: r) (Z.of_nat (length l)) 1 = Def [x].
Proof. exact (read_at_mid l [x] r). Qed.

Lemma write_at_one (l : list Z) x y r :
  write_at (l ++ x :: r) (Z.of_nat (length l)) [y] = Def (l ++ y :: r).
Proof.
  rewrite write_at_in by (rewrite ?length_app; simpl; lia).
  rewrite Nat2Z.id, take_app_length, drop_app_ge by (simpl; lia).
  by replace (length l + length [y] - length l)%nat with 1%nat by (simpl; lia).
Qed.

(** The two-byte length prefix of a string that a [short] can count. *)
Lemma length_prefix_val n : 0 ≤ n < 2 ^ 15 → s16 (le_val (le_bytes length_size n)) = n.
Proof.
  intros. unfold length_size. rewrite le_val_bytes by lia. unfold s16.
  apply (to_signed_small 16); simpl; lia.
Qed.


(** A string with at least one character, followed by at least one byte of the
    buffer. *)
Lemma read_string_repr st s rest old :
  stream_repr st (le_bytes length_size (Z.of_nat (length s)) ++ s ++ rest) →
  (0 < length s)%nat → Z.of_nat (length s) < 2 ^ 15 → 0 ∉ s →
  ms_rd_pos st + length_size + Z.of_nat (length s) < ms_data_size st →
  ∃ st', read_string st old = Def (true, s, st') ∧ stream_repr st' rest ∧
    ms_data st' = ms_data st ∧ ms_alloc_type st' = ms_alloc_type st ∧
    ms_wr_pos st' = ms_wr_pos st ∧ ms_data_size st' = ms_data_size st.
Proof.
  intros (pre&tail&Hd&Hrd&Hwr&Hsz&Hmax&Hq) Hpos Hlen Hz Hroom.
  unfold max_stream in *.
  set (lb := le_bytes length_size (Z.of_nat (length s))) in *.
  assert (length lb = 2%nat) as Hlb by done.
  assert (s16 (le_val lb) = Z.of_nat (length s)) as Hval by (apply length_prefix_val; lia).
  clearbody lb.
  rewrite !length_app, Hlb in *. unfold read_string, length_size in *.
  rewrite s32_small by lia. zcase; [lia|].
  rewrite Hd. simpl.
  destruct (rest ++ tail) as [|c after] eqn:Hafter.
  { apply (f_equal length) in Hafter. rewrite length_app in Hafter. simpl in *. lia. }
  assert (pre ++ (lb ++ s ++ rest) ++ tail = (pre ++ lb ++ s) ++ c :: after) as Hbuf.
  { rewrite <-Hafter, <-!app_assoc. done. }
  rewrite Hbuf. rewrite Hrd.
  pose proof (read_at_mid pre lb (s ++ c :: after)) as Hread.
  rewrite Hlb in Hread. change (Z.of_nat 2) with 2 in Hread.
  assert (Z.of_nat (length pre) + 2 + Z.of_nat (length s)
    = Z.of_nat (length (pre ++ lb ++ s))) as Hend by (rewrite !length_app; lia).
  assert (drop (Z.to_nat (Z.of_nat (length pre) + 2)) ((pre ++ lb ++ s) ++ 0 :: after)
    = s ++ 0 :: after) as Hdrop.
  { replace (Z.to_nat (Z.of_nat (length pre) + 2)) with (length (pre ++ lb))
      by (rewrite length_app; lia).
    by rewrite (app_assoc pre), <-app_assoc, drop_app_length. }
  rewrite <-!app_assoc, Hread. simpl. rewrite Hval. zcase; [lia|].
  rewrite !(app_assoc lb), !(app_assoc pre), Hend, <-(app_assoc pre), read_at_one. simpl.
  rewrite write_at_one. simpl. rewrite Hdrop, c_string_app by done. simpl.
  rewrite write_at_one. simpl. rewrite <-Hbuf in *.
  eexists. split_and!; [done| |done|done|done|done].
  exists (pre ++ lb ++ s), tail. simpl. rewrite !length_app.
  unfold max_stream. split_and!; try lia.
  - by rewrite <-!app_assoc.
  - apply Forall_app in Hq as [_ Hq]. by apply Forall_app in Hq as [_ ?].
Qed.

Section stream_strings.
Context `{Allocator}.

Lemma write_string_repr st q s :
  stream_repr st q → owned st → bytes_ok s →
  (ms_wr_pos st + length_size + Z.of_nat (length s)) * 2 < max_stream →
  ∃ st', write_string st s = Def st' ∧ owned st' ∧
    stream_repr st' (queue_push q (le_bytes length_size (Z.of_nat (length s)) ++ s)) ∧
    ms_wr_pos st' = ms_wr_pos st + length_size + Z.of_nat (length s).
Proof.
  intros Hr Hown Hs Hbig. unfold max_stream, length_size in *.
  assert (0 ≤ ms_wr_pos st) by (destruct Hr as (?&?&?&?&?&?); lia).
  unfold write_string, length_size. rewrite i32_in by lia. simpl. rewrite i32_in by lia. simpl.
  destruct (check_space_repr st q (Z.of_nat (length s) + 2)) as (st1&->&Hr1&Hown1&_&Hwr1&Hfit1);
    [done..|lia|unfold max_stream; lia|]. simpl.
  destruct (put_repr st1 q (le_bytes 2 (Z.of_nat (length s))) Hr1) as
    (st2&->&Hr2&Hal2&_&Hsz2&Hwr2); [auto with bytes|rewrite le_bytes_length; lia|]. simpl.
  rewrite le_bytes_length in Hwr2 by lia.
  destruct (put_repr st2 _ s Hr2 Hs) as (st3&->&Hr3&Hal3&_&_&Hwr3); [lia|].
  exists st3. split_and!; [done|unfold owned in *; congruence| |lia].
  unfold queue_push in *. by rewrite <-app_assoc in Hr3.
Qed.

(** *** Scalars *)
Definition scalar_range (t : scalar) (v : Z) : Prop :=
  if scalar_signed t
  then - 2 ^ (scalar_size t * 8 - 1) ≤ v < 2 ^ (scalar_size t * 8 - 1)
  else 0 ≤ v < 2 ^ (scalar_size t * 8).

Lemma scalar_size_range t : 0 < scalar_size t ≤ 8.
Proof. by destruct t. Qed.

Lemma scalar_of_bytes_le t v :
  scalar_range t v → scalar_of_bytes t (le_bytes (scalar_size t) v) = v.
Proof.
  pose proof (scalar_size_range t). unfold scalar_range, scalar_of_bytes.
  rewrite le_val_bytes by lia. destruct (scalar_signed t); intros Hv.
  - apply to_signed_small; lia.
  - by apply Z.mod_small.
Qed.

Lemma write_scalar_repr st q t v :
  stream_repr st q → owned st → (ms_wr_pos st + scalar_size t) * 2 < max_stream →
  ∃ st', write_scalar t st v = Def st' ∧ owned st' ∧
    stream_repr st' (queue_push q (le_bytes (scalar_size t) v)) ∧
    ms_wr_pos st' = ms_wr_pos st + scalar_size t ∧ ms_rd_pos st' = ms_rd_pos st.
Proof.
  intros Hr Hown Hbig. pose proof (scalar_size_range t).
  unfold write_scalar, write_value.
  destruct (check_space_repr st q (scalar_size t)) as (st1&->&Hr1&Hown1&Hrd1&Hwr1&Hfit1);
    [done..|lia|done|]. simpl.
  destruct (put_repr st1 q (le_bytes (scalar_size t) v) Hr1) as
    (st2&->&Hr2&Hal2&Hrd2&Hsz2&Hwr2); [auto with bytes|rewrite le_bytes_length; lia|].
  rewrite le_bytes_length in Hwr2 by lia.
  exists st2. split_and!; [done|unfold owned in *; congruence|done|lia|lia].
Qed.

Lemma read_scalar_repr st q t old :
  stream_repr st q →
  ∃ st', read_scalar t st old =
      Def (match (queue_pop (scalar_size t) q).1 with
           | Some bs => (true, scalar_of_bytes t bs)
           | None => (false, old)
           end, st') ∧
    stream_repr st' (queue_pop (scalar_size t) q).2 ∧
    ms_alloc_type st' = ms_alloc_type st ∧ ms_wr_pos st' = ms_wr_pos st ∧
    ms_data_size st' = ms_data_size st.
Proof.
  intros Hr. unfold read_scalar.
  destruct (read_value_repr (scalar_size t) st q (scalar_size_range t) Hr)
    as (st'&->&Hr'&Hal&Hwr&Hsz).
  exists st'. simpl. by destruct (queue_pop _ q).1.
Qed.

Lemma queue_pop_push n v q :
  0 ≤ n → queue_pop n (le_bytes n v ++ q) = (Some (le_bytes n v), q).
Proof.
  intros Hn. pose proof (le_bytes_length n v Hn) as Hl.
  unfold queue_pop. rewrite length_app. zcase; [|lia].
  replace (Z.to_nat n) with (length (le_bytes n v)) by lia.
  by rewrite take_app_length, drop_app_length.
Qed.

(** A sequence of writes, and of reads into fresh variables. *)
Fixpoint write_all (st : memory_stream) (vs : list (scalar * Z)) : ub memory_stream :=
  match vs with
  | [] => Def st
  | (t, v) :: vs => st ← write_scalar t st v; write_all st vs
  end.
Fixpoint read_all (st : memory_stream) (ts : list scalar)
    : ub (list (bool * Z) * memory_stream) :=
  match ts with
  | [] => Def ([], st)
  | t :: ts =>
      '(r, st) ← read_scalar t st 0;
      '(rs, st) ← read_all st ts;
      Def (r :: rs, st)
  end.
Definition scalars_bytes (vs : list (scalar * Z)) : list Z :=
  vs ≫= λ tv, le_bytes (scalar_size tv.1) tv.2.

Lemma write_all_repr st q vs :
  stream_repr st q → owned st →
  (ms_wr_pos st + 8 * Z.of_nat (length vs)) * 2 < max_stream →
  ∃ st', write_all st vs = Def st' ∧ owned st' ∧
    stream_repr st' (queue_push q (scalars_bytes vs)).
Proof.
  revert st q. induction vs as [|[t v] vs IH]; intros st q Hr Hown Hbig.
  { exists st. split_and!; [done..|]. unfold queue_push. simpl. by rewrite app_nil_r. }
  simpl in *. pose proof (scalar_size_range t).
  destruct (write_scalar_repr st q t v Hr Hown) as (st1&->&Hown1&Hr1&Hwr1&_); [lia|]. simpl.
  destruct (IH st1 _ Hr1 Hown1) as (st2&->&Hown2&Hr2); [lia|].
  exists st2. split_and!; [done..|]. unfold queue_push in *. simpl.
  by rewrite app_assoc.
Qed.

Lemma read_all_repr st vs q :
  stream_repr st (scalars_bytes vs ++ q) → Forall (λ tv, scalar_range tv.1 tv.2) vs →
  ∃ st', read_all st vs.*1 = Def ((λ tv, (true, tv.2)) <$> vs, st') ∧ stream_repr st' q.
Proof.
  revert st. induction vs as [|[t v] vs IH]; intros st Hr Hvs; [by exists st|].
  apply Forall_cons in Hvs as [Hv Hvs]. csimpl in *.
  destruct (read_scalar_repr st _ t 0 Hr) as (st1&Heq&Hr1&_).
  unfold scalars_bytes in *. csimpl in *.
  rewrite <-app_assoc, queue_pop_push in Heq, Hr1 by (pose proof (scalar_size_range t); lia).
  rewrite Heq. csimpl in *.
  destruct (IH st1 Hr1 Hvs) as (st2&->&Hr2). exists st2. csimpl.
  by rewrite scalar_of_bytes_le.
Qed.
End stream_strings.

(** ** A client's program of stream operations *)
Inductive stream_op :=
| Op_write (t : scalar) (v : Z)
| Op_read (t : scalar)
| Op_crunch
| Op_reset.

(** What an operation lets the client observe: a read's status and value. *)
Definition observation : Type := option (bool * Z).

Section stream_programs.
Context `{Allocator}.

Definition stream_step (st : memory_stream) (o : stream_op)
    : ub (observation * memory_stream) :=
  match o with
  | Op_write t v => st' ← write_scalar t st v; Def (None, st')
  | Op_read t => '(r, st') ← read_scalar t st 0; Def (Some r, st')
  | Op_crunch => st' ← crunch st; Def (None, st')
  | Op_reset => Def (None, reset st)
  end.
Fixpoint stream_run (st : memory_stream) (os : list stream_op)
    : ub (list observation * memory_stream) :=
  match os with
  | [] => Def ([], st)
  | o :: os =>
      '(r, st) ← stream_step st o;
      '(rs, st) ← stream_run st os;
      Def (r :: rs, st)
  end.
End stream_programs.

(** The same program on a queue of bytes: [crunch] is invisible. *)
Definition queue_step (q : list Z) (o : stream_op) : observation * list Z :=
  match o with
  | Op_write t v => (None, queue_push q (le_bytes (scalar_size t) v))
  | Op_read t =>
      let '(r, q') := queue_pop (scalar_size t) q in
      (Some (match r with Some bs => (true, scalar_of_bytes t bs) | None => (false, 0) end), q')
  | Op_crunch => (None, q)
  | Op_reset => (None, [])
  end.
Fixpoint queue_run (q : list Z) (os : list stream_op) : list observation * list Z :=
  match os with
  | [] => ([], q)
  | o :: os =>
      let '(r, q) := queue_step q o in
      let '(rs, q) := queue_run q os in (r :: rs, q)
  end.

Section refinement.
Context `{Allocator}.

Lemma read_value_wr n st r st' :
  read_value n st = Def (r, st') → ms_wr_pos st' = ms_wr_pos st.
Proof. unfold read_value. destruct (_ <? _); intros; by inv_def. Qed.

Lemma crunch_wr st st' :
  0 ≤ ms_wr_pos st → 0 ≤ ms_rd_pos st → crunch st = Def st' → ms_wr_pos st' ≤ ms_wr_pos st.
Proof.
  unfold crunch, length_. intros ??. repeat zcase; simpl; intros; inv_def; simpl; lia.
Qed.

Lemma stream_step_repr st q o :
  stream_repr st q → owned st → (ms_wr_pos st + 8) * 2 < max_stream →
  ∃ st', stream_step st o = Def ((queue_step q o).1, st') ∧ owned st' ∧
    stream_repr st' (queue_step q o).2 ∧ ms_wr_pos st' ≤ ms_wr_pos st + 8.
Proof.
  intros Hr Hown Hbig. unfold owned in *.
  assert (0 ≤ ms_rd_pos st ≤ ms_wr_pos st) by (destruct Hr as (?&?&?&?&?&?); lia).
  destruct o as [t v|t| |]; simpl.
  - pose proof (scalar_size_range t).
    destruct (write_scalar_repr st q t v Hr Hown) as (st'&->&?&?&?&?); [lia|].
    eexists. split_and!; [done..|lia].
  - destruct (read_scalar_repr st q t 0 Hr) as (st'&Heq&Hr'&Hal&_).
    exists st'. destruct (queue_pop _ q) as [r q'] eqn:Hpop. simpl in *.
    rewrite Heq. simpl. split_and!; [by destruct r|congruence|done|].
    unfold read_scalar in Heq. apply ub_bind_Def in Heq as ([r' st1]&Hv%read_value_wr&Heq).
    destruct r'; inv_def; lia.
  - destruct (crunch_repr st q Hr) as (st'&Heq&Hr'&_&Hal&_).
    rewrite Heq. exists st'. apply crunch_wr in Heq; [|lia..].
    split_and!; [done|congruence|done|lia].
  - exists (reset st). split_and!; [done..| |simpl; lia].
    destruct Hr as (pre&tail&Hd&Hrd&Hwr&Hsz&Hmax&Hq).
    exists [], (pre ++ q ++ tail). simpl. rewrite !length_app.
    split_and!; try done; try lia. by constructor.
Qed.

Lemma stream_run_repr os : ∀ st q,
  stream_repr st q → owned st →
  (ms_wr_pos st + 8 * Z.of_nat (length os)) * 2 < max_stream →
  ∃ st', stream_run st os = Def ((queue_run q os).1, st') ∧ owned st' ∧
    stream_repr st' (queue_run q os).2.
Proof.
  induction os as [|o os IH]; intros st q Hr Hown Hbig; [by exists st|].
  simpl in *. destruct (stream_step_repr st q o Hr Hown) as (st1&->&Hown1&Hr1&Hwr1); [lia|].
  simpl. destruct (queue_step q o) as [r q1]. simpl in *.
  destruct (IH st1 q1 Hr1 Hown1) as (st2&->&Hown2&Hr2); [lia|]. simpl.
  destruct (queue_run q1 os) as [rs q2]. by exists st2.
Qed.

Lemma memory_stream_sized_repr n :
  0 < n < max_stream →
  stream_repr (memory_stream_sized n) [] ∧ owned (memory_stream_sized n).
Proof.
  intros Hn. split; [|done]. exists [], (fresh_bytes n). simpl.
  pose proof (fresh_bytes_length n ltac:(lia)). zcase; [|lia].
  split_and!; try done; try lia. by constructor.
Qed.
End refinement.

(** ** Properties *)
Section properties.
Context `{Allocator}.


(** What is written is read back. Any sequence of in-range scalars written to an
    empty owning stream and read with the same types gives back the same values, each
    read succeeding, and leaves the stream empty. *)
Theorem write_read_roundtrip st vs :
  stream_repr st [] → owned st →
  (ms_wr_pos st + 8 * Z.of_nat (length vs)) * 2 < max_stream →
  Forall (λ tv, scalar_range tv.1 tv.2) vs →
  ∃ st1 st2, write_all st vs = Def st1 ∧
    read_all st1 vs.*1 = Def ((λ tv, (true, tv.2)) <$> vs, st2) ∧ stream_repr st2 [].
Proof.
  intros Hr Hown Hbig Hvs.
  destruct (write_all_repr st [] vs Hr Hown Hbig) as (st1&?&_&Hr1).
  unfold queue_push in Hr1. rewrite app_nil_l, <-(app_nil_r (scalars_bytes vs)) in Hr1.
  destruct (read_all_repr st1 vs [] Hr1 Hvs) as (st2&?&?). by exists st1, st2.
Qed.

(** A string of 1 to 32767 non-zero bytes survives [write_string] and [read_string]
    when something is written after it. *)
Theorem string_roundtrip st s t v old :
  stream_repr st [] → owned st → bytes_ok s → 0 ∉ s →
  0 < Z.of_nat (length s) < 2 ^ 15 →
  (ms_wr_pos st + 10 + Z.of_nat (length s)) * 2 < max_stream →
  ∃ st1 st2 st3, write_string st s = Def st1 ∧ write_scalar t st1 v = Def st2 ∧
    read_string st2 old = Def (true, s, st3) ∧
    stream_repr st3 (le_bytes (scalar_size t) v).
Proof.
  intros Hr Hown Hs Hz Hlen Hbig. pose proof (scalar_size_range t).
  destruct (write_string_repr st [] s Hr Hown Hs) as (st1&Hw1&Hown1&Hr1&Hwr1);
    [unfold length_size; lia|].
  destruct (write_scalar_repr st1 _ t v Hr1 Hown1) as (st2&Hw2&_&Hr2&Hwr2&_);
    [unfold length_size in *; lia|].
  unfold queue_push in Hr2. rewrite app_nil_l, <-app_assoc in Hr2.
  destruct (read_string_repr st2 s (le_bytes (scalar_size t) v) old Hr2) as (st3&?&?&_);
    [lia..|done| |by exists st1, st2, st3].
  destruct Hr2 as (pre&tail&_&Hrd&Hwr&Hsz&_). unfold length_size in *.
  rewrite !length_app in Hsz. pose proof (le_bytes_length (scalar_size t) v ltac:(lia)).
  pose proof (le_bytes_length 2 (Z.of_nat (length s)) ltac:(lia)). lia.
Qed.

(** Defect: [read_string] on a buffer that ends with the string. [read_string]
    parks a terminator on the byte after the string, so when a stream wraps a message
    body (as [basic_msg::get_stream] does) whose last field is a non-empty string, it
    writes one byte past the buffer; when the last field is an empty string it reports
    failure instead. *)
Theorem read_string_at_end s old :
  0 < Z.of_nat (length s) < 2 ^ 15 →
  (memory_stream_wrap (le_bytes 2 (Z.of_nat (length s)) ++ s)
     (2 + Z.of_nat (length s)) 0 ≫= λ st, read_string st old) = Undef ∧
  ∃ st, memory_stream_wrap (le_bytes 2 0) 2 0 = Def st ∧
    read_string st old = Def (false, old, st).
Proof.
  intros Hlen. split; [|eexists; split; done].
  unfold memory_stream_wrap. cbn [Z.eqb mbind ub_bind]. unfold read_string.
  cbn [ms_wr_pos ms_rd_pos ms_data deref set_rd].
  unfold length_size. rewrite (s32_small (0 + 2)) by done. zcase; [lia|].
  pose proof (read_at_prefix (le_bytes 2 (Z.of_nat (length s))) s) as Hread.
  change (Z.of_nat (length (le_bytes _ _))) with 2 in Hread. cbn [mbind ub_bind]. rewrite Hread. cbn [mbind ub_bind].
  assert (s16 (le_val (le_bytes 2 (Z.of_nat (length s)))) = Z.of_nat (length s)) as ->
    by (apply length_prefix_val; lia).
  zcase; [lia|]. unfold read_at. rewrite length_app. change (length (le_bytes 2 _)) with 2%nat.
  zcases.
Qed.

(** Defect: [read_object] into an object that is too small steps three bytes back
    after a two-byte length, so a failed call loses the stream's position by one byte;
    at the start of a buffer the next read is in front of the buffer. *)
Theorem read_object_rewinds_too_far st n rest obj_size :
  stream_repr st (le_bytes 2 n ++ rest) → 0 ≤ n < 2 ^ 15 → obj_size < n →
  ∃ st', read_object st obj_size = Def (n, [], st') ∧
    ms_rd_pos st' = ms_rd_pos st - 1 ∧
    (ms_rd_pos st = 0 → ∀ t old, read_scalar t st' old = Undef ∨ ms_wr_pos st < scalar_size t - 1).
Proof.
  intros (pre&tail&Hd&Hrd&Hwr&Hsz&Hmax&Hq) Hn Hobj. unfold max_stream in *.
  unfold read_object. rewrite Hd. cbn [deref mbind ub_bind].
  pose proof (read_at_mid pre (le_bytes 2 n) (rest ++ tail)) as Hread.
  change (Z.of_nat (length (le_bytes _ _))) with 2 in Hread.
  rewrite <-app_assoc, Hrd. unfold length_size. rewrite Hread. cbn [mbind ub_bind].
  assert (s16 (le_val (le_bytes 2 n)) = n) as -> by by apply length_prefix_val.
  zcase; [|lia]. eexists. split; [done|]. split; [simpl; lia|].
  intros Hrd0 t old. pose proof (scalar_size_range t).
  unfold read_scalar, read_value. cbn [ms_wr_pos ms_rd_pos ms_data set_rd].
  rewrite s32_small by lia. zcase; [right; lia|left].
  rewrite Hd. cbn [deref mbind ub_bind]. unfold read_at. zcases.
Qed.
End properties.

(** ** Witnesses: an allocator whose blocks are zeroed *)
#[local] Instance zero_allocator : Allocator.
Proof.
  refine {| fresh_bytes n := replicate (Z.to_nat n) 0 |}.
  - intros n ?. rewrite length_replicate. lia.
  - intros n. apply Forall_replicate. cbv beta. lia.
Defined.

Definition small_stream : memory_stream := memory_stream_sized 4.
Lemma small_stream_repr : stream_repr small_stream [] ∧ owned small_stream.
Proof. by apply memory_stream_sized_repr. Defined.


Lemma write_read_roundtrip_witness :
  ∃ st1 st2, write_all small_stream [(S_int, -5); (S_uint64, 2 ^ 63)] = Def st1 ∧
    read_all st1 [S_int; S_uint64] = Def ([(true, -5); (true, 2 ^ 63)], st2).
Proof.
  edestruct (write_read_roundtrip small_stream [(S_int, -5); (S_uint64, 2 ^ 63)])
    as (st1&st2&H1&H2&_).
  - apply small_stream_repr.
  - apply small_stream_repr.
  - by vm_compute.
  - repeat constructor; unfold scalar_range; simpl; lia.
  - exists st1, st2. split; [exact H1|exact H2].
Defined.

Lemma string_roundtrip_witness :
  ∃ st1 st2 st3, write_string small_stream [104; 105] = Def st1 ∧
    write_scalar S_char st1 1 = Def st2 ∧ read_string st2 [] = Def (true, [104; 105], st3).
Proof.
  edestruct (string_roundtrip small_stream [104; 105] S_char 1 []) as (st1&st2&st3&?&?&?&_).
  - apply small_stream_repr.
  - apply small_stream_repr.
  - by repeat constructor.
  - by apply (bool_decide_eq_true_1 _).
  - done.
  - by vm_compute.
  - by exists st1, st2, st3.
Defined.

Lemma read_string_at_end_witness :
  (memory_stream_wrap [2; 0; 104; 105] 4 0 ≫= λ st, read_string st []) = Undef.
Proof. exact (proj1 (read_string_at_end [104; 105] [] ltac:(done))). Defined.

Lemma read_object_rewinds_too_far_witness :
  ∃ st st', memory_stream_wrap [2; 0; 7; 8] 4 0 = Def st ∧
    read_object st 1 = Def (2, [], st') ∧ ms_rd_pos st' = -1.
Proof.
  eexists. edestruct (read_object_rewinds_too_far
    {| ms_data := Some [2; 0; 7; 8]; ms_data_size := 4; ms_alloc_type := 0;
       ms_wr_pos := 4; ms_rd_pos := 0 |} 2 [7; 8] 1) as (st'&H1&H2&_).
  - exists [], []. split_and!; try done. by repeat constructor.
  - done.
  - done.
  - exists st'. split; [done|]. split; [exact H1|exact H2].
Defined.
