(* ===== verification/RawMsg.v ===== *)
(** * Messages of the connection layer ([network/net/raw_msg.hpp])

    A message is a fixed-size header followed by the number of body bytes the
    header announces.  [basic_msg<HEADER, BODY>] is modelled over the interface
    [Header]; [msg_header] is its 24-byte instance.  Messages are shared
    pointers in the code, and [hton]/[ntoh] convert the shared header in place,
    so [batch_msg] works on references into a store of messages. *)
From stdpp Require Import base option list numbers list_numbers gmap.
From S2P Require Import Prelude NetOrder MemoryStream.
Local Open Scope Z_scope.
Set Default Proof Using "Type".

(** ** What a message needs of its header type *)
Class Header (H : Type) := {
  header_size : Z;                    (* sizeof(header_t) *)
  header_ok : H → Prop;               (* every field fits its width *)
  header_length : H → Z;              (* the [length] field, a uint32_t *)
  set_length_field : H → Z → H;
  header_hton : bool → H → H;
  header_ntoh : bool → H → H;
  header_bytes : H → list Z;
  header_of_bytes : list Z → H;
  header_size_pos : 0 < header_size < 2 ^ 16;
  header_length_range h : header_ok h → 0 ≤ header_length h < 2 ^ 32;
  set_length_ok h n : header_ok h → 0 ≤ n < 2 ^ 32 →
    header_ok (set_length_field h n) ∧ header_length (set_length_field h n) = n;
  header_hton_ok b h : header_ok h → header_ok (header_hton b h);
  header_ntoh_hton b h : header_ok h → header_ntoh b (header_hton b h) = h;
  header_bytes_length h : header_ok h → Z.of_nat (length (header_bytes h)) = header_size;
  header_bytes_ok h : header_ok h → bytes_ok (header_bytes h);
  header_of_bytes_bytes h : header_ok h → header_of_bytes (header_bytes h) = h;
  header_parse_ok b bs : bytes_ok bs → Z.of_nat (length bs) = header_size →
    header_ok (header_ntoh b (header_of_bytes bs));
}.

(** ** The 24-byte header *)
Record msg_header := MsgHeader {
  mh_from_unique_id : Z;
  mh_to_unique_id : Z;
  mh_conn_id : Z; (* shares its storage with user_id *)
  mh_call_id : Z;
  mh_result : Z;
  mh_reserve_bytes : Z;
  mh_protocol_id : Z;
  mh_length : Z
}.
#[export] Instance msg_header_eq_dec : EqDecision msg_header.
Proof. solve_decision. Defined.

Definition msg_header_sizes : list Z := [2; 2; 4; 4; 2; 2; 4; 4].
Definition msg_header_fields (h : msg_header) : list Z :=
  [mh_from_unique_id h; mh_to_unique_id h; mh_conn_id h; mh_call_id h;
   mh_result h; mh_reserve_bytes h; mh_protocol_id h; mh_length h].
Definition msg_header_of_fields (vs : list Z) : msg_header :=
  let f i := nth i vs 0 in
  MsgHeader (f 0%nat) (f 1%nat) (f 2%nat) (f 3%nat) (f 4%nat) (f 5%nat) (f 6%nat) (f 7%nat).
Definition msg_header_ok (h : msg_header) : Prop :=
  Forall2 field_ok msg_header_sizes (msg_header_fields h).

Definition msg_header_init (from_id to_id conn_id call_id code protocol len : Z)
    : msg_header :=
  {| mh_from_unique_id := from_id; mh_to_unique_id := to_id; mh_conn_id := conn_id;
     mh_call_id := call_id; mh_result := code; mh_reserve_bytes := 0;
     mh_protocol_id := protocol; mh_length := len |}.
Definition msg_header_init_short (code protocol len : Z) : msg_header :=
  {| mh_from_unique_id := 0; mh_to_unique_id := 0; mh_conn_id := 0;
     mh_call_id := 0; mh_result := code; mh_reserve_bytes := 0;
     mh_protocol_id := protocol; mh_length := len |}.

(** The process-wide byte-order flag is a parameter of the conversions. *)
Definition msg_header_ntoh (big_endian : bool) (h : msg_header) : msg_header :=
  if negb big_endian then h
  else
    {| mh_from_unique_id := ntoh T_ushort (mh_from_unique_id h);
       mh_to_unique_id := ntoh T_ushort (mh_to_unique_id h);
       mh_conn_id := ntoh T_uint (mh_conn_id h);
       mh_call_id := ntoh T_uint (mh_call_id h);
       mh_result := ntoh T_ushort (mh_result h);
       mh_reserve_bytes := ntoh T_ushort (mh_reserve_bytes h);
       mh_protocol_id := ntoh T_uint (mh_protocol_id h);
       mh_length := ntoh T_uint (mh_length h) |}.
Definition msg_header_hton (big_endian : bool) (h : msg_header) : msg_header :=
  if negb big_endian then h
  else
    {| mh_from_unique_id := hton T_ushort (mh_from_unique_id h);
       mh_to_unique_id := hton T_ushort (mh_to_unique_id h);
       mh_conn_id := hton T_uint (mh_conn_id h);
       mh_call_id := hton T_uint (mh_call_id h);
       mh_result := hton T_ushort (mh_result h);
       mh_reserve_bytes := hton T_ushort (mh_reserve_bytes h);
       mh_protocol_id := hton T_uint (mh_protocol_id h);
       mh_length := hton T_uint (mh_length h) |}.

Definition msg_header_to_buffer (h : msg_header) : list Z :=
  pack msg_header_sizes (msg_header_fields h).
Definition msg_header_of_buffer (bs : list Z) : msg_header :=
  msg_header_of_fields (unpack msg_header_sizes bs).

Definition set_header_length_field (h : msg_header) (len : Z) : msg_header :=
  {| mh_from_unique_id := mh_from_unique_id h; mh_to_unique_id := mh_to_unique_id h;
     mh_conn_id := mh_conn_id h; mh_call_id := mh_call_id h;
     mh_result := mh_result h; mh_reserve_bytes := mh_reserve_bytes h;
     mh_protocol_id := mh_protocol_id h; mh_length := len |}.

Lemma ushort_swap v : 0 ≤ v < 2 ^ (2 * 8) →
  0 ≤ hton T_ushort v < 2 ^ (2 * 8) ∧ ntoh T_ushort (hton T_ushort v) = v.
Proof.
  intros Hv. split; [by apply (hton_range T_ushort)|].
  rewrite ntoh_hton_same. apply (net_bytes_inj T_ushort); [by apply hton_range|done|].
  by rewrite !hton_bytes, rev_involutive.
Qed.
Lemma uint_swap v : 0 ≤ v < 2 ^ (4 * 8) →
  0 ≤ hton T_uint v < 2 ^ (4 * 8) ∧ ntoh T_uint (hton T_uint v) = v.
Proof.
  intros Hv. split; [by apply (hton_range T_uint)|].
  rewrite ntoh_hton_same. apply (net_bytes_inj T_uint); [by apply hton_range|done|].
  by rewrite !hton_bytes, rev_involutive.
Qed.

Lemma msg_header_hton_fields b h :
  msg_header_ok h →
  msg_header_ok (msg_header_hton b h) ∧ msg_header_ntoh b (msg_header_hton b h) = h.
Proof.
  destruct b; [|done]. destruct h as [f t c i r v p l].
  unfold msg_header_ok, msg_header_fields, msg_header_sizes. simpl.
  rewrite !Forall2_cons. unfold field_ok.
  intros ([_ ?%ushort_swap]&[_ ?%ushort_swap]&[_ ?%uint_swap]&[_ ?%uint_swap]&
    [_ ?%ushort_swap]&[_ ?%ushort_swap]&[_ ?%uint_swap]&[_ ?%uint_swap]&_).
  split; [repeat split; try apply Forall2_nil; naive_solver lia|].
  unfold msg_header_ntoh, msg_header_hton. cbn -[ntoh hton]. f_equal; naive_solver.
Qed.

Lemma msg_header_ntoh_hton_same b h : msg_header_ntoh b h = msg_header_hton b h.
Proof.
  destruct b; [|done]. unfold msg_header_ntoh, msg_header_hton.
  rewrite !ntoh_hton_same. reflexivity.
Qed.

#[export] Instance msg_header_Header : Header msg_header.
Proof.
  refine {| header_size := 24; header_ok := msg_header_ok; header_length := mh_length;
            set_length_field := set_header_length_field;
            header_hton := msg_header_hton; header_ntoh := msg_header_ntoh;
            header_bytes := msg_header_to_buffer;
            header_of_bytes := msg_header_of_buffer |}.
  - done.
  - intros h Hh. unfold msg_header_ok, msg_header_sizes, msg_header_fields, field_ok in Hh.
    rewrite !Forall2_cons in Hh. simpl in *. lia.
  - intros h n Hh Hn. split; [|done].
    unfold msg_header_ok, msg_header_sizes, msg_header_fields in *.
    rewrite !Forall2_cons in *. unfold field_ok in *. simpl in *. naive_solver lia.
  - intros b h Hh. by apply msg_header_hton_fields.
  - intros b h Hh. by apply msg_header_hton_fields.
  - intros h Hh. by apply pack_length.
  - intros h Hh. apply pack_ok. by apply (bool_decide_eq_true_1 _).
  - intros h Hh. unfold msg_header_of_buffer, msg_header_to_buffer.
    rewrite <-(app_nil_r (pack _ _)), unpack_pack_app by done. by destruct h.
  - intros b bs Hbs Hl. rewrite msg_header_ntoh_hton_same.
    apply msg_header_hton_fields, (unpack_ok msg_header_sizes); [|done..].
    by apply (bool_decide_eq_true_1 _).
Defined.

(** ** Bodies

    [mb_block] tells whether [data_] is the start of an allocated block, which
    is what [FREE_MP] may be given; a null [data_] is [None]. *)
Record msg_body := MsgBody {
  mb_data : option (list Z);
  mb_block : bool;
  mb_length : Z; (* uint32_t *)
  mb_offset : Z  (* uint32_t *)
}.
#[export] Instance msg_body_eq_dec : EqDecision msg_body.
Proof. solve_decision. Defined.

Definition empty_body : msg_body := MsgBody None true 0 0.

(** The destructor, and the first half of [reset]. *)
Definition body_free (b : msg_body) : ub unit :=
  match mb_data b with Some _ => assert_ub (mb_block b) | None => Def tt end.

Definition body_reset (b : msg_body) (data_ptr : option (list Z)) (block : bool)
    (data_size : Z) : ub msg_body :=
  _ ← body_free b;
  Def {| mb_data := data_ptr; mb_block := block; mb_length := u32 data_size; mb_offset := 0 |}.

Definition body_raw_data (b : msg_body) : option (list Z) := mb_data b.
Definition body_data (b : msg_body) : ub (list Z) :=
  d ← deref (mb_data b); Def (drop (Z.to_nat (mb_offset b)) d).
Definition body_raw_length (b : msg_body) : Z := mb_length b.
Definition body_length (b : msg_body) : Z := u32 (mb_length b - mb_offset b).

(** The bytes the buffer names; a null buffer of length zero names none. *)
Definition body_to_buffer (b : msg_body) : ub (list Z) :=
  if body_length b =? 0 then Def []
  else d ← body_data b; read_at d 0 (body_length b).

Notation msg_ref := Z (only parsing).

Section messages.
Context `{ALLOC : Allocator} {H : Type} `{HDR : Header H}.

Definition body_alloc (data_size : Z) : msg_body :=
  {| mb_data := Some (fresh_bytes (u32 data_size)); mb_block := true;
     mb_length := u32 data_size; mb_offset := 0 |}.

(** [int get_header_length] and its inverse. *)
Definition get_header_length (h : H) : Z := s32 (header_length h).
Definition set_header_length (h : H) (len : Z) : H := set_length_field h (u32 len).

Record basic_msg := BasicMsg { m_header : H; m_body : msg_body }.

Definition basic_msg_default : basic_msg :=
  BasicMsg (header_of_bytes (replicate (Z.to_nat header_size) 0)) empty_body.
Definition basic_msg_of_header (h : H) : basic_msg :=
  let len := get_header_length h in
  BasicMsg h (if 0 <? len then body_alloc len else empty_body).

(** [data()] of a stream points into its block at the read position. *)
Definition stream_data (gos : memory_stream) : option (list Z) :=
  if ms_rd_pos gos <=? ms_wr_pos gos
  then drop (Z.to_nat (ms_rd_pos gos)) <$> ms_data gos else None.

(** [reset(gos)] takes the stream's memory over and disowns the stream. *)
Definition msg_reset_ptr (m : basic_msg) (data_ptr : option (list Z)) (block : bool)
    (data_size : Z) : ub basic_msg :=
  b ← body_reset (m_body m) data_ptr block data_size;
  Def (BasicMsg (set_header_length (m_header m) data_size) b).
Definition msg_reset (m : basic_msg) (gos : memory_stream)
    : ub (basic_msg * memory_stream) :=
  let len := length_ gos in
  b ← body_reset (m_body m) (stream_data gos) (ms_rd_pos gos =? 0) len;
  Def (BasicMsg (set_header_length (m_header m) len) b, set_alloc_type gos 0).

Definition basic_msg_of_stream (gos : memory_stream) : ub (basic_msg * memory_stream) :=
  if 0 <? length_ gos then msg_reset basic_msg_default gos
  else Def (basic_msg_default, gos).
Definition basic_msg_of_header_stream (h : H) (gos : memory_stream)
    : ub (basic_msg * memory_stream) :=
  if 0 <? length_ gos then
    b ← body_reset empty_body (stream_data gos) (ms_rd_pos gos =? 0) (length_ gos);
    Def (BasicMsg h b, set_alloc_type gos 0)
  else Def (BasicMsg h empty_body, gos).

Definition msg_hton (big_endian : bool) (m : basic_msg) : basic_msg :=
  BasicMsg (header_hton big_endian (m_header m)) (m_body m).
Definition msg_ntoh (big_endian : bool) (m : basic_msg) : basic_msg :=
  BasicMsg (header_ntoh big_endian (m_header m)) (m_body m).

(** The scatter list is modelled by the bytes it gathers. *)
Definition msg_to_buffers (m : basic_msg) : ub (list Z) :=
  b ← body_to_buffer (m_body m); Def (header_bytes (m_header m) ++ b).
Definition total_length (m : basic_msg) : Z :=
  u32 (header_size + header_length (m_header m)).

Definition get_stream (m : basic_msg) : ub memory_stream :=
  match mb_data (m_body m) with
  | None => Def {| ms_data := None; ms_data_size := s32 (body_length (m_body m));
                   ms_alloc_type := 0; ms_wr_pos := s32 (body_length (m_body m));
                   ms_rd_pos := 0 |}
  | Some _ =>
      d ← body_data (m_body m);
      memory_stream_wrap d (s32 (body_length (m_body m))) 0
  end.

(** *** Batches of shared messages *)
#[local] Notation msg_heap := (gmap Z basic_msg).

Record batch_msg := BatchMsg {
  bm_msgs : list msg_ref;
  bm_capacity : Z;        (* size_t; zero is no limit *)
  bm_length_capacity : Z;
  bm_cur_length : Z
}.
Definition batch_msg_new (capacity length_capacity : Z) : batch_msg :=
  BatchMsg [] capacity length_capacity 0.
Definition batch_msg_default : batch_msg := batch_msg_new 0 0.

Definition batch_full (b : batch_msg) : bool :=
  (0 <? bm_capacity b) && (bm_capacity b <=? Z.of_nat (length (bm_msgs b))).
Definition batch_empty (b : batch_msg) : bool := bool_decide (bm_msgs b = []).
Definition batch_length_full (b : batch_msg) : bool :=
  (0 <? bm_length_capacity b) && (bm_length_capacity b <=? bm_cur_length b).

Definition add_msg (hp : msg_heap) (b : batch_msg) (r : msg_ref) : ub (bool * batch_msg) :=
  if batch_full b || batch_length_full b then Def (false, b)
  else
    m ← deref (hp !! r);
    Def (true, BatchMsg (bm_msgs b ++ [r]) (bm_capacity b) (bm_length_capacity b)
                 (u64 (bm_cur_length b + total_length m))).

(** Converting a batch converts each message in place, once per occurrence. *)
Definition heap_update (f : basic_msg → basic_msg) (hp : msg_heap) (r : msg_ref)
    : ub msg_heap :=
  m ← deref (hp !! r); Def (<[r := f m]> hp).
Fixpoint heap_update_all (f : basic_msg → basic_msg) (hp : msg_heap) (rs : list msg_ref)
    : ub msg_heap :=
  match rs with
  | [] => Def hp
  | r :: rs => hp ← heap_update f hp r; heap_update_all f hp rs
  end.
Definition batch_hton (big_endian : bool) (hp : msg_heap) (b : batch_msg) : ub msg_heap :=
  heap_update_all (msg_hton big_endian) hp (bm_msgs b).
Definition batch_ntoh (big_endian : bool) (hp : msg_heap) (b : batch_msg) : ub msg_heap :=
  heap_update_all (msg_ntoh big_endian) hp (bm_msgs b).

Fixpoint refs_to_buffers (hp : msg_heap) (rs : list msg_ref) : ub (list Z) :=
  match rs with
  | [] => Def []
  | r :: rs =>
      m ← deref (hp !! r);
      bs ← msg_to_buffers m;
      bs' ← refs_to_buffers hp rs;
      Def (bs ++ bs')
  end.
Definition batch_to_buffers (hp : msg_heap) (b : batch_msg) : ub (list Z) :=
  refs_to_buffers hp (bm_msgs b).
End messages.
Arguments basic_msg H : clear implicits.
Notation msg_heap H := (gmap Z (basic_msg H)) (only parsing).

(** ** Well-formed messages and the bytes they travel as *)
Section message_lemmas.
Context {H : Type} `{HDR : Header H}.
Implicit Types (m : basic_msg H) (hp : msg_heap H).

(** The body holds the bytes its header announces. *)
Definition msg_wf m (payload : list Z) : Prop :=
  header_ok (m_header m) ∧ mb_offset (m_body m) = 0 ∧
  mb_length (m_body m) = Z.of_nat (length payload) ∧
  header_length (m_header m) = Z.of_nat (length payload) ∧
  Z.of_nat (length payload) < 2 ^ 31 ∧
  match mb_data (m_body m) with
  | None => payload = []
  | Some d => ∃ tail, d = payload ++ tail
  end.
(** A frame on the wire: the header in wire order, then the payload. *)
Definition frame (big_endian : bool) (h : H) (payload : list Z) : list Z :=
  header_bytes (header_hton big_endian h) ++ payload.

Lemma msg_wf_buffer m payload :
  msg_wf m payload → body_to_buffer (m_body m) = Def payload.
Proof.
  intros (Hok&Hoff&Hlen&Hhl&Hsmall&Hd). unfold body_to_buffer, body_length.
  rewrite Hoff, Hlen, Z.sub_0_r. unfold u32. rewrite Z.mod_small by lia.
  zcase; [destruct payload; [done|simpl in *; lia]|].
  unfold body_data. destruct (mb_data _) as [d|]; [|subst; done].
  destruct Hd as [tail ->]. cbn [deref mbind ub_bind].
  rewrite Hoff, Z2Nat.inj_0, drop_0. apply read_at_prefix.
Qed.

Lemma msg_hton_buffers big m payload :
  msg_wf m payload →
  msg_to_buffers (msg_hton big m) = Def (frame big (m_header m) payload).
Proof.
  intros Hm. unfold msg_to_buffers. simpl. by rewrite (msg_wf_buffer m payload Hm).
Qed.

Lemma frame_length big m payload :
  msg_wf m payload →
  Z.of_nat (length (frame big (m_header m) payload)) =
    header_size + header_length (m_header m).
Proof.
  intros (Hok&_&_&Hhl&_). unfold frame.
  rewrite length_app, Nat2Z.inj_add, header_bytes_length by by apply header_hton_ok.
  by rewrite Hhl.
Qed.

Lemma heap_update_all_lookup f rs : ∀ hp,
  NoDup rs → (∀ r, r ∈ rs → is_Some (hp !! r)) →
  ∃ hp', heap_update_all f hp rs = Def hp' ∧
    ∀ r, hp' !! r = if bool_decide (r ∈ rs) then f <$> hp !! r else hp !! r.
Proof.
  induction rs as [|r rs IH]; intros hp Hnd Hin; [by exists hp|].
  apply NoDup_cons in Hnd as [Hr Hnd]. simpl. unfold heap_update.
  destruct (Hin r) as [m Hm]; [by left|]. rewrite Hm. simpl.
  destruct (IH (<[r:=f m]> hp) Hnd) as (hp'&->&Hhp').
  { intros r' Hr'. rewrite lookup_insert_ne by (intros ->; done). apply Hin. by right. }
  exists hp'. split; [done|]. intros r'. rewrite Hhp'.
  destruct (decide (r' = r)) as [->|Hne].
  - rewrite lookup_insert_eq, Hm, bool_decide_false, bool_decide_true by (done || by left).
    done.
  - rewrite lookup_insert_ne by done.
    rewrite (bool_decide_ext (r' ∈ r :: rs) (r' ∈ rs)); [done|].
    rewrite elem_of_cons. naive_solver.
Qed.

(** Which messages and payloads a list of references stands for. *)
Definition refs_wf hp (rs : list msg_ref) (mps : list (basic_msg H * list Z)) : Prop :=
  Forall2 (λ r mp, hp !! r = Some mp.1 ∧ msg_wf mp.1 mp.2) rs mps.
Definition frames (big_endian : bool) (mps : list (basic_msg H * list Z)) : list Z :=
  mps ≫= λ mp, frame big_endian (m_header mp.1) mp.2.

Lemma refs_to_buffers_frames big hp rs mps :
  Forall2 (λ r mp, hp !! r = Some (msg_hton big mp.1) ∧ msg_wf mp.1 mp.2) rs mps →
  refs_to_buffers hp rs = Def (frames big mps).
Proof.
  induction 1 as [|r [m p] rs mps [Hr Hm] _ IH]; [done|]. csimpl in *.
  rewrite Hr. cbn [deref mbind ub_bind]. rewrite (msg_hton_buffers big m p Hm).
  csimpl. by rewrite IH.
Qed.

Lemma heap_hton_frames big hp rs mps :
  NoDup rs → refs_wf hp rs mps →
  ∃ hp', heap_update_all (msg_hton big) hp rs = Def hp' ∧
    refs_to_buffers hp' rs = Def (frames big mps) ∧
    (∀ r, hp' !! r = if bool_decide (r ∈ rs) then msg_hton big <$> hp !! r else hp !! r).
Proof.
  intros Hnd Hrs.
  destruct (heap_update_all_lookup (msg_hton big) rs hp Hnd) as (hp'&->&Hhp').
  { intros r [i Hi]%list_elem_of_lookup_1.
    destruct (Forall2_lookup_l _ _ _ _ _ Hrs Hi) as ([m p]&_&->&_). by eexists. }
  exists hp'. split; [done|]. split; [|done].
  apply refs_to_buffers_frames, Forall2_lookup. intros i.
  unfold refs_wf in Hrs. rewrite Forall2_lookup in Hrs. specialize (Hrs i).
  destruct (rs !! i) as [r|] eqn:Hi; inversion Hrs as [? mp [Hr Hm]|]; [|constructor].
  constructor. rewrite Hhp', bool_decide_true, Hr; [done|].
  by eapply list_elem_of_lookup_2.
Qed.
End message_lemmas.

(** ** Properties *)

(** A batch goes out as its messages' frames, in order. For a batch of distinct
    well-formed messages, converting it and gathering its buffers yields each message's
    header in wire order followed by exactly the bytes the header announces, in queue
    order; every other shared message is left alone, while those of the batch stay in
    wire order. *)
Theorem batch_sends_frames {H : Type} `{HDR : Header H} big (hp : msg_heap H) b mps :
  NoDup (bm_msgs b) → refs_wf hp (bm_msgs b) mps →
  ∃ hp', batch_hton big hp b = Def hp' ∧
    batch_to_buffers hp' b = Def (frames big mps) ∧
    (∀ r, hp' !! r = if bool_decide (r ∈ bm_msgs b)
                     then msg_hton big <$> hp !! r else hp !! r).
Proof. intros. by apply heap_hton_frames. Qed.

Definition sample_msg (id : Z) (payload : list Z) : basic_msg msg_header :=
  BasicMsg (msg_header_init_short 0 id (Z.of_nat (length payload)))
    (MsgBody (Some payload) true (Z.of_nat (length payload)) 0).

Lemma batch_sends_frames_witness :
  ∃ hp', batch_hton true {[1 := sample_msg 9 [7; 8]; 2 := sample_msg 10 []]}
           (BatchMsg [1; 2] 0 0 50) = Def hp' ∧
    batch_to_buffers hp' (BatchMsg [1; 2] 0 0 50) =
      Def (replicate 16 0 ++ [0; 0; 0; 9; 0; 0; 0; 2; 7; 8] ++
           replicate 16 0 ++ [0; 0; 0; 10; 0; 0; 0; 0]).
Proof.
  destruct (batch_sends_frames true {[1 := sample_msg 9 [7; 8]; 2 := sample_msg 10 []]}
    (BatchMsg [1; 2] 0 0 50) [(sample_msg 9 [7; 8], [7; 8]); (sample_msg 10 [], [])])
    as (hp'&H1&H2&_).
  - by apply (bool_decide_eq_true_1 _).
  - repeat constructor; try done; by exists [].
  - exists hp'. split; [exact H1|]. rewrite H2. by vm_compute.
Defined.
