(* ===== verification/RpcHeader.v ===== *)
(** * Headers of the rpc layer ([network/rpc/net/msg_header.hpp])

    Clients talk with a 12-byte header; servers with a 24-byte one that is a
    union of two structs, told apart by their first two bytes.  The union is
    modelled by its 24 bytes, each struct by a record with its layout; a member
    access through the union reads or rewrites the bytes. *)
From stdpp Require Import base option list numbers list_numbers.
From S2P Require Import Prelude NetOrder Proto RawMsg.
Local Open Scope Z_scope.
Set Default Proof Using "Type".

(** ** The client header *)
Record client_msg_header := ClientMsgHeader {
  cmh_result : Z;
  cmh_reserve_bytes : Z;
  cmh_protocol_id : Z;
  cmh_length : Z
}.
#[export] Instance client_msg_header_eq_dec : EqDecision client_msg_header.
Proof. solve_decision. Defined.

Definition client_sizes : list Z := [2; 2; 4; 4].
Definition client_fields (h : client_msg_header) : list Z :=
  [cmh_result h; cmh_reserve_bytes h; cmh_protocol_id h; cmh_length h].
Definition client_ok (h : client_msg_header) : Prop :=
  Forall2 field_ok client_sizes (client_fields h).
Definition client_bytes (h : client_msg_header) : list Z := pack client_sizes (client_fields h).
Definition client_of_bytes (bs : list Z) : client_msg_header :=
  let vs := unpack client_sizes bs in
  ClientMsgHeader (nth 0 vs 0) (nth 1 vs 0) (nth 2 vs 0) (nth 3 vs 0).

Definition client_ntoh (big_endian : bool) (h : client_msg_header) : client_msg_header :=
  if negb big_endian then h
  else
    {| cmh_result := ntoh T_ushort (cmh_result h);
       cmh_reserve_bytes := ntoh T_ushort (cmh_reserve_bytes h);
       cmh_protocol_id := ntoh T_uint (cmh_protocol_id h);
       cmh_length := ntoh T_uint (cmh_length h) |}.
Definition client_hton (big_endian : bool) (h : client_msg_header) : client_msg_header :=
  if negb big_endian then h
  else
    {| cmh_result := hton T_ushort (cmh_result h);
       cmh_reserve_bytes := hton T_ushort (cmh_reserve_bytes h);
       cmh_protocol_id := hton T_uint (cmh_protocol_id h);
       cmh_length := hton T_uint (cmh_length h) |}.

Definition client_default : client_msg_header := ClientMsgHeader 0 0 0 0.
Definition client_init (code protocol len : Z) : client_msg_header :=
  ClientMsgHeader code 0 protocol len.
Definition client_is_internal (h : client_msg_header) : bool := false.
Definition client_is_reply (h : client_msg_header) : bool :=
  fp_is_reply (to_protocol (cmh_protocol_id h)).
(** The argument of [reply] is not used. *)
Definition client_reply (h : client_msg_header) (is_reply : bool) : client_msg_header :=
  ClientMsgHeader (cmh_result h) (cmh_reserve_bytes h)
    (reply_protocol (cmh_protocol_id h)) (cmh_length h).
Definition client_need_reply (h : client_msg_header) : bool :=
  let proto := to_protocol (cmh_protocol_id h) in
  negb (fp_is_reply proto) && fp_need_reply proto.
Definition client_set_result (h : client_msg_header) (r : Z) : client_msg_header :=
  ClientMsgHeader r (cmh_reserve_bytes h) (cmh_protocol_id h) (cmh_length h).
Definition client_call_id (h : client_msg_header) : Z := cmh_protocol_id h.
Definition client_set_length (h : client_msg_header) (len : Z) : client_msg_header :=
  ClientMsgHeader (cmh_result h) (cmh_reserve_bytes h) (cmh_protocol_id h) len.
Definition client_proto (h : client_msg_header) : Z := cmh_protocol_id h.
Definition client_set_conn_id (h : client_msg_header) (conn_id : Z) : client_msg_header := h.

(** ** The server header *)
Record server_msg_header := ServerMsgHeader {
  smh_from_unique_id : Z;
  smh_to_unique_id : Z;
  smh_conn_id : Z; (* shares its storage with user_id *)
  smh_call_id : Z;
  smh_result : Z;
  smh_reserve_bytes : Z;
  smh_protocol_id : Z;
  smh_length : Z
}.
#[export] Instance server_msg_header_eq_dec : EqDecision server_msg_header.
Proof. solve_decision. Defined.

Definition server_sizes : list Z := [2; 2; 4; 4; 2; 2; 4; 4].
Definition server_fields (h : server_msg_header) : list Z :=
  [smh_from_unique_id h; smh_to_unique_id h; smh_conn_id h; smh_call_id h;
   smh_result h; smh_reserve_bytes h; smh_protocol_id h; smh_length h].
Definition server_ok (h : server_msg_header) : Prop :=
  Forall2 field_ok server_sizes (server_fields h).
Definition server_bytes (h : server_msg_header) : list Z := pack server_sizes (server_fields h).
Definition server_of_bytes (bs : list Z) : server_msg_header :=
  let vs := unpack server_sizes bs in
  let f i := nth i vs 0 in
  ServerMsgHeader (f 0%nat) (f 1%nat) (f 2%nat) (f 3%nat) (f 4%nat) (f 5%nat) (f 6%nat) (f 7%nat).

Definition server_ntoh (big_endian : bool) (h : server_msg_header) : server_msg_header :=
  if negb big_endian then h
  else
    {| smh_from_unique_id := ntoh T_ushort (smh_from_unique_id h);
       smh_to_unique_id := ntoh T_ushort (smh_to_unique_id h);
       smh_conn_id := ntoh T_uint (smh_conn_id h);
       smh_call_id := ntoh T_uint (smh_call_id h);
       smh_result := ntoh T_ushort (smh_result h);
       smh_reserve_bytes := ntoh T_ushort (smh_reserve_bytes h);
       smh_protocol_id := ntoh T_uint (smh_protocol_id h);
       smh_length := ntoh T_uint (smh_length h) |}.
Definition server_hton (big_endian : bool) (h : server_msg_header) : server_msg_header :=
  if negb big_endian then h
  else
    {| smh_from_unique_id := hton T_ushort (smh_from_unique_id h);
       smh_to_unique_id := hton T_ushort (smh_to_unique_id h);
       smh_conn_id := hton T_uint (smh_conn_id h);
       smh_call_id := hton T_uint (smh_call_id h);
       smh_result := hton T_ushort (smh_result h);
       smh_reserve_bytes := hton T_ushort (smh_reserve_bytes h);
       smh_protocol_id := hton T_uint (smh_protocol_id h);
       smh_length := hton T_uint (smh_length h) |}.

Definition server_init (from_id to_id conn_id call_id code protocol len : Z)
    : server_msg_header :=
  {| smh_from_unique_id := from_id; smh_to_unique_id := to_id; smh_conn_id := conn_id;
     smh_call_id := call_id; smh_result := code; smh_reserve_bytes := 0;
     smh_protocol_id := protocol; smh_length := len |}.
Definition server_init_short (code protocol len : Z) : server_msg_header :=
  {| smh_from_unique_id := 0; smh_to_unique_id := 0; smh_conn_id := 0;
     smh_call_id := 0; smh_result := code; smh_reserve_bytes := 0;
     smh_protocol_id := protocol; smh_length := len |}.

(** ** The internal header *)
Record msg_option := MsgOption {
  mo_is_reply : bool;       (* 1 bit *)
  mo_is_one_way : bool;     (* 1 bit *)
  mo_protocol_type : Z;     (* 2 bits, signed *)
  mo_reserve : Z;           (* 4 bits, signed *)
  mo_reserve1 : Z           (* int8_t *)
}.
#[export] Instance msg_option_eq_dec : EqDecision msg_option.
Proof. solve_decision. Defined.
Definition option_byte (o : msg_option) : Z :=
  Z.lor (Z.lor (Z.lor (Z.b2z (mo_is_reply o)) (Z.b2z (mo_is_one_way o) ≪ 1))
    ((mo_protocol_type o `mod` 2 ^ 2) ≪ 2)) ((mo_reserve o `mod` 2 ^ 4) ≪ 4).
Definition option_bytes (o : msg_option) : list Z := [option_byte o; u8 (mo_reserve1 o)].
Definition option_of_bytes (b0 b1 : Z) : msg_option :=
  MsgOption (Z.testbit b0 0) (Z.testbit b0 1) (to_signed 2 (b0 ≫ 2)) (to_signed 4 (b0 ≫ 4))
    (to_signed 8 b1).

Record internal_msg_header := InternalMsgHeader {
  imh_flag : Z;
  imh_result : Z;
  imh_option : msg_option;
  imh_reserve_bytes : Z;
  imh_call_id : Z;
  imh_len : Z;
  imh_hash : Z
}.
#[export] Instance internal_msg_header_eq_dec : EqDecision internal_msg_header.
Proof. solve_decision. Defined.

Definition internal_sizes : list Z := [2; 2; 1; 1; 2; 4; 4; 8].
Definition internal_bytes (h : internal_msg_header) : list Z :=
  pack internal_sizes
    [imh_flag h; imh_result h; option_byte (imh_option h); u8 (mo_reserve1 (imh_option h));
     imh_reserve_bytes h; imh_call_id h; imh_len h; imh_hash h].
Definition internal_of_bytes (bs : list Z) : internal_msg_header :=
  let vs := unpack internal_sizes bs in
  let f i := nth i vs 0 in
  InternalMsgHeader (f 0%nat) (f 1%nat) (option_of_bytes (f 2%nat) (f 3%nat)) (f 4%nat)
    (f 5%nat) (f 6%nat) (f 7%nat).

(** Neither conversion touches an internal header. *)
Definition internal_ntoh (h : internal_msg_header) : internal_msg_header := h.
Definition internal_hton (h : internal_msg_header) : internal_msg_header := h.

(** [code] and [call_id] are signed parameters stored into unsigned fields. *)
Definition internal_init (code : Z) (option : msg_option) (call_id len hash : Z)
    : internal_msg_header :=
  {| imh_flag := 65535; imh_result := u16 (s16 code); imh_option := option;
     imh_reserve_bytes := 0; imh_call_id := u32 (s32 call_id); imh_len := len;
     imh_hash := hash |}.

(** ** The union and the header every rpc server message starts with *)
Notation common_msg_header := (list Z) (only parsing).
Definition header_wf (h : common_msg_header) : Prop := bytes_ok h ∧ length h = 24%nat.

Definition flag (h : common_msg_header) : Z := le_val (take 2 h).
Definition server_header (h : common_msg_header) : server_msg_header := server_of_bytes h.
Definition internal_header (h : common_msg_header) : internal_msg_header := internal_of_bytes h.
Definition is_internal (h : common_msg_header) : bool := flag h =? 65535.

Definition msg_header_internal (code : Z) (option : msg_option) (call_id len hash : Z)
    : common_msg_header := internal_bytes (internal_init code option call_id len hash).
Definition msg_header_server (from_id to_id conn_id call_id code protocol len : Z)
    : common_msg_header :=
  server_bytes (server_init from_id to_id conn_id call_id code protocol len).
Definition msg_header_server_short (code protocol len : Z) : common_msg_header :=
  server_bytes (server_init_short code protocol len).

Definition is_reply (h : common_msg_header) : bool :=
  if is_internal h then mo_is_reply (imh_option (internal_header h))
  else fp_is_reply (to_protocol (smh_protocol_id (server_header h))).

Definition set_option_reply (o : msg_option) (r : bool) : msg_option :=
  MsgOption r (mo_is_one_way o) (mo_protocol_type o) (mo_reserve o) (mo_reserve1 o).
Definition reply (h : common_msg_header) (is_reply : bool) : common_msg_header :=
  if is_internal h then
    let i := internal_header h in
    internal_bytes (InternalMsgHeader (imh_flag i) (imh_result i)
      (set_option_reply (imh_option i) is_reply) (imh_reserve_bytes i) (imh_call_id i)
      (imh_len i) (imh_hash i))
  else
    let s := server_header h in
    server_bytes (ServerMsgHeader (smh_from_unique_id s) (smh_to_unique_id s) (smh_conn_id s)
      (smh_call_id s) (smh_result s) (smh_reserve_bytes s)
      (reply_protocol (smh_protocol_id s)) (smh_length s)).

Definition need_reply (h : common_msg_header) : bool :=
  if is_internal h then
    negb (mo_is_reply (imh_option (internal_header h)))
    && negb (mo_is_one_way (imh_option (internal_header h)))
  else
    let proto := to_protocol (smh_protocol_id (server_header h)) in
    negb (fp_is_reply proto) && fp_need_reply proto.

Definition result (h : common_msg_header) : Z :=
  if is_internal h then imh_result (internal_header h) else smh_result (server_header h).
Definition set_result (h : common_msg_header) (r : Z) : common_msg_header :=
  if is_internal h then
    let i := internal_header h in
    internal_bytes (InternalMsgHeader (imh_flag i) r (imh_option i) (imh_reserve_bytes i)
      (imh_call_id i) (imh_len i) (imh_hash i))
  else
    let s := server_header h in
    server_bytes (ServerMsgHeader (smh_from_unique_id s) (smh_to_unique_id s) (smh_conn_id s)
      (smh_call_id s) r (smh_reserve_bytes s) (smh_protocol_id s) (smh_length s)).

Definition set_conn_id (h : common_msg_header) (id : Z) : common_msg_header :=
  if negb (is_internal h) then
    let s := server_header h in
    server_bytes (ServerMsgHeader (smh_from_unique_id s) (smh_to_unique_id s) id
      (smh_call_id s) (smh_result s) (smh_reserve_bytes s) (smh_protocol_id s) (smh_length s))
  else h.

Definition call_id (h : common_msg_header) : Z :=
  if is_internal h then imh_call_id (internal_header h) else smh_call_id (server_header h).
Definition set_call_id (h : common_msg_header) (id : Z) : common_msg_header :=
  if is_internal h then
    let i := internal_header h in
    internal_bytes (InternalMsgHeader (imh_flag i) (imh_result i) (imh_option i)
      (imh_reserve_bytes i) id (imh_len i) (imh_hash i))
  else
    let s := server_header h in
    server_bytes (ServerMsgHeader (smh_from_unique_id s) (smh_to_unique_id s) (smh_conn_id s)
      id (smh_result s) (smh_reserve_bytes s) (smh_protocol_id s) (smh_length s)).

Definition msg_length (h : common_msg_header) : Z :=
  if is_internal h then imh_len (internal_header h) else smh_length (server_header h).
Definition set_msg_length (h : common_msg_header) (len : Z) : common_msg_header :=
  if is_internal h then
    let i := internal_header h in
    internal_bytes (InternalMsgHeader (imh_flag i) (imh_result i) (imh_option i)
      (imh_reserve_bytes i) (imh_call_id i) len (imh_hash i))
  else
    let s := server_header h in
    server_bytes (ServerMsgHeader (smh_from_unique_id s) (smh_to_unique_id s) (smh_conn_id s)
      (smh_call_id s) (smh_result s) (smh_reserve_bytes s) (smh_protocol_id s) len).

Definition proto (h : common_msg_header) : Z :=
  if is_internal h then imh_hash (internal_header h) else smh_protocol_id (server_header h).

Definition rpc_ntoh (big_endian : bool) (h : common_msg_header) : common_msg_header :=
  if is_internal h then internal_bytes (internal_ntoh (internal_header h))
  else server_bytes (server_ntoh big_endian (server_header h)).
Definition rpc_hton (big_endian : bool) (h : common_msg_header) : common_msg_header :=
  if is_internal h then internal_bytes (internal_hton (internal_header h))
  else server_bytes (server_hton big_endian (server_header h)).

Definition rpc_get_header_length (h : common_msg_header) : Z := s32 (msg_length h).
Definition rpc_set_header_length (h : common_msg_header) (len : Z) : common_msg_header :=
  set_msg_length h (u32 len).

(** ** Layout lemmas *)

(** The option byte, checked on all 256 values. *)
Lemma option_byte_all :
  forallb (λ b0, option_byte (option_of_bytes b0 0) =? b0) (seqZ 0 256) = true.
Proof. by vm_compute. Qed.
Lemma option_byte_of_bytes b0 b1 : byte_ok b0 → option_byte (option_of_bytes b0 b1) = b0.
Proof.
  intros Hb. pose proof option_byte_all as H. rewrite forallb_forall in H.
  apply Z.eqb_eq, (H b0). apply list_elem_of_In, elem_of_seqZ. cbv beta in Hb. lia.
Qed.

Definition option_ok (o : msg_option) : Prop :=
  -2 ≤ mo_protocol_type o < 2 ∧ -8 ≤ mo_reserve o < 8 ∧ -128 ≤ mo_reserve1 o < 128.
Lemma option_of_bytes_all :
  forallb (λ r, forallb (λ w, forallb (λ p, forallb (λ s,
    bool_decide (option_of_bytes (option_byte (MsgOption r w p s 0)) 0 = MsgOption r w p s 0)
    && (0 <=? option_byte (MsgOption r w p s 0)) && (option_byte (MsgOption r w p s 0) <? 256))
    (seqZ (-8) 16)) (seqZ (-2) 4)) [true; false]) [true; false] = true.
Proof. by vm_compute. Qed.
Lemma option_of_bytes_byte o :
  option_ok o →
  option_of_bytes (option_byte o) (u8 (mo_reserve1 o)) = o ∧ byte_ok (option_byte o).
Proof.
  destruct o as [r w p s t]. intros (Hp&Hs&Ht). simpl in *.
  pose proof option_of_bytes_all as H.
  rewrite forallb_forall in H. specialize (H r ltac:(destruct r; simpl; tauto)).
  rewrite forallb_forall in H. specialize (H w ltac:(destruct w; simpl; tauto)).
  rewrite forallb_forall in H.
  specialize (H p ltac:(apply list_elem_of_In, elem_of_seqZ; lia)).
  rewrite forallb_forall in H.
  specialize (H s ltac:(apply list_elem_of_In, elem_of_seqZ; lia)).
  rewrite !andb_true_iff, bool_decide_eq_true, Z.leb_le, Z.ltb_lt in H.
  destruct H as [[H Hge] Hlt].
  change (option_byte (MsgOption r w p s t)) with (option_byte (MsgOption r w p s 0)).
  split; [|cbv beta; lia]. unfold option_of_bytes in *. injection H as ? ? ? ?.
  unfold u8. f_equal; try done. apply (to_signed_small 8); simpl; lia.
Qed.

Lemma server_header_bytes s : server_ok s → server_header (server_bytes s) = s.
Proof.
  intros Hs. unfold server_header, server_of_bytes, server_bytes.
  rewrite <-(app_nil_r (pack _ _)), unpack_pack_app by done. by destruct s.
Qed.
Lemma server_bytes_header h : header_wf h → server_bytes (server_header h) = h.
Proof.
  intros [Hb Hl]. unfold server_bytes, server_header, server_of_bytes.
  change (server_fields _) with (unpack server_sizes h).
  apply pack_unpack; [by apply (bool_decide_eq_true_1 _)|done|by rewrite Hl].
Qed.
Lemma server_header_ok h : header_wf h → server_ok (server_header h).
Proof.
  intros [Hb Hl]. apply (unpack_ok server_sizes);
    [by apply (bool_decide_eq_true_1 _)|done|by rewrite Hl].
Qed.
Lemma server_bytes_wf s : server_ok s → header_wf (server_bytes s).
Proof.
  intros Hs. split; [apply pack_ok; by apply (bool_decide_eq_true_1 _)|].
  apply Nat2Z.inj. by apply (pack_length server_sizes).
Qed.

Definition internal_ok (i : internal_msg_header) : Prop :=
  field_ok 2 (imh_flag i) ∧ field_ok 2 (imh_result i) ∧ option_ok (imh_option i) ∧
  field_ok 2 (imh_reserve_bytes i) ∧ field_ok 4 (imh_call_id i) ∧
  field_ok 4 (imh_len i) ∧ field_ok 8 (imh_hash i).
Lemma internal_fields_ok i :
  internal_ok i →
  Forall2 field_ok internal_sizes
    [imh_flag i; imh_result i; option_byte (imh_option i); u8 (mo_reserve1 (imh_option i));
     imh_reserve_bytes i; imh_call_id i; imh_len i; imh_hash i].
Proof.
  intros (?&?&Ho&?&?&?&?). destruct (option_of_bytes_byte _ Ho) as [_ Hb].
  repeat apply Forall2_cons_2; try apply Forall2_nil_2; try done.
  split; [done|]. apply Z.mod_pos_bound. lia.
Qed.
Lemma internal_header_bytes i : internal_ok i → internal_header (internal_bytes i) = i.
Proof.
  intros Hi. unfold internal_header, internal_of_bytes, internal_bytes.
  rewrite <-(app_nil_r (pack _ _)), unpack_pack_app by by apply internal_fields_ok.
  cbn [nth]. destruct Hi as (_&_&Ho&_).
  rewrite (proj1 (option_of_bytes_byte _ Ho)). by destruct i.
Qed.
Lemma internal_bytes_wf i : internal_ok i → header_wf (internal_bytes i).
Proof.
  intros Hi. split; [apply pack_ok; by apply (bool_decide_eq_true_1 _)|].
  apply Nat2Z.inj. by apply (pack_length internal_sizes), internal_fields_ok.
Qed.
Lemma option_of_bytes_ok b0 b1 : option_ok (option_of_bytes b0 b1).
Proof.
  split; [|split];
    [apply (to_signed_range 2)|apply (to_signed_range 4)|apply (to_signed_range 8)]; lia.
Qed.
Lemma internal_unpack_ok h :
  header_wf h → Forall2 field_ok internal_sizes (unpack internal_sizes h).
Proof.
  intros [Hb Hl]. apply unpack_ok; [by apply (bool_decide_eq_true_1 _)|done|by rewrite Hl].
Qed.
Lemma internal_header_ok h : header_wf h → internal_ok (internal_header h).
Proof.
  intros Hwf. pose proof (internal_unpack_ok h Hwf) as H. destruct Hwf as [Hb Hl].
  unfold internal_ok, internal_header, internal_of_bytes. unfold internal_sizes in *. cbn [unpack nth] in *.
  rewrite !Forall2_cons in H. destruct H as (?&?&?&?&?&?&?&?&_).
  pose proof option_of_bytes_ok. naive_solver.
Qed.
Lemma internal_bytes_header h : header_wf h → internal_bytes (internal_header h) = h.
Proof.
  intros Hwf. pose proof (internal_unpack_ok h Hwf) as H. destruct Hwf as [Hb Hl].
  rewrite <-(pack_unpack internal_sizes h) at 2;
    [|by apply (bool_decide_eq_true_1 _)|done|by rewrite Hl].
  unfold internal_bytes, internal_header, internal_of_bytes. unfold internal_sizes in *. cbn [unpack nth] in *.
  rewrite !Forall2_cons in H. destruct H as (_&_&[_ H0]&[_ H1]&_).
  cbn [imh_flag imh_result imh_option imh_reserve_bytes imh_call_id imh_len imh_hash].
  rewrite option_byte_of_bytes by done. unfold option_of_bytes at 1. cbn [mo_reserve1].
  unfold u8. rewrite to_signed_mod, Z.mod_small by done. done.
Qed.

Lemma flag_server s : server_ok s → flag (server_bytes s) = smh_from_unique_id s.
Proof.
  intros Hs. apply (server_header_bytes s) in Hs. by rewrite <-Hs at 2.
Qed.
Lemma flag_internal i : internal_ok i → flag (internal_bytes i) = imh_flag i.
Proof.
  intros Hi. apply (internal_header_bytes i) in Hi. by rewrite <-Hi at 2.
Qed.

Lemma server_hton_fields b s :
  server_ok s → server_ok (server_hton b s) ∧ server_ntoh b (server_hton b s) = s.
Proof.
  destruct b; [|done]. destruct s as [f t c i r v p l].
  unfold server_ok, server_fields, server_sizes. simpl.
  rewrite !Forall2_cons. unfold field_ok.
  intros ([_ ?%ushort_swap]&[_ ?%ushort_swap]&[_ ?%uint_swap]&[_ ?%uint_swap]&
    [_ ?%ushort_swap]&[_ ?%ushort_swap]&[_ ?%uint_swap]&[_ ?%uint_swap]&_).
  split; [repeat split; try apply Forall2_nil; naive_solver lia|].
  unfold server_ntoh, server_hton. cbn -[ntoh hton]. f_equal; naive_solver.
Qed.

(** The marker reads the same in both byte orders. *)
Lemma hton_marker v : 0 ≤ v < 2 ^ 16 → hton T_ushort v = 65535 ↔ v = 65535.
Proof.
  intros Hv. split; [|by intros ->]. intros Heq.
  rewrite <-(proj2 (ushort_swap v Hv)), Heq. done.
Qed.

Lemma is_internal_server s : server_ok s → is_internal (server_bytes s) = (smh_from_unique_id s =? 65535).
Proof. intros Hs. unfold is_internal. by rewrite flag_server. Qed.
Lemma is_internal_internal i : internal_ok i → is_internal (internal_bytes i) = (imh_flag i =? 65535).
Proof. intros Hi. unfold is_internal. by rewrite flag_internal. Qed.

Lemma server_from_range s : server_ok s → 0 ≤ smh_from_unique_id s < 2 ^ 16.
Proof.
  unfold server_ok, server_sizes, server_fields. rewrite Forall2_cons. by intros [[_ ?] _].
Qed.

(** A header is one of the two structs, by its marker. *)
Lemma header_cases h :
  header_wf h →
  (∃ i, internal_ok i ∧ imh_flag i = 65535 ∧ h = internal_bytes i) ∨
  (∃ s, server_ok s ∧ smh_from_unique_id s ≠ 65535 ∧ h = server_bytes s).
Proof.
  intros Hwf. destruct (is_internal h) eqn:Hi; [left|right].
  - exists (internal_header h). split; [by apply internal_header_ok|].
    rewrite internal_bytes_header by done. split; [|done].
    apply Z.eqb_eq. rewrite <-is_internal_internal by by apply internal_header_ok.
    by rewrite internal_bytes_header.
  - exists (server_header h). split; [by apply server_header_ok|].
    rewrite server_bytes_header by done. split; [|done].
    apply Z.eqb_neq. rewrite <-is_internal_server by by apply server_header_ok.
    by rewrite server_bytes_header.
Qed.

(** The two shapes of every accessor. *)
Lemma on_internal i :
  internal_ok i → imh_flag i = 65535 →
  is_internal (internal_bytes i) = true ∧ internal_header (internal_bytes i) = i.
Proof.
  intros Hi Hf. rewrite is_internal_internal, Hf by done. by rewrite internal_header_bytes.
Qed.
Lemma on_server s :
  server_ok s → smh_from_unique_id s ≠ 65535 →
  is_internal (server_bytes s) = false ∧ server_header (server_bytes s) = s.
Proof.
  intros Hs Hf. rewrite is_internal_server, server_header_bytes by done.
  by rewrite (proj2 (Z.eqb_neq _ _)).
Qed.

Lemma rpc_hton_spec b h :
  header_wf h →
  header_wf (rpc_hton b h) ∧ is_internal (rpc_hton b h) = is_internal h ∧
  rpc_ntoh b (rpc_hton b h) = h.
Proof.
  intros Hwf. destruct (header_cases h Hwf) as [(i&Hi&Hf&->)|(s&Hs&Hf&->)].
  - destruct (on_internal i Hi Hf) as [Hb Hh]. unfold rpc_ntoh, rpc_hton.
    rewrite !Hb, Hh. unfold internal_hton, internal_ntoh. by rewrite Hb, Hh.
  - destruct (on_server s Hs Hf) as [Hb Hh].
    destruct (server_hton_fields b s Hs) as [Hs' Hback].
    assert (smh_from_unique_id (server_hton b s) ≠ 65535) as Hf'.
    { destruct b; [|done]. simpl.
      rewrite (hton_marker _ (server_from_range s Hs)). done. }
    destruct (on_server _ Hs' Hf') as [Hb' Hh'].
    unfold rpc_ntoh, rpc_hton. rewrite !Hb, Hh, !Hb', Hh', Hback.
    split; [by apply server_bytes_wf|done].
Qed.

(** The part of a header a reply must not disturb. *)
Definition routing (h : common_msg_header) : Z * Z * Z := (call_id h, msg_length h, result h).

(** What every accessor sees of each struct. *)
Lemma internal_views i :
  internal_ok i → imh_flag i = 65535 →
  let h := internal_bytes i in
  is_internal h = true ∧ routing h = (imh_call_id i, imh_len i, imh_result i) ∧
  is_reply h = mo_is_reply (imh_option i) ∧
  need_reply h = negb (mo_is_reply (imh_option i)) && negb (mo_is_one_way (imh_option i)).
Proof.
  intros Hi Hf. destruct (on_internal i Hi Hf) as [Hb Hh].
  unfold routing, call_id, msg_length, result, is_reply, need_reply. cbv zeta.
  by rewrite Hb, Hh.
Qed.
Lemma server_views s :
  server_ok s → smh_from_unique_id s ≠ 65535 →
  let h := server_bytes s in
  let p := to_protocol (smh_protocol_id s) in
  is_internal h = false ∧ routing h = (smh_call_id s, smh_length s, smh_result s) ∧
  is_reply h = fp_is_reply p ∧ need_reply h = negb (fp_is_reply p) && fp_need_reply p.
Proof.
  intros Hs Hf. destruct (on_server s Hs Hf) as [Hb Hh].
  unfold routing, call_id, msg_length, result, is_reply, need_reply. cbv zeta.
  by rewrite Hb, Hh.
Qed.

Lemma reply_protocol_range p : 0 ≤ reply_protocol p < 2 ^ 32.
Proof. apply (le_val_bound (common_protocol_bytes _)), common_protocol_bytes_ok. Qed.
Lemma reply_protocol_flags p :
  fp_is_reply (to_protocol (reply_protocol p)) = true.
Proof.
  unfold reply_protocol. rewrite to_protocol_pack; [done|].
  destruct (to_protocol_ok p) as (?&?&?). done.
Qed.

Definition accessors_agree (h : common_msg_header) (n r : Z) : Prop :=
  routing (set_msg_length h n) = (call_id h, n, result h) ∧
  routing (set_call_id h n) = (n, msg_length h, result h) ∧
  routing (set_result h r) = (call_id h, msg_length h, r) ∧
  routing (reply h true) = routing h ∧
  is_reply (reply h true) = true ∧ need_reply (reply h true) = false ∧
  is_internal (set_msg_length h n) = is_internal h ∧
  is_internal (set_call_id h n) = is_internal h ∧
  is_internal (set_result h r) = is_internal h ∧
  is_internal (reply h true) = is_internal h.

Lemma internal_accessors i n r :
  internal_ok i → imh_flag i = 65535 → 0 ≤ n < 2 ^ 32 → 0 ≤ r < 2 ^ 16 →
  accessors_agree (internal_bytes i) n r.
Proof.
  intros Hi Hf Hn Hr. destruct (on_internal i Hi Hf) as [Hb Hh].
  destruct (internal_views i Hi Hf) as (_&Hrt&_). unfold routing in Hrt.
  injection Hrt as Hc Hl Hre.
  unfold accessors_agree, set_msg_length, set_call_id, set_result, reply.
  rewrite !Hb, !Hh. unfold routing at 5. rewrite !Hc, !Hl, !Hre.
  destruct i as [f re o rb c l hash]. unfold internal_ok, field_ok in *.
  cbn [imh_flag imh_result imh_option imh_reserve_bytes imh_call_id imh_len imh_hash] in *.
  pose proof (internal_views (InternalMsgHeader f re o rb c n hash)) as (?&->&_);
    [unfold internal_ok, field_ok; simpl; naive_solver lia|done|].
  pose proof (internal_views (InternalMsgHeader f re o rb n l hash)) as (?&->&_);
    [unfold internal_ok, field_ok; simpl; naive_solver lia|done|].
  pose proof (internal_views (InternalMsgHeader f r o rb c l hash)) as (?&->&_);
    [unfold internal_ok, field_ok; simpl; naive_solver lia|done|].
  pose proof (internal_views (InternalMsgHeader f re (set_option_reply o true) rb c l hash))
    as (?&->&->&->); [unfold internal_ok, field_ok; simpl; naive_solver lia|done|].
  done.
Qed.

Lemma server_accessors s n r :
  server_ok s → smh_from_unique_id s ≠ 65535 → 0 ≤ n < 2 ^ 32 → 0 ≤ r < 2 ^ 16 →
  accessors_agree (server_bytes s) n r.
Proof.
  intros Hs Hf Hn Hr. destruct (on_server s Hs Hf) as [Hb Hh].
  destruct (server_views s Hs Hf) as (_&Hrt&_). unfold routing in Hrt.
  injection Hrt as Hc Hl Hre.
  unfold accessors_agree, set_msg_length, set_call_id, set_result, reply.
  rewrite !Hb, !Hh. unfold routing at 5. rewrite !Hc, !Hl, !Hre.
  destruct s as [f t c i re v p l].
  assert (∀ i re p l, 0 ≤ i < 2 ^ 32 → 0 ≤ re < 2 ^ 16 → 0 ≤ p < 2 ^ 32 → 0 ≤ l < 2 ^ 32 →
    server_ok (ServerMsgHeader f t c i re v p l)) as Hok.
  { unfold server_ok, server_sizes, server_fields, field_ok in *. simpl in *.
    intros. rewrite !Forall2_cons in *. naive_solver lia. }
  assert (0 ≤ i < 2 ^ 32 ∧ 0 ≤ re < 2 ^ 16 ∧ 0 ≤ p < 2 ^ 32 ∧ 0 ≤ l < 2 ^ 32) as (?&?&?&?).
  { unfold server_ok, server_sizes, server_fields, field_ok in *. simpl in *.
    rewrite !Forall2_cons in *. naive_solver lia. }
  cbn [smh_from_unique_id smh_to_unique_id smh_conn_id smh_call_id smh_result
    smh_reserve_bytes smh_protocol_id smh_length] in *.
  pose proof (server_views (ServerMsgHeader f t c i re v p n)) as (?&->&_); [auto..|].
  pose proof (server_views (ServerMsgHeader f t c n re v p l)) as (?&->&_); [auto..|].
  pose proof (server_views (ServerMsgHeader f t c i r v p l)) as (?&->&_); [auto..|].
  pose proof (server_views (ServerMsgHeader f t c i re v (reply_protocol p) l))
    as (?&->&->&->); [auto using reply_protocol_range|done|].
  cbn [smh_from_unique_id smh_to_unique_id smh_conn_id smh_call_id smh_result
    smh_reserve_bytes smh_protocol_id smh_length].
  by rewrite reply_protocol_flags.
Qed.

(** A server header's bytes read as the other struct. *)
Lemma server_as_internal s :
  internal_header (server_bytes s) =
    {| imh_flag := le_val (le_bytes 2 (smh_from_unique_id s));
       imh_result := le_val (le_bytes 2 (smh_to_unique_id s));
       imh_option := imh_option (internal_header (server_bytes s));
       imh_reserve_bytes := imh_reserve_bytes (internal_header (server_bytes s));
       imh_call_id := le_val (le_bytes 4 (smh_call_id s));
       imh_len := le_val (le_bytes 2 (smh_result s) ++ le_bytes 2 (smh_reserve_bytes s));
       imh_hash := le_val (le_bytes 4 (smh_protocol_id s) ++ le_bytes 4 (smh_length s)) |}.
Proof. reflexivity. Qed.

(** ** Properties *)

(** A converted rpc header is converted back. For every 24-byte header, internal or
    not, and either setting of the byte-order flag, [ntoh] after [hton] restores the
    header, and the conversion never changes which of the two structs the header is read
    as. *)
Theorem rpc_header_ntoh_hton b h :
  header_wf h → is_internal (rpc_hton b h) = is_internal h ∧ rpc_ntoh b (rpc_hton b h) = h.
Proof. intros Hwf. by destruct (rpc_hton_spec b h Hwf) as (_&?&?). Qed.

Lemma rpc_header_ntoh_hton_witness :
  rpc_ntoh true (rpc_hton true (msg_header_server 1 2 3 4 5 6 7)) =
    msg_header_server 1 2 3 4 5 6 7.
Proof.
  apply (rpc_header_ntoh_hton true (msg_header_server 1 2 3 4 5 6 7)).
  split; [|done]. by apply (bool_decide_eq_true_1 _).
Defined.

Lemma header_accessors_agree h n r :
  header_wf h → 0 ≤ n < 2 ^ 32 → 0 ≤ r < 2 ^ 16 → accessors_agree h n r.
Proof.
  intros Hwf Hn Hr. destruct (header_cases h Hwf) as [(i&?&?&->)|(s&?&?&->)];
    [by apply internal_accessors|by apply server_accessors].
Qed.
Lemma call_id_set_call_id h n :
  header_wf h → 0 ≤ n < 2 ^ 32 → call_id (set_call_id h n) = n.
Proof.
  intros Hwf Hn. destruct (header_accessors_agree h n 0) as (_ & H & _); [done..|].
  unfold routing in H. congruence.
Qed.

(** The accessors implement one header over both structs. Setting the length, the
    call id or the result reads back, keeps the other two and the struct; [reply(true)]
    makes the header a reply that needs no reply and keeps all three. *)
Theorem rpc_header_accessors h n r :
  header_wf h → 0 ≤ n < 2 ^ 32 → 0 ≤ r < 2 ^ 16 →
  routing (set_msg_length h n) = (call_id h, n, result h) ∧
  routing (set_call_id h n) = (n, msg_length h, result h) ∧
  routing (set_result h r) = (call_id h, msg_length h, r) ∧
  routing (reply h true) = routing h ∧
  is_reply (reply h true) = true ∧ need_reply (reply h true) = false ∧
  is_internal (set_msg_length h n) = is_internal h ∧
  is_internal (set_call_id h n) = is_internal h ∧
  is_internal (set_result h r) = is_internal h ∧
  is_internal (reply h true) = is_internal h.
Proof. apply header_accessors_agree. Qed.

Lemma rpc_header_accessors_witness :
  routing (set_msg_length (msg_header_internal 0 (MsgOption false true 1 0 0) 9 8 7) 100)
    = (9, 100, 0).
Proof.
  apply (rpc_header_accessors
    (msg_header_internal 0 (MsgOption false true 1 0 0) 9 8 7) 100 0); [|done..].
  split; [|done]. by apply (bool_decide_eq_true_1 _).
Defined.

(** Defect: A server header whose sender id is 65535 is taken for an internal one.
    The marker shares its bytes with [from_unique_id], which any 16-bit server id may
    fill: the announced body length is then read from the result code, the result from
    the receiver's id, and the protocol number from the last eight bytes. *)
Theorem server_id_collides_with_marker to_id conn_id call_id code protocol len :
  server_ok (server_init 65535 to_id conn_id call_id code protocol len) →
  let h := msg_header_server 65535 to_id conn_id call_id code protocol len in
  is_internal h = true ∧ msg_length h = code ∧ result h = to_id ∧
  proto h = protocol + len * 2 ^ 32.
Proof.
  intros Hok. cbv zeta. unfold msg_header_server, msg_length, result, proto.
  rewrite !is_internal_server by done. change (_ =? 65535) with true. cbv iota.
  rewrite server_as_internal.
  unfold server_ok, server_sizes, server_fields, server_init, field_ok in Hok.
  rewrite !Forall2_cons in Hok. simpl in Hok.
  destruct Hok as ([_ ?]&[_ ?]&[_ ?]&[_ ?]&[_ ?]&[_ ?]&[_ ?]&[_ ?]&_).
  cbn [imh_result imh_len imh_hash]. rewrite !le_val_app by by apply le_bytes_ok.
  rewrite !le_bytes_length, !le_val_bytes by lia. simpl smh_reserve_bytes.
  cbn [server_init smh_to_unique_id smh_result smh_protocol_id smh_length].
  rewrite !Z.mod_small by (simpl; lia). split_and!; [done|lia|done|simpl; lia].
Qed.

Lemma server_id_collides_with_marker_witness :
  is_internal (msg_header_server 65535 2 3 4 5 6 7) = true ∧
  msg_length (msg_header_server 65535 2 3 4 5 6 7) = 5.
Proof.
  destruct (server_id_collides_with_marker 2 3 4 5 6 7) as (H1&H2&_).
  - unfold server_ok. repeat apply Forall2_cons_2; try done.
  - split; [exact H1|exact H2].
Defined.
