(* ===== verification/Reader.v ===== *)
(** * Reassembling messages ([connection_reader], [network/net/tcp_connect.hpp])

    The reader keeps the bytes it has not consumed at the front of a fixed
    buffer, tells the transport how much more it wants, and cuts the buffer
    into messages.  [async_read] of the transport is modelled by what its
    documentation says: ask the completion condition, receive some bytes, ask
    again.  What [memcpy] does on overlapping ranges is a parameter. *)
From stdpp Require Import base option list numbers list_numbers.
From S2P Require Import Prelude MemoryStream RawMsg.
Local Open Scope Z_scope.

(** ** Definitions *)
Definition CLIENT_MSG_BUFF_MAX : Z := 1024 * 100.
(** [(size_t)-1] *)
Definition npos : Z := 2 ^ 64 - 1.

Section reader.
Context `{ALLOC : Allocator} {H : Type} `{HDR : Header H}.
(** The process's byte-order flag, the transport's cap on a single receive,
    and [memcpy] within one buffer: destination, source, length. *)
Context (big_endian : bool) (max_transfer : Z)
        (memcpy_within : list Z → Z → Z → Z → ub (list Z)).

Record connection_reader := Reader {
  buff_ : list Z;
  header_ : H;
  cur_len_ : Z;
  remain_len_ : Z;
  cur_index_ : Z;
  msg_list_ : list (basic_msg H);
  is_valid_ : bool
}.

Definition reader_new : connection_reader :=
  {| buff_ := replicate (Z.to_nat CLIENT_MSG_BUFF_MAX) 0;
     header_ := header_of_bytes (replicate (Z.to_nat header_size) 0);
     cur_len_ := npos; remain_len_ := 0; cur_index_ := 0; msg_list_ := [];
     is_valid_ := true |}.

(** The reader and the offset and size of the buffer to receive into. *)
Definition prepare_next_recv (r : connection_reader) : connection_reader * Z * Z :=
  ({| buff_ := buff_ r; header_ := header_ r; cur_len_ := cur_len_ r;
      remain_len_ := remain_len_ r; cur_index_ := 0; msg_list_ := [];
      is_valid_ := is_valid_ r |},
   remain_len_ r, CLIENT_MSG_BUFF_MAX - remain_len_ r).

Definition bad_length (n : Z) : bool := (CLIENT_MSG_BUFF_MAX <? n) || (n <? header_size).

Definition parse_header (r : connection_reader) (src : Z) : ub (bool * connection_reader) :=
  bs ← read_at (buff_ r) src header_size;
  let h := header_ntoh big_endian (header_of_bytes bs) in
  let n := u64 (header_size + header_length h) in
  let r' (valid : bool) :=
    {| buff_ := buff_ r; header_ := h; cur_len_ := n; remain_len_ := remain_len_ r;
       cur_index_ := cur_index_ r; msg_list_ := msg_list_ r; is_valid_ := valid |} in
  if bad_length n then Def (false, r' false) else Def (true, r' (is_valid_ r)).

Definition completion_condition (r : connection_reader) (err : bool) (bytes_transfered : Z)
    : ub (Z * connection_reader) :=
  if err then Def (0, r)
  else
    let data_len := remain_len_ r + bytes_transfered in
    _ ← assert_ub (data_len <=? CLIENT_MSG_BUFF_MAX);
    let finish (r : connection_reader) :=
      Def (if cur_len_ r <=? data_len then 0 else max_transfer, r) in
    if (cur_len_ r =? npos) && (header_size <=? data_len) then
      '(ok, r) ← parse_header r 0;
      if ok : bool then finish r else Def (0, r)
    else finish r.

(** The message at [pnext] of the buffer, whose header has been parsed. *)
Definition make_msg (r : connection_reader) (pnext : Z) : ub (basic_msg H) :=
  let msg := basic_msg_of_header (header_ r) in
  if 0 <? header_length (header_ r) then
    payload ← read_at (buff_ r) (pnext + header_size) (header_length (header_ r));
    raw ← deref (body_raw_data (m_body msg));
    raw' ← write_at raw 0 payload;
    Def (BasicMsg (m_header msg)
           {| mb_data := Some raw'; mb_block := mb_block (m_body msg);
              mb_length := mb_length (m_body msg); mb_offset := mb_offset (m_body msg) |})
  else Def msg.

(** The while loop: the reader, [pnext] and [parse_ok] when it ends. *)
Fixpoint parse_loop (fuel : nat) (r : connection_reader) (pnext : Z)
    : ub (connection_reader * Z * bool) :=
  match fuel with
  | O => Undef
  | S fuel =>
      if negb (cur_len_ r =? npos) then
        if bad_length (cur_len_ r) then Def (r, pnext, false)
        else if cur_len_ r <=? remain_len_ r then
          msg ← make_msg r pnext;
          parse_loop fuel
            {| buff_ := buff_ r; header_ := header_ r; cur_len_ := npos;
               remain_len_ := remain_len_ r - cur_len_ r;
               cur_index_ := cur_index_ r + cur_len_ r;
               msg_list_ := msg_list_ r ++ [msg]; is_valid_ := is_valid_ r |}
            (pnext + cur_len_ r)
        else Def (r, pnext, true)
      else if header_size <=? remain_len_ r then
        '(_, r) ← parse_header r pnext;
        parse_loop fuel r pnext
      else Def (r, pnext, true)
  end.

Definition parse (r : connection_reader) (bytes_transfered : Z) : ub (bool * connection_reader) :=
  let r := {| buff_ := buff_ r; header_ := header_ r; cur_len_ := cur_len_ r;
              remain_len_ := remain_len_ r + bytes_transfered;
              cur_index_ := cur_index_ r; msg_list_ := msg_list_ r;
              is_valid_ := is_valid_ r |} in
  _ ← assert_ub (remain_len_ r <=? CLIENT_MSG_BUFF_MAX);
  '(r, pnext, parse_ok) ← parse_loop (2 * Z.to_nat (remain_len_ r) + 3) r 0;
  if pnext =? 0 then Def (false, r)
  else if parse_ok && (0 <? remain_len_ r) then
    buff ← memcpy_within (buff_ r) 0 pnext (remain_len_ r);
    Def (parse_ok,
         {| buff_ := buff; header_ := header_ r; cur_len_ := cur_len_ r;
            remain_len_ := remain_len_ r; cur_index_ := cur_index_ r;
            msg_list_ := msg_list_ r; is_valid_ := is_valid_ r |})
  else Def (parse_ok, r).

Definition reader_reset (r : connection_reader) : connection_reader :=
  {| buff_ := buff_ r; header_ := set_length_field (header_ r) 0; cur_len_ := npos;
     remain_len_ := 0; cur_index_ := 0; msg_list_ := []; is_valid_ := true |}.
Definition get_msgs (r : connection_reader) : list (basic_msg H) := msg_list_ r.
Definition reader_is_valid (r : connection_reader) : bool :=
  is_valid_ r && (cur_len_ r <=? CLIENT_MSG_BUFF_MAX).

(** *** One receive: [async_read(socket_, recv_buff, completion_condition)]

    The peer's bytes arrive in segments; a receive takes what the condition
    and the buffer allow from the first of them. *)
Inductive recv_result :=
| Received (r : connection_reader) (bytes_transfered : Z) (segs : list (list Z))
| Waiting (r : connection_reader) (bytes_transfered : Z).

Fixpoint async_read (fuel : nat) (r : connection_reader) (off size total : Z)
    (segs : list (list Z)) : ub recv_result :=
  '(want, r) ← completion_condition r false total;
  let n := Z.min want (size - total) in
  if n =? 0 then Def (Received r total segs)
  else
    match fuel, segs with
    | _, [] => Def (Waiting r total)
    | O, _ => Undef
    | S fuel, seg :: segs =>
        let got := take (Z.to_nat n) seg in
        buff ← write_at (buff_ r) (off + total) got;
        async_read fuel
          {| buff_ := buff; header_ := header_ r; cur_len_ := cur_len_ r;
             remain_len_ := remain_len_ r; cur_index_ := cur_index_ r;
             msg_list_ := msg_list_ r; is_valid_ := is_valid_ r |}
          off size (total + Z.of_nat (length got))
          (if Z.of_nat (length seg) <=? n then segs
           else drop (Z.to_nat n) seg :: segs)
    end.

(** Enough receives for every byte to arrive. *)
Definition segs_fuel (segs : list (list Z)) : nat :=
  length (concat segs) + length segs.

(** *** The read cycle of the connection

    [async_sequence_read] followed by [handle_sequence_read], repeated: the
    batches handed to the router, and how the cycle stands at the end. *)
Inductive read_end :=
| Blocked (r : connection_reader) (bytes_transfered : Z)
| Disconnected (r : connection_reader).

Fixpoint read_cycle (fuel : nat) (r : connection_reader) (segs : list (list Z))
    : ub (list (list (basic_msg H)) * read_end) :=
  match fuel with
  | O => Undef
  | S fuel =>
      let '(r, off, size) := prepare_next_recv r in
      res ← async_read (segs_fuel segs) r off size 0 segs;
      match res with
      | Waiting r total => Def ([], Blocked r total)
      | Received r total segs =>
          if (total =? 0) || negb (reader_is_valid r) then Def ([], Disconnected r)
          else
            '(has_msg, r) ← parse r total;
            if has_msg : bool then
              '(batches, e) ← read_cycle fuel r segs;
              Def (get_msgs r :: batches, e)
            else read_cycle fuel (reader_reset r) segs
      end
  end.
End reader.
Arguments connection_reader H : clear implicits.

(** ** [memcpy] on one buffer *)
Definition memmove_within (buf : list Z) (dst src n : Z) : ub (list Z) :=
  bs ← read_at buf src n; write_at buf dst bs.
(** The standard's [memcpy]: overlapping ranges are undefined. *)
Definition memcpy_strict (buf : list Z) (dst src n : Z) : ub (list Z) :=
  _ ← assert_ub ((dst + n <=? src) || (src + n <=? dst));
  memmove_within buf dst src n.

(** ** The specification: cutting a byte string into frames *)
Section deframe.
Context {H : Type} `{HDR : Header H} (big_endian : bool).

(** The header in front of some bytes and the size of its message. *)
Definition first_header (bs : list Z) : H :=
  header_ntoh big_endian (header_of_bytes (take (Z.to_nat header_size) bs)).
Definition need (bs : list Z) : Z := header_size + header_length (first_header bs).

(** The frames at the front, and the bytes left over; [None] when a header
    announces more than the buffer holds. *)
Fixpoint deframe_fuel (fuel : nat) (bs : list Z) : list (H * list Z) * option (list Z) :=
  match fuel with
  | O => ([], Some bs)
  | S fuel =>
      if Z.of_nat (length bs) <? header_size then ([], Some bs)
      else if CLIENT_MSG_BUFF_MAX <? need bs then ([], None)
      else if Z.of_nat (length bs) <? need bs then ([], Some bs)
      else
        let '(ms, o) := deframe_fuel fuel (drop (Z.to_nat (need bs)) bs) in
        ((first_header bs,
          take (Z.to_nat (header_length (first_header bs)))
            (drop (Z.to_nat header_size) bs)) :: ms, o)
  end.
Definition deframe (bs : list Z) := deframe_fuel (length bs) bs.

Lemma first_header_ok bs :
  bytes_ok bs → header_size ≤ Z.of_nat (length bs) → header_ok (first_header bs).
Proof.
  intros Hbs Hl. pose proof header_size_pos. apply header_parse_ok; [by apply Forall_take|].
  rewrite length_take. lia.
Qed.
Lemma need_range bs :
  bytes_ok bs → header_size ≤ Z.of_nat (length bs) →
  0 < header_size ≤ need bs ∧ need bs < 2 ^ 33.
Proof.
  intros Hbs Hl. pose proof header_size_pos.
  pose proof (header_length_range _ (first_header_ok bs Hbs Hl)).
  unfold need. lia.
Qed.
Lemma first_header_app p q :
  header_size ≤ Z.of_nat (length p) → first_header (p ++ q) = first_header p.
Proof.
  intros. pose proof header_size_pos. unfold first_header. by rewrite take_app_le by lia.
Qed.
Lemma need_app p q : header_size ≤ Z.of_nat (length p) → need (p ++ q) = need p.
Proof. intros. unfold need. by rewrite first_header_app. Qed.

Lemma deframe_fuel_enough k bs :
  bytes_ok bs → (length bs ≤ k)%nat → deframe_fuel k bs = deframe bs.
Proof.
  unfold deframe. remember (length bs) as n eqn:Hn. revert k bs Hn.
  induction (lt_wf n) as [n _ IH]. intros k bs -> Hbs Hk.
  destruct bs as [|b bs]; [destruct k; simpl; try done; pose proof header_size_pos; zcases|].
  destruct k as [|k]; [simpl in Hk; lia|].
  cbn [length deframe_fuel]. zcase; [done|]. zcase; [done|]. zcase; [done|].
  pose proof (need_range (b :: bs) Hbs ltac:(simpl length; lia)).
  set (d := drop (Z.to_nat (need (b :: bs))) (b :: bs)).
  assert (length d ≤ length bs)%nat as Hd
    by (unfold d; rewrite length_drop; cbn [length]; lia).
  assert (bytes_ok d) by by apply Forall_drop.
  assert (length d < length (b :: bs))%nat as Hlt by (cbn [length]; lia).
  cbn [length] in Hk.
  by rewrite (IH _ Hlt k d), (IH _ Hlt (length bs) d) by (done || lia).
Qed.

Lemma deframe_unfold bs :
  bytes_ok bs →
  deframe bs =
    if Z.of_nat (length bs) <? header_size then ([], Some bs)
    else if CLIENT_MSG_BUFF_MAX <? need bs then ([], None)
    else if Z.of_nat (length bs) <? need bs then ([], Some bs)
    else
      let '(ms, o) := deframe (drop (Z.to_nat (need bs)) bs) in
      ((first_header bs,
        take (Z.to_nat (header_length (first_header bs)))
          (drop (Z.to_nat header_size) bs)) :: ms, o).
Proof.
  intros Hbs. rewrite <-(deframe_fuel_enough (S (length bs)) bs) by (done || lia).
  cbn [deframe_fuel]. do 3 (zcase; [done|]).
  rewrite deframe_fuel_enough; [done|by apply Forall_drop|rewrite length_drop; lia].
Qed.

(** A frame at the front is complete. *)
Definition complete (p : list Z) : bool :=
  (header_size <=? Z.of_nat (length p)) && (need p <=? Z.of_nat (length p)).
Definition acceptable (p : list Z) : Prop :=
  header_size ≤ Z.of_nat (length p) → need p ≤ CLIENT_MSG_BUFF_MAX.

Lemma complete_nil : complete [] = false.
Proof. pose proof header_size_pos. unfold complete. simpl. zcases. Qed.
Lemma acceptable_nil : acceptable [].
Proof. pose proof header_size_pos. unfold acceptable. simpl. lia. Qed.

Lemma acceptable_app p q : acceptable (p ++ q) → acceptable p.
Proof.
  intros Hg Hl. rewrite <-(need_app p q) by done. apply Hg.
  rewrite length_app. lia.
Qed.
Lemma deframe_acceptable bs ms rest :
  bytes_ok bs → deframe bs = (ms, Some rest) → acceptable bs.
Proof.
  intros Hbs. rewrite deframe_unfold by done. unfold acceptable.
  intros Hd Hl. revert Hd. repeat (zcase; try lia). done.
Qed.

Lemma deframe_app p q :
  bytes_ok p → bytes_ok q →
  match deframe p with
  | (ms, Some rest) =>
      complete rest = false ∧ (∃ used, p = used ++ rest ∧ (ms = [] → used = []) ∧
        (ms ≠ [] → used ≠ [])) ∧
      (complete p = true → ms ≠ []) ∧
      deframe (p ++ q) =
        (ms ++ (deframe (rest ++ q)).1, (deframe (rest ++ q)).2)
  | (ms, None) => deframe (p ++ q) = (ms, None)
  end.
Proof.
  remember (length p) as n eqn:Hn. revert p Hn.
  induction (lt_wf n) as [n _ IH]. intros p -> Hp Hq.
  assert (bytes_ok (p ++ q)) as Hpq by by apply Forall_app.
  rewrite (deframe_unfold p Hp). unfold complete at 1.
  assert (deframe (p ++ q) = ([] ++ (deframe (p ++ q)).1, (deframe (p ++ q)).2)) as Hid
    by by destruct (deframe (p ++ q)).
  zcase.
  { split; [unfold complete; zcases|]. split; [by exists []|].
    split; [unfold complete; zcases|done]. }
  zcase.
  { rewrite (deframe_unfold (p ++ q)), need_app, length_app by done.
    zcase; [lia|]. zcases. }
  zcase.
  { split; [unfold complete; zcases|]. split; [by exists []|].
    split; [unfold complete; zcases|done]. }
  pose proof (need_range p Hp ltac:(lia)) as [Hneed _].
  set (k := Z.to_nat (need p)) in *.
  assert (bytes_ok (drop k p)) as Hdrop by by apply Forall_drop.
  specialize (IH (length (drop k p)) ltac:(rewrite length_drop; lia) _ eq_refl Hdrop Hq).
  assert (deframe (p ++ q) =
    let '(ms, o) := deframe (drop k p ++ q) in
    ((first_header p, take (Z.to_nat (header_length (first_header p)))
       (drop (Z.to_nat header_size) p)) :: ms, o)) as Heq.
  { rewrite (deframe_unfold (p ++ q)), need_app, length_app by (done || lia).
    zcase; [lia|]. zcase; [lia|]. zcase; [lia|]. fold k.
    rewrite drop_app_le by lia. rewrite first_header_app by lia.
    rewrite (drop_app_le p q (Z.to_nat header_size)) by lia.
    rewrite take_app_le; [done|]. rewrite length_drop. unfold need in *. lia. }
  destruct (deframe (drop k p)) as [ms [rest|]] eqn:Hd.
  - destruct IH as (Hr&(used&Hused&_&_)&_&IH). split; [done|]. split; [|split].
    + exists (take k p ++ used). rewrite <-app_assoc, <-Hused, take_drop.
      split; [done|]. split; [done|]. intros _ Hnil.
      apply app_nil in Hnil as [Hnil _]. apply (f_equal length) in Hnil.
      rewrite length_take in Hnil. simpl in Hnil. lia.
    + done.
    + rewrite Heq, IH. done.
  - by rewrite Heq, IH.
Qed.
End deframe.

(** ** The reader implements the specification *)
Section reader_lemmas.
Context `{ALLOC : Allocator} {H : Type} `{HDR : Header H}.
Context (big_endian : bool) (max_transfer : Z) (Hmax : 0 < max_transfer).
Implicit Types r : connection_reader H.
#[local] Notation need := (need big_endian).
#[local] Notation first_header := (first_header big_endian).
#[local] Notation complete := (complete big_endian).
#[local] Notation deframe := (deframe big_endian).
#[local] Notation acceptable := (acceptable big_endian).

(** The message made of a header and its payload. *)
Definition framed_msg (hp : H * list Z) : basic_msg H :=
  BasicMsg hp.1
    (if 0 <? header_length hp.1
     then MsgBody (Some hp.2) true (header_length hp.1) 0 else empty_body).

Definition header_known r (p : list Z) : Prop :=
  cur_len_ r = npos ∨
  (header_size ≤ Z.of_nat (length p) ∧ header_ r = first_header p ∧
   cur_len_ r = need p ∧ need p ≤ CLIENT_MSG_BUFF_MAX).

(** [p]: the bytes of the stream not yet cut into messages, the last [total]
    of which arrived in the receive under way. *)
Definition reader_inv r (total : Z) (p : list Z) : Prop :=
  ∃ tail, buff_ r = p ++ tail ∧
    Z.of_nat (length p + length tail) = CLIENT_MSG_BUFF_MAX ∧ bytes_ok p ∧
    remain_len_ r + total = Z.of_nat (length p) ∧ is_valid_ r = true ∧ header_known r p.

Lemma buff_max_size : header_size < CLIENT_MSG_BUFF_MAX < 2 ^ 31.
Proof. pose proof header_size_pos. unfold CLIENT_MSG_BUFF_MAX. lia. Qed.

Lemma bad_length_need p :
  bytes_ok p → header_size ≤ Z.of_nat (length p) →
  u64 (need p) = need p ∧ bad_length (need p) = (CLIENT_MSG_BUFF_MAX <? need p).
Proof.
  intros Hp Hl. pose proof (need_range big_endian p Hp Hl). split.
  - unfold u64. apply Z.mod_small. lia.
  - unfold bad_length. destruct (Z.ltb_spec (need p) header_size); [lia|].
    by rewrite orb_false_r.
Qed.

Lemma parse_header_spec r pre p tail :
  buff_ r = pre ++ p ++ tail → bytes_ok p → header_size ≤ Z.of_nat (length p) →
  parse_header big_endian r (Z.of_nat (length pre)) =
    Def (negb (CLIENT_MSG_BUFF_MAX <? need p),
         {| buff_ := buff_ r; header_ := first_header p; cur_len_ := need p;
            remain_len_ := remain_len_ r; cur_index_ := cur_index_ r;
            msg_list_ := msg_list_ r;
            is_valid_ := if CLIENT_MSG_BUFF_MAX <? need p then false else is_valid_ r |}).
Proof.
  intros Hb Hp Hl. pose proof header_size_pos as Hpos. unfold parse_header. rewrite Hb.
  set (k := Z.to_nat header_size).
  assert (read_at (pre ++ p ++ tail) (Z.of_nat (length pre)) header_size = Def (take k p)) as ->.
  { rewrite read_at_in by (rewrite ?length_app; lia).
    rewrite Nat2Z.id, drop_app_length, take_app_le by lia. done. }
  cbn [mbind ub_bind]. change (header_ntoh _ _) with (first_header p).
  change (header_size + header_length (first_header p)) with (need p).
  destruct (bad_length_need p Hp Hl) as [-> ->].
  by destruct (_ <? need p).
Qed.

Lemma make_msg_spec r pre p tail :
  buff_ r = pre ++ p ++ tail → bytes_ok p → header_size ≤ Z.of_nat (length p) →
  need p ≤ Z.of_nat (length p) → need p ≤ CLIENT_MSG_BUFF_MAX →
  header_ r = first_header p →
  make_msg r (Z.of_nat (length pre)) =
    Def (framed_msg (first_header p,
      take (Z.to_nat (header_length (first_header p))) (drop (Z.to_nat header_size) p))).
Proof.
  intros Hb Hp Hl Hc Hm Hh. pose proof header_size_pos as Hpos. pose proof buff_max_size.
  pose proof (header_length_range _ (first_header_ok big_endian p Hp Hl)) as Hlen.
  unfold make_msg, framed_msg, basic_msg_of_header, get_header_length. rewrite Hh. simpl.
  unfold need in *. rewrite s32_small by lia. zcase; [|done].
  set (n := header_length (first_header p)) in *.
  assert (read_at (buff_ r) (Z.of_nat (length pre) + header_size) n =
    Def (take (Z.to_nat n) (drop (Z.to_nat header_size) p))) as ->.
  { rewrite Hb, read_at_in by (rewrite ?length_app; lia).
    replace (Z.to_nat (Z.of_nat (length pre) + header_size))
      with (length pre + Z.to_nat header_size)%nat by lia.
    rewrite <-drop_drop, drop_app_length, drop_app_le by lia.
    rewrite take_app_le; [done|]. rewrite length_drop. lia. }
  cbn [mbind ub_bind deref body_raw_data mb_data body_alloc m_body].
  set (payload := take _ _).
  assert (Z.of_nat (length payload) = n) as Hpl
    by (unfold payload; rewrite length_take, length_drop; lia).
  assert (u32 n = n) as -> by (unfold u32; apply Z.mod_small; lia).
  pose proof (fresh_bytes_length n ltac:(lia)) as Hf.
  rewrite write_at_in by lia.
  cbn [mbind ub_bind m_header mb_block mb_length mb_offset body_alloc m_body].
  assert (u32 n = n) as -> by (unfold u32; apply Z.mod_small; lia).
  rewrite drop_ge, app_nil_r by lia. done.
Qed.

(** One turn of the loop that only parses the header. *)
Lemma parse_loop_header fuel r pre p tail :
  buff_ r = pre ++ p ++ tail → bytes_ok p → header_size ≤ Z.of_nat (length p) →
  cur_len_ r = npos → remain_len_ r = Z.of_nat (length p) →
  parse_loop big_endian (S fuel) r (Z.of_nat (length pre)) =
  parse_loop big_endian fuel
    {| buff_ := buff_ r; header_ := first_header p; cur_len_ := need p;
       remain_len_ := remain_len_ r; cur_index_ := cur_index_ r;
       msg_list_ := msg_list_ r;
       is_valid_ := if CLIENT_MSG_BUFF_MAX <? need p then false else is_valid_ r |}
    (Z.of_nat (length pre)).
Proof.
  intros Hb Hp Hl Hcur Hrem. cbn [parse_loop]. rewrite Hcur, Z.eqb_refl. simpl negb.
  cbv iota. destruct (Z.leb_spec header_size (remain_len_ r)); [|lia].
  by rewrite (parse_header_spec r pre p tail).
Qed.

(** What the loop leaves, given what is deframed from [p]. *)
Definition loop_result r pnext (p : list Z) (res : connection_reader H * Z * bool) : Prop :=
  let '(r', pnext', ok) := res in
  let '(ms, o) := deframe p in
  buff_ r' = buff_ r ∧ msg_list_ r' = msg_list_ r ++ (framed_msg <$> ms) ∧
  ok = bool_decide (is_Some o) ∧
  is_valid_ r' = (if ok then is_valid_ r else false) ∧
  match o with
  | Some rest => ∃ used, p = used ++ rest ∧ pnext' = pnext + Z.of_nat (length used) ∧
      remain_len_ r' = Z.of_nat (length rest) ∧ header_known r' rest
  | None => True
  end.

Lemma parse_loop_spec fuel : ∀ r pre p tail,
  buff_ r = pre ++ p ++ tail → bytes_ok p → cur_len_ r = npos →
  remain_len_ r = Z.of_nat (length p) → (2 * length p + 2 ≤ fuel)%nat →
  ∃ res, parse_loop big_endian fuel r (Z.of_nat (length pre)) = Def res ∧
    loop_result r (Z.of_nat (length pre)) p res.
Proof.
  pose proof header_size_pos as Hpos.
  induction (lt_wf fuel) as [fuel _ IH]. intros r pre p tail Hb Hp Hcur Hrem Hfuel.
  destruct fuel as [|fuel]; [lia|].
  unfold loop_result. rewrite (deframe_unfold big_endian p Hp).
  destruct (Z.ltb_spec (Z.of_nat (length p)) header_size) as [Hs|Hs].
  { cbn [parse_loop]. rewrite Hcur, Z.eqb_refl. simpl negb. cbv iota.
    destruct (Z.leb_spec header_size (remain_len_ r)); [lia|].
    eexists. split; [done|]. simpl. rewrite app_nil_r. split_and!; try done.
    exists []. split_and!; try done; [simpl; lia|by left]. }
  rewrite (parse_loop_header fuel r pre p tail) by done.
  pose proof (need_range big_endian p Hp Hs) as Hneed.
  destruct fuel as [|fuel]; [lia|]. cbn [parse_loop cur_len_].
  assert ((need p =? npos) = false) as -> by (apply Z.eqb_neq; unfold npos; lia).
  destruct (bad_length_need p Hp Hs) as [_ Hbad]. rewrite Hbad. cbn [negb remain_len_].
  destruct (Z.ltb_spec CLIENT_MSG_BUFF_MAX (need p)) as [Hm|Hm].
  { eexists. split; [done|]. simpl. rewrite app_nil_r. split_and!; done. }
  rewrite Hrem. destruct (Z.ltb_spec (Z.of_nat (length p)) (need p)) as [Hc|Hc].
  { zcase; [lia|]. eexists. split; [done|]. simpl. rewrite app_nil_r.
    split_and!; try done. exists []. split_and!; try done; [simpl; lia|]. right.
    split_and!; done. }
  zcase; [|lia]. rewrite (make_msg_spec _ pre p tail) by done.
  cbn [mbind ub_bind buff_ header_ cur_index_ msg_list_ is_valid_].
  set (k := Z.to_nat (need p)) in *.
  assert (pre ++ p ++ tail = (pre ++ take k p) ++ drop k p ++ tail) as Hb'.
  { by rewrite <-app_assoc, (app_assoc (take k p)), take_drop. }
  assert (length (pre ++ take k p) = length pre + k)%nat as Hlen.
  { rewrite length_app, length_take. lia. }
  replace (Z.of_nat (length pre) + need p) with (Z.of_nat (length (pre ++ take k p))) by lia.
  set (msg := framed_msg _).
  edestruct (IH fuel ltac:(lia)
    {| buff_ := buff_ r; header_ := first_header p; cur_len_ := npos;
       remain_len_ := Z.of_nat (length p) - need p;
       cur_index_ := cur_index_ r + need p; msg_list_ := msg_list_ r ++ [msg];
       is_valid_ := is_valid_ r |} (pre ++ take k p) (drop k p) tail)
    as ([[r' pnext'] ok]&->&Hres);
    [by rewrite <-Hb'|by apply Forall_drop|done|simpl; rewrite length_drop; lia
    |rewrite length_drop; lia|].
  eexists. split; [done|]. unfold loop_result in Hres.
  destruct (deframe (drop k p)) as [ms o]. simpl in Hres.
  destruct Hres as (H1&H2&H3&H4&H5). split_and!; try done.
  - rewrite H2, <-app_assoc. done.
  - destruct o as [rest|]; [|done]. destruct H5 as (used&Hu&->&?&?).
    exists (take k p ++ used). rewrite <-app_assoc, <-Hu, take_drop.
    split_and!; try done. rewrite !length_app, length_take. lia.
Qed.

Context (memcpy_within : list Z → Z → Z → Z → ub (list Z)).
Context (Hcopy : ∀ buf d s n, memcpy_within buf d s n = memmove_within buf d s n).

Definition reader_view r : Z * Z * list (basic_msg H) :=
  (remain_len_ r, cur_index_ r, msg_list_ r).

Lemma completion_spec r total p :
  reader_inv r total p → acceptable p →
  ∃ r', completion_condition big_endian max_transfer r false total =
      Def (if complete p then 0 else max_transfer, r') ∧
    reader_inv r' total p ∧ remain_len_ r' = remain_len_ r ∧
    msg_list_ r' = msg_list_ r ∧ (complete p = true → cur_len_ r' = need p).
Proof.
  intros (tail&Hb&Hlen&Hp&Hrem&Hv&Hk) Hacc. pose proof header_size_pos as Hpos.
  pose proof buff_max_size. unfold completion_condition. rewrite Hrem.
  destruct (Z.leb_spec (Z.of_nat (length p)) CLIENT_MSG_BUFF_MAX); [|lia].
  cbn [assert_ub mbind ub_bind]. unfold complete at 1.
  destruct (Z.leb_spec header_size (Z.of_nat (length p))) as [Hs|Hs]; simpl andb.
  - specialize (Hacc Hs). pose proof (need_range big_endian p Hp Hs).
    destruct Hk as [Hcur|(_&Hh&Hcur&_)].
    + rewrite Hcur, Z.eqb_refl. cbn [andb].
      pose proof (parse_header_spec r [] p tail Hb Hp Hs) as Hph.
      change (Z.of_nat (length (@nil Z))) with 0 in Hph.
      rewrite Hph. cbn [mbind ub_bind].
      destruct (Z.ltb_spec CLIENT_MSG_BUFF_MAX (need p)); [lia|]. cbn [negb cur_len_].
      eexists. split; [done|]. split; [|done].
      exists tail. split_and!; try done. right. done.
    + assert ((cur_len_ r =? npos) = false) as -> by (apply Z.eqb_neq; unfold npos; lia).
      cbn [andb]. rewrite Hcur. exists r. split; [done|]. split; [|done].
      exists tail. split_and!; try done. by right.
  - rewrite andb_false_r. destruct Hk as [Hcur|(?&_)]; [|lia]. rewrite Hcur.
    destruct (Z.leb_spec npos (Z.of_nat (length p))); [unfold npos in *; lia|].
    exists r. split; [done|]. split; [|split_and!; try done].
    + exists tail. split_and!; try done. by left.
    + unfold complete. destruct (Z.leb_spec header_size (Z.of_nat (length p))); [lia|done].
Qed.

(** A receive under way: bytes appended at the end of [p]. *)
Lemma reader_inv_receive r total p got :
  reader_inv r total p → bytes_ok got →
  Z.of_nat (length p + length got) ≤ CLIENT_MSG_BUFF_MAX →
  ∃ buff, write_at (buff_ r) (remain_len_ r + total) got = Def buff ∧
    reader_inv {| buff_ := buff; header_ := header_ r; cur_len_ := cur_len_ r;
                  remain_len_ := remain_len_ r; cur_index_ := cur_index_ r;
                  msg_list_ := msg_list_ r; is_valid_ := is_valid_ r |}
      (total + Z.of_nat (length got)) (p ++ got).
Proof.
  intros (tail&Hb&Hlen&Hp&Hrem&Hv&Hk) Hgot Hfit.
  rewrite Hb, Hrem. pose proof (write_at_mid p [] tail got ltac:(lia)) as Hw.
  simpl in Hw. rewrite Nat.add_0_r in Hw. rewrite Hw.
  eexists. split; [done|]. exists (drop (length got) tail). simpl.
  rewrite length_app, length_drop. split_and!; try done; try lia.
  - by rewrite <-app_assoc.
  - by apply Forall_app.
  - destruct Hk as [?|(?&?&?&?)]; [by left|right]. simpl.
    rewrite length_app, first_header_app, need_app by done. split_and!; try done. lia.
Qed.

Lemma segs_fuel_pos seg segs : (0 < segs_fuel (seg :: segs))%nat.
Proof. unfold segs_fuel. simpl. lia. Qed.

Lemma async_read_spec fuel : ∀ r total p segs,
  reader_inv r total p → bytes_ok (concat segs) → acceptable (p ++ concat segs) →
  (segs_fuel segs ≤ fuel)%nat →
  ∃ res, async_read big_endian max_transfer fuel r (remain_len_ r)
      (CLIENT_MSG_BUFF_MAX - remain_len_ r) total segs = Def res ∧
    match res with
    | Waiting r' total' =>
        reader_inv r' total' (p ++ concat segs) ∧ complete (p ++ concat segs) = false
    | Received r' total' segs' => ∃ q, concat segs = q ++ concat segs' ∧
        reader_inv r' total' (p ++ q) ∧ complete (p ++ q) = true ∧
        cur_len_ r' = need (p ++ q) ∧ msg_list_ r' = msg_list_ r ∧
        remain_len_ r' = remain_len_ r ∧ (segs_fuel segs' ≤ segs_fuel segs)%nat
    end.
Proof.
  pose proof header_size_pos as Hpos. pose proof buff_max_size as Hmaxs.
  induction fuel as [|fuel IH]; intros r total p segs Hinv Hbs Hacc Hfuel;
    destruct (completion_spec r total p Hinv (acceptable_app _ _ _ Hacc))
      as (r1&Hc&Hinv1&Hrem1&Hmsg1&Hcur1);
    cbn [async_read]; rewrite Hc; cbn [mbind ub_bind];
    (destruct (complete p) eqn:Hcomp;
      [rewrite Z.min_l by (destruct Hinv as (?&?&?&?&?&?); lia);
       eexists; split; [done|]; exists []; rewrite app_nil_r; split_and!; auto|]);
    assert (Z.of_nat (length p) < CLIENT_MSG_BUFF_MAX) as Hroom
      by (unfold complete in Hcomp; pose proof (acceptable_app _ _ _ Hacc) as Ha;
          unfold acceptable in Ha;
          destruct (Z.leb_spec header_size (Z.of_nat (length p))); [|lia];
          destruct (Z.leb_spec (need p) (Z.of_nat (length p))); [done|]; lia);
    assert (remain_len_ r + total = Z.of_nat (length p)) as Hrem
      by (by destruct Hinv as (?&?&?&?&?&?));
    set (n := Z.min max_transfer (CLIENT_MSG_BUFF_MAX - remain_len_ r - total)) in *;
    assert (0 < n ≤ CLIENT_MSG_BUFF_MAX - Z.of_nat (length p)) as Hn by (unfold n; lia);
    (destruct (Z.eqb_spec n 0); [lia|]);
    (destruct segs as [|seg segs];
      [eexists; split; [done|]; by rewrite app_nil_r|]).
  { pose proof (segs_fuel_pos seg segs). lia. }
  set (got := take (Z.to_nat n) seg).
  assert (bytes_ok seg ∧ bytes_ok (concat segs)) as [Hseg Hsegs] by by apply Forall_app.
  assert (bytes_ok got) as Hgot by by apply Forall_take.
  assert (length got = Nat.min (Z.to_nat n) (length seg)) as Hlg
    by (unfold got; by rewrite length_take).
  destruct (reader_inv_receive r1 total p got Hinv1 Hgot ltac:(lia)) as (buff&Hw&Hinv2).
  rewrite <-Hrem1, Hw. cbn [mbind ub_bind].
  set (segs2 := if Z.of_nat (length seg) <=? n then segs else drop (Z.to_nat n) seg :: segs).
  assert (concat (seg :: segs) = got ++ concat segs2) as Hcat.
  { unfold segs2, got. destruct (Z.leb_spec (Z.of_nat (length seg)) n); simpl.
    - by rewrite take_ge by lia.
    - by rewrite app_assoc, take_drop. }
  assert (S (segs_fuel segs2) ≤ segs_fuel (seg :: segs))%nat as Hfuel2.
  { unfold segs_fuel. rewrite Hcat, length_app. unfold segs2.
    destruct (Z.leb_spec (Z.of_nat (length seg)) n); simpl; lia. }
  edestruct (IH _ _ (p ++ got) segs2 Hinv2) as (res&Hrun&Hres).
  { rewrite Hcat in Hbs. by apply Forall_app in Hbs as [_ ?]. }
  { by rewrite <-app_assoc, <-Hcat. }
  { lia. }
  simpl in Hrun. exists res. split; [exact Hrun|].
  rewrite <-app_assoc, <-Hcat in Hres. destruct res as [r' total' segs'|r' total'].
  - destruct Hres as (q&Hq&Hinv'&Hcomp'&Hcur'&Hmsg'&Hrem'&Hf'). exists (got ++ q).
    rewrite Hcat, Hq, <-app_assoc. simpl in *. rewrite <-!app_assoc in *.
    split_and!; done || congruence || lia.
  - done.
Qed.

(** A receive that ended with a complete frame is cut as specified: the
    reader before the left-over bytes are moved to the front. *)
Lemma parse_shape (mw : list Z → Z → Z → Z → ub (list Z)) r total p ms o :
  reader_inv r total p → complete p = true → cur_len_ r = need p → msg_list_ r = [] →
  deframe p = (ms, o) →
  ∃ r1, buff_ r1 = buff_ r ∧ msg_list_ r1 = framed_msg <$> ms ∧
    match o with
    | None => parse big_endian mw r total = Def (false, r1)
    | Some rest => ∃ used, p = used ++ rest ∧ used ≠ [] ∧
        remain_len_ r1 = Z.of_nat (length rest) ∧ header_known r1 rest ∧
        is_valid_ r1 = true ∧
        parse big_endian mw r total =
          if 0 <? Z.of_nat (length rest) then
            buff ← mw (buff_ r) 0 (Z.of_nat (length used)) (Z.of_nat (length rest));
            Def (true, {| buff_ := buff; header_ := header_ r1; cur_len_ := cur_len_ r1;
              remain_len_ := remain_len_ r1; cur_index_ := cur_index_ r1;
              msg_list_ := msg_list_ r1; is_valid_ := is_valid_ r1 |})
          else Def (true, r1)
    end.
Proof.
  intros (tail&Hb&Hlen&Hp&Hrem&Hv&Hk) Hcomp Hcur Hmsg Hd.
  pose proof header_size_pos as Hpos. pose proof buff_max_size as Hmaxs.
  unfold parse. rewrite Hrem. cbn [remain_len_].
  destruct (Z.leb_spec (Z.of_nat (length p)) CLIENT_MSG_BUFF_MAX); [|lia].
  cbn [assert_ub mbind ub_bind].
  pose proof Hcomp as [Hs%Z.leb_le Hc%Z.leb_le]%andb_true_iff.
  pose proof (need_range big_endian p Hp Hs) as Hneed.
  destruct Hk as [Hk|(_&Hh&_&Hm)]; [unfold npos in *; lia|].
  set (r0 := {| buff_ := buff_ r; header_ := header_ r; cur_len_ := npos;
    remain_len_ := Z.of_nat (length p); cur_index_ := cur_index_ r;
    msg_list_ := msg_list_ r; is_valid_ := is_valid_ r |}).
  pose proof (parse_loop_header (2 * Z.to_nat (Z.of_nat (length p)) + 3) r0 [] p tail
    Hb Hp Hs eq_refl eq_refl) as Hstep.
  destruct (Z.ltb_spec CLIENT_MSG_BUFF_MAX (need p)); [lia|].
  change (Z.of_nat (length (@nil Z))) with 0 in Hstep. unfold r0 in Hstep.
  cbn [buff_ remain_len_ cur_index_ msg_list_ is_valid_] in Hstep.
  rewrite Hcur, Hh, <-Hstep. fold r0.
  edestruct (parse_loop_spec (S (2 * Z.to_nat (Z.of_nat (length p)) + 3)) r0 [] p tail
    Hb Hp eq_refl eq_refl ltac:(lia)) as ([[r1 pnext] ok]&Hloop&Hres).
  change (Z.of_nat (length (@nil Z))) with 0 in Hloop, Hres. rewrite Hloop.
  cbn [mbind ub_bind]. unfold loop_result in Hres. rewrite Hd in Hres.
  destruct Hres as (Hb1&Hm1&->&Hv1&Hrest). exists r1.
  split; [done|]. split; [by rewrite Hm1; simpl; rewrite Hmsg|].
  destruct o as [rest|]; [|rewrite bool_decide_false by (by intros []); by destruct (pnext =? 0)].
  rewrite bool_decide_true in * by by eexists. destruct Hrest as (used&Hu&->&Hrem1&Hk1).
  pose proof (deframe_app big_endian p [] Hp ltac:(by constructor)) as Happ.
  rewrite Hd in Happ. destruct Happ as (_&(used'&Hu'&_&Hne)&Hms&_).
  assert (used' = used) as -> by (eapply app_inv_tail; by rewrite <-Hu, <-Hu').
  exists used. split; [done|]. split; [by apply Hne, Hms|]. split; [done|]. split; [done|].
  split; [by rewrite Hv1|]. rewrite Hrem1, Hb1.
  destruct (Z.eqb_spec (0 + Z.of_nat (length used)) 0) as [He|_]; [|done].
  exfalso. apply Hne; [by apply Hms|]. apply length_zero_iff_nil. lia.
Qed.

Lemma parse_spec r total p ms rest :
  reader_inv r total p → complete p = true → cur_len_ r = need p → msg_list_ r = [] →
  deframe p = (ms, Some rest) →
  ∃ r', parse big_endian memcpy_within r total = Def (true, r') ∧
    msg_list_ r' = framed_msg <$> ms ∧ reader_inv r' 0 rest.
Proof.
  intros Hinv Hcomp Hcur Hmsg Hd.
  destruct (parse_shape memcpy_within r total p ms _ Hinv Hcomp Hcur Hmsg Hd)
    as (r1&Hb1&Hm1&used&->&Hused&Hrem1&Hk1&Hv1&->).
  destruct Hinv as (tail&Hb&Hlen&Hp&_). apply Forall_app in Hp as [_ Hp].
  rewrite length_app in Hlen.
  destruct (Z.ltb_spec 0 (Z.of_nat (length rest))) as [Hl|Hl].
  - rewrite Hcopy. unfold memmove_within. rewrite Hb, <-app_assoc.
    rewrite read_at_mid. cbn [mbind ub_bind].
    rewrite write_at_in by (rewrite ?length_app; lia). cbn [mbind ub_bind].
    eexists. split; [done|]. split; [done|]. eexists. simpl.
    split; [done|]. rewrite length_drop, !length_app.
    split_and!; done || congruence || lia.
  - assert (rest = []) as -> by (apply length_zero_iff_nil; lia).
    exists r1. split; [done|]. split; [done|]. exists (buff_ r1). rewrite Hb1.
    simpl. rewrite Hb, !length_app in *. simpl in *.
    split_and!; done || congruence || lia.
Qed.

Lemma zero_buffer_length :
  Z.of_nat (length (@nil Z) + length (replicate (Z.to_nat CLIENT_MSG_BUFF_MAX) 0))
  = CLIENT_MSG_BUFF_MAX.
Proof. rewrite length_replicate, Nat.add_0_l, Z2Nat.id; [reflexivity|apply Z.lt_le_incl, eq_refl]. Qed.

Lemma reader_new_inv : reader_inv reader_new 0 [].
Proof.
  exists (replicate (Z.to_nat CLIENT_MSG_BUFF_MAX) 0). unfold reader_new.
  cbn [buff_ remain_len_ is_valid_].
  split; [reflexivity|]. split; [exact zero_buffer_length|].
  split; [by constructor|]. split; [reflexivity|]. split; [reflexivity|by left].
Qed.

Lemma reader_inv_prepare r p :
  reader_inv r 0 p → reader_inv (prepare_next_recv r).1.1 0 p.
Proof. done. Qed.

Lemma complete_valid r total p :
  reader_inv r total p → complete p = true → cur_len_ r = need p →
  acceptable p → reader_is_valid r = true.
Proof.
  intros (_&_&_&_&_&Hv&_) Hc Hcur Ha. unfold reader_is_valid. rewrite Hv, Hcur. simpl.
  apply andb_true_iff in Hc as [Hs%Z.leb_le _]. by apply Z.leb_le, Ha.
Qed.

Lemma read_cycle_spec fuel : ∀ r p segs ms rest,
  reader_inv r 0 p → complete p = false → bytes_ok (concat segs) →
  deframe (p ++ concat segs) = (ms, Some rest) →
  (length (concat segs) < fuel)%nat →
  ∃ batches r' total,
    read_cycle big_endian max_transfer memcpy_within fuel r segs =
      Def (batches, Blocked r' total) ∧
    concat batches = framed_msg <$> ms ∧ reader_inv r' total rest.
Proof.
  induction fuel as [|fuel IH]; intros r p segs ms rest Hinv Hnc Hbs Hd Hfuel; [lia|].
  cbn [read_cycle prepare_next_recv].
  set (r0 := {| buff_ := buff_ r; header_ := header_ r; cur_len_ := cur_len_ r;
    remain_len_ := remain_len_ r; cur_index_ := 0; msg_list_ := []; is_valid_ := is_valid_ r |}).
  assert (reader_inv r0 0 p) as Hinv0 by done.
  assert (bytes_ok p) as Hp by (by destruct Hinv as (?&?&?&?&?)).
  assert (bytes_ok (p ++ concat segs)) as Hall by by apply Forall_app.
  pose proof (deframe_acceptable big_endian _ _ _ Hall Hd) as Hacc.
  destruct (async_read_spec (segs_fuel segs) r0 0 p segs Hinv0 Hbs Hacc ltac:(lia))
    as (res&Hread&Hres).
  change (remain_len_ r0) with (remain_len_ r) in Hread. rewrite Hread.
  cbn [mbind ub_bind]. destruct res as [r1 total segs1|r1 total].
  - destruct Hres as (q&Hq&Hinv1&Hc1&Hcur1&Hmsg1&Hrem1&_).
    assert (bytes_ok q ∧ bytes_ok (concat segs1)) as [Hqok Hs1]
      by (apply Forall_app; by rewrite <-Hq).
    assert (bytes_ok (p ++ q)) as Hpq by by apply Forall_app.
    assert (q ≠ []) as Hq0 by (intros ->; rewrite app_nil_r in Hc1; congruence).
    assert (total = Z.of_nat (length q)) as Htot.
    { destruct Hinv1 as (_&_&_&_&Ht&_). destruct Hinv as (_&_&_&_&Hr&_).
      rewrite length_app in Ht. change (remain_len_ r0) with (remain_len_ r) in Hrem1. lia. }
    destruct (Z.eqb_spec total 0); [destruct q; [done|simpl in *; lia]|].
    rewrite Hq, app_assoc in Hacc, Hd.
    rewrite (complete_valid r1 total (p ++ q)) by (done || by eapply acceptable_app).
    cbn [orb negb].
    pose proof (deframe_app big_endian (p ++ q) (concat segs1) Hpq Hs1) as Happ.
    destruct (deframe (p ++ q)) as [ms1 [rest1|]] eqn:Hd1; [|congruence].
    destruct Happ as (Hnc1&_&_&Happ). rewrite Happ in Hd. injection Hd as Hms Hrest.
    destruct (parse_spec r1 total (p ++ q) ms1 rest1 Hinv1 Hc1 Hcur1) as
      (r2&Hparse&Hmsg2&Hinv2); [by rewrite Hmsg1|done|].
    rewrite Hparse. cbn [mbind ub_bind].
    assert (deframe (rest1 ++ concat segs1) = ((deframe (rest1 ++ concat segs1)).1, Some rest))
      as Hd2 by (rewrite <-Hrest; apply surjective_pairing).
    assert (length (concat segs1) < fuel)%nat as Hfuel1.
    { apply (f_equal length) in Hq. rewrite length_app in Hq.
      destruct q; [done|simpl in *; lia]. }
    destruct (IH r2 rest1 segs1 _ rest Hinv2 Hnc1 Hs1 Hd2 Hfuel1)
      as (batches&r'&total'&Hrun&Hcat&Hinv').
    rewrite Hrun. cbn [mbind ub_bind]. eexists _, r', total'. split; [done|].
    split; [|done]. simpl. unfold get_msgs. by rewrite Hmsg2, Hcat, <-fmap_app, Hms.
  - destruct Hres as [Hinv1 Hc1].
    assert (ms = [] ∧ rest = p ++ concat segs) as [-> ->].
    { rewrite (deframe_unfold big_endian _ Hall) in Hd. revert Hd.
      unfold complete in Hc1.
      destruct (Z.ltb_spec (Z.of_nat (length (p ++ concat segs))) header_size); [by intros [=]|].
      destruct (Z.leb_spec header_size (Z.of_nat (length (p ++ concat segs)))); [|lia].
      simpl in Hc1. apply Z.leb_gt in Hc1. zcase; [done|]. zcase; [by intros [=]|lia]. }
    by exists [], r1, total.
Qed.

(** A segment the transport delivers in one piece. *)
Lemma async_read_one k r p :
  reader_inv r 0 [] → bytes_ok p → acceptable p → complete p = true →
  Z.of_nat (length p) ≤ max_transfer → Z.of_nat (length p) ≤ CLIENT_MSG_BUFF_MAX →
  ∃ r', async_read big_endian max_transfer (S k) r (remain_len_ r)
      (CLIENT_MSG_BUFF_MAX - remain_len_ r) 0 [p]
      = Def (Received r' (Z.of_nat (length p)) []) ∧
    reader_inv r' (Z.of_nat (length p)) p ∧ cur_len_ r' = need p ∧
    msg_list_ r' = msg_list_ r.
Proof.
  intros Hinv Hp Hacc Hc Hl1 Hl2. pose proof buff_max_size.
  assert (remain_len_ r = 0) as Hr0 by (destruct Hinv as (_&_&_&_&Hr&_); simpl in Hr; lia).
  destruct (completion_spec r 0 [] Hinv (acceptable_nil big_endian))
    as (r1&Hc1&Hinv1&Hrem1&Hmsg1&_).
  cbn [async_read]. rewrite Hc1, complete_nil, Hr0. cbn [mbind ub_bind].
  assert (length p ≠ 0%nat) as Hp0
    by (intros Hz%length_zero_iff_nil; subst; by rewrite complete_nil in Hc).
  destruct (Z.eqb_spec (Z.min max_transfer (CLIENT_MSG_BUFF_MAX - 0 - 0)) 0); [lia|].
  rewrite take_ge by lia.
  destruct (reader_inv_receive r1 0 [] p Hinv1 Hp ltac:(simpl; lia)) as (buff&Hw&Hinv2).
  rewrite Hrem1, Hr0 in Hw. rewrite Hw. cbn [mbind ub_bind].
  destruct (Z.leb_spec (Z.of_nat (length p))
    (Z.min max_transfer (CLIENT_MSG_BUFF_MAX - 0 - 0))); [|lia].
  destruct (completion_spec _ _ _ Hinv2 Hacc) as (r2&Hc2&Hinv3&Hrem2&Hmsg2&Hcur2).
  simpl app in *. rewrite Hc in Hc2. exists r2.
  split; [|split; [done|split; [by apply Hcur2|simpl in Hmsg2; congruence]]].
  destruct k; cbn [async_read]; simpl in Hc2 |- *; rewrite Hc2; cbn [mbind ub_bind];
    rewrite Z.min_l by lia; done.
Qed.

(** Bytes whose first frames are good and whose next header is not. *)
Lemma read_cycle_bad_header mw fuel p ms :
  bytes_ok p → Z.of_nat (length p) ≤ max_transfer →
  Z.of_nat (length p) ≤ CLIENT_MSG_BUFF_MAX →
  deframe p = (ms, None) → ms ≠ [] →
  ∃ r, read_cycle big_endian max_transfer mw (S (S fuel)) reader_new [p]
      = Def ([], Blocked r 0) ∧ reader_inv r 0 [].
Proof.
  intros Hp Hl1 Hl2 Hd Hms. pose proof header_size_pos.
  assert (acceptable p ∧ complete p = true) as [Hacc Hc].
  { rewrite deframe_unfold in Hd by done. unfold acceptable, complete. revert Hd.
    zcase; [done|]. zcase; [by intros [= <-]|]. zcase; [done|]. intros _.
    split; [done|]. apply andb_true_iff. split; by apply Z.leb_le. }
  cbn [read_cycle]. unfold prepare_next_recv.
  pose proof (reader_inv_prepare _ _ reader_new_inv) as Hinv0.
  unfold prepare_next_recv in Hinv0. cbn [fst] in Hinv0.
  set (r0 := {| buff_ := buff_ reader_new |}) in *.
  assert (segs_fuel [p] = S (length p)) as ->
    by (unfold segs_fuel; cbn [concat length]; rewrite app_nil_r; lia).
  destruct (async_read_one (length p) r0 p Hinv0 Hp Hacc Hc Hl1 Hl2)
    as (r1&Hread&Hinv1&Hcur1&Hmsg1).
  change (remain_len_ r0) with (remain_len_ (@reader_new H HDR)) in Hread.
  rewrite Hread. cbn [mbind ub_bind].
  destruct (Z.eqb_spec (Z.of_nat (length p)) 0) as [Hz|_].
  { assert (p = []) as -> by (apply length_zero_iff_nil; lia).
    by rewrite complete_nil in Hc. }
  rewrite (complete_valid r1 _ p Hinv1 Hc Hcur1 Hacc). cbn [orb negb].
  destruct (parse_shape mw r1 _ p ms None Hinv1 Hc Hcur1 Hmsg1 Hd) as (r2&Hb2&_&->).
  cbn [mbind ub_bind].
  assert (reader_inv (reader_reset r2) 0 []) as Hinv2.
  { destruct Hinv1 as (tail&Hb1&Hlen&_). exists (p ++ tail).
    unfold reader_reset. cbn [buff_ remain_len_ is_valid_].
    rewrite Hb2, Hb1, length_app. split_and!; done || by constructor. }
  set (r3 := reader_reset r2) in *.
  assert (reader_inv (prepare_next_recv r3).1.1 0 []) as Hinv3 by done.
  unfold prepare_next_recv in *. cbn [fst] in Hinv3.
  destruct (completion_spec _ 0 [] Hinv3 (acceptable_nil big_endian))
    as (r4&Hc4&Hinv4&_).
  rewrite complete_nil in Hc4. unfold segs_fuel. cbn [concat length Nat.add async_read].
  rewrite Hc4. cbn [mbind ub_bind]. change (remain_len_ r3) with 0.
  pose proof buff_max_size.
  destruct (Z.eqb_spec (Z.min max_transfer (CLIENT_MSG_BUFF_MAX - 0 - 0)) 0); [lia|].
  by exists r4.
Qed.

(** The same bad header at the front. *)
Lemma read_cycle_bad_first mw fuel p :
  bytes_ok p → Z.of_nat (length p) ≤ max_transfer →
  Z.of_nat (length p) ≤ CLIENT_MSG_BUFF_MAX →
  deframe p = ([], None) →
  ∃ r, read_cycle big_endian max_transfer mw (S fuel) reader_new [p]
      = Def ([], Disconnected r).
Proof.
  intros Hp Hl1 Hl2 Hd. pose proof header_size_pos. pose proof buff_max_size.
  assert (header_size ≤ Z.of_nat (length p) ∧ CLIENT_MSG_BUFF_MAX < need p) as [Hs Hbad].
  { rewrite deframe_unfold in Hd by done. revert Hd.
    zcase; [done|]. zcase; [done|]. zcase; [done|]. by destruct (deframe _). }
  cbn [read_cycle]. unfold prepare_next_recv.
  pose proof (reader_inv_prepare _ _ reader_new_inv) as Hinv0.
  unfold prepare_next_recv in Hinv0. cbn [fst] in Hinv0.
  set (r0 := {| buff_ := buff_ reader_new |}) in *.
  assert (segs_fuel [p] = S (length p)) as ->
    by (unfold segs_fuel; cbn [concat length]; rewrite app_nil_r; lia).
  destruct (completion_spec r0 0 [] Hinv0 (acceptable_nil big_endian))
    as (r1&Hc1&Hinv1&Hrem1&_&_).
  change (remain_len_ r0) with 0 in Hrem1.
  change (remain_len_ (@reader_new H HDR)) with 0.
  cbn [async_read]. rewrite Hc1, complete_nil. cbn [mbind ub_bind].
  destruct (Z.eqb_spec (Z.min max_transfer (CLIENT_MSG_BUFF_MAX - 0 - 0)) 0); [lia|].
  rewrite take_ge by lia.
  destruct (reader_inv_receive r1 0 [] p Hinv1 Hp ltac:(simpl; lia)) as (buff&Hw&Hinv2).
  rewrite Hrem1 in Hw. rewrite Hw. cbn [mbind ub_bind].
  destruct (Z.leb_spec (Z.of_nat (length p))
    (Z.min max_transfer (CLIENT_MSG_BUFF_MAX - 0 - 0))); [|lia].
  set (r2 := {| buff_ := buff |}) in *. simpl app in Hinv2.
  assert (∃ r3, completion_condition big_endian max_transfer r2 false
    (0 + Z.of_nat (length p)) = Def (0, r3) ∧ is_valid_ r3 = false) as (r3&Hc3&Hv3).
  { destruct Hinv2 as (tail&Hb&Hlen&_&Hrem&Hv&Hk). unfold completion_condition.
    rewrite Hrem. destruct (Z.leb_spec (Z.of_nat (length p)) CLIENT_MSG_BUFF_MAX); [|lia].
    cbn [assert_ub mbind ub_bind].
    destruct Hk as [->|(_&_&_&?)]; [|lia].
    destruct (Z.leb_spec header_size (Z.of_nat (length p))); [|lia].
    rewrite Z.eqb_refl. cbn [andb].
    pose proof (parse_header_spec r2 [] p tail Hb Hp Hs) as Hph.
    change (Z.of_nat (length (@nil Z))) with 0 in Hph. rewrite Hph.
    destruct (Z.ltb_spec CLIENT_MSG_BUFF_MAX (need p)); [|lia]. cbn. eauto. }
  exists r3. destruct (length p) as [|k]; cbn [async_read]; rewrite Hc3; cbn [mbind ub_bind];
    rewrite Z.min_l by lia; cbn; unfold reader_is_valid; rewrite Hv3;
    by rewrite orb_true_r.
Qed.
End reader_lemmas.

(** ** What a sender puts on the wire *)
Section wire.
Context {H : Type} `{HDR : Header H} (big_endian : bool).

(** A message the reader's buffer can hold. *)
Definition sendable (hp : H * list Z) : Prop :=
  header_ok hp.1 ∧ header_length hp.1 = Z.of_nat (length hp.2) ∧ bytes_ok hp.2 ∧
  header_size + Z.of_nat (length hp.2) ≤ CLIENT_MSG_BUFF_MAX.
Definition wire (hps : list (H * list Z)) : list Z :=
  hps ≫= λ hp, frame big_endian hp.1 hp.2.

Lemma frame_ok hp : sendable hp → bytes_ok (frame big_endian hp.1 hp.2).
Proof.
  intros (Hh&_&Hp&_). apply Forall_app. split; [|done].
  by apply header_bytes_ok, header_hton_ok.
Qed.
Lemma frame_front hp bs :
  sendable hp →
  let f := frame big_endian hp.1 hp.2 in
  first_header big_endian (f ++ bs) = hp.1 ∧
  need big_endian (f ++ bs) = Z.of_nat (length f) ∧
  need big_endian (f ++ bs) = header_size + Z.of_nat (length hp.2) ∧
  drop (Z.to_nat header_size) (f ++ bs) = hp.2 ++ bs.
Proof.
  intros (Hh&Hl&Hp&Hm). cbv zeta.
  pose proof (header_hton_ok big_endian _ Hh) as Hh'.
  pose proof (header_bytes_length _ Hh') as Hlen. pose proof header_size_pos.
  assert (first_header big_endian (frame big_endian hp.1 hp.2 ++ bs) = hp.1) as Hf.
  { unfold first_header, frame. rewrite <-app_assoc.
    replace (Z.to_nat header_size) with (length (header_bytes (header_hton big_endian hp.1)))
      by lia.
    rewrite take_app_length, header_of_bytes_bytes by done. by apply header_ntoh_hton. }
  unfold need. rewrite Hf, Hl. split; [done|]. split; [|split; [done|]].
  - unfold frame. rewrite length_app, Nat2Z.inj_add, Hlen. done.
  - unfold frame. rewrite <-app_assoc.
    replace (Z.to_nat header_size) with (length (header_bytes (header_hton big_endian hp.1)))
      by lia.
    by rewrite drop_app_length.
Qed.

Lemma wire_ok hps : Forall sendable hps → bytes_ok (wire hps).
Proof.
  induction 1 as [|hp hps Hhp _ IH]; [by constructor|].
  apply Forall_app. split; [by apply frame_ok|done].
Qed.

Lemma deframe_wire hps partial :
  Forall sendable hps → bytes_ok partial →
  complete big_endian partial = false → acceptable big_endian partial →
  deframe big_endian (wire hps ++ partial) = (hps, Some partial).
Proof.
  intros Hs Hp Hnc Hacc. pose proof (wire_ok hps Hs) as Hw. revert Hw. induction Hs as [|hp hps Hhp _ IH]; intros Hw.
  - csimpl. rewrite deframe_unfold by done. unfold complete in Hnc. unfold acceptable in Hacc.
    zcase; [done|]. zcase; [lia|]. zcase; [done|].
    apply andb_false_iff in Hnc as [?%Z.leb_gt|?%Z.leb_gt]; lia.
  - apply Forall_app in Hw as [Hf Hw]. specialize (IH Hw). csimpl.
    change (wire (hp :: hps)) with (frame big_endian hp.1 hp.2 ++ wire hps).
    rewrite <-app_assoc.
    destruct (frame_front hp (wire hps ++ partial) Hhp) as (H1&H2&H3&H4).
    destruct Hhp as (Hh&Hl&Hpl&Hm). pose proof header_size_pos.
    rewrite deframe_unfold by (apply Forall_app; split; [done|by apply Forall_app]).
    rewrite H2, H4, H1, length_app, Hl.
    zcase; [lia|]. zcase; [lia|]. zcase; [lia|].
    rewrite Nat2Z.id, drop_app_length, IH, Nat2Z.id, take_app_length. by destruct hp.
Qed.
End wire.

(** ** Properties *)
Section properties.
Context `{ALLOC : Allocator} {H : Type} `{HDR : Header H}.
Context (big_endian : bool) (max_transfer : Z).

(** C3: Reassembly does not depend on how the stream is cut up. Send any messages that
    fit the buffer, followed by the beginning of another one, split into segments in any
    way: the reader hands over exactly those messages, in order, header and payload
    unchanged, and waits holding exactly the bytes of the unfinished one. (With [memcpy]
    moving overlapping bytes as [memmove] does.) *)
Theorem reader_reassembles (memcpy_within : list Z → Z → Z → Z → ub (list Z))
    (hps : list (H * list Z)) partial segs :
  0 < max_transfer →
  (∀ buf d s n, memcpy_within buf d s n = memmove_within buf d s n) →
  Forall sendable hps → bytes_ok partial →
  complete big_endian partial = false → acceptable big_endian partial →
  concat segs = wire big_endian hps ++ partial →
  ∃ batches r total,
    read_cycle big_endian max_transfer memcpy_within (S (length (concat segs)))
      reader_new segs = Def (batches, Blocked r total) ∧
    concat batches = framed_msg <$> hps ∧
    reader_inv big_endian r total partial.
Proof.
  intros Hmax Hcopy Hs Hp Hnc Hacc Hcat.
  apply (read_cycle_spec big_endian max_transfer Hmax memcpy_within Hcopy _ _ []); try lia.
  - apply reader_new_inv.
  - apply complete_nil.
  - rewrite Hcat. apply Forall_app. split; [by apply wire_ok|done].
  - rewrite app_nil_l, Hcat. by apply deframe_wire.
Qed.

(** Defect: Keeping an unfinished message can copy overlapping ranges. When the
    bytes left over are more than the bytes just consumed, the [memcpy] that moves them
    to the front has overlapping operands, which the language leaves undefined. *)
Theorem reader_memcpy_overlaps (r : connection_reader H) total used ms rest :
  reader_inv big_endian r total (used ++ rest) →
  complete big_endian (used ++ rest) = true →
  cur_len_ r = need big_endian (used ++ rest) → msg_list_ r = [] →
  deframe big_endian (used ++ rest) = (ms, Some rest) →
  (length used < length rest)%nat →
  parse big_endian memcpy_strict r total = Undef.
Proof.
  intros Hinv Hc Hcur Hmsg Hd Hlong.
  destruct (parse_shape big_endian memcpy_strict r total _ ms _ Hinv Hc Hcur Hmsg Hd)
    as (r1&_&_&used'&Heq&_&_&_&_&->).
  apply app_inv_tail in Heq as <-. zcase; [|lia].
  unfold memcpy_strict. destruct (Z.leb_spec (0 + Z.of_nat (length rest)) (Z.of_nat (length used)));
    [lia|]. destruct (Z.leb_spec (Z.of_nat (length used) + Z.of_nat (length rest)) 0); [lia|done].
Qed.
End properties.

Section bad_headers.
Context `{ALLOC : Allocator} {H : Type} `{HDR : Header H}.

(** Defect: A header announcing too much is fatal or ignored depending on what
    precedes it. Alone, it disconnects. Behind good messages that arrived in the same
    receive, it throws those messages away, the reader is reset as if nothing had
    happened and the connection goes on reading in the middle of the stream. *)
Theorem bad_header_behind_messages big_endian max_transfer mw fuel p ms :
  0 < max_transfer → bytes_ok p → Z.of_nat (length p) ≤ max_transfer →
  Z.of_nat (length p) ≤ CLIENT_MSG_BUFF_MAX →
  deframe big_endian p = (ms, None) →
  (ms = [] → ∃ r : connection_reader H,
    read_cycle big_endian max_transfer mw (S (S fuel)) reader_new [p]
      = Def ([], Disconnected r)) ∧
  (ms ≠ [] → ∃ r : connection_reader H,
    read_cycle big_endian max_transfer mw (S (S fuel)) reader_new [p]
      = Def ([], Blocked r 0) ∧ reader_inv big_endian r 0 []).
Proof.
  intros Hmax Hp Hl1 Hl2 Hd. split; intros Hms.
  - subst. by apply read_cycle_bad_first.
  - by eapply read_cycle_bad_header.
Qed.
End bad_headers.

(** ** Witnesses *)
#[local] Existing Instance zero_allocator.

Definition hello : msg_header * list Z := (msg_header_init_short 0 7 2, [104; 105]).
Lemma hello_sendable : sendable hello.
Proof.
  split; [|split; [done|split; [by repeat constructor|done]]].
  repeat apply Forall2_cons_2; try done; by apply Forall2_nil_2.
Defined.

(** Two messages and a third one's first byte, in three segments. *)
Definition hello_segs : list (list Z) :=
  let s := wire true [hello; hello] ++ [1] in [take 5 s; take 30 (drop 5 s); drop 35 s].

Lemma reader_reassembles_witness :
  ∃ batches r total,
    read_cycle true 65536 memmove_within 54 reader_new hello_segs =
      Def (batches, Blocked r total) ∧
    concat batches = framed_msg <$> [hello; hello].
Proof.
  destruct (reader_reassembles true 65536 memmove_within [hello; hello] [1] hello_segs)
    as (batches&r&total&H1&H2&_).
  - done.
  - done.
  - do 2 (apply Forall_cons; split; [apply hello_sendable|]). by constructor.
  - by repeat constructor.
  - done.
  - by intros ?.
  - by vm_compute.
  - exists batches, r, total. split; [exact H1|exact H2].
Defined.

(** A message of 24 bytes and 25 bytes of the next. *)
Definition overlap_bytes : list Z :=
  wire false [(msg_header_init_short 0 7 0, [])] ++ replicate 20 0 ++ [9; 0; 0; 0; 1].
Definition overlap_reader : connection_reader msg_header :=
  {| buff_ := overlap_bytes
       ++ replicate (Z.to_nat CLIENT_MSG_BUFF_MAX - length overlap_bytes) 0;
     header_ := msg_header_init_short 0 7 0; cur_len_ := 24; remain_len_ := 0;
     cur_index_ := 0; msg_list_ := []; is_valid_ := true |}.
Lemma reader_memcpy_overlaps_witness :
  parse false memcpy_strict overlap_reader 49 = Undef.
Proof.
  apply (reader_memcpy_overlaps false overlap_reader 49 (take 24 overlap_bytes)
    [(msg_header_init_short 0 7 0, [])] (drop 24 overlap_bytes)).
  - exists (replicate (Z.to_nat CLIENT_MSG_BUFF_MAX - length overlap_bytes) 0).
    split; [by rewrite take_drop|]. split; [by vm_compute|].
    split; [by apply (bool_decide_eq_true_1 _)|]. split; [done|]. split; [done|].
    right. split; [done|]. split; [by vm_compute|]. split; by vm_compute.
  - by vm_compute.
  - by vm_compute.
  - done.
  - by vm_compute.
  - by vm_compute; lia.
Defined.

(** A good message followed by a header that announces 2^24 bytes. *)
Definition bad_bytes : list Z := wire false [hello] ++ replicate 23 0 ++ [1].
Lemma bad_header_behind_messages_witness :
  ∃ r, read_cycle false 65536 memcpy_strict 2 (reader_new (H := msg_header)) [bad_bytes]
    = Def ([], Blocked r 0).
Proof.
  destruct (bad_header_behind_messages false 65536 memcpy_strict 0 bad_bytes [hello])
    as [_ Hw].
  - done.
  - by apply (bool_decide_eq_true_1 _).
  - done.
  - done.
  - by vm_compute.
  - destruct Hw as (r&H1&_); [done|]. exists r. exact H1.
Defined.
