(* ===== verification/Timer.v ===== *)
(** * Timers ([network/timer/timer_manager.hpp], [schedule_timer.hpp])

    The manager owns a map of timers; each timer is a shared object that a
    pending wait keeps alive after it leaves the map, so the objects live in a
    store of their own.  The waits are those of [boost::asio::deadline_timer]
    as documented: arming replaces a pending wait, cancelling drops it, and a
    wait that has already expired is queued and runs whatever happens next.
    Callbacks are the client's code: they run on the client's state, of which
    the manager is a part.  The clock is an input. *)
From stdpp Require Import base option list numbers gmap fin_sets.
From S2P Require Import Prelude.
Local Open Scope Z_scope.

(** ** Definitions *)
Inductive timer_status := ts_ok | ts_canceled.
#[export] Instance timer_status_eq_dec : EqDecision timer_status.
Proof. solve_decision. Defined.

(** What a setter wraps a function into: [raw] returns the function's result,
    [once] always false, [auto] always true. *)
Inductive timer_func (F : Type) :=
| TF_raw (f : F)
| TF_once (f : F)
| TF_auto (f : F).
Arguments TF_raw {F} f.
Arguments TF_once {F} f.
Arguments TF_auto {F} f.

Record timer_info (F : Type) := TimerInfo {
  ti_status : timer_status;
  ti_milliseconds : Z;
  ti_next_time : Z;             (* zero: relative waits *)
  ti_func : option (timer_func F);
  (* the deadline_timer: the pending wait, and expired waits not yet run *)
  ti_waiting : option Z;
  ti_expired : nat
}.
Arguments TimerInfo {F} _ _ _ _ _ _.
Arguments ti_status {F} _.
Arguments ti_milliseconds {F} _.
Arguments ti_next_time {F} _.
Arguments ti_func {F} _.
Arguments ti_waiting {F} _.
Arguments ti_expired {F} _.

Record timer_manager (F : Type) := TimerManager {
  tm_infos : gmap Z (timer_info F);  (* every timer object *)
  tm_timers : gset Z;                (* the keys of [timers_] *)
  tm_timer_id : Z
}.
Arguments TimerManager {F} _ _ _.
Arguments tm_infos {F} _.
Arguments tm_timers {F} _.
Arguments tm_timer_id {F} _.

Definition timer_manager_new {F} : timer_manager F := TimerManager ∅ ∅ 0.

Section infos.
Context {F : Type}.
Implicit Types (ti : timer_info F) (tm : timer_manager F).

Definition set_status ti s : timer_info F :=
  TimerInfo s (ti_milliseconds ti) (ti_next_time ti) (ti_func ti) (ti_waiting ti) (ti_expired ti).
Definition set_next_time ti t : timer_info F :=
  TimerInfo (ti_status ti) (ti_milliseconds ti) t (ti_func ti) (ti_waiting ti) (ti_expired ti).
Definition set_waiting ti w : timer_info F :=
  TimerInfo (ti_status ti) (ti_milliseconds ti) (ti_next_time ti) (ti_func ti) w (ti_expired ti).
Definition set_expired ti n : timer_info F :=
  TimerInfo (ti_status ti) (ti_milliseconds ti) (ti_next_time ti) (ti_func ti) (ti_waiting ti) n.
Definition update_info (id : Z) (f : timer_info F → timer_info F) tm : timer_manager F :=
  TimerManager (alter f id (tm_infos tm)) (tm_timers tm) (tm_timer_id tm).

(** [schedule_timer]: waits relative to now, or at an absolute time. *)
Definition async_wait (now milliseconds : Z) ti := set_waiting ti (Some (now + milliseconds)).
Definition async_wait_at_time (timestamp : Z) ti := set_waiting ti (Some timestamp).
Definition timer_cancel ti := set_waiting ti None.

Definition calc_next_time (now : Z) ti : timer_info F :=
  let next := ti_next_time ti + ti_milliseconds ti in
  set_next_time ti (if next <? now then now else next).

(** *** The manager *)
Definition create_timer (milliseconds : Z) (func : option (timer_func F)) tm
    : ub (Z * timer_manager F) :=
  id ← i32 (tm_timer_id tm + 1);
  Def (id, TimerManager
    (<[id := TimerInfo ts_ok milliseconds 0 func None 0]> (tm_infos tm))
    ({[id]} ∪ tm_timers tm) id).

Definition start_timer_info (now : Z) (id : Z) tm : timer_manager F :=
  update_info id (λ ti,
    let ti := set_status ti ts_ok in
    if negb (ti_next_time ti =? 0) then
      let ti := calc_next_time now ti in async_wait_at_time (ti_next_time ti) ti
    else async_wait now (ti_milliseconds ti) ti) tm.
Definition stop_timer_info (id : Z) tm : timer_manager F :=
  update_info id (λ ti, set_status (timer_cancel ti) ts_canceled) tm.

Definition start_timer (now id : Z) tm : timer_manager F :=
  if bool_decide (id ∈ tm_timers tm) then start_timer_info now id tm else tm.
Definition stop_timer (id : Z) tm : timer_manager F :=
  if bool_decide (id ∈ tm_timers tm) then stop_timer_info id tm else tm.
Definition auto_start_timer (now id : Z) tm : timer_manager F :=
  if bool_decide (id ∈ tm_timers tm) then
    match tm_infos tm !! id with
    | Some ti => if bool_decide (ti_status ti = ts_canceled) then tm
                 else start_timer_info now id tm
    | None => tm
    end
  else tm.
Definition close_timer (id : Z) tm : timer_manager F :=
  if bool_decide (id ∈ tm_timers tm) then
    let tm := stop_timer_info id tm in
    TimerManager (tm_infos tm) (tm_timers tm ∖ {[id]}) (tm_timer_id tm)
  else tm.
Definition stop_all_timer tm : timer_manager F :=
  foldr stop_timer_info tm (elements (tm_timers tm)).

(** [set_timer], [set_fix_timer] and their wrappers: the new timer's id. *)
Definition set_timer (milliseconds : Z) (f : F) tm := create_timer milliseconds (Some (TF_raw f)) tm.
Definition set_once_timer (milliseconds : Z) (f : F) tm := create_timer milliseconds (Some (TF_once f)) tm.
Definition set_auto_timer (milliseconds : Z) (f : F) tm := create_timer milliseconds (Some (TF_auto f)) tm.
Definition set_fix_timer_func (now milliseconds : Z) (func : timer_func F) tm
    : ub (Z * timer_manager F) :=
  '(id, tm) ← create_timer milliseconds (Some func) tm;
  Def (id, update_info id (λ ti, set_next_time ti (now + milliseconds)) tm).
Definition set_fix_timer (now milliseconds : Z) (f : F) tm :=
  set_fix_timer_func now milliseconds (TF_raw f) tm.
Definition set_fix_timer_void (now milliseconds : Z) (f : F) tm :=
  set_fix_timer_func now milliseconds (TF_auto f) tm.

(** The transport's side: a pending wait whose time has come is queued. *)
Definition expire (now id : Z) tm : timer_manager F :=
  update_info id (λ ti,
    match ti_waiting ti with
    | Some t => if t <=? now then set_expired (set_waiting ti None) (S (ti_expired ti)) else ti
    | None => ti
    end) tm.
End infos.

(** *** Running callbacks on the client's state *)
Section callbacks.
Context {F S : Type} (tm_of : S → timer_manager F) (set_tm : timer_manager F → S → S)
  (call : F → S → bool * S).

Definition on_tm (f : timer_manager F → timer_manager F) (s : S) : S :=
  set_tm (f (tm_of s)) s.

Definition run_func (func : timer_func F) (s : S) : bool * S :=
  match func with
  | TF_raw f => call f s
  | TF_once f => (false, (call f s).2)
  | TF_auto f => (true, (call f s).2)
  end.

Definition invoke_timer_info (id : Z) (s : S) : S :=
  match tm_infos (tm_of s) !! id ≫= ti_func with
  | Some func => (run_func func s).2
  | None => s
  end.
Definition invoke_timer (id : Z) (s : S) : S :=
  if bool_decide (id ∈ tm_timers (tm_of s)) then invoke_timer_info id s else s.

(** [timer_handler]; [ec] is set for a wait that was cancelled. *)
Definition timer_handler (now : Z) (ec : bool) (id : Z) (s : S) : S :=
  match tm_infos (tm_of s) !! id with
  | Some ti =>
      if negb ec && bool_decide (ti_status ti = ts_ok) then
        let '(is_continue, s) :=
          match ti_func ti with Some func => run_func func s | None => (false, s) end in
        let next_time := default 0 (ti_next_time <$> tm_infos (tm_of s) !! id) in
        if is_continue || (0 <? next_time)
        then on_tm (start_timer_info now id) s else s
      else s
  | None => s
  end.

(** The io_service runs one expired wait. *)
Definition run_expired (now id : Z) (s : S) : S :=
  match tm_infos (tm_of s) !! id with
  | Some ti =>
      match ti_expired ti with
      | O => s
      | Datatypes.S n =>
          timer_handler now false id (on_tm (update_info id (λ ti, set_expired ti n)) s)
      end
  | None => s
  end.

(** *** The proxy a setter returns *)
Record timer_proxy := TimerProxy { tp_timer : bool; tp_id : Z; tp_need_start : bool }.
Definition proxy_new (id : Z) : timer_proxy := TimerProxy true id true.
Definition proxy_default : timer_proxy := TimerProxy false 0 false.
Definition proxy_move (p : timer_proxy) : timer_proxy * timer_proxy :=
  (p, TimerProxy (tp_timer p) (tp_id p) false).

Definition proxy_start (now : Z) (invoke_first : bool) (p : timer_proxy) (s : S)
    : timer_proxy * S :=
  if tp_timer p then
    let s := if invoke_first then invoke_timer (tp_id p) s else s in
    (TimerProxy true (tp_id p) false, on_tm (start_timer now (tp_id p)) s)
  else (p, s).
Definition proxy_stop (p : timer_proxy) (s : S) : timer_proxy * S :=
  if tp_timer p then (TimerProxy true (tp_id p) false, on_tm (stop_timer (tp_id p)) s)
  else (p, s).
Definition proxy_invoke (p : timer_proxy) (s : S) : S :=
  if tp_timer p then invoke_timer (tp_id p) s else s.
Definition proxy_close (p : timer_proxy) (s : S) : timer_proxy * S :=
  if tp_timer p then (TimerProxy false (tp_id p) false, on_tm (close_timer (tp_id p)) s)
  else (p, s).
(** The destructor starts a timer nobody started or stopped. *)
Definition proxy_auto_start (now : Z) (p : timer_proxy) (s : S) : timer_proxy * S :=
  (TimerProxy (tp_timer p) (tp_id p) false,
   if tp_need_start p && tp_timer p then on_tm (auto_start_timer now (tp_id p)) s else s).
End callbacks.

(** ** Lemmas *)
Section timer_lemmas.
Context {F : Type}.
Implicit Types (tm : timer_manager F) (ti : timer_info F).

Lemma update_info_lookup id f tm id' :
  tm_infos (update_info id f tm) !! id' =
    if bool_decide (id' = id) then f <$> tm_infos tm !! id else tm_infos tm !! id'.
Proof.
  unfold update_info. simpl. case_bool_decide as Hid; [subst; apply lookup_alter_eq|].
  by apply lookup_alter_ne.
Qed.
Lemma update_info_eq id f tm :
  tm_infos (update_info id f tm) !! id = f <$> tm_infos tm !! id.
Proof. rewrite update_info_lookup. by rewrite bool_decide_true. Qed.

(** The wait a start arms. *)
Definition armed_at (now : Z) ti : Z :=
  if ti_next_time ti =? 0 then now + ti_milliseconds ti
  else Z.max now (ti_next_time ti + ti_milliseconds ti).
Lemma start_timer_info_lookup now id tm ti :
  tm_infos tm !! id = Some ti →
  ∃ ti', tm_infos (start_timer_info now id tm) !! id = Some ti' ∧
    ti_status ti' = ts_ok ∧ ti_waiting ti' = Some (armed_at now ti) ∧
    ti_expired ti' = ti_expired ti ∧ ti_func ti' = ti_func ti ∧
    ti_milliseconds ti' = ti_milliseconds ti ∧
    ti_next_time ti' = (if ti_next_time ti =? 0 then 0 else armed_at now ti).
Proof.
  intros Hti. unfold start_timer_info. rewrite update_info_eq, Hti.
  eexists. split; [done|]. unfold armed_at, calc_next_time. simpl.
  destruct (Z.eqb_spec (ti_next_time ti) 0); simpl; [done|].
  zcases; rewrite ?Z.max_l, ?Z.max_r by lia; done.
Qed.
Lemma stop_timer_info_lookup id tm ti :
  tm_infos tm !! id = Some ti →
  tm_infos (stop_timer_info id tm) !! id = Some (set_status (timer_cancel ti) ts_canceled).
Proof. intros Hti. unfold stop_timer_info. by rewrite update_info_eq, Hti. Qed.

Lemma stop_timer_info_spec i tm id :
  tm_infos (stop_timer_info i tm) !! id =
    if bool_decide (id = i)
    then (λ ti, set_status (timer_cancel ti) ts_canceled) <$> tm_infos tm !! i
    else tm_infos tm !! id.
Proof. apply update_info_lookup. Qed.

(** Neither operation reaches a timer that has left the map. *)
Lemma stop_unlisted id tm : id ∉ tm_timers tm → stop_timer id tm = tm.
Proof. intros. unfold stop_timer. by rewrite bool_decide_false. Qed.
Lemma stop_infos_other ids id tm :
  id ∉ ids → tm_infos (foldr stop_timer_info tm ids) !! id = tm_infos tm !! id.
Proof.
  induction ids as [|i ids IH]; [done|]. cbn [fold_right]. intros [Hne Hin]%not_elem_of_cons.
  rewrite stop_timer_info_spec, bool_decide_false by done. by apply IH.
Qed.
Lemma stop_all_unlisted id tm :
  id ∉ tm_timers tm → tm_infos (stop_all_timer tm) !! id = tm_infos tm !! id.
Proof. intros Hid. apply stop_infos_other. by rewrite elem_of_elements. Qed.
Lemma stop_infos_in ids id tm ti :
  NoDup ids → id ∈ ids → tm_infos tm !! id = Some ti →
  tm_infos (foldr stop_timer_info tm ids) !! id
    = Some (set_status (timer_cancel ti) ts_canceled).
Proof.
  induction ids as [|i ids IH]; intros Hnd Hin Hti; [by apply not_elem_of_nil in Hin|].
  apply NoDup_cons in Hnd as [Hi Hnd]. cbn [fold_right].
  rewrite stop_timer_info_spec. case_bool_decide as Heq.
  - subst. by rewrite stop_infos_other, Hti by done.
  - apply elem_of_cons in Hin as [?|Hin]; [done|]. by apply IH.
Qed.
Lemma stop_all_listed id tm ti :
  id ∈ tm_timers tm → tm_infos tm !! id = Some ti →
  tm_infos (stop_all_timer tm) !! id = Some (set_status (timer_cancel ti) ts_canceled).
Proof.
  intros Hid Hti. apply stop_infos_in; [apply NoDup_elements|by apply elem_of_elements|done].
Qed.

(** The timer's object waits relative to now, with period [ms]; whatever else is done to
    the manager keeps it so. *)
Definition relative (id ms : Z) tm : Prop :=
  ∃ ti, tm_infos tm !! id = Some ti ∧ ti_next_time ti = 0 ∧ ti_milliseconds ti = ms.
Lemma relative_update id ms i f tm :
  (∀ ti, ti_next_time ti = 0 →
    ti_next_time (f ti) = 0 ∧ ti_milliseconds (f ti) = ti_milliseconds ti) →
  relative id ms tm → relative id ms (update_info i f tm).
Proof.
  intros Hf (ti&Hti&Hn&Hms). unfold relative. rewrite update_info_lookup.
  case_bool_decide; [subst i|by exists ti].
  rewrite Hti. exists (f ti). destruct (Hf ti Hn) as [? Hf2]. by rewrite Hf2.
Qed.
Lemma relative_start_info id ms now i tm :
  relative id ms tm → relative id ms (start_timer_info now i tm).
Proof. apply relative_update. intros ti Hn. simpl. by rewrite Hn. Qed.
Lemma relative_start id ms now i tm : relative id ms tm → relative id ms (start_timer now i tm).
Proof. unfold start_timer. case_bool_decide; [apply relative_start_info|done]. Qed.
Lemma relative_stop id ms i tm : relative id ms tm → relative id ms (stop_timer i tm).
Proof. unfold stop_timer. case_bool_decide; [by apply relative_update|done]. Qed.
Lemma relative_close id ms i tm : relative id ms tm → relative id ms (close_timer i tm).
Proof.
  unfold close_timer. case_bool_decide; [|done].
  intros Hr%(relative_update id ms i (λ ti, set_status (timer_cancel ti) ts_canceled)); done.
Qed.
Lemma relative_stop_all id ms tm : relative id ms tm → relative id ms (stop_all_timer tm).
Proof.
  unfold stop_all_timer. intros Hr. induction (elements _) as [|i ids IH]; [done|].
  by apply relative_update.
Qed.
Lemma relative_create id ms ms' func tm i tm' :
  create_timer ms' func tm = Def (i, tm') → id ≠ i → relative id ms tm → relative id ms tm'.
Proof.
  unfold create_timer. intros (j&_&[= <- <-])%ub_bind_Def Hne (ti&Hti&?).
  exists ti. simpl. by rewrite lookup_insert_ne.
Qed.

(** A fixed timer's first wait is two periods after it was set. *)
Lemma fix_timer_first_wait now now' ms f tm id tm' :
  set_fix_timer now ms f tm = Def (id, tm') → now + ms ≠ 0 →
  ∃ ti, tm_infos (start_timer_info now' id tm') !! id = Some ti ∧
    ti_waiting ti = Some (Z.max now' (now + ms + ms)).
Proof.
  unfold set_fix_timer, set_fix_timer_func, create_timer. intros Hset Hne.
  apply ub_bind_Def in Hset as ([i tm1]&Hc&Hset). apply ub_bind_Def in Hc as (i'&Hi&Hc).
  injection Hc as <- <-. injection Hset as <- <-.
  set (tm2 := update_info _ _ _).
  edestruct (start_timer_info_lookup now' i' tm2) as (ti&Hti&_&Hw&_).
  { unfold tm2. rewrite update_info_eq. cbn [tm_infos]. by rewrite lookup_insert_eq. }
  exists ti. split; [exact Hti|]. rewrite Hw. unfold armed_at. simpl.
  by rewrite (proj2 (Z.eqb_neq _ _)).
Qed.
End timer_lemmas.

(** The client's state holds the manager as a field. *)
Class TimerOwner {F S : Type} (tm_of : S → timer_manager F) (set_tm : timer_manager F → S → S) := {
  tm_of_set tm s : tm_of (set_tm tm s) = tm;
  set_tm_set tm tm' s : set_tm tm (set_tm tm' s) = set_tm tm s;
  set_tm_of s : set_tm (tm_of s) s = s
}.

(** What the transport may do to one timer. *)
Inductive timer_event := Ev_expire (now : Z) | Ev_run (now : Z).

Section owner.
Context {F S : Type} (tm_of : S → timer_manager F) (set_tm : timer_manager F → S → S)
  `{OWN : !TimerOwner tm_of set_tm} (call : F → S → bool * S).
Implicit Types s : S.
#[local] Notation onT := (on_tm tm_of set_tm).
#[local] Notation handlerT := (timer_handler tm_of set_tm call).
#[local] Notation runT := (run_expired tm_of set_tm call).

Definition timer_event_step (id : Z) (e : timer_event) (s : S) : S :=
  match e with
  | Ev_expire now => onT (expire now id) s
  | Ev_run now => runT now id s
  end.
Fixpoint timer_events (id : Z) (es : list timer_event) (s : S) : S :=
  match es with [] => s | e :: es => timer_events id es (timer_event_step id e s) end.

Lemma tm_of_on_tm f s : tm_of (onT f s) = f (tm_of s).
Proof. unfold on_tm. apply tm_of_set. Qed.

(** A stopped timer: whatever is queued for it runs nothing. *)
Definition silenced (id : Z) (s0 s : S) : Prop :=
  ∃ tm ti, s = set_tm tm s0 ∧ tm_infos tm !! id = Some ti ∧
    ti_status ti = ts_canceled ∧ ti_waiting ti = None.

Lemma silenced_step id e s0 s :
  silenced id s0 s → silenced id s0 (timer_event_step id e s).
Proof.
  intros (tm&ti&->&Hti&Hs&Hw). destruct e as [now|now]; simpl.
  - unfold on_tm. rewrite tm_of_set, set_tm_set.
    exists (expire now id tm), ti. split; [done|].
    unfold expire. rewrite update_info_eq, Hti. simpl. by rewrite Hw.
  - unfold run_expired. rewrite tm_of_set, Hti. destruct (ti_expired ti) as [|n]; [by exists tm, ti|].
    unfold timer_handler, on_tm. rewrite !tm_of_set, update_info_eq, Hti. simpl.
    rewrite bool_decide_false by (by rewrite Hs). rewrite set_tm_set.
    eexists _, (set_expired ti n). split; [done|]. split; [|done].
    by rewrite update_info_eq, Hti.
Qed.
Lemma silenced_events id es : ∀ s0 s,
  silenced id s0 s → silenced id s0 (timer_events id es s).
Proof. induction es as [|e es IH]; intros s0 s Hs; [done|]. by apply IH, silenced_step. Qed.

(** ** Properties *)

(** C29: A relative timer keeps time. When one of its waits is delivered and has ended
    without an error, and the timer has not been stopped, the function runs exactly
    once, on the client's state; then the timer is armed again, one period from now and
    with status ok, exactly when the wrapped function asks to continue (never for a
    once-timer, always for an auto-timer), and otherwise nothing more happens. This
    holds whatever the function does to the manager, as long as this timer's object
    stays a relative timer of the same period: starting, stopping and closing any timer,
    this one included, and making other timers keep it so ([relative_start] to
    [relative_create]); in particular a timer that its own function stops is armed
    again. A wait that was cancelled, or that is delivered after the timer was stopped,
    changes nothing. *)
Theorem relative_timer_fires now ec id s ti func :
  tm_infos (tm_of s) !! id = Some ti → ti_func ti = Some func → ti_next_time ti = 0 →
  relative id (ti_milliseconds ti) (tm_of (run_func call func s).2) →
  let '(continue, s1) := run_func call func s in
  continue = match func with TF_raw f => (call f s).1 | TF_once _ => false | TF_auto _ => true end ∧
  s1 = match func with TF_raw f | TF_once f | TF_auto f => (call f s).2 end ∧
  if ec || bool_decide (ti_status ti = ts_canceled) then handlerT now ec id s = s
  else if continue : bool then
    handlerT now ec id s = onT (start_timer_info now id) s1 ∧
    ∃ ti', tm_infos (tm_of (handlerT now ec id s)) !! id = Some ti' ∧
      ti_status ti' = ts_ok ∧ ti_waiting ti' = Some (now + ti_milliseconds ti)
  else handlerT now ec id s = s1.
Proof.
  intros Hti Hf Hn Htm. destruct (run_func call func s) as [c s1] eqn:Hrun.
  destruct Htm as (ti1&Hti1&Hn1&Hms). simpl in Hti1.
  split; [by destruct func; simpl in Hrun; rewrite ?Hrun; try congruence|].
  split; [by destruct func; simpl in Hrun; rewrite ?Hrun; try congruence|]. unfold timer_handler. rewrite Hti.
  destruct ec; [done|]. simpl. case_bool_decide as Hc; [by rewrite Hc|].
  rewrite bool_decide_true by (by destruct (ti_status ti)).
  rewrite Hf, Hrun, Hti1. simpl. rewrite Hn1, Z.ltb_irrefl. destruct c; simpl; [|done].
  split; [done|]. rewrite tm_of_on_tm.
  destruct (start_timer_info_lookup now id (tm_of s1) ti1 Hti1) as (ti'&->&?&Hw&_).
  exists ti'. split_and!; try done. rewrite Hw. unfold armed_at. by rewrite Hn1, Hms.
Qed.

(** Stopping a timer is final for its pending waits. After [stop_timer] on a listed
    timer, no sequence of expirations and deliveries of its waits, including one that
    had expired before the stop, runs its function: the client's state changes in the
    manager's bookkeeping only. *)
Theorem stop_timer_silences id s ti es :
  id ∈ tm_timers (tm_of s) → tm_infos (tm_of s) !! id = Some ti →
  ∃ tm, timer_events id es (onT (stop_timer id) s) = set_tm tm s ∧
    ∃ ti', tm_infos tm !! id = Some ti' ∧ ti_status ti' = ts_canceled ∧ ti_waiting ti' = None.
Proof.
  intros Hin Hti. destruct (silenced_events id es s (onT (stop_timer id) s))
    as (tm&ti'&Heq&?&?&?); [|by exists tm; split; [|exists ti']].
  exists (stop_timer id (tm_of s)), (set_status (timer_cancel ti) ts_canceled).
  split; [done|]. split; [|done]. unfold stop_timer. rewrite bool_decide_true by done.
  by apply stop_timer_info_lookup.
Qed.

(** Defect: A timer cannot be ended from its own callback. If the callback of an
    auto-timer stops or closes the timer, [timer_handler] starts it again afterwards: it
    ends up armed with status ok. If the callback closed it, the timer is no longer in
    the map, and neither [stop_timer] nor [stop_all_timer] reaches it any more. *)
Theorem stop_in_own_callback_is_undone now id s ti f b s1 :
  tm_infos (tm_of s) !! id = Some ti → ti_status ti = ts_ok → ti_func ti = Some (TF_auto f) →
  ti_next_time ti = 0 → id ∈ tm_timers (tm_of s) →
  call f s = (b, s1) →
  tm_of s1 = stop_timer id (tm_of s) ∨ tm_of s1 = close_timer id (tm_of s) →
  let tm' := tm_of (handlerT now false id s) in
  ∃ ti', tm_infos tm' !! id = Some ti' ∧
    ti_status ti' = ts_ok ∧ ti_waiting ti' = Some (now + ti_milliseconds ti) ∧
    (tm_of s1 = close_timer id (tm_of s) →
      stop_timer id tm' = tm' ∧ tm_infos (stop_all_timer tm') !! id = Some ti').
Proof.
  intros Hti Hs Hf Hn Hin Hcall Hstop. cbv zeta.
  unfold timer_handler. rewrite Hti, Hs, Hf. simpl. rewrite Hcall. simpl.
  rewrite tm_of_on_tm.
  assert (tm_infos (tm_of s1) !! id = Some (set_status (timer_cancel ti) ts_canceled)) as Hti1.
  { pose proof (stop_timer_info_lookup id (tm_of s) ti Hti) as Hi.
    unfold stop_timer, close_timer in Hstop. rewrite bool_decide_true in Hstop by done.
    destruct Hstop as [->| ->]; exact Hi. }
  destruct (start_timer_info_lookup now id _ _ Hti1) as (ti'&Hti'&?&Hw&_).
  exists ti'. unfold armed_at in Hw. simpl in Hw. rewrite Hn in Hw.
  split_and!; try done.
  intros Hclose.
  assert (id ∉ tm_timers (start_timer_info now id (tm_of s1))) as Hout.
  { unfold start_timer_info. simpl. rewrite Hclose. unfold close_timer.
    rewrite bool_decide_true by done. simpl. set_solver. }
  by rewrite stop_unlisted, stop_all_unlisted.
Qed.
End owner.

(** ** A client: a counter next to the manager, with two callbacks *)
Module Counter.
Inductive fn := Tick | StopSelf | CloseSelf.
Record t := Client { manager : timer_manager fn; ticks : Z }.
Definition set_manager (tm : timer_manager fn) (s : t) : t := Client tm (ticks s).
Definition call (f : fn) (s : t) : bool * t :=
  match f with
  | Tick => (true, Client (manager s) (ticks s + 1))
  | StopSelf => (true, Client (stop_timer 1 (manager s)) (ticks s))
  | CloseSelf => (true, Client (close_timer 1 (manager s)) (ticks s))
  end.
Definition with_timer (func : timer_func fn) : t :=
  Client (TimerManager {[1 := TimerInfo ts_ok 1000 0 (Some func) None 1]} {[1]} 1) 0.
End Counter.
#[local] Instance counter_owner : TimerOwner Counter.manager Counter.set_manager.
Proof. split; [done|done|by intros []]. Defined.

(** One callback counts, the other stops its own timer. *)
Lemma relative_timer_fires_witness :
  (let s := timer_handler Counter.manager Counter.set_manager Counter.call 500 false 1
              (Counter.with_timer (TF_auto Counter.Tick)) in
   Counter.ticks s = 1 ∧
   ∃ ti, tm_infos (Counter.manager s) !! 1 = Some ti ∧ ti_waiting ti = Some 1500) ∧
  (let s := timer_handler Counter.manager Counter.set_manager Counter.call 500 false 1
              (Counter.with_timer (TF_auto Counter.StopSelf)) in
   ∃ ti, tm_infos (Counter.manager s) !! 1 = Some ti ∧ ti_waiting ti = Some 1500).
Proof.
  split.
  - destruct (relative_timer_fires Counter.manager Counter.set_manager Counter.call 500 false 1
      (Counter.with_timer (TF_auto Counter.Tick))
      (TimerInfo ts_ok 1000 0 (Some (TF_auto Counter.Tick)) None 1) (TF_auto Counter.Tick))
      as (_&_&_&ti&H1&_&H2); [done..|by eexists|].
    split; [done|]. exists ti. split; [exact H1|exact H2].
  - destruct (relative_timer_fires Counter.manager Counter.set_manager Counter.call 500 false 1
      (Counter.with_timer (TF_auto Counter.StopSelf))
      (TimerInfo ts_ok 1000 0 (Some (TF_auto Counter.StopSelf)) None 1)
      (TF_auto Counter.StopSelf)) as (_&_&_&ti&H1&_&H2); [done..| |].
    + apply (relative_stop 1 1000 1). by eexists.
    + exists ti. split; [exact H1|exact H2].
Defined.

Lemma stop_timer_silences_witness :
  Counter.ticks (timer_events Counter.manager Counter.set_manager Counter.call 1
    [Ev_run 500; Ev_expire 900; Ev_run 900]
    (on_tm Counter.manager Counter.set_manager (stop_timer 1)
      (Counter.with_timer (TF_auto Counter.Tick)))) = 0.
Proof.
  destruct (stop_timer_silences Counter.manager Counter.set_manager Counter.call 1
    (Counter.with_timer (TF_auto Counter.Tick))
    (TimerInfo ts_ok 1000 0 (Some (TF_auto Counter.Tick)) None 1)
    [Ev_run 500; Ev_expire 900; Ev_run 900]) as (tm&Heq&_).
  - by apply (bool_decide_eq_true_1 _).
  - done.
  - rewrite Heq. done.
Defined.

Lemma stop_in_own_callback_is_undone_witness :
  ∃ ti, tm_infos (stop_all_timer (Counter.manager
      (timer_handler Counter.manager Counter.set_manager Counter.call 500 false 1
        (Counter.with_timer (TF_auto Counter.CloseSelf))))) !! 1 = Some ti ∧
    ti_waiting ti = Some 1500.
Proof.
  edestruct (stop_in_own_callback_is_undone Counter.manager Counter.set_manager Counter.call
    500 1 (Counter.with_timer (TF_auto Counter.CloseSelf))
    (TimerInfo ts_ok 1000 0 (Some (TF_auto Counter.CloseSelf)) None 1) Counter.CloseSelf true)
    as (ti&H1&_&H2&H3).
  - done.
  - done.
  - done.
  - done.
  - by apply (bool_decide_eq_true_1 _).
  - reflexivity.
  - by right.
  - exists ti. split; [|exact H2]. by apply H3.
Defined.
