(* ===== verification/Connection.v ===== *)
(** * A tcp connection ([tcp_connection], [network/net/tcp_connect.hpp])

    Every public operation posts a task to the connection's io_service and
    every completion of the transport runs a handler there, so the connection
    is a state machine driven by labels: calls, posted tasks, completions and
    timer ticks, in any order.  The state also holds what surrounds the
    connection: the store of shared messages, the posted tasks, the operations
    in flight, the bytes the peer received and the events delivered to the
    router and to waiting callers. *)
From stdpp Require Import base option list numbers strings gmap.
From S2P Require Import Prelude Proto MemoryStream RawMsg Reader Timer.
Local Open Scope Z_scope.

(** ** State *)
Inductive task :=
| T_do_close
| T_do_write (r : msg_ref)
| T_do_await_write (r : msg_ref) (handler : Z).

(** An [async_write] in flight: the bytes and the completion handler. *)
Inductive write_op :=
| W_msg (r : msg_ref) (bytes : list Z)      (* handle_write *)
| W_batch (bytes : list Z).                 (* handle_write_batch *)
Definition write_bytes (w : write_op) : list Z :=
  match w with W_msg _ bs => bs | W_batch bs => bs end.

(** What the connection tells the outside. *)
Inductive event :=
| E_connect (err : bool)
| E_disconnect (err : error_code)
| E_receive (msgs : list (basic_msg msg_header))
| E_call (handler : Z) (msg : basic_msg msg_header).

Record tcp_connection := Connection {
  received_msg_ : bool;
  is_running_ : bool;
  force_close_error_ : bool;
  disconnect_interval : Z;                       (* options_ *)
  batch_send_msg : bool;
  socket_open : bool;
  host_ : string;
  port_ : Z;
  write_msg_queue_ : list msg_ref;
  batch_msg_ptr_ : option batch_msg;
  reader_ : connection_reader msg_header;
  timer_mgr_ : timer_manager unit;
  cur_call_id_ : Z;
  calls_ : gmap Z Z;
  (* the surroundings *)
  heap : msg_heap msg_header;
  posts : list task;
  writing : list write_op;
  reading : nat;                                 (* async_reads in flight *)
  sent : list Z;
  events : list event
}.
#[local] Notation conn := tcp_connection.

(** *** Updates of single fields *)
Definition set_received (b : bool) (c : conn) : conn :=
  Connection b (is_running_ c) (force_close_error_ c) (disconnect_interval c)
    (batch_send_msg c) (socket_open c) (host_ c) (port_ c) (write_msg_queue_ c)
    (batch_msg_ptr_ c) (reader_ c) (timer_mgr_ c) (cur_call_id_ c) (calls_ c)
    (heap c) (posts c) (writing c) (reading c) (sent c) (events c).
Definition set_flags (running force : bool) (c : conn) : conn :=
  Connection (received_msg_ c) running force (disconnect_interval c)
    (batch_send_msg c) (socket_open c) (host_ c) (port_ c) (write_msg_queue_ c)
    (batch_msg_ptr_ c) (reader_ c) (timer_mgr_ c) (cur_call_id_ c) (calls_ c)
    (heap c) (posts c) (writing c) (reading c) (sent c) (events c).
Definition set_socket (opn : bool) (host : string) (port : Z) (c : conn) : conn :=
  Connection (received_msg_ c) (is_running_ c) (force_close_error_ c) (disconnect_interval c)
    (batch_send_msg c) opn host port (write_msg_queue_ c)
    (batch_msg_ptr_ c) (reader_ c) (timer_mgr_ c) (cur_call_id_ c) (calls_ c)
    (heap c) (posts c) (writing c) (reading c) (sent c) (events c).
Definition set_queue (q : list msg_ref) (b : option batch_msg) (c : conn) : conn :=
  Connection (received_msg_ c) (is_running_ c) (force_close_error_ c) (disconnect_interval c)
    (batch_send_msg c) (socket_open c) (host_ c) (port_ c) q b
    (reader_ c) (timer_mgr_ c) (cur_call_id_ c) (calls_ c)
    (heap c) (posts c) (writing c) (reading c) (sent c) (events c).
Definition set_reader (r : connection_reader msg_header) (rd : nat) (c : conn) : conn :=
  Connection (received_msg_ c) (is_running_ c) (force_close_error_ c) (disconnect_interval c)
    (batch_send_msg c) (socket_open c) (host_ c) (port_ c) (write_msg_queue_ c)
    (batch_msg_ptr_ c) r (timer_mgr_ c) (cur_call_id_ c) (calls_ c)
    (heap c) (posts c) (writing c) rd (sent c) (events c).
Definition set_timers (tm : timer_manager unit) (c : conn) : conn :=
  Connection (received_msg_ c) (is_running_ c) (force_close_error_ c) (disconnect_interval c)
    (batch_send_msg c) (socket_open c) (host_ c) (port_ c) (write_msg_queue_ c)
    (batch_msg_ptr_ c) (reader_ c) tm (cur_call_id_ c) (calls_ c)
    (heap c) (posts c) (writing c) (reading c) (sent c) (events c).
Definition set_calls (id : Z) (cs : gmap Z Z) (c : conn) : conn :=
  Connection (received_msg_ c) (is_running_ c) (force_close_error_ c) (disconnect_interval c)
    (batch_send_msg c) (socket_open c) (host_ c) (port_ c) (write_msg_queue_ c)
    (batch_msg_ptr_ c) (reader_ c) (timer_mgr_ c) id cs
    (heap c) (posts c) (writing c) (reading c) (sent c) (events c).
Definition set_heap (hp : msg_heap msg_header) (c : conn) : conn :=
  Connection (received_msg_ c) (is_running_ c) (force_close_error_ c) (disconnect_interval c)
    (batch_send_msg c) (socket_open c) (host_ c) (port_ c) (write_msg_queue_ c)
    (batch_msg_ptr_ c) (reader_ c) (timer_mgr_ c) (cur_call_id_ c) (calls_ c)
    hp (posts c) (writing c) (reading c) (sent c) (events c).
Definition set_posts (ps : list task) (c : conn) : conn :=
  Connection (received_msg_ c) (is_running_ c) (force_close_error_ c) (disconnect_interval c)
    (batch_send_msg c) (socket_open c) (host_ c) (port_ c) (write_msg_queue_ c)
    (batch_msg_ptr_ c) (reader_ c) (timer_mgr_ c) (cur_call_id_ c) (calls_ c)
    (heap c) ps (writing c) (reading c) (sent c) (events c).
Definition set_writing (ws : list write_op) (bs : list Z) (c : conn) : conn :=
  Connection (received_msg_ c) (is_running_ c) (force_close_error_ c) (disconnect_interval c)
    (batch_send_msg c) (socket_open c) (host_ c) (port_ c) (write_msg_queue_ c)
    (batch_msg_ptr_ c) (reader_ c) (timer_mgr_ c) (cur_call_id_ c) (calls_ c)
    (heap c) (posts c) ws (reading c) bs (events c).
Definition emit (e : event) (c : conn) : conn :=
  Connection (received_msg_ c) (is_running_ c) (force_close_error_ c) (disconnect_interval c)
    (batch_send_msg c) (socket_open c) (host_ c) (port_ c) (write_msg_queue_ c)
    (batch_msg_ptr_ c) (reader_ c) (timer_mgr_ c) (cur_call_id_ c) (calls_ c)
    (heap c) (posts c) (writing c) (reading c) (sent c) (events c ++ [e]).

#[export] Instance connection_timers : TimerOwner timer_mgr_ set_timers.
Proof. split; by intros; destruct s. Defined.

Section connection.
Context `{ALLOC : Allocator}.
Context (big_endian : bool) (max_transfer : Z)
        (memcpy_within : list Z → Z → Z → Z → ub (list Z)).
Implicit Types c : conn.

(** ** Errors and closing *)
Definition stop_timers c : conn := set_timers (stop_all_timer (timer_mgr_ c)) c.

Definition on_error (err : error_code) c : conn :=
  if negb (is_running_ c) then c
  else emit (E_disconnect err) (stop_timers (set_flags false (force_close_error_ c) c)).

Definition do_close c : conn :=
  if force_close_error_ c then c
  else set_flags false true
         (set_queue [] (batch_msg_ptr_ c)
           (set_socket false (host_ c) (port_ c) (stop_timers c))).

Definition close c : conn :=
  if negb (force_close_error_ c) then set_posts (posts c ++ [T_do_close]) c else c.

(** ** Writing *)
Fixpoint fill_batch (hp : msg_heap msg_header) (b : batch_msg) (q : list msg_ref)
    : ub (batch_msg * list msg_ref) :=
  match q with
  | [] => Def (b, [])
  | r :: q' =>
      '(ok, b') ← add_msg hp b r;
      if ok : bool then fill_batch hp b' q' else Def (b, q)
  end.

Definition async_write_msg c : ub conn :=
  match write_msg_queue_ c with
  | [] => Def c
  | r :: _ =>
      if negb (batch_send_msg c) || (Z.of_nat (length (write_msg_queue_ c)) =? 1) then
        hp ← heap_update (msg_hton big_endian) (heap c) r;
        m ← deref (hp !! r);
        bs ← msg_to_buffers m;
        Def (set_writing (writing c ++ [W_msg r bs]) (sent c) (set_heap hp c))
      else
        '(b, q) ← fill_batch (heap c) batch_msg_default (write_msg_queue_ c);
        let c := set_queue q (Some b) c in
        if batch_empty b then Def (on_error ec_send_error c)
        else
          hp ← batch_hton big_endian (heap c) b;
          bs ← batch_to_buffers hp b;
          Def (set_writing (writing c ++ [W_batch bs]) (sent c) (set_heap hp c))
  end.

Definition do_write (r : msg_ref) c : ub conn :=
  if negb (is_running_ c) then Def c
  else
    let write_in_progress :=
      negb (bool_decide (write_msg_queue_ c = []) && bool_decide (batch_msg_ptr_ c = None)) in
    let c := set_queue (write_msg_queue_ c ++ [r]) (batch_msg_ptr_ c) c in
    if write_in_progress then Def c else async_write_msg c.

Definition write (r : msg_ref) c : conn :=
  if negb (is_running_ c) then c else set_posts (posts c ++ [T_do_write r]) c.

Definition handle_write (err : bool) (r : msg_ref) c : ub conn :=
  if negb (is_running_ c) then Def c
  else if err then Def (on_error ec_send_error c)
  else
    hp ← heap_update (msg_ntoh big_endian) (heap c) r;
    match write_msg_queue_ c with
    | [] => Undef
    | _ :: q => async_write_msg (set_queue q (batch_msg_ptr_ c) (set_heap hp c))
    end.

Definition handle_write_batch (err : bool) c : ub conn :=
  if negb (is_running_ c) then Def c
  else if err then Def (on_error ec_send_error c)
  else async_write_msg (set_queue (write_msg_queue_ c) None c).

(** ** Calls that wait for a reply *)
Definition set_msg_call_id (id : Z) (m : basic_msg msg_header) : basic_msg msg_header :=
  let h := m_header m in
  BasicMsg (MsgHeader (mh_from_unique_id h) (mh_to_unique_id h) (mh_conn_id h) id
    (mh_result h) (mh_reserve_bytes h) (mh_protocol_id h) (mh_length h)) (m_body m).

Definition do_await_write (r : msg_ref) (handler : Z) c : ub conn :=
  if negb (is_running_ c) then Def c
  else
    m ← deref (heap c !! r);
    let call_id := mh_call_id (m_header m) in
    let '(call_id, c) :=
      if call_id <=? 0 then
        let id := u32 (cur_call_id_ c + 1) in
        (id, set_calls id (calls_ c) (set_heap (<[r := set_msg_call_id id m]> (heap c)) c))
      else (call_id, c) in
    (* emplace keeps an entry that is already there *)
    let c := set_calls (cur_call_id_ c)
               (if bool_decide (is_Some (calls_ c !! call_id)) then calls_ c
                else <[call_id := handler]> (calls_ c)) c in
    do_write r c.

Definition await_write (r : msg_ref) (handler : Z) c : conn :=
  if negb (is_running_ c) then c
  else set_posts (posts c ++ [T_do_await_write r handler]) c.

(** ** Receiving *)
Definition async_sequence_read c : conn :=
  if negb (is_running_ c) then c
  else
    let '(r, _, size) := prepare_next_recv (reader_ c) in
    let c := set_reader r (reading c) c in
    if 0 <? size then set_reader (reader_ c) (S (reading c)) (set_received true c) else c.

(** The loop over the messages: the messages for the router. *)
Fixpoint dispatch_calls (msgs : list (basic_msg msg_header)) c
    : list (basic_msg msg_header) * conn :=
  match msgs with
  | [] => ([], c)
  | m :: msgs =>
      let c := set_received true c in
      let call_id := mh_call_id (m_header m) in
      match (if 0 <? call_id then calls_ c !! call_id else None) with
      | Some handler =>
          dispatch_calls msgs
            (emit (E_call handler m) (set_calls (cur_call_id_ c) (delete call_id (calls_ c)) c))
      | None => let '(rest, c) := dispatch_calls msgs c in (m :: rest, c)
      end
  end.
Definition on_receive_msgs (msgs : list (basic_msg msg_header)) c : conn :=
  let '(new_msg_list, c) := dispatch_calls msgs c in
  match new_msg_list with
  | [] => c
  | _ => emit (E_receive new_msg_list) (set_received true c)
  end.
(** The overload for headers without a call id. *)
Definition on_receive_msgs_plain (msgs : list (basic_msg msg_header)) c : conn :=
  match msgs with
  | [] => c
  | _ => emit (E_receive msgs) (set_received true c)
  end.

Definition handle_sequence_read (err : bool) (bytes_transfered : Z) c : ub conn :=
  if err || (bytes_transfered =? 0) || negb (reader_is_valid (reader_ c))
  then Def (on_error ec_recv_error c)
  else
    '(has_msg, r) ← parse big_endian memcpy_within (reader_ c) bytes_transfered;
    let c := set_reader r (reading c) c in
    let c := if has_msg : bool then on_receive_msgs (get_msgs r) c
             else set_reader (reader_reset r) (reading c) c in
    Def (async_sequence_read c).

(** ** Starting *)
Definition handle_timer c : conn :=
  if negb (received_msg_ c) then on_error ec_timeout c else c.
Definition timer_call (_ : unit) c : bool * conn := (true, handle_timer c).

Definition reset_state c : conn :=
  let c := set_received false c in
  let c := set_flags true false c in
  let c := set_queue [] None c in
  set_reader (reader_reset (reader_ c)) (reading c) c.

Definition start_timer_conn (now : Z) c : ub conn :=
  let timeout := disconnect_interval c in
  if 0 <? timeout then
    ms ← i32 (timeout * 1000);
    '(id, tm) ← set_auto_timer ms tt (timer_mgr_ c);
    (* the proxy is destroyed at once *)
    Def (proxy_auto_start timer_mgr_ set_timers now (proxy_new id) (set_timers tm c)).2
  else Def c.

(** [remote_ok]: whether the socket has a remote endpoint. *)
Definition start (remote_ok : bool) (now : Z) c : ub conn :=
  if negb remote_ok then Def c
  else start_timer_conn now (async_sequence_read (reset_state c)).

Definition fix_host (host : string) : string :=
  if String.eqb host "0.0.0.0" then "127.0.0.1"%string else host.
Definition connect (host : string) (port : Z) (err : bool) (now : Z) c : ub conn :=
  let c := set_socket true (fix_host host) port c in
  if err then Def c else start true now c.
Definition async_connect (host : string) (port : Z) c : conn :=
  if is_running_ c then c else set_socket true (fix_host host) port c.
Definition handle_connect (err : bool) (now : Z) c : ub conn :=
  c ← start (negb err) now c;
  Def (emit (E_connect err) c).

(** ** One step of the machine *)
Inductive label :=
| L_connect (host : string) (port : Z) (err : bool) (now : Z)
| L_async_connect (host : string) (port : Z)
| L_handle_connect (err : bool) (now : Z)
| L_start (remote_ok : bool) (now : Z)
| L_close | L_write (r : msg_ref) | L_await_write (r : msg_ref) (handler : Z)
| L_task                                  (* the io_service runs a posted task *)
| L_written (err : bool)                  (* an async_write completes *)
| L_received (err : bool) (segs : list (list Z)) (* the async_read completes *)
| L_expire (now id : Z) | L_timer (now id : Z).

Definition run_task (t : task) c : ub conn :=
  match t with
  | T_do_close => Def (do_close c)
  | T_do_write r => do_write r c
  | T_do_await_write r h => do_await_write r h c
  end.

Definition written (err : bool) c : ub conn :=
  match writing c with
  | [] => Def c
  | w :: ws =>
      let c := set_writing ws (if err then sent c else sent c ++ write_bytes w) c in
      match w with
      | W_msg r _ => handle_write err r c
      | W_batch _ => handle_write_batch err c
      end
  end.

(** A read completes with an error, or with the bytes the completion condition
    accepted.  A composed read needs the socket to itself: what two of them make
    of the incoming bytes is undefined. *)
Definition received (err : bool) (segs : list (list Z)) c : ub conn :=
  match reading c with
  | O => Def c
  | S n =>
      if err then handle_sequence_read true 0 (set_reader (reader_ c) n c)
      else
        let r := reader_ c in
        res ← async_read big_endian max_transfer (segs_fuel segs) r (remain_len_ r)
                (CLIENT_MSG_BUFF_MAX - remain_len_ r) 0 segs;
        match res with
        | Waiting _ _ => Def c
        | Received r total _ =>
            if (n =? 0)%nat then handle_sequence_read false total (set_reader r n c) else Undef
        end
  end.

Definition step (l : label) c : ub conn :=
  match l with
  | L_connect host port err now => connect host port err now c
  | L_async_connect host port => Def (async_connect host port c)
  | L_handle_connect err now => handle_connect err now c
  | L_start remote_ok now => start remote_ok now c
  | L_close => Def (close c)
  | L_write r => Def (write r c)
  | L_await_write r h => Def (await_write r h c)
  | L_task => match posts c with
              | [] => Def c
              | t :: ts => run_task t (set_posts ts c)
              end
  | L_written err => written err c
  | L_received err segs => received err segs c
  | L_expire now id => Def (on_tm timer_mgr_ set_timers (expire now id) c)
  | L_timer now id => Def (run_expired timer_mgr_ set_timers timer_call now id c)
  end.

(** The states the machine can reach by defined steps. *)
Inductive steps : tcp_connection → list label → tcp_connection → Prop :=
| steps_nil c : steps c [] c
| steps_cons c l c1 ls c2 : step l c = Def c1 → steps c1 ls c2 → steps c (l :: ls) c2.
End connection.

(** ** Lemmas: the write side *)
Section fifo.
Context `{ALLOC : Allocator} (big_endian : bool).
(** The messages as they were enqueued, with their payloads. *)
Context (hp0 : msg_heap msg_header) (g : msg_ref → basic_msg msg_header * list Z).
Implicit Types c : conn.

Definition enqueued (r : msg_ref) : Prop :=
  hp0 !! r = Some (g r).1 ∧ msg_wf (g r).1 (g r).2.
Definition out (rs : list msg_ref) : list Z := frames big_endian (g <$> rs).
Lemma out_app rs rs' : out (rs ++ rs') = out rs ++ out rs'.
Proof. unfold out, frames. by rewrite fmap_app, bind_app. Qed.

(** Messages not yet handed to the transport are as they were enqueued. *)
Definition untouched c (rs : list msg_ref) : Prop :=
  ∀ r, r ∉ rs → heap c !! r = hp0 !! r.

(** [acc]: the messages accepted so far, of which [done] are with the peer,
    [flying] are in the one write in flight and [waiting] are queued. *)
Definition write_inv c (acc : list msg_ref) : Prop :=
  ∃ done flying waiting,
    acc = done ++ flying ++ waiting ∧ is_running_ c = true ∧
    sent c = out done ∧ untouched c (done ++ flying) ∧
    match writing c with
    | [] => flying = [] ∧ waiting = [] ∧ write_msg_queue_ c = [] ∧ batch_msg_ptr_ c = None
    | [W_msg r bs] => flying = [r] ∧ write_msg_queue_ c = r :: waiting ∧
        batch_msg_ptr_ c = None ∧ bs = out flying ∧ is_Some (heap c !! r)
    | [W_batch bs] => flying ≠ [] ∧ write_msg_queue_ c = waiting ∧
        is_Some (batch_msg_ptr_ c) ∧ bs = out flying
    | _ => False
    end.

Lemma fill_batch_all hp : ∀ q b,
  bm_capacity b = 0 → bm_length_capacity b = 0 →
  (∀ r, r ∈ q → is_Some (hp !! r)) →
  ∃ b', fill_batch hp b q = Def (b', []) ∧ bm_msgs b' = bm_msgs b ++ q.
Proof.
  induction q as [|r q IH]; intros b Hc Hl Hin; simpl; [exists b; by rewrite app_nil_r|].
  unfold add_msg, batch_full, batch_length_full. rewrite Hc, Hl. simpl.
  destruct (Hin r) as [m Hm]; [by left|]. rewrite Hm. simpl.
  destruct (IH (BatchMsg (bm_msgs b ++ [r]) 0 0 (u64 (bm_cur_length b + total_length m))))
    as (b'&Hf&Hb'); [done|done|by intros; apply Hin; right|].
  exists b'. split; [done|]. rewrite Hb'. simpl. by rewrite <-app_assoc.
Qed.

Lemma enqueued_refs_wf hp rs :
  Forall enqueued rs → (∀ r, r ∈ rs → hp !! r = hp0 !! r) →
  refs_wf hp rs (g <$> rs).
Proof.
  induction 1 as [|r rs [Hr Hw] _ IH]; intros Hin; [constructor|]. csimpl. constructor.
  - split; [|done]. rewrite Hin by (by left). done.
  - apply IH. intros. apply Hin. by right.
Qed.

Lemma async_write_inv c done waiting :
  NoDup (done ++ waiting) → Forall enqueued (done ++ waiting) →
  is_running_ c = true → sent c = out done → untouched c done →
  writing c = [] → write_msg_queue_ c = waiting → batch_msg_ptr_ c = None →
  ∃ c', async_write_msg big_endian c = Def c' ∧ write_inv c' (done ++ waiting).
Proof.
  intros Hnd Hgood Hrun Hsent Hunt Hw Hq Hb.
  unfold async_write_msg. rewrite Hq. destruct waiting as [|r waiting].
  { exists c. split; [done|]. exists done, [], []. rewrite Hw, !app_nil_r. by split_and!. }
  apply NoDup_app in Hnd as (_&Hdisj&Hnd). apply Forall_app in Hgood as [_ Hgood].
  assert (refs_wf (heap c) (r :: waiting) (g <$> r :: waiting)) as Hrefs.
  { apply enqueued_refs_wf; [done|]. intros r' Hr'. apply Hunt. intros Hd. by eapply Hdisj. }
  destruct (_ || _).
  - destruct (heap_hton_frames big_endian (heap c) [r] [g r]) as (hp'&Hh&Hout&Hother).
    { by apply NoDup_singleton. }
    { csimpl in Hrefs. apply Forall2_cons in Hrefs as [? _].
      by apply Forall2_cons. }
    simpl in Hh. apply ub_bind_Def in Hh as (hp1&->&[= ->]). cbn [mbind ub_bind].
    apply Forall2_cons in Hrefs as [[Hr Hwf] _]. csimpl in *.
    rewrite (Hother r), bool_decide_true, Hr by (by left). simpl.
    rewrite (msg_hton_buffers big_endian (g r).1 (g r).2 Hwf). simpl.
    eexists. split; [done|]. exists done, [r], waiting. simpl. rewrite Hw. simpl.
    split_and!; try done.
    + intros r' [Hnd' Hr']%not_elem_of_app. simpl. rewrite Hother, bool_decide_false by done.
      by apply Hunt.
    + unfold out, frames. simpl. by rewrite app_nil_r.
    + rewrite Hother, bool_decide_true, Hr by (by left). by eexists.
  - destruct (fill_batch_all (heap c) (r :: waiting) batch_msg_default) as (b&->&Hbm);
      [done|done| |].
    { intros r' [i Hi]%list_elem_of_lookup_1.
      destruct (Forall2_lookup_l _ _ _ _ _ Hrefs Hi) as (?&_&->&_). by eexists. }
    cbn [mbind ub_bind]. unfold batch_empty. simpl in Hbm. rewrite Hbm. simpl.
    destruct (heap_hton_frames big_endian (heap c) (r :: waiting) (g <$> r :: waiting) Hnd Hrefs)
      as (hp'&Hh&Hout&Hother).
    unfold batch_hton, batch_to_buffers. rewrite Hbm, Hh. cbn [mbind ub_bind].
    rewrite Hout. cbn [mbind ub_bind].
    eexists. split; [done|]. exists done, (r :: waiting), []. simpl. rewrite Hw. simpl.
    rewrite app_nil_r. split_and!; try done.
    intros r' [Hnd' Hr']%not_elem_of_app. simpl. rewrite Hother, bool_decide_false by done.
    by apply Hunt.
Qed.

Lemma do_write_inv c acc r :
  write_inv c acc → NoDup (acc ++ [r]) → Forall enqueued (acc ++ [r]) →
  ∃ c', do_write big_endian r c = Def c' ∧ write_inv c' (acc ++ [r]).
Proof.
  intros (done&flying&waiting&->&Hrun&Hsent&Hunt&Hw) Hnd Hgood.
  unfold do_write. rewrite Hrun. cbn [negb].
  destruct (writing c) as [|[r0 bs|bs] [|]] eqn:Hwr; try done.
  - destruct Hw as (->&->&Hq&Hb). rewrite Hq, Hb.
    rewrite !bool_decide_true by done. cbn [negb andb].
    rewrite !app_nil_r in *.
    by apply (async_write_inv (set_queue ([] ++ [r]) None c) done [r]).
  - destruct Hw as (->&Hq&Hb&Hbs&Hh). rewrite Hq, Hb.
    rewrite bool_decide_false by done. cbn [negb andb].
    eexists. split; [done|]. exists done, [r0], (waiting ++ [r]). simpl. rewrite Hwr.
    split_and!; try done. by rewrite <-!app_assoc.
  - destruct Hw as (Hf&Hq&[b Hb]&Hbs). rewrite Hq, Hb.
    rewrite (bool_decide_false (Some b = None)) by done.
    rewrite andb_false_r. cbn [negb].
    eexists. split; [done|]. exists done, flying, (waiting ++ [r]). simpl. rewrite Hwr.
    split_and!; try done. by rewrite <-!app_assoc.
Qed.

Lemma written_inv c acc :
  write_inv c acc → NoDup acc → Forall enqueued acc →
  ∃ c', written big_endian false c = Def c' ∧ write_inv c' acc.
Proof.
  intros Hinv Hnd Hgood. pose proof Hinv as (done&flying&waiting&->&Hrun&Hsent&Hunt&Hw).
  unfold written. destruct (writing c) as [|[r0 bs|bs] [|]] eqn:Hwr; try done.
  - exists c. by split_and!.
  - destruct Hw as (->&Hq&Hb&->&[m Hm]). simpl.
    unfold handle_write. simpl. rewrite Hrun. cbn [negb].
    unfold heap_update. simpl. rewrite Hm. cbn [deref mbind ub_bind]. rewrite Hq.
    change (r0 :: waiting) with ([r0] ++ waiting).
    rewrite app_assoc in Hnd, Hgood |- *.
    apply async_write_inv; try done; simpl; [by rewrite Hsent, out_app|].
    intros r Hr. simpl. rewrite lookup_insert_ne; [by apply Hunt|].
    intros ->. apply Hr, elem_of_app. right. by left.
  - destruct Hw as (Hf&Hq&Hb&->). simpl.
    unfold handle_write_batch. simpl. rewrite Hrun. cbn [negb].
    rewrite app_assoc in Hnd, Hgood |- *.
    apply async_write_inv; try done; simpl. by rewrite Hsent, out_app.
Qed.

(** The write side of a session: tasks and completions in any order. *)
Inductive write_event := We_write (r : msg_ref) | We_written.
Definition write_event_step (e : write_event) c : ub conn :=
  match e with We_write r => do_write big_endian r c | We_written => written big_endian false c end.
Fixpoint write_run (es : list write_event) c : ub conn :=
  match es with [] => Def c | e :: es => c ← write_event_step e c; write_run es c end.
Fixpoint accepted (es : list write_event) : list msg_ref :=
  match es with
  | [] => []
  | We_write r :: es => r :: accepted es
  | We_written :: es => accepted es
  end.

Lemma write_run_inv es : ∀ c acc,
  write_inv c acc → NoDup (acc ++ accepted es) → Forall enqueued (acc ++ accepted es) →
  ∃ c', write_run es c = Def c' ∧ write_inv c' (acc ++ accepted es).
Proof.
  induction es as [|[r|] es IH]; intros c acc Hinv Hnd Hgood; simpl in *.
  - rewrite app_nil_r in *. by exists c.
  - rewrite (cons_middle r) in Hnd, Hgood |- *. rewrite (app_assoc acc) in Hnd, Hgood |- *.
    destruct (do_write_inv c acc r Hinv) as (c1&->&Hinv1).
    + by apply NoDup_app in Hnd as (?&_&_).
    + by apply Forall_app in Hgood as [? _].
    + cbn [mbind ub_bind]. by apply IH.
  - destruct (written_inv c acc Hinv) as (c1&->&Hinv1).
    + by apply NoDup_app in Hnd as (?&_&_).
    + by apply Forall_app in Hgood as [? _].
    + cbn [mbind ub_bind]. by apply IH.
Qed.

(** What is in flight, and what waits behind it. *)
Definition in_flight c : list Z := writing c ≫= write_bytes.

Lemma write_inv_view c acc :
  write_inv c acc →
  is_running_ c = true ∧ (length (writing c) ≤ 1)%nat ∧
  ∃ waiting, out acc = sent c ++ in_flight c ++ out waiting ∧
    (writing c = [] → waiting = []) ∧
    ∀ r, r ∈ waiting → r ∈ write_msg_queue_ c.
Proof.
  intros (done&flying&waiting&->&Hrun&Hsent&Hunt&Hw). unfold in_flight.
  destruct (writing c) as [|[r0 bs|bs] [|]]; try done; split; try done;
    (split; [simpl; lia|]); exists waiting; rewrite !out_app, Hsent; csimpl;
    rewrite ?app_nil_r.
  - destruct Hw as (->&->&_). split_and!; try done. by intros ? ?%not_elem_of_nil.
  - destruct Hw as (->&Hq&_&->&_). split_and!; try done. rewrite Hq. by right.
  - destruct Hw as (_&Hq&_&->). split_and!; try done. by rewrite Hq.
Qed.
End fifo.


(** ** Lemmas: sessions *)
Definition disconnects (es : list event) : list error_code :=
  omap (λ e, match e with E_disconnect err => Some err | _ => None end) es.
Definition running_weight (c : tcp_connection) : nat := if is_running_ c then 1 else 0.

(** While it runs, a connection has the received mark set. *)
Definition marked (c : tcp_connection) : Prop := is_running_ c = true → received_msg_ c = true.

(** [session_rel k c c']: going from [c] to [c'] notifies at most as many
    disconnections as sessions end, [k] sessions being started; and from a
    marked state it notifies no timeout and stays marked. *)
Definition session_rel (k : nat) (c c' : tcp_connection) : Prop :=
  (length (disconnects (events c')) + running_weight c' ≤
   length (disconnects (events c)) + running_weight c + k)%nat ∧
  (marked c → marked c' ∧
    (ec_timeout ∈ disconnects (events c') → ec_timeout ∈ disconnects (events c))).

Create HintDb session discriminated.

Section session.
Context `{ALLOC : Allocator}.
Context (big_endian : bool) (max_transfer : Z)
        (memcpy_within : list Z → Z → Z → Z → ub (list Z)).
Implicit Types c : tcp_connection.

Lemma session_refl c : session_rel 0 c c.
Proof. split; [lia|done]. Qed.
Lemma session_trans k1 k2 c1 c2 c3 :
  session_rel k1 c1 c2 → session_rel k2 c2 c3 → session_rel (k1 + k2) c1 c3.
Proof. intros [H1 T1] [H2 T2]. split; [lia|]. intros Hm. naive_solver. Qed.
Lemma session_trans0 c1 c2 c3 :
  session_rel 0 c1 c2 → session_rel 0 c2 c3 → session_rel 0 c1 c3.
Proof. apply (session_trans 0 0). Qed.

(** Changes that touch neither the flags nor the disconnections. *)
Lemma session_frame c c' :
  is_running_ c' = is_running_ c → disconnects (events c') = disconnects (events c) →
  (received_msg_ c = true → received_msg_ c' = true) → session_rel 0 c c'.
Proof.
  intros Hr He Hm. unfold session_rel, running_weight, marked. rewrite Hr, He.
  split; [lia|]. intros Hm'. split; [auto|done].
Qed.

Lemma session_on_error err c : err ≠ ec_timeout → session_rel 0 c (on_error err c).
Proof.
  intros He. unfold on_error. destruct (is_running_ c) eqn:Hr; [|apply session_refl].
  unfold session_rel, running_weight, marked. rewrite Hr. simpl.
  unfold disconnects. rewrite omap_app, length_app. simpl. split; [lia|].
  intros _. split; [done|]. rewrite elem_of_app. intros [?|Hin]; [done|].
  apply list_elem_of_singleton in Hin. congruence.
Qed.
Lemma session_handle_timer c : session_rel 0 c (handle_timer c).
Proof.
  unfold handle_timer. destruct (received_msg_ c) eqn:Hm; simpl; [apply session_refl|].
  unfold on_error. destruct (is_running_ c) eqn:Hr; [|apply session_refl].
  unfold session_rel, running_weight, marked. rewrite Hr. simpl.
  unfold disconnects. rewrite omap_app, length_app. simpl. split; [lia|].
  intros H. specialize (H eq_refl). congruence.
Qed.
Lemma session_do_close c : session_rel 0 c (do_close c).
Proof.
  unfold do_close. destruct (force_close_error_ c); [apply session_refl|].
  unfold session_rel, running_weight, marked. simpl. split; [lia|done].
Qed.
Lemma session_stop_timers c : session_rel 0 c (stop_timers c).
Proof. by apply session_frame. Qed.
#[local] Hint Resolve session_refl session_on_error session_handle_timer
  session_do_close session_stop_timers : session.
#[local] Hint Extern 1 (session_rel 0 _ _) => (by apply session_frame) : session.
#[local] Hint Extern 1 (_ ≠ ec_timeout) => discriminate : session.

Lemma session_async_write c c' :
  async_write_msg big_endian c = Def c' → session_rel 0 c c'.
Proof.
  unfold async_write_msg. destruct (write_msg_queue_ c) as [|r q]; [intros; inv_def; auto with session|].
  destruct (_ || _); intros; inv_def; [auto with session|].
  destruct (batch_empty _); inv_def; [|auto with session].
  eapply session_trans0; [|by apply session_on_error]. auto with session.
Qed.
Lemma session_do_write r c c' : do_write big_endian r c = Def c' → session_rel 0 c c'.
Proof.
  unfold do_write. destruct (is_running_ c) eqn:Hr; simpl; [|intros; inv_def; auto with session].
  destruct (_ && _); simpl; intros H; [|inv_def; auto with session].
  eapply session_trans0; [|by apply session_async_write]. auto with session.
Qed.
Lemma session_handle_write err r c c' :
  handle_write big_endian err r c = Def c' → session_rel 0 c c'.
Proof.
  unfold handle_write. destruct (is_running_ c) eqn:Hr; simpl; [|intros; inv_def; auto with session].
  destruct err; [intros; inv_def; auto with session|]. intros H.
  apply ub_bind_Def in H as (hp&_&H). destruct (write_msg_queue_ c); [done|].
  eapply session_trans0; [|by apply session_async_write]. auto with session.
Qed.
Lemma session_handle_write_batch err c c' :
  handle_write_batch big_endian err c = Def c' → session_rel 0 c c'.
Proof.
  unfold handle_write_batch.
  destruct (is_running_ c) eqn:Hr; simpl; [|intros; inv_def; auto with session].
  destruct err; [intros; inv_def; auto with session|]. intros H.
  eapply session_trans0; [|by apply session_async_write]. auto with session.
Qed.
Lemma session_do_await_write r h c c' :
  do_await_write big_endian r h c = Def c' → session_rel 0 c c'.
Proof.
  unfold do_await_write. destruct (is_running_ c) eqn:Hr; simpl; [|intros; inv_def; auto with session].
  intros H. apply ub_bind_Def in H as (m&_&H).
  destruct (_ <=? 0); (eapply session_trans0; [|by eapply session_do_write]);
    auto with session.
Qed.
Lemma session_written err c c' : written big_endian err c = Def c' → session_rel 0 c c'.
Proof.
  unfold written. destruct (writing c) as [|[r bs|bs] ws]; intros H.
  - inv_def. auto with session.
  - eapply session_trans0; [|by eapply session_handle_write]. auto with session.
  - eapply session_trans0; [|by eapply session_handle_write_batch]. auto with session.
Qed.

Lemma session_async_sequence_read c : session_rel 0 c (async_sequence_read c).
Proof.
  unfold async_sequence_read. destruct (is_running_ c) eqn:Hr; simpl; [|auto with session].
  destruct (0 <? _); auto with session.
Qed.
Lemma disconnects_emit e c :
  match e with E_disconnect _ => False | _ => True end →
  disconnects (events (emit e c)) = disconnects (events c).
Proof.
  intros He. unfold disconnects. simpl. rewrite omap_app.
  destruct e; simpl; rewrite ?app_nil_r; done.
Qed.
Lemma session_dispatch msgs : ∀ c, session_rel 0 c (dispatch_calls msgs c).2.
Proof.
  induction msgs as [|m msgs IH]; intros c; simpl; [auto with session|].
  set (c1 := set_received true c). assert (session_rel 0 c c1) as H1 by auto with session.
  destruct (if 0 <? _ then _ else _) as [h|].
  - eapply session_trans0; [exact H1|]. eapply session_trans0; [|apply IH].
    apply session_frame; [done| |done]. by rewrite disconnects_emit.
  - specialize (IH c1). destruct (dispatch_calls msgs c1). simpl in *.
    by eapply session_trans0.
Qed.
Lemma session_on_receive msgs c : session_rel 0 c (on_receive_msgs msgs c).
Proof.
  unfold on_receive_msgs. pose proof (session_dispatch msgs c) as H.
  destruct (dispatch_calls msgs c) as [[|m l] c1]; [done|].
  eapply session_trans0; [exact H|]. apply session_frame; [done| |done].
  by rewrite disconnects_emit.
Qed.
Lemma session_handle_read err n c c' :
  handle_sequence_read big_endian memcpy_within err n c = Def c' → session_rel 0 c c'.
Proof.
  unfold handle_sequence_read. destruct (_ || _ || _); [intros; inv_def; auto with session|].
  intros H. apply ub_bind_Def in H as ([has r]&_&H). inv_def.
  eapply session_trans0; [|apply session_async_sequence_read].
  destruct has; [|auto with session].
  eapply session_trans0; [|apply session_on_receive]. auto with session.
Qed.
Lemma session_received err segs c c' :
  received big_endian max_transfer memcpy_within err segs c = Def c' → session_rel 0 c c'.
Proof.
  unfold received. destruct (reading c) as [|n]; [intros; inv_def; auto with session|].
  destruct err; intros H.
  - eapply session_trans0; [|by eapply session_handle_read]. auto with session.
  - apply ub_bind_Def in H as ([r total ?|? ?]&_&H); [|inv_def; auto with session].
    destruct (n =? 0)%nat; [|done].
    eapply session_trans0; [|by eapply session_handle_read]. auto with session.
Qed.

Lemma session_timer now id c :
  session_rel 0 c (run_expired timer_mgr_ set_timers timer_call now id c).
Proof.
  unfold run_expired, timer_handler, on_tm.
  destruct (tm_infos _ !! id) as [ti|]; [|auto with session].
  destruct (ti_expired ti) as [|n]; [auto with session|].
  set (c1 := set_timers _ c). assert (session_rel 0 c c1) as H1 by auto with session.
  destruct (tm_infos (timer_mgr_ c1) !! id) as [ti1|]; [|done]. simpl negb.
  destruct (_ && _); [|done].
  assert (∀ f, session_rel 0 c1 (run_func timer_call f c1).2) as Hf
    by (intros []; apply session_handle_timer).
  destruct (ti_func ti1) as [f|].
  - specialize (Hf f). destruct (run_func timer_call f c1) as [b c2]. simpl in Hf.
    eapply session_trans0; [exact H1|]. destruct (b || _); [|done].
    eapply session_trans0; [exact Hf|]. auto with session.
  - destruct (_ || _); [|done]. eapply session_trans0; [exact H1|]. auto with session.
Qed.

(** A start marks the connection as soon as it runs. *)
Lemma start_timer_frame now c c' :
  start_timer_conn now c = Def c' →
  is_running_ c' = is_running_ c ∧ received_msg_ c' = received_msg_ c ∧ events c' = events c ∧
  reading c' = reading c.
Proof.
  unfold start_timer_conn. destruct (0 <? _); [|intros; by inv_def].
  intros H. apply ub_bind_Def in H as (ms&_&H).
  apply ub_bind_Def in H as ([id tm]&_&H). by injection H as <-.
Qed.
Lemma start_read_view c :
  is_running_ (async_sequence_read (reset_state c)) = true ∧
  received_msg_ (async_sequence_read (reset_state c)) = true ∧
  events (async_sequence_read (reset_state c)) = events c ∧
  reading (async_sequence_read (reset_state c)) = S (reading c).
Proof.
  unfold async_sequence_read. cbn [is_running_ reset_state set_reader set_queue set_flags negb].
  unfold prepare_next_recv.
  assert (0 <? CLIENT_MSG_BUFF_MAX - remain_len_ (reader_ (reset_state c)) = true) as -> by done.
  done.
Qed.
Lemma start_marked remote_ok now c c' :
  start remote_ok now c = Def c' → session_rel 1 c c'.
Proof.
  unfold start. destruct remote_ok; simpl; [|intros; inv_def; split; [lia|done]].
  pose proof (start_read_view c) as (Hr&Hm&He&_).
  generalize dependent (async_sequence_read (reset_state c)). intros b Hr Hm He H.
  apply start_timer_frame in H as (Hr'&Hm'&He'&_).
  unfold session_rel, running_weight, marked. rewrite He', Hr', Hm', He, Hr, Hm.
  split; [destruct (is_running_ c); lia|done].
Qed.

Lemma start_reads now c c' : start true now c = Def c' → reading c' = S (reading c).
Proof.
  unfold start. cbn [negb]. pose proof (start_read_view c) as (_&_&_&Hr).
  generalize dependent (async_sequence_read (reset_state c)). intros b Hr H.
  apply start_timer_frame in H as (_&_&_&->). exact Hr.
Qed.

Lemma handle_connect_reads now c c' : handle_connect false now c = Def c' → reading c' = S (reading c).
Proof.
  unfold handle_connect. intros H. apply ub_bind_Def in H as (c0&Hs&H1).
  apply (start_reads now c c0) in Hs. injection H1 as <-. exact Hs.
Qed.
Lemma received_twice n segs c c' :
  reading c = S (S n) → received big_endian max_transfer memcpy_within false segs c = Def c' → c' = c.
Proof.
  unfold received. intros ->. generalize (async_read big_endian max_transfer (segs_fuel segs)
    (reader_ c) (remain_len_ (reader_ c)) (CLIENT_MSG_BUFF_MAX - remain_len_ (reader_ c)) 0 segs).
  intros res H. apply ub_bind_Def in H as ([r total ?|? ?]&_&H); [discriminate H|].
  by injection H as <-.
Qed.

Definition starts (l : label) : nat :=
  match l with L_connect _ _ _ _ | L_handle_connect _ _ | L_start _ _ => 1 | _ => 0 end.

Lemma session_weaken k c c' : session_rel 0 c c' → session_rel k c c'.
Proof. intros [H1 H2]. split; [lia|done]. Qed.

Lemma session_step l c c' :
  step big_endian max_transfer memcpy_within l c = Def c' → session_rel (starts l) c c'.
Proof.
  destruct l; simpl; intros H.
  - unfold connect in H. destruct err; [inv_def; by apply session_weaken, session_frame|].
    apply start_marked in H. by apply (session_trans 0 1 _ (set_socket true (fix_host host) port c));
      [apply session_frame|].
  - inv_def. unfold async_connect. destruct (is_running_ c); auto with session.
  - unfold handle_connect in H. apply ub_bind_Def in H as (c1&H&?). inv_def.
    apply (session_trans 1 0 _ c1); [by eapply start_marked|].
    apply session_frame; [done| |done]. by rewrite disconnects_emit.
  - by eapply start_marked.
  - inv_def. unfold close. destruct (force_close_error_ c); auto with session.
  - inv_def. unfold write. destruct (is_running_ c); auto with session.
  - inv_def. unfold await_write. destruct (is_running_ c); auto with session.
  - destruct (posts c) as [|t ts]; [inv_def; auto with session|].
    eapply session_trans0; [|destruct t; simpl in H].
    2: inv_def; apply session_do_close.
    2: by eapply session_do_write.
    2: by eapply session_do_await_write.
    auto with session.
  - by eapply session_written.
  - by eapply session_received.
  - inv_def. unfold on_tm. auto with session.
  - inv_def. apply session_timer.
Qed.

Lemma session_steps c ls c' :
  steps big_endian max_transfer memcpy_within c ls c' →
  session_rel (sum_list_with starts ls) c c'.
Proof.
  induction 1 as [|c l c1 ls c2 Hl _ IH]; [apply session_refl|]. simpl.
  eapply session_trans; [by apply session_step|done].
Qed.
End session.

(** ** Properties *)
Section properties.
Context `{ALLOC : Allocator}.
Context (big_endian : bool) (max_transfer : Z)
        (memcpy_within : list Z → Z → Z → Z → ub (list Z)).
Implicit Types c : tcp_connection.

(** C24: Messages leave in the order they were written, once each, whole, and one write
    at a time. Start with an idle running connection; let write tasks of distinct
    messages and completions of writes come in any order, with or without batching. No
    step is undefined, at most one [async_write] is ever in flight, and what the peer
    has received, what is in flight and what is queued are together exactly the frames
    of the messages written, in order; nothing is queued unless a write is in flight. *)
Theorem writes_are_fifo g c es :
  is_running_ c = true → writing c = [] → write_msg_queue_ c = [] →
  batch_msg_ptr_ c = None → sent c = [] →
  NoDup (accepted es) → Forall (enqueued (heap c) g) (accepted es) →
  ∃ c', write_run big_endian es c = Def c' ∧ is_running_ c' = true ∧
    (length (writing c') ≤ 1)%nat ∧
    ∃ waiting, out big_endian g (accepted es)
        = sent c' ++ in_flight c' ++ out big_endian g waiting ∧
      (writing c' = [] → waiting = []) ∧ ∀ r, r ∈ waiting → r ∈ write_msg_queue_ c'.
Proof.
  intros Hrun Hw Hq Hb Hs Hnd Hgood.
  assert (write_inv big_endian (heap c) g c []) as Hinv.
  { exists [], [], []. rewrite Hw. by split_and!. }
  destruct (write_run_inv big_endian (heap c) g es c [] Hinv Hnd Hgood) as (c'&Hrun'&Hinv').
  exists c'. split; [done|]. by eapply write_inv_view.
Qed.

(** C25: A lost connection is reported at most once per session. In every run of the
    machine, the number of disconnections reported to the router is at most the number
    of starts (plus one if the connection was running to begin with), whatever errors,
    closes and completions occur. *)
Theorem disconnect_once_per_session c ls c' :
  steps big_endian max_transfer memcpy_within c ls c' →
  (length (disconnects (events c')) ≤
   length (disconnects (events c)) + running_weight c + sum_list_with starts ls)%nat.
Proof. intros Hsteps. destruct (session_steps _ _ _ _ _ _ Hsteps) as [H _]. lia. Qed.

(** Defect: [disconnect_interval] never disconnects anybody. Starting to read
    marks the connection as having received something, and nothing ever takes the mark
    away, so in no run from a stopped connection does the idle timer report a timeout,
    however long the peer is silent. *)
Theorem idle_timeout_never_fires c ls c' :
  is_running_ c = false → ec_timeout ∉ disconnects (events c) →
  steps big_endian max_transfer memcpy_within c ls c' →
  ec_timeout ∉ disconnects (events c').
Proof.
  intros Hr Hno Hsteps Hin. apply Hno.
  destruct (session_steps _ _ _ _ _ _ Hsteps) as [_ H].
  apply H; [|done]. intros ?. congruence.
Qed.

Lemma on_error_calls err c : calls_ (on_error err c) = calls_ c.
Proof. unfold on_error. by destruct (is_running_ c). Qed.
Lemma async_write_calls c c' :
  async_write_msg big_endian c = Def c' → calls_ c' = calls_ c.
Proof.
  unfold async_write_msg. destruct (write_msg_queue_ c); [intros; by inv_def|].
  destruct (_ || _); intros; inv_def; [done|].
  destruct (batch_empty _); inv_def; [|done]. by rewrite on_error_calls.
Qed.
Lemma do_write_calls r c c' :
  do_write big_endian r c = Def c' → calls_ c' = calls_ c.
Proof.
  unfold do_write. destruct (is_running_ c); simpl; [|intros; by inv_def].
  destruct (_ && _); simpl; intros H; [|by inv_def].
  by apply async_write_calls in H.
Qed.

(** Defect: A caller can wait for a reply for ever. Waiting on a call id that is
    already pending does not register the second caller: the first reply resumes the
    first caller, the next one goes to the router. And neither closing nor an error
    resumes anyone who waits. *)
Theorem await_write_can_hang r m h1 h2 c c' reply1 reply2 :
  is_running_ c = true → heap c !! r = Some m →
  0 < mh_call_id (m_header m) → calls_ c !! mh_call_id (m_header m) = Some h1 →
  mh_call_id (m_header reply1) = mh_call_id (m_header m) →
  mh_call_id (m_header reply2) = mh_call_id (m_header m) →
  do_await_write big_endian r h2 c = Def c' →
  calls_ c' = calls_ c ∧
  events (on_receive_msgs [reply1; reply2] c') =
    (events c' ++ [E_call h1 reply1]) ++ [E_receive [reply2]] ∧
  events (do_close c') = events c' ∧ calls_ (do_close c') = calls_ c' ∧
  (∀ err, calls_ (on_error err c') = calls_ c').
Proof.
  intros Hrun Hm Hid Hcall Hr1 Hr2 H. unfold do_await_write in H.
  rewrite Hrun, Hm in H. cbn [negb deref mbind ub_bind] in H.
  destruct (Z.leb_spec (mh_call_id (m_header m)) 0); [lia|].
  rewrite Hcall, bool_decide_true in H by by eexists.
  apply do_write_calls in H. simpl in H.
  split; [done|]. split; [|split; [|split]].
  - unfold on_receive_msgs, dispatch_calls. rewrite Hr1, Hr2.
    destruct (Z.ltb_spec 0 (mh_call_id (m_header m))); [|lia].
    cbn [set_received calls_]. rewrite H, Hcall. cbn [emit set_calls set_received calls_].
    by rewrite lookup_delete_eq.
  - unfold do_close. by destruct (force_close_error_ c').
  - unfold do_close. by destruct (force_close_error_ c').
  - intros err. apply on_error_calls.
Qed.

(** Defect: A connection that is started twice has two reads in flight, and the
    next bytes to arrive are undefined: a connect that succeeds has already started it
    when the router is told, so a router that starts it in its handler loses the stream.
    *)
Theorem second_start_reads_twice now now' c c1 c2 segs c3 :
  reading c = O → handle_connect false now c = Def c1 → start true now' c1 = Def c2 →
  reading c2 = 2%nat ∧
  (received big_endian max_transfer memcpy_within false segs c2 = Def c3 → c3 = c2).
Proof.
  intros Hc H1 H2%start_reads. apply handle_connect_reads in H1.
  assert (reading c2 = 2%nat) as Hr by (rewrite H2, H1, Hc; reflexivity).
  split; [exact Hr|]. exact (received_twice big_endian max_transfer memcpy_within 0 segs c2 c3 Hr).
Qed.
End properties.

(** ** Witnesses *)
#[local] Existing Instance zero_allocator.

(** A new connection; the examples do not look at the reader's buffer. *)
Definition connection_new (interval : Z) (batch : bool) (hp : msg_heap msg_header)
    : tcp_connection :=
  Connection false false false interval batch false "" 0 [] None
    (Reader [] (msg_header_init_short 0 0 0) npos 0 0 [] true)
    timer_manager_new 0 ∅ hp [] [] 0 [] [].

Definition three_msgs : msg_heap msg_header :=
  {[1 := sample_msg 7 [1; 2]; 2 := sample_msg 8 []; 3 := sample_msg 9 [3]]}.
Definition three_payloads (r : msg_ref) : basic_msg msg_header * list Z :=
  if r =? 1 then (sample_msg 7 [1; 2], [1; 2])
  else if r =? 2 then (sample_msg 8 [], [])
  else (sample_msg 9 [3], [3]).
Definition idle_connection (batch : bool) : tcp_connection :=
  set_flags true false (connection_new 60 batch three_msgs).

Lemma three_enqueued : Forall (enqueued three_msgs three_payloads) [1; 2; 3].
Proof.
  assert (∀ id p, 0 ≤ id < 2 ^ 32 → bytes_ok p → Z.of_nat (length p) < 2 ^ 31 →
    msg_wf (sample_msg id p) p) as Hwf.
  { intros id p Hid Hp Hl. unfold msg_wf, sample_msg. simpl.
    assert (field_ok 4 (Z.of_nat (length p))).
    { split; [done|]. change (2 ^ (4 * 8)) with (2 ^ 32). lia. }
    split; [by repeat apply Forall2_cons_2; try apply Forall2_nil_2|].
    split_and!; try done. exists []. by rewrite app_nil_r. }
  repeat (apply Forall_cons; split);
    [split; [done|]; apply Hwf; [done| |done]; by repeat constructor..|by constructor].
Defined.

Lemma writes_are_fifo_witness :
  ∃ c', write_run true [We_write 1; We_write 2; We_write 3; We_written; We_written]
      (idle_connection true) = Def c' ∧
    ∃ waiting, out true three_payloads [1; 2; 3]
      = sent c' ++ in_flight c' ++ out true three_payloads waiting.
Proof.
  destruct (writes_are_fifo true three_payloads (idle_connection true)
    [We_write 1; We_write 2; We_write 3; We_written; We_written]) as (c'&H1&_&_&w&H2&_).
  - done.
  - done.
  - done.
  - done.
  - done.
  - by apply (bool_decide_eq_true_1 _).
  - apply three_enqueued.
  - exists c'. split; [exact H1|]. exists w. exact H2.
Defined.

(** Running a list of labels, for concrete examples. *)
Section runs.
Context (big_endian : bool) (max_transfer : Z).
Fixpoint run_labels (ls : list label) (c : tcp_connection) : ub tcp_connection :=
  match ls with
  | [] => Def c
  | l :: ls => c ← step big_endian max_transfer memmove_within l c; run_labels ls c
  end.
Definition defined {A} (m : ub A) : bool := match m with Def _ => true | Undef => false end.
Lemma steps_of_run ls : ∀ c,
  defined (run_labels ls c) = true →
  ∃ c', steps big_endian max_transfer memmove_within c ls c'.
Proof.
  induction ls as [|l ls IH]; intros c; simpl; [intros _; by exists c; constructor|].
  destruct (step _ _ _ l c) as [c1|] eqn:Hl; simpl; [|done].
  intros [c' Hc']%IH. exists c'. by econstructor.
Qed.
End runs.

(** Start, lose the read, close: one report. *)
Lemma disconnect_once_per_session_witness :
  ∃ c', steps true 65536 memmove_within (connection_new 60 false ∅)
      [L_start true 1000; L_received true []; L_close; L_task] c' ∧
    (length (disconnects (events c')) ≤ 1)%nat.
Proof.
  assert (∃ c', steps true 65536 memmove_within (connection_new 60 false ∅)
    [L_start true 1000; L_received true []; L_close; L_task] c') as [c' Hc'].
  { apply steps_of_run. vm_compute. reflexivity. }
  exists c'. split; [exact Hc'|].
  exact (disconnect_once_per_session true 65536 memmove_within _ _ c' Hc').
Defined.

(** A minute of silence, and the timer's tick. *)
Lemma idle_timeout_never_fires_witness :
  ∃ c', steps true 65536 memmove_within (connection_new 60 false ∅)
      [L_start true 1000; L_expire 61000 1; L_timer 61000 1] c' ∧
    ec_timeout ∉ disconnects (events c').
Proof.
  assert (∃ c', steps true 65536 memmove_within (connection_new 60 false ∅)
    [L_start true 1000; L_expire 61000 1; L_timer 61000 1] c') as [c' Hc'].
  { apply steps_of_run. vm_compute. reflexivity. }
  exists c'. split; [exact Hc'|].
  apply (idle_timeout_never_fires true 65536 memmove_within (connection_new 60 false ∅)
    [L_start true 1000; L_expire 61000 1; L_timer 61000 1]).
  - done.
  - by apply not_elem_of_nil.
  - exact Hc'.
Defined.

Definition call_msg : basic_msg msg_header :=
  BasicMsg (msg_header_init 0 0 0 5 0 7 0) empty_body.
Definition waiting_connection : tcp_connection :=
  set_calls 0 {[5 := 100]} (set_flags true false (connection_new 60 false {[1 := call_msg]})).
Lemma await_write_can_hang_witness :
  ∃ c', do_await_write true 1 200 waiting_connection = Def c' ∧
    events (on_receive_msgs [call_msg; call_msg] c') =
      (events c' ++ [E_call 100 call_msg]) ++ [E_receive [call_msg]].
Proof.
  assert (∃ c', do_await_write true 1 200 waiting_connection = Def c') as [c' Hc']
    by (eexists; reflexivity).
  exists c'. split; [exact Hc'|].
  apply (await_write_can_hang true 1 call_msg 100 200 waiting_connection c'); try done.
Defined.

Lemma defined_bind {A B} (m : ub A) (f : A → ub B) :
  defined (m ≫= f) = true → ∃ a b, m = Def a ∧ f a = Def b.
Proof.
  destruct m as [a|]; simpl; [|done]. destruct (f a) as [b|] eqn:Hb; [|done]. by exists a, b.
Qed.
Lemma second_start_reads_twice_witness :
  ∃ c1 c2, handle_connect false 1000 (connection_new 0 false ∅) = Def c1 ∧
    start true 1000 c1 = Def c2 ∧ reading c2 = 2%nat.
Proof.
  assert (defined (handle_connect false 1000 (connection_new 0 false ∅) ≫= start true 1000) = true)
    as H by (vm_compute; reflexivity).
  destruct (defined_bind _ _ H) as (c1&c2&H1&H2).
  exists c1, c2. split; [exact H1|]. split; [exact H2|].
  exact (proj1 (second_start_reads_twice true 65536 memmove_within 1000 1000
    (connection_new 0 false ∅) c1 c2 [] c2 eq_refl H1 H2)).
Defined.
