(* ===== verification/Csv.v ===== *)
(** * CSV files ([network/serialize/detail/csv_parser.hpp])

    The parser is a character-driven state machine that collects fields into
    rows and rows into the table, then may take the first three rows as names,
    types and descriptions.  Exceptions are values: a parse returns the error
    thrown, if any, with the table as it stands.  [boost::trim_copy_if], applied
    to every field, is a parameter. *)
From stdpp Require Import base option list numbers strings.
From Stdlib Require Import Ascii.
From S2P Require Import Prelude.
Local Open Scope Z_scope.

Notation str := (list ascii) (only parsing).
Definition quote : ascii := "034".
Definition comma : ascii := ",".
Definition cr : ascii := "013".
Definition nl : ascii := "010".

(** ** Definitions *)
Inductive csv_error :=
| csv_ok | csv_fail | csv_no_header | csv_no_key | csv_index_overflow
| csv_over_max_size | csv_has_empty_line | csv_invalid_newline_character
| csv_syntax_error.
#[export] Instance csv_error_eq_dec : EqDecision csv_error.
Proof. solve_decision. Defined.

(** A call that returns or throws. *)
Inductive exc (A : Type) :=
| Ret (a : A)
| Throw (e : csv_error).
Arguments Ret {A} a.
Arguments Throw {A} e.

Inductive state_type :=
| new_field_start | non_quotes_field | quotes_field | field_separator
| quote_in_quotes_field | row_separator | error_state | newline_in_quote_field.
#[export] Instance state_type_eq_dec : EqDecision state_type.
Proof. solve_decision. Defined.

(** A row; [row_header] tells whether its header pointer has been set (it
    points to the header of the table the row belongs to). *)
Record csv_row := CsvRow { row_values : list str; row_header : bool }.

Definition row_size (r : csv_row) : Z := Z.of_nat (length (row_values r)).
Definition row_at (r : csv_row) (index : Z) : exc str :=
  match row_values r !! Z.to_nat index with
  | Some v => if 0 <=? index then Ret v else Throw csv_index_overflow
  | None => Throw csv_index_overflow
  end.
(** The position of a key, as [std::find] returns it. *)
Fixpoint find_key (header : list str) (key : str) : option nat :=
  match header with
  | [] => None
  | k :: header => if bool_decide (k = key) then Some O else S <$> find_key header key
  end.
(** The value under a key is read without a bounds check. *)
Definition row_at_key (header : list str) (r : csv_row) (key : str) : ub (exc str) :=
  if negb (row_header r) then Def (Throw csv_no_header)
  else
    match find_key header key with
    | None => Def (Throw csv_no_key)
    | Some i => match row_values r !! i with Some v => Def (Ret v) | None => Undef end
    end.

Record csv := Csv {
  first_line_is_header_ : bool;
  has_type_ : option bool;       (* [None]: never initialised *)
  has_desc_ : option bool;
  header_is_in_rows_ : bool;
  content_ : list csv_row;
  csv_header_ : list str;
  types_ : list str;
  desc_ : list str
}.

(** The constructor ignores its second and third argument; [has_type_] and
    [has_desc_] are what their storage held: both false in static storage, which
    is zeroed ([zeroed]), indeterminate elsewhere ([garbage]). *)
Definition csv_new (storage : option bool * option bool)
    (first_line_is_header has_type has_desc header_is_in_rows : bool) : csv :=
  Csv first_line_is_header storage.1 storage.2 header_is_in_rows [] [] [] [].
Definition zeroed : option bool * option bool := (Some false, Some false).
Definition garbage : option bool * option bool := (None, None).

Section csv.
Context (trim : str → str).

Definition push_back (row : list str) (value : str) : list str := row ++ [trim value].

(** The loop's variables: state, the row and the field being collected, and
    the rows done. *)
Record lexer := Lexer {
  lx_state : state_type;
  lx_row : list str;
  lx_field : str;
  lx_content : list csv_row
}.
Definition lexer_new : lexer := Lexer new_field_start [] [] [].

Definition goto (s : state_type) (lx : lexer) : option csv_error * lexer :=
  (None, Lexer s (lx_row lx) (lx_field lx) (lx_content lx)).
Definition add_char (s : state_type) (ch : ascii) (lx : lexer) : option csv_error * lexer :=
  (None, Lexer s (lx_row lx) (lx_field lx ++ [ch]) (lx_content lx)).
(** Close a field and go on in the row. *)
Definition end_field (s : state_type) (value field : str) (lx : lexer)
    : option csv_error * lexer :=
  (None, Lexer s (push_back (lx_row lx) value) field (lx_content lx)).
(** Close the row. *)
Definition end_row (row : list str) (lx : lexer) : option csv_error * lexer :=
  (None, Lexer new_field_start [] [] (lx_content lx ++ [CsvRow row false])).
Definition throw (e : csv_error) (lx : lexer) : option csv_error * lexer := (Some e, lx).

Definition lex_char (ch : ascii) (lx : lexer) : option csv_error * lexer :=
  let field := lx_field lx in
  match lx_state lx with
  | new_field_start =>
      if Ascii.eqb ch quote then goto quotes_field lx
      else if Ascii.eqb ch comma then end_field field_separator [] field lx
      else if Ascii.eqb ch cr || Ascii.eqb ch nl then throw csv_has_empty_line lx
      else add_char non_quotes_field ch lx
  | non_quotes_field =>
      if Ascii.eqb ch comma then end_field field_separator field [] lx
      else if Ascii.eqb ch cr then end_field row_separator field field lx
      else if Ascii.eqb ch nl then end_row (push_back (lx_row lx) field) lx
      else add_char non_quotes_field ch lx
  | quotes_field =>
      if Ascii.eqb ch quote then goto quote_in_quotes_field lx
      else if Ascii.eqb ch cr then goto newline_in_quote_field lx
      else add_char quotes_field ch lx
  | field_separator =>
      if Ascii.eqb ch comma then end_field field_separator [] field lx
      else if Ascii.eqb ch quote then
        (None, Lexer quotes_field (lx_row lx) [] (lx_content lx))
      else if Ascii.eqb ch cr then end_field row_separator [] field lx
      else if Ascii.eqb ch nl then end_row (push_back (lx_row lx) []) lx
      else add_char non_quotes_field ch lx
  | quote_in_quotes_field =>
      if Ascii.eqb ch comma then end_field field_separator field [] lx
      else if Ascii.eqb ch cr then end_field row_separator field field lx
      else if Ascii.eqb ch nl then end_row (push_back (lx_row lx) field) lx
      else if Ascii.eqb ch quote then add_char quotes_field ch lx
      else throw csv_syntax_error lx
  | row_separator =>
      if Ascii.eqb ch nl then end_row (lx_row lx) lx
      else throw csv_invalid_newline_character lx
  | newline_in_quote_field =>
      if Ascii.eqb ch nl then add_char quotes_field nl lx
      else throw csv_invalid_newline_character lx
  | error_state => (None, lx)
  end.

Fixpoint lex (text : str) (lx : lexer) : option csv_error * lexer :=
  match text with
  | [] => (None, lx)
  | ch :: text =>
      match lex_char ch lx with
      | (Some e, lx) => (Some e, lx)
      | (None, lx) => lex text lx
      end
  end.

(** The switch after the loop. *)
Definition lex_end (lx : lexer) : option csv_error * lexer :=
  match lx_state lx with
  | new_field_start | row_separator => (None, lx)
  | non_quotes_field | quote_in_quotes_field => end_row (push_back (lx_row lx) (lx_field lx)) lx
  | quotes_field => throw csv_syntax_error lx
  | field_separator => end_row (push_back (lx_row lx) []) lx
  | error_state | newline_in_quote_field => (None, lx)
  end.

Definition add_content (l : list str) (row : csv_row) : list str := l ++ row_values row.

Definition set_header (c : csv) : csv :=
  match first_line_is_header_ c, content_ c with
  | true, names :: types :: desc :: rest =>
      let rows := if header_is_in_rows_ c then content_ c else rest in
      {| first_line_is_header_ := true; has_type_ := has_type_ c; has_desc_ := has_desc_ c;
         header_is_in_rows_ := header_is_in_rows_ c;
         content_ := (λ r, CsvRow (row_values r) true) <$> rows;
         csv_header_ := add_content [] names; types_ := add_content [] types;
         desc_ := add_content [] desc |}
  | _, _ => c
  end.

(** The error thrown, if any, and the table. *)
Definition parse_string (text : str) (c : csv) : option csv_error * csv :=
  let table rows :=
    {| first_line_is_header_ := first_line_is_header_ c; has_type_ := has_type_ c;
       has_desc_ := has_desc_ c; header_is_in_rows_ := header_is_in_rows_ c;
       content_ := rows; csv_header_ := []; types_ := types_ c; desc_ := desc_ c |} in
  match lex text lexer_new with
  | (Some e, lx) => (Some e, table (lx_content lx))
  | (None, lx) =>
      match lex_end lx with
      | (Some e, lx) => (Some e, table (lx_content lx))
      | (None, lx) => (None, set_header (table (lx_content lx)))
      end
  end.

Definition MB : Z := 1024 * 1024.
(** [size] and [read] are what the file system answers; [None] is an
    exception, and the handler around both turns every exception, its own
    [over_max_size] included, into [fail]. *)
Definition parse_file (size : option Z) (read : option str) (c : csv)
    : option csv_error * csv :=
  match size with
  | None => (Some csv_fail, c)
  | Some file_size =>
      if file_size =? 0 then (None, c)
      else if 50 * MB <? file_size then (Some csv_fail, c)
      else match read with
           | None => (Some csv_fail, c)
           | Some content => parse_string content c
           end
  end.
End csv.

Definition csv_row_size (c : csv) : Z := Z.of_nat (length (content_ c)).
Definition column_size (c : csv) : Z := Z.of_nat (length (csv_header_ c)).
Definition csv_at (c : csv) (index : Z) : exc csv_row :=
  match content_ c !! Z.to_nat index with
  | Some r => if 0 <=? index then Ret r else Throw csv_index_overflow
  | None => Throw csv_index_overflow
  end.
(** Reads two members nobody initialises. *)
Definition header_lines (c : csv) : ub Z :=
  has_type ← deref (has_type_ c);
  has_desc ← deref (has_desc_ c);
  Def (Z.b2z (first_line_is_header_ c) + Z.b2z has_type + Z.b2z has_desc).

(** ** Texts that stand for a table *)
Definition quoted (s : str) : str :=
  [quote] ++ (s ≫= λ c, if Ascii.eqb c quote then [quote; quote] else [c]) ++ [quote].
(** A field is written in quotes, with quotes doubled, or as it is when that
    does not confuse the reader. *)
Definition plain (s : str) : Prop :=
  comma ∉ s ∧ cr ∉ s ∧ nl ∉ s ∧ head s ≠ Some quote.
Definition field_text (s t : str) : Prop := (t = quoted s ∧ cr ∉ s) ∨ (t = s ∧ plain s).

(** A row: its fields between commas; a lone empty field has to be quoted. *)
Inductive fields_text : list str → str → Prop :=
| fields_one s t : field_text s t → fields_text [s] t
| fields_cons s t ss ts :
    field_text s t → fields_text ss ts → fields_text (s :: ss) (t ++ comma :: ts).
Definition row_text (row : list str) (t : str) : Prop := fields_text row t ∧ t ≠ [].

(** Rows end with a newline or with carriage return and newline; the last may
    just end. *)
Inductive table_text : list (list str) → str → Prop :=
| table_nil : table_text [] []
| table_last row t : row_text row t → table_text [row] t
| table_cons row t e rows ts :
    row_text row t → e = [nl] ∨ e = [cr; nl] → table_text rows ts →
    table_text (row :: rows) (t ++ e ++ ts).

Section csv_lemmas.
Context (trim : str → str).

Lemma lex_app t u lx :
  lex trim (t ++ u) lx =
    match lex trim t lx with
    | (Some e, lx) => (Some e, lx)
    | (None, lx) => lex trim u lx
    end.
Proof.
  revert lx. induction t as [|c t IH]; intros lx; [done|]. simpl.
  destruct (lex_char trim c lx) as [[e|] lx']; [done|apply IH].
Qed.

Lemma eqb_neq (c d : ascii) : c ≠ d → Ascii.eqb c d = false.
Proof. apply Ascii.eqb_neq. Qed.

(** Characters of a plain field, and of a quoted one. *)
Lemma lex_plain s row field content :
  comma ∉ s → cr ∉ s → nl ∉ s →
  lex trim s (Lexer non_quotes_field row field content) =
    (None, Lexer non_quotes_field row (field ++ s) content).
Proof.
  revert field. induction s as [|c s IH]; intros field Hc Hr Hn; simpl;
    [by rewrite app_nil_r|].
  apply not_elem_of_cons in Hc as [? ?], Hr as [? ?], Hn as [? ?].
  unfold lex_char. simpl. rewrite !eqb_neq by done. simpl.
  rewrite IH by done. by rewrite <-app_assoc.
Qed.
Lemma lex_quoted s row field content :
  cr ∉ s →
  lex trim (s ≫= λ c, if Ascii.eqb c quote then [quote; quote] else [c])
    (Lexer quotes_field row field content) =
    (None, Lexer quotes_field row (field ++ s) content).
Proof.
  revert field. induction s as [|c s IH]; intros field Hr; [by rewrite app_nil_r|].
  apply not_elem_of_cons in Hr as [? ?]. csimpl. rewrite lex_app.
  destruct (Ascii.eqb_spec c quote) as [->|Hq].
  - simpl. rewrite IH by done. by rewrite <-app_assoc.
  - simpl. unfold lex_char. simpl. rewrite !eqb_neq by done. simpl.
    rewrite IH by done. by rewrite <-app_assoc.
Qed.

(** Where a field may begin, and where its text leaves the machine. *)
Definition at_start (s : state_type) : Prop := s = new_field_start ∨ s = field_separator.
Definition after_field (s0 : state_type) (s t : str) (st : state_type) (field : str) : Prop :=
  (t = [] ∧ s = [] ∧ st = s0 ∧ field = []) ∨
  (t ≠ [] ∧ field = s ∧ (st = non_quotes_field ∨ st = quote_in_quotes_field)).

Lemma lex_field s0 s t row content :
  at_start s0 → field_text s t →
  ∃ st field, lex trim t (Lexer s0 row [] content) = (None, Lexer st row field content) ∧
    after_field s0 s t st field.
Proof.
  intros Hs0 [[-> Hr]|[-> (Hc&Hr&Hn&Hh)]].
  - unfold quoted. rewrite lex_app.
    assert (lex trim [quote] (Lexer s0 row [] content) =
      (None, Lexer quotes_field row [] content)) as ->
      by (destruct Hs0 as [->| ->]; reflexivity).
    rewrite lex_app, lex_quoted by done. simpl.
    eexists _, _. split; [done|]. right. split; [done|]. auto.
  - destruct s as [|c s]; [eexists _, _; split; [done|by left]|].
    simpl in Hh. apply not_elem_of_cons in Hc as [? ?], Hr as [? ?], Hn as [? ?].
    assert (lex_char trim c (Lexer s0 row [] content) =
      (None, Lexer non_quotes_field row [c] content)) as Hstep.
    { destruct Hs0 as [->| ->]; unfold lex_char; simpl; rewrite !eqb_neq by congruence; done. }
    simpl. rewrite Hstep, lex_plain by done.
    eexists _, _. split; [done|]. right. split; [done|]. auto.
Qed.

(** What may follow a field. *)

Lemma lex_comma s0 s t row content st field :
  at_start s0 → after_field s0 s t st field →
  lex_char trim comma (Lexer st row field content) =
    (None, Lexer field_separator (row ++ [trim s]) [] content).
Proof.
  intros Hs0 [(->&->&->&->)|(_&->&[->| ->])]; [|done..].
  by destruct Hs0 as [->| ->].
Qed.
Lemma lex_nl s0 s t row content st field :
  at_start s0 → (s0 = new_field_start → t ≠ []) → after_field s0 s t st field →
  lex_char trim nl (Lexer st row field content) =
    (None, Lexer new_field_start [] [] (content ++ [CsvRow (row ++ [trim s]) false])).
Proof.
  intros Hs0 Ht [(->&->&->&->)|(_&->&[->| ->])]; [|done..].
  destruct Hs0 as [->| ->]; [by destruct Ht|done].
Qed.
Lemma lex_cr s0 s t row content st field :
  at_start s0 → (s0 = new_field_start → t ≠ []) → after_field s0 s t st field →
  ∃ field', lex_char trim cr (Lexer st row field content) =
    (None, Lexer row_separator (row ++ [trim s]) field' content).
Proof.
  intros Hs0 Ht [(->&->&->&->)|(_&->&[->| ->])]; [|by eexists..].
  destruct Hs0 as [->| ->]; [by destruct Ht|by eexists].
Qed.
Lemma lex_end_field s0 s t row content st field :
  at_start s0 → (s0 = new_field_start → t ≠ []) → after_field s0 s t st field →
  lex_end trim (Lexer st row field content) =
    (None, Lexer new_field_start [] [] (content ++ [CsvRow (row ++ [trim s]) false])).
Proof.
  intros Hs0 Ht [(->&->&->&->)|(_&->&[->| ->])]; [|done..].
  destruct Hs0 as [->| ->]; [by destruct Ht|done].
Qed.

(** A row's text leaves the machine behind its last field. *)
Lemma lex_fields ss t : fields_text ss t → ∀ s0 row content,
  at_start s0 → (s0 = new_field_start → t ≠ []) →
  ∃ s0' init s t' st field,
    lex trim t (Lexer s0 row [] content) =
      (None, Lexer st (row ++ (trim <$> init)) field content) ∧
    ss = init ++ [s] ∧ at_start s0' ∧ (s0' = new_field_start → t' ≠ []) ∧
    after_field s0' s t' st field.
Proof.
  induction 1 as [s t Hf|s t ss ts Hf _ IH]; intros s0 row content Hs0 Ht.
  - destruct (lex_field s0 s t row content Hs0 Hf) as (st&field&Hlex&Haf).
    exists s0, [], s, t, st, field. simpl. rewrite app_nil_r. by split_and!.
  - destruct (lex_field s0 s t row content Hs0 Hf) as (st&field&Hlex&Haf).
    rewrite lex_app, Hlex. simpl. rewrite (lex_comma s0 s t row content st field Hs0 Haf).
    destruct (IH field_separator (row ++ [trim s]) content) as
      (s0'&init&s'&t'&st'&field'&Hlex'&->&?&?&?); [by right|done|].
    exists s0', (s :: init), s', t', st', field'. rewrite Hlex'.
    rewrite <-app_assoc. by split_and!.
Qed.

Definition rows_of (rows : list (list str)) : list csv_row :=
  (λ r, CsvRow (trim <$> r) false) <$> rows.

Lemma lex_table rows text : table_text rows text → ∀ content,
  ∃ lx, lex trim text (Lexer new_field_start [] [] content) = (None, lx) ∧
    ∃ lx', lex_end trim lx = (None, lx') ∧ lx_content lx' = content ++ rows_of rows.
Proof.
  induction 1 as [|row t [Hrow Ht]|row t e rows ts [Hrow Ht] He _ IH]; intros content.
  - eexists. split; [done|]. eexists. split; [done|]. simpl. by rewrite app_nil_r.
  - destruct (lex_fields row t Hrow new_field_start [] content) as
      (s0&init&s&t'&st&field&Hlex&->&Hs0&Ht'&Haf); [by left|done|].
    rewrite Hlex. eexists. split; [done|]. rewrite (lex_end_field s0 s t') by done.
    eexists. split; [done|]. simpl. by rewrite fmap_app.
  - destruct (lex_fields row t Hrow new_field_start [] content) as
      (s0&init&s&t'&st&field&Hlex&->&Hs0&Ht'&Haf); [by left|done|].
    rewrite lex_app, Hlex. rewrite lex_app.
    assert (lex trim e (Lexer st ([] ++ (trim <$> init)) field content) =
      (None, Lexer new_field_start [] [] (content ++ rows_of [init ++ [s]]))) as ->.
    { unfold rows_of. simpl. rewrite fmap_app. destruct He as [->| ->]; simpl.
      - by rewrite (lex_nl s0 s t').
      - destruct (lex_cr s0 s t' (trim <$> init) content st field) as [f ->]; done. }
    destruct (IH (content ++ rows_of [init ++ [s]])) as (lx&->&lx'&?&Hc).
    exists lx. split; [done|]. exists lx'. split; [done|]. rewrite Hc.
    by rewrite <-app_assoc.
Qed.
End csv_lemmas.

(** ** Properties *)
Section properties.
Context (trim : str → str).
Definition trimmed (rows : list (list str)) : Prop :=
  Forall (Forall (λ f, trim f = f)) rows.

Lemma with_header_values (rows : list csv_row) :
  row_values <$> ((λ r, CsvRow (row_values r) true) <$> rows) = row_values <$> rows.
Proof. induction rows as [|r rows IH]; csimpl; [done|by rewrite IH]. Qed.

Lemma with_header_of (rows : list csv_row) (rs : list (list str)) : row_values <$> rows = rs →
  (λ r, CsvRow (row_values r) true) <$> rows = (λ r, CsvRow r true) <$> rs.
Proof. intros <-. by rewrite <-list_fmap_compose. Qed.

Lemma rows_of_trimmed rows : trimmed rows → row_values <$> rows_of trim rows = rows.
Proof.
  induction 1 as [|r rows Hr _ IH]; [done|]. unfold rows_of in *. csimpl. rewrite IH. f_equal.
  clear -Hr. induction Hr as [|f r Hf _ IH]; csimpl; [done|by rewrite Hf, IH].
Qed.

(** The table that stands in a text with a header. *)
Lemma parse_header_table names types desc data text storage has_type has_desc :
  table_text (names :: types :: desc :: data) text → trimmed (names :: types :: desc :: data) →
  ∃ c, parse_string trim text (csv_new storage true has_type has_desc false) = (None, c) ∧
    csv_header_ c = names ∧ types_ c = types ∧ desc_ c = desc ∧
    content_ c = (λ r, CsvRow r true) <$> data ∧
    first_line_is_header_ c = true ∧ has_type_ c = storage.1 ∧ has_desc_ c = storage.2.
Proof.
  intros Htext Htrim. pose proof (rows_of_trimmed _ Htrim) as Hvals.
  destruct (lex_table trim _ text Htext []) as (lx&Hlex&lx'&Hend&Hc).
  simpl in Hc. unfold parse_string, lexer_new. rewrite Hlex, Hend.
  eexists. split; [done|]. rewrite Hc. unfold rows_of, set_header. csimpl in *.
  injection Hvals as Hn Ht Hd Hdata. unfold add_content. simpl. rewrite Hn, Ht, Hd.
  split_and!; try done. by apply with_header_of.
Qed.

(** C28: Parsing inverts writing. Any text that writes a table of trimmed fields (fields
    without blanks, tabs or line ends at their ends, which the parser cuts off every
    field), separated by commas, with fields plain (no comma or line end inside, no
    quote in front) or in quotes (quotes doubled; newlines and commas inside them
    allowed, but no carriage return), a row of one empty field in quotes, with either
    line ending and the last one optional, is parsed without error to exactly that
    table. With a header, the first three rows become names, types and descriptions, the
    others the content, and looking a key up in a row that has its column yields the
    field of the key's first column. *)
Theorem parse_written_table rows text storage has_type has_desc :
  table_text rows text → trimmed rows →
  (∃ c, parse_string trim text (csv_new storage false has_type has_desc false) = (None, c) ∧
    row_values <$> content_ c = rows) ∧
  (∀ names types desc data, rows = names :: types :: desc :: data →
    ∃ c, parse_string trim text (csv_new storage true has_type has_desc false) = (None, c) ∧
      csv_header_ c = names ∧ types_ c = types ∧ desc_ c = desc ∧
      row_values <$> content_ c = data ∧
      ∀ i row key k v, content_ c !! i = Some row → find_key names key = Some k →
        row_values row !! k = Some v → row_at_key (csv_header_ c) row key = Def (Ret v)).
Proof.
  intros Htext Htrim. pose proof (rows_of_trimmed rows Htrim) as Hvals.
  split.
  - destruct (lex_table trim rows text Htext []) as (lx&Hlex&lx'&Hend&Hc).
    simpl in Hc. unfold parse_string, lexer_new. rewrite Hlex, Hend.
    eexists. split; [done|]. simpl. by rewrite Hc.
  - intros names types desc data ->.
    destruct (parse_header_table _ _ _ _ _ storage has_type has_desc Htext Htrim) as (c&Hp&Hn&Ht&Hd&Hc&_).
    exists c. split_and!; try done.
    { rewrite Hc, <-list_fmap_compose. apply list_fmap_id. }
    intros i row key k v Hi Hkey Hv. unfold row_at_key. rewrite Hc in Hi. rewrite Hn.
    apply list_lookup_fmap_Some in Hi as (r&->&_). simpl in *. by rewrite Hkey, Hv.
Qed.

(** Defect: A file that ends in a carriage return loses its last row. The row is
    complete and no error is reported, but the machine stops between carriage return and
    newline and the row is never stored. *)
Theorem trailing_cr_loses_row row t storage has_type has_desc :
  row_text row t → trimmed [row] →
  ∃ c c', parse_string trim t (csv_new storage false has_type has_desc false) = (None, c) ∧
    row_values <$> content_ c = [row] ∧
    parse_string trim (t ++ [cr]) (csv_new storage false has_type has_desc false) = (None, c') ∧
    content_ c' = [].
Proof.
  intros Hrow Htrim. destruct Hrow as [Hrow Ht].
  destruct (lex_fields trim row t Hrow new_field_start [] []) as
    (s0&init&s&t'&st&field&Hlex&->&Hs0&Ht'&Haf); [by left|done|].
  unfold parse_string, lexer_new. rewrite lex_app, Hlex.
  rewrite (lex_end_field trim s0 s t') by done.
  destruct (lex_cr trim s0 s t' (trim <$> init) [] st field Hs0 Ht' Haf) as [f Hcr].
  eexists _, _. split; [done|]. split.
  { pose proof (rows_of_trimmed _ Htrim) as Hv. unfold rows_of in Hv.
    rewrite <-Hv. simpl. by rewrite fmap_app. }
  simpl. rewrite Hcr. by split.
Qed.
End properties.

(** The flags [header_lines] counts are never set: outside static storage it
    is undefined, and in it neither counts. *)
Lemma header_lines_undefined b1 b2 b3 b4 :
  header_lines (csv_new garbage b1 b2 b3 b4) = Undef ∧
  header_lines (csv_new zeroed b1 b2 b3 b4) = Def (Z.b2z b1).
Proof. split; [done|]. unfold header_lines. simpl. f_equal. lia. Qed.

(** ** Witnesses: trimming blanks and line ends *)
Definition is_blank (c : ascii) : bool :=
  Ascii.eqb c " " || Ascii.eqb c "009" || Ascii.eqb c cr || Ascii.eqb c nl.
Fixpoint trim_left (s : str) : str :=
  match s with c :: s' => if is_blank c then trim_left s' else s | [] => [] end.
Definition trim_blanks (s : str) : str := rev (trim_left (rev (trim_left s))).

Definition chars (s : string) : str := Stdlib.Strings.String.list_ascii_of_string s.
(** Names, types, descriptions and a row whose second field holds a comma. *)
Definition sample_rows : list (list str) :=
  [[chars "id"; chars "name"]; [chars "int"; chars "string"]; [chars "key"; chars "who"];
   [chars "7"; chars "a,b"]].
Definition sample_text : str :=
  chars "id,name" ++ [cr; nl] ++ chars "int,string" ++ [nl] ++ chars "key,who" ++ [nl] ++
  chars "7," ++ quoted (chars "a,b").

Lemma plain_field s : forallb (λ c, negb (Ascii.eqb c comma || Ascii.eqb c cr || Ascii.eqb c nl)) s = true →
  head s ≠ Some quote → field_text s s.
Proof.
  intros Hs Hh. right. split; [done|].
  rewrite forallb_forall in Hs.
  assert (∀ d, d ∈ s → d ≠ comma ∧ d ≠ cr ∧ d ≠ nl) as Hd.
  { intros d Hd%list_elem_of_In%Hs. rewrite negb_true_iff, !orb_false_iff, !Ascii.eqb_neq in Hd.
    tauto. }
  split_and!; try done; intros Hin%Hd; tauto.
Qed.
Lemma pair_text s t : field_text s s → field_text t t → s ≠ [] →
  row_text [s; t] (s ++ comma :: t).
Proof.
  intros Hs Ht Hne. split; [constructor; [done|by constructor]|by destruct s].
Qed.
Lemma sample_table : table_text sample_rows sample_text.
Proof.
  apply (table_cons [chars "id"; chars "name"] (chars "id,name") [cr; nl]); [|by right|].
  { apply (pair_text (chars "id")); [by apply plain_field..|done]. }
  apply (table_cons [chars "int"; chars "string"] (chars "int,string") [nl]); [|by left|].
  { apply (pair_text (chars "int")); [by apply plain_field..|done]. }
  apply (table_cons [chars "key"; chars "who"] (chars "key,who") [nl]); [|by left|].
  { apply (pair_text (chars "key")); [by apply plain_field..|done]. }
  apply table_last. split; [|done].
  apply (fields_cons (chars "7") (chars "7")); [by apply plain_field|].
  constructor. left. split; [done|]. by apply (bool_decide_eq_true_1 _).
Qed.
Lemma sample_trimmed : trimmed trim_blanks sample_rows.
Proof. by apply (bool_decide_eq_true_1 _). Qed.

Lemma parse_written_table_witness :
  ∃ c, parse_string trim_blanks sample_text (csv_new garbage true true true false) = (None, c) ∧
    row_values <$> content_ c = [[chars "7"; chars "a,b"]].
Proof.
  destruct (parse_written_table trim_blanks sample_rows sample_text garbage true true
    sample_table sample_trimmed) as [_ H].
  destruct (H _ _ _ _ eq_refl) as (c&H1&_&_&_&H2&_). exists c. split; [exact H1|exact H2].
Defined.

Lemma trailing_cr_loses_row_witness :
  ∃ c, parse_string trim_blanks (chars "a,b" ++ [cr]) (csv_new garbage false true true false) = (None, c) ∧
    content_ c = [].
Proof.
  destruct (trailing_cr_loses_row trim_blanks [chars "a"; chars "b"] (chars "a,b") garbage true true)
    as (_&c&_&_&H1&H2).
  - apply (pair_text (chars "a")); [by apply plain_field..|done].
  - by apply (bool_decide_eq_true_1 _).
  - exists c. split; [exact H1|exact H2].
Defined.
