(* ===== verification/WildMatch.v ===== *)
(** * Wildcard matching and string templates ([network/util/string.hpp])

    [match] compares a string with a pattern of literals, ['?'] (any one
    character) and ['*'] (any characters), searching the literal parts with a
    Knuth-Morris-Pratt automaton that also lets ['?'] stand for anything.  C
    strings are lists without a zero; a pointer into one is its suffix, an
    index reads zero at the end and is undefined beyond. *)
From stdpp Require Import base option list numbers strings sets.
From Stdlib Require Import Ascii.
From S2P Require Import Prelude.
Local Open Scope Z_scope.

Notation str := (list ascii) (only parsing).
Definition star : ascii := "*".
Definition qmark : ascii := "?".
Definition zero : ascii := "000".

(** ** Definitions *)

(** [s\[i\]] of a C string. *)
Definition char_at (s : str) (i : Z) : ub ascii :=
  if (0 <=? i) && (i <=? Z.of_nat (length s)) then Def (nth (Z.to_nat i) s zero) else Undef.
Definition array_at (a : list Z) (i : Z) : ub Z :=
  if 0 <=? i then deref (a !! Z.to_nat i) else Undef.

(** The failure table: [next] holds the entries set so far. *)
Fixpoint next_loop (fuel : nat) (find : str) (n1 j k : Z) (next : list Z) : ub (list Z) :=
  match fuel with
  | O => Undef
  | S fuel =>
      if j <? n1 then
        ok ← (if k =? -1 then Def true
              else fk ← char_at find k;
                   if Ascii.eqb fk qmark then Def true
                   else fj ← char_at find j; Def (Ascii.eqb fj fk));
        if ok : bool then next_loop fuel find n1 (j + 1) (k + 1) (next ++ [k + 1])
        else k ← array_at next k; next_loop fuel find n1 j k next
      else Def next
  end.

Fixpoint kmp_loop (fuel : nat) (source find : str) (next : list Z) (m n i j : Z)
    : ub (Z * Z) :=
  match fuel with
  | O => Undef
  | S fuel =>
      if (i <? m) && (j <? n) then
        ok ← (if j =? -1 then Def true
              else fj ← char_at find j;
                   if Ascii.eqb fj qmark then Def true
                   else si ← char_at source i; Def (Ascii.eqb si fj));
        if ok : bool then kmp_loop fuel source find next m n (i + 1) (j + 1)
        else j ← array_at next j; kmp_loop fuel source find next m n i j
      else Def (i, j)
  end.

Definition finding_string (source find : str) (start : Z) : ub Z :=
  if start <? 0 then Def (-1)
  else
    let m := Z.of_nat (length source) in
    let n := Z.of_nat (length find) in
    if m <? start + n then Def (-1)
    else if n =? 0 then Def start
    else
      next ← next_loop (2 * length find + 2) find (n - 1) 0 (-1) [-1];
      '(i, j) ← kmp_loop (2 * length source + 2) source find next m n start 0;
      Def (if n <=? j then i - n else -1).

Definition to_lower (c : ascii) : ascii :=
  let n := Z.of_nat (nat_of_ascii c) in
  if (65 <=? n) && (n <=? 90) then ascii_of_nat (Z.to_nat (n - 65 + 97)) else c.

(** Copy the pattern, merging runs of ['*']. *)
Fixpoint merge_stars (p : str) : str :=
  match p with
  | [] => []
  | c :: p' =>
      if Ascii.eqb c star
      then match p' with
           | d :: _ => if Ascii.eqb d star then merge_stars p' else c :: merge_stars p'
           | [] => [c]
           end
      else c :: merge_stars p'
  end.

(** The characters up to the next ['*'] or the end. *)
Fixpoint until_star (p : str) : str :=
  match p with
  | [] => []
  | c :: p' => if Ascii.eqb c star then [] else c :: until_star p'
  end.

(** Compare from the last characters backwards; the lists are reversed. *)
Fixpoint match_backwards (mat src : str) : ub bool :=
  match mat, src with
  | [], _ => Def true
  | _ :: _, [] => Undef
  | c :: mat, d :: src =>
      if Ascii.eqb c qmark then match_backwards mat src
      else if negb (Ascii.eqb c d) then Def false
      else match_backwards mat src
  end.

(** The main loop: [m] and [s] are [tmp_mat + match_offset] and
    [tmp_src + source_offset]. *)
Fixpoint match_loop (fuel : nat) (m s : str) : ub bool :=
  match fuel with
  | O => Undef
  | S fuel =>
      match m with
      | [] => Def true
      | c :: m' =>
          if Ascii.eqb c star then
            match m' with
            | [] => Def true
            | _ =>
                let sub := until_star m' in
                if Z.of_nat (length s) <? Z.of_nat (length sub) then Def false
                else if bool_decide (length sub = length m') then
                  match_backwards (reverse sub) (reverse s)
                else
                  nPos ← finding_string s sub 0;
                  if negb (nPos =? -1) then
                    match_loop fuel (drop (length sub) m)
                      (drop (Z.to_nat (nPos + Z.of_nat (length sub) - 1)) s)
                  else Def false
            end
          else
            match s with
            | [] => Def false
            | d :: s' =>
                if negb (Ascii.eqb c qmark) && negb (Ascii.eqb d c) then Def false
                else if bool_decide (m' = []) && bool_decide (s' ≠ []) then Def false
                else match_loop fuel m' s'
            end
      end
  end.

(** The buffer [tmp_src]: characters not written yet are [None]. *)
Definition array_set (a : list (option ascii)) (i : Z) (c : ascii)
    : ub (list (option ascii)) :=
  if (0 <=? i) && (i <? Z.of_nat (length a)) then Def (<[Z.to_nat i := Some c]> a) else Undef.
(** [while ( *(tmp_src + i) = *(source + i++));]: the build is C++17
    ([cmake/common.cmake]), which evaluates the right operand first, so the
    character read at [i] is written at [i + 1].  [source] is the rest of the
    string from [i]. *)
Fixpoint copy_loop (source : str) (tmp_src : list (option ascii)) (i : Z)
    : ub (list (option ascii)) :=
  match source with
  | [] => array_set tmp_src (i + 1) zero
  | c :: source =>
      tmp_src ← array_set tmp_src (i + 1) c;
      if Ascii.eqb c zero then Def tmp_src else copy_loop source tmp_src (i + 1)
  end.
(** Reading the buffer as a C string. *)
Fixpoint buffer_str (tmp_src : list (option ascii)) : ub str :=
  match tmp_src with
  | Some c :: tmp_src =>
      if Ascii.eqb c zero then Def [] else s ← buffer_str tmp_src; Def (c :: s)
  | _ => Undef
  end.

Definition matching_string (source mat : str) (matchcase : bool) : ub bool :=
  match mat with
  | [] => Def (bool_decide (source = []))
  | _ =>
      tmp_src ← (if matchcase
                 then b ← copy_loop source (replicate (length source + 1) None) 0; buffer_str b
                 else Def (to_lower <$> source));
      let tmp_mat := merge_stars (if matchcase then mat else to_lower <$> mat) in
      match_loop (2 * length tmp_mat + 1) tmp_mat tmp_src
  end.

(** A C string stops at the first zero. *)
Fixpoint c_str (s : str) : str :=
  match s with [] => [] | c :: s => if Ascii.eqb c zero then [] else c :: c_str s end.
Definition match_ (source match_str : str) (matchcase : bool) : ub bool :=
  matching_string (c_str source) (c_str match_str) matchcase.

(** Several patterns: any of them, separated by [split_char], or all of them,
    separated by commas whatever [split_char] is. *)
Fixpoint multi_any (source : str) (matchcase : bool) (split_char : ascii) (sub mat : str)
    : ub bool :=
  let try_sub (k : bool → ub bool) :=
    match sub with [] => k false | _ => b ← matching_string source sub matchcase; k b end in
  match mat with
  | [] => try_sub (λ b, Def b)
  | c :: mat =>
      if Ascii.eqb c split_char
      then try_sub (λ b, if b then Def true else multi_any source matchcase split_char [] mat)
      else multi_any source matchcase split_char (sub ++ [c]) mat
  end.
Fixpoint multi_all (source : str) (matchcase : bool) (sub mat : str) : ub bool :=
  match mat with
  | [] => matching_string source sub matchcase
  | c :: mat =>
      if Ascii.eqb c ","
      then b ← matching_string source sub matchcase;
           if b : bool then multi_all source matchcase [] mat else Def false
      else multi_all source matchcase (sub ++ [c]) mat
  end.
Definition multi_matching (source mat : str) (match_logic : Z) (ret_reversed matchcase : bool)
    (split_char : ascii) : ub bool :=
  is_match ← (if match_logic =? 0 then multi_any source matchcase split_char [] mat
              else multi_all source matchcase [] mat);
  Def (if ret_reversed then negb is_match else is_match).
Definition multi_match (source match_str : str) (match_logic : Z) (matchcase : bool)
    (split_char : ascii) (ret_reversed : bool) : ub bool :=
  multi_matching (c_str source) (c_str match_str) match_logic ret_reversed matchcase split_char.

(** ** Specification *)

(** A pattern character against a character, and a pattern against a string. *)
Definition char_ok (c d : ascii) : Prop := c = qmark ∨ c = d.
Inductive glob : str → str → Prop :=
  | glob_end : glob [] []
  | glob_char c p d s : c ≠ star → char_ok c d → glob p s → glob (c :: p) (d :: s)
  | glob_star p pre s : glob p s → glob (star :: p) (pre ++ s).
#[local] Hint Constructors glob : core.

Definition fold_case (s : str) : str := to_lower <$> s.

(** The character at an index that is known to be in bounds. *)
Definition at_ (s : str) (i : Z) : ascii := nth (Z.to_nat i) s zero.
(** [find\[0..k)] agrees with [find\[j-k..j)], and with [source\[q..)]. *)
Definition border (find : str) (j k : Z) : Prop :=
  ∀ u, 0 <= u < k → char_ok (at_ find u) (at_ find (j - k + u)).
Definition occurs_upto (source find : str) (q n : Z) : Prop :=
  ∀ u, 0 <= u < n → char_ok (at_ find u) (at_ source (q + u)).
Definition occurs (source find : str) (q : Z) : Prop :=
  q + Z.of_nat (length find) <= Z.of_nat (length source) ∧
  occurs_upto source find q (Z.of_nat (length find)).

(** A failure-table entry: a proper border, and without ['?'] the longest. *)
Definition entry_ok (find : str) (j k : Z) : Prop :=
  -1 <= k < j ∧ border find j k ∧
  (qmark ∉ find → ∀ k', k < k' < j → ¬ border find j k').
Definition table_ok (find : str) (next : list Z) : Prop :=
  ∀ j k, next !! j = Some k → entry_ok find (Z.of_nat j) k.

(** ** The search *)

Lemma char_at_in (s : str) (i : Z) :
  0 <= i <= Z.of_nat (length s) → char_at s i = Def (at_ s i).
Proof.
  intros Hi. unfold char_at, at_.
  destruct (Z.leb_spec 0 i), (Z.leb_spec i (Z.of_nat (length s))); by try lia.
Qed.

Lemma at_not_qmark (s : str) (i : Z) : qmark ∉ s → at_ s i ≠ qmark.
Proof.
  intros Hq. unfold at_. destruct (nth_in_or_default (Z.to_nat i) s zero) as [Hin| ->]; [|done].
  intros Heq. apply Hq. rewrite <-Heq. by apply list_elem_of_In.
Qed.

Lemma array_at_table (find : str) (next : list Z) (j : Z) :
  table_ok find next → 0 <= j < Z.of_nat (length next) →
  ∃ k, array_at next j = Def k ∧ entry_ok find j k.
Proof.
  intros Ht Hj. unfold array_at. destruct (Z.leb_spec 0 j); [|lia].
  destruct (lookup_lt_is_Some_2 next (Z.to_nat j)) as [k Hk]; [lia|].
  exists k. rewrite Hk. split; [done|]. generalize (Ht _ _ Hk). by rewrite Z2Nat.id by lia.
Qed.

Lemma char_ok_trans (a b c : ascii) : char_ok a b → char_ok b c → char_ok a c.
Proof. unfold char_ok. intros [-> | ->]; [by left|done]. Qed.
Lemma char_ok_exact (a b : ascii) : a ≠ qmark → char_ok a b → a = b.
Proof. by intros ? [?|?]. Qed.

(** A border of a border is one; two borders are borders of each other. *)
Lemma border_trans (find : str) (j k k' : Z) :
  0 <= k' <= k → border find j k → border find k k' → border find j k'.
Proof.
  intros Hk Hb Hb' u Hu. eapply char_ok_trans; [apply Hb'; lia|].
  replace (j - k' + u) with (j - k + (k - k' + u)) by lia. apply Hb. lia.
Qed.
Lemma border_inner (find : str) (j k k' : Z) :
  qmark ∉ find → 0 <= k' <= k → border find j k → border find j k' → border find k k'.
Proof.
  intros Hq Hk Hb Hb' u Hu. right.
  pose proof (char_ok_exact _ _ (at_not_qmark _ _ Hq) (Hb' u ltac:(lia))) as ->.
  pose proof (char_ok_exact _ _ (at_not_qmark _ _ Hq) (Hb (k - k' + u) ltac:(lia))) as ->.
  f_equal. lia.
Qed.

(** A search position inside a partial occurrence is a border. *)
Lemma occurs_upto_border (source find : str) (i j k : Z) :
  0 <= k <= j → occurs_upto source find (i - j) j → border find j k →
  occurs_upto source find (i - k) k.
Proof.
  intros Hk Ho Hb u Hu. eapply char_ok_trans; [apply Hb; lia|].
  replace (i - k + u) with (i - j + (j - k + u)) by lia. apply Ho. lia.
Qed.
Lemma border_of_occurs (source find : str) (i j k : Z) :
  qmark ∉ find → 0 <= k <= j → occurs_upto source find (i - j) j →
  occurs_upto source find (i - k) k → border find j k.
Proof.
  intros Hq Hk Ho Ho' u Hu. right.
  pose proof (char_ok_exact _ _ (at_not_qmark _ _ Hq) (Ho' u ltac:(lia))) as ->.
  pose proof (char_ok_exact _ _ (at_not_qmark _ _ Hq) (Ho (j - k + u) ltac:(lia))) as ->.
  f_equal. lia.
Qed.


(** The test that advances the table, decided. *)
Lemma next_test (find : str) (n1 j k : Z) :
  n1 < Z.of_nat (length find) → 0 <= j < n1 → -1 <= k < j →
  ∃ ok : bool, (if k =? -1 then Def true
     else fk ← char_at find k;
          if Ascii.eqb fk qmark then Def true
          else fj ← char_at find j; Def (Ascii.eqb fj fk)) = Def ok ∧
    if ok then k = -1 ∨ 0 <= k ∧ char_ok (at_ find k) (at_ find j)
    else 0 <= k ∧ ¬ char_ok (at_ find k) (at_ find j).
Proof.
  intros. destruct (Z.eqb_spec k (-1)); [exists true; auto|].
  rewrite !char_at_in by lia. cbn. unfold char_ok.
  destruct (Ascii.eqb_spec (at_ find k) qmark);
    [exists true; split; [done|]; right; split; [lia|by left]|].
  eexists. split; [done|].
  destruct (Ascii.eqb_spec (at_ find j) (at_ find k)) as [Heq|].
  - right. split; [lia|by right].
  - split; [lia|]. by intros [?|?].
Qed.
Lemma kmp_test (source find : str) (i j : Z) :
  0 <= i < Z.of_nat (length source) → -1 <= j < Z.of_nat (length find) →
  ∃ ok : bool, (if j =? -1 then Def true
     else fj ← char_at find j;
          if Ascii.eqb fj qmark then Def true
          else si ← char_at source i; Def (Ascii.eqb si fj)) = Def ok ∧
    if ok then j = -1 ∨ 0 <= j ∧ char_ok (at_ find j) (at_ source i)
    else 0 <= j ∧ ¬ char_ok (at_ find j) (at_ source i).
Proof.
  intros. destruct (Z.eqb_spec j (-1)); [exists true; auto|].
  rewrite !char_at_in by lia. cbn. unfold char_ok.
  destruct (Ascii.eqb_spec (at_ find j) qmark);
    [exists true; split; [done|]; right; split; [lia|by left]|].
  eexists. split; [done|].
  destruct (Ascii.eqb_spec (at_ source i) (at_ find j)) as [Heq|].
  - right. split; [lia|by right].
  - split; [lia|]. by intros [?|?].
Qed.

Lemma border_snoc (find : str) (j k : Z) :
  -1 <= k → border find j k → k = -1 ∨ 0 <= k ∧ char_ok (at_ find k) (at_ find j) →
  border find (j + 1) (k + 1).
Proof.
  intros Hk Hb Hc u Hu. destruct (decide (u = k)) as [->|].
  - destruct Hc as [?|[_ Hc]]; [lia|]. by replace (j + 1 - (k + 1) + k) with j by lia.
  - replace (j + 1 - (k + 1) + u) with (j - k + u) by lia. apply Hb. lia.
Qed.
Lemma border_unsnoc (find : str) (j k : Z) :
  0 <= k → border find (j + 1) (k + 1) → border find j k ∧ char_ok (at_ find k) (at_ find j).
Proof.
  intros Hk Hb. split.
  - intros u Hu. replace (j - k + u) with (j + 1 - (k + 1) + u) by lia. apply Hb. lia.
  - generalize (Hb k ltac:(lia)). by replace (j + 1 - (k + 1) + k) with j by lia.
Qed.

Lemma table_ok_snoc (find : str) (next : list Z) (j k : Z) :
  table_ok find next → Z.of_nat (length next) = j → entry_ok find j k →
  table_ok find (next ++ [k]).
Proof.
  intros Ht Hlen Hk j' k' [Hl|[Hge Hl]]%lookup_app_Some; [by apply Ht|].
  apply list_lookup_singleton_Some in Hl as [? <-].
  by replace (Z.of_nat j') with j by lia.
Qed.

Definition scan_max (find : str) (j k : Z) : Prop :=
  qmark ∉ find → ∀ k', k < k' < j → border find j k' → ¬ char_ok (at_ find k') (at_ find j).

Lemma next_loop_ok (find : str) (n1 : Z) (fuel : nat) : ∀ j k next,
  n1 < Z.of_nat (length find) → 0 <= j <= n1 →
  Z.of_nat (length next) = j + 1 → table_ok find next →
  -1 <= k < j ∨ j = 0 ∧ k = -1 → border find j k → scan_max find j k →
  2 * (n1 - j) + (k + 1) < Z.of_nat fuel →
  ∃ next', next_loop fuel find n1 j k next = Def next' ∧
    table_ok find next' ∧ Z.of_nat (length next') = n1 + 1.
Proof.
  induction fuel as [|fuel IH]; intros j k next Hn Hj Hlen Ht Hk Hb Hmax Hf; [lia|].
  cbn [next_loop]. destruct (Z.ltb_spec j n1);
    [|exists next; split; [done|]; split; [done|lia]].
  destruct (next_test find n1 j k) as (ok & -> & Hok); [lia..|].
  cbn. destruct ok.
  - assert (entry_ok find (j + 1) (k + 1)) as Hent.
    { split; [lia|]. split; [apply border_snoc; [lia|done..]|].
      intros Hq k' Hk' Hb'. replace k' with (k' - 1 + 1) in Hb' by lia.
      apply border_unsnoc in Hb' as [Hb1 Hb2]; [|lia].
      by apply (Hmax Hq (k' - 1) ltac:(lia)). }
    apply IH; try done; try lia; [rewrite length_app; cbn; lia|..].
    + by apply (table_ok_snoc _ _ (j + 1)).
    + apply Hent.
    + intros Hq k' Hk' Hb'. by destruct (proj2 (proj2 Hent) Hq k' Hk').
  - destruct Hok as [Hk0 Hne].
    destruct (array_at_table find next k) as (k2 & -> & Hr2 & Hb2 & Hm2); [done|lia|].
    cbn. apply IH; try done; try lia.
    + destruct (decide (k2 = -1)) as [->|]; [intros u ?; lia|].
      by apply (border_trans _ _ k); [lia|..].
    + intros Hq k' Hk' Hb'. destruct (Z.lt_trichotomy k' k) as [?|[->|?]]; [|done|by apply Hmax; [|lia|]].
      destruct (Hm2 Hq k' ltac:(lia)). by apply (border_inner _ j); [|lia|..].
Qed.

Lemma kmp_loop_ok (source find : str) (next : list Z) (start : Z) (fuel : nat) : ∀ i j,
  let m := Z.of_nat (length source) in
  let n := Z.of_nat (length find) in
  table_ok find next → Z.of_nat (length next) = n → 0 <= start →
  start <= i <= m → -1 <= j <= n → j <= i - start →
  occurs_upto source find (i - j) j →
  (qmark ∉ find → ∀ q, start <= q < i - j → ¬ occurs source find q) →
  2 * (m - i) + (j + 1) < Z.of_nat fuel →
  ∃ i' j', kmp_loop fuel source find next m n i j = Def (i', j') ∧
    start <= i' <= m ∧ j' <= n ∧ j' <= i' - start ∧ (i' = m ∨ j' = n) ∧
    occurs_upto source find (i' - j') j' ∧
    (qmark ∉ find → ∀ q, start <= q < i' - j' → ¬ occurs source find q).
Proof.
  induction fuel as [|fuel IH]; intros i j m n Ht Hlen Hs Hi Hj Hij Ho Hmin Hf; [lia|].
  cbn [kmp_loop]. destruct (Z.ltb_spec i m), (Z.ltb_spec j n); cbn [andb];
    try (exists i, j; split; [done|]; repeat split; [lia..|done|done]).
  destruct (kmp_test source find i j) as (ok & -> & Hok); [lia..|].
  cbn. destruct ok.
  - apply IH; try done; try lia.
    + intros u Hu. destruct (decide (u = j)) as [->|].
      * destruct Hok as [?|[_ Hok]]; [lia|]. by replace (i + 1 - (j + 1) + j) with i by lia.
      * replace (i + 1 - (j + 1) + u) with (i - j + u) by lia. apply Ho. lia.
    + by replace (i + 1 - (j + 1)) with (i - j) by lia.
  - destruct Hok as [Hj0 Hne].
    destruct (array_at_table find next j) as (j2 & -> & Hr2 & Hb2 & Hm2); [done|lia|].
    cbn. apply IH; try done; try lia.
    + destruct (decide (j2 = -1)) as [->|]; [intros u ?; lia|].
      by apply (occurs_upto_border _ _ _ j); [lia|..].
    + intros Hq q Hq' [Hfit Hocc].
      destruct (Z.lt_trichotomy q (i - j)) as [?|[->|?]].
      * by apply (Hmin Hq q ltac:(lia)).
      * apply Hne. generalize (Hocc j ltac:(lia)). by replace (i - j + j) with i by lia.
      * apply (Hm2 Hq (i - q) ltac:(lia)).
        apply (border_of_occurs source _ i); [done|lia|done|].
        intros u Hu. replace (i - (i - q) + u) with (q + u) by lia. apply Hocc. lia.
Qed.

(** ** Occurrences as sublists *)

Lemma at_cons (c : ascii) (s : str) (i : Z) : 0 < i → at_ (c :: s) i = at_ s (i - 1).
Proof.
  intros. unfold at_. replace (Z.to_nat i) with (S (Z.to_nat (i - 1))) by lia. done.
Qed.
Lemma occurs_intro (pre mid post sub : str) :
  Forall2 char_ok sub mid → occurs (pre ++ mid ++ post) sub (Z.of_nat (length pre)).
Proof.
  intros HF. pose proof (Forall2_length _ _ _ HF) as Hl. split; [rewrite !length_app; lia|].
  intros u Hu. unfold at_.
  replace (Z.to_nat (Z.of_nat (length pre) + u)) with (length pre + Z.to_nat u)%nat by lia.
  rewrite app_nth2_plus, app_nth1 by lia.
  destruct (lookup_lt_is_Some_2 sub (Z.to_nat u)) as [c Hc]; [lia|].
  destruct (Forall2_lookup_l _ _ _ _ _ HF Hc) as (d & Hd & Hcd).
  by rewrite (nth_lookup_Some _ _ _ _ Hc), (nth_lookup_Some _ _ _ _ Hd).
Qed.
Lemma occurs_split (s sub : str) (q : Z) :
  0 <= q → occurs s sub q →
  ∃ pre mid post, s = pre ++ mid ++ post ∧ Z.of_nat (length pre) = q ∧ Forall2 char_ok sub mid.
Proof.
  intros Hq [Hfit Hocc].
  exists (take (Z.to_nat q) s), (take (length sub) (drop (Z.to_nat q) s)),
    (drop (length sub) (drop (Z.to_nat q) s)).
  rewrite !take_drop. split; [done|]. split; [rewrite length_take; lia|].
  apply Forall2_same_length_lookup. split; [rewrite length_take, length_drop; lia|].
  intros u c d Hc Hd. apply lookup_take_Some in Hd as [Hd Hu]. rewrite lookup_drop in Hd.
  generalize (Hocc (Z.of_nat u) ltac:(lia)). unfold at_.
  replace (Z.to_nat (q + Z.of_nat u)) with (Z.to_nat q + u)%nat by lia. rewrite Nat2Z.id.
  by rewrite (nth_lookup_Some _ _ _ _ Hc), (nth_lookup_Some _ _ _ _ Hd).
Qed.

(** The search returns the position of an occurrence or [-1]; without ['?'] it
    is the leftmost one, and [-1] means there is none. *)
Lemma finding_string_spec (s sub : str) :
  sub ≠ [] →
  ∃ p, finding_string s sub 0 = Def p ∧
    (p = -1 ∨ 0 <= p ∧ occurs s sub p) ∧
    (qmark ∉ sub → ∀ q, 0 <= q → (p = -1 ∨ q < p) → ¬ occurs s sub q).
Proof.
  intros Hne. unfold finding_string. cbn [Z.ltb Z.compare].
  destruct (Z.ltb_spec (Z.of_nat (length s)) (0 + Z.of_nat (length sub))) as [Hlt|Hge].
  { exists (-1). split; [done|]. split; [by left|]. intros _ q ? _ [? _]. lia. }
  assert (0 < length sub)%nat by (destruct sub; [done|cbn; lia]).
  destruct (Z.eqb_spec (Z.of_nat (length sub)) 0); [lia|].
  destruct (next_loop_ok sub (Z.of_nat (length sub) - 1) (2 * length sub + 2) 0 (-1) [-1])
    as (next & -> & Ht & Hl); try lia; try done.
  { intros j k [-> <-]%list_lookup_singleton_Some. split; [lia|].
    split; [intros u ?; lia|]. intros _ k' ?. lia. }
  { intros u ?. lia. }
  { intros _ k' ?. lia. }
  cbn [mbind ub_bind].
  destruct (kmp_loop_ok s sub next 0 (2 * length s + 2) 0 0)
    as (i & j & -> & Hi & Hj & Hij & Hend & Ho & Hmin); try lia; try done;
    [intros u ?; lia..|].
  cbn. eexists. split; [done|].
  destruct (Z.leb_spec (Z.of_nat (length sub)) j).
  - replace j with (Z.of_nat (length sub)) in * by lia.
    split; [right; split; [lia|split; [lia|done]]|].
    intros Hq q ? [?|?]; [lia|]. apply Hmin; [done|lia].
  - split; [by left|]. intros Hq q ? _ Hocc.
    apply (Hmin Hq q); [|done]. destruct Hocc. lia.
Qed.

(** ** Patterns *)

Lemma glob_star_inv (p s : str) :
  glob (star :: p) s → ∃ pre s', s = pre ++ s' ∧ glob p s'.
Proof. inversion 1; simplify_eq; eauto. Qed.
Lemma glob_nil_inv (s : str) : glob [] s → s = [].
Proof. by inversion 1. Qed.
Lemma glob_char_inv (c : ascii) (p s : str) :
  c ≠ star → glob (c :: p) s → ∃ d s', s = d :: s' ∧ char_ok c d ∧ glob p s'.
Proof. intros ?. inversion 1; simplify_eq; eauto. Qed.
Lemma glob_star_pre (p pre s : str) : glob (star :: p) s → glob (star :: p) (pre ++ s).
Proof. intros (pre' & s' & -> & ?)%glob_star_inv. rewrite app_assoc. auto. Qed.
Lemma glob_star_mono (p q s : str) :
  (∀ s, glob p s → glob q s) → glob (star :: p) s → glob (star :: q) s.
Proof. intros H (pre & s' & -> & ?)%glob_star_inv. auto. Qed.

Notation plain := (Forall (λ c : ascii, c ≠ star)).
Lemma glob_plain_app (sub mid p s : str) :
  plain sub → Forall2 char_ok sub mid → glob p s → glob (sub ++ p) (mid ++ s).
Proof. intros Hp HF Hg. induction HF; inversion Hp; simplify_eq; cbn; auto. Qed.
Lemma glob_plain_inv (sub p s : str) :
  plain sub → glob (sub ++ p) s →
  ∃ mid s', s = mid ++ s' ∧ Forall2 char_ok sub mid ∧ glob p s'.
Proof.
  intros Hp. revert s. induction Hp as [|c sub Hc Hp IH]; intros s Hg; [by exists [], s|].
  apply glob_char_inv in Hg as (d & s' & -> & Hcd & Hg); [|done].
  destruct (IH _ Hg) as (mid & s'' & -> & HF & Hg'). exists (d :: mid), s''. auto.
Qed.
Lemma glob_plain (sub s : str) : plain sub → glob sub s ↔ Forall2 char_ok sub s.
Proof.
  intros Hp. split.
  - intros Hg. rewrite <-(app_nil_r sub) in Hg.
    apply glob_plain_inv in Hg as (mid & s' & -> & HF & ->%glob_nil_inv); [|done].
    by rewrite app_nil_r.
  - intros HF. rewrite <-(app_nil_r sub), <-(app_nil_r s). by apply glob_plain_app.
Qed.

Fixpoint merged (p : str) : Prop :=
  match p with [] => True | c :: p' => (c = star → head p' ≠ Some star) ∧ merged p' end.
Lemma merged_app_r (p q : str) : merged (p ++ q) → merged q.
Proof. induction p; cbn; naive_solver. Qed.
Lemma merge_stars_head (p : str) : head (merge_stars p) = head p.
Proof.
  induction p as [|c p IH]; [done|]. cbn [merge_stars].
  destruct (Ascii.eqb_spec c star) as [->|]; [|done].
  destruct p as [|d p]; [done|]. destruct (Ascii.eqb_spec d star) as [->|]; [|done].
  by rewrite IH.
Qed.
Lemma merge_stars_merged (p : str) : merged (merge_stars p).
Proof.
  induction p as [|c p IH]; [done|]. cbn [merge_stars].
  destruct (Ascii.eqb_spec c star) as [->|]; [|split; [done|exact IH]].
  destruct p as [|d p]; [done|]. destruct (Ascii.eqb_spec d star) as [->|]; [exact IH|].
  split; [|exact IH]. rewrite merge_stars_head. cbn. congruence.
Qed.
Lemma merge_stars_glob (p s : str) : glob (merge_stars p) s ↔ glob p s.
Proof.
  revert s. induction p as [|c p IH]; intros s; [done|]. cbn [merge_stars].
  assert (∀ s, glob (c :: merge_stars p) s ↔ glob (c :: p) s) as Hcons.
  { intros s'. destruct (decide (c = star)) as [->|Hc].
    - split; apply glob_star_mono; apply IH.
    - split; intros (d & s'' & -> & ? & ?)%glob_char_inv; try done;
        (constructor; [done..|by apply IH]). }
  destruct (Ascii.eqb_spec c star) as [->|]; [|apply Hcons].
  destruct p as [|d p]; [done|]. destruct (Ascii.eqb_spec d star) as [->|]; [|apply Hcons].
  rewrite IH. split.
  - apply (glob_star _ []).
  - intros (pre & s' & -> & ?)%glob_star_inv. by apply glob_star_pre.
Qed.
Lemma merge_stars_qmark (p : str) : qmark ∈ merge_stars p → qmark ∈ p.
Proof.
  induction p as [|c p IH]; [done|]. cbn [merge_stars].
  assert (qmark ∈ c :: merge_stars p → qmark ∈ c :: p) as Hcons.
  { intros [<-|?]%elem_of_cons; apply elem_of_cons; auto. }
  destruct (Ascii.eqb_spec c star); [|done]. destruct p as [|d p]; [done|].
  destruct (Ascii.eqb_spec d star); [|done]. intros ?. apply elem_of_cons. auto.
Qed.

Lemma until_star_plain (p : str) : plain (until_star p).
Proof.
  induction p as [|c p IH]; cbn; [done|]. destruct (Ascii.eqb_spec c star); auto.
Qed.
Lemma until_star_split (p : str) :
  until_star p = p ∨ ∃ rest, p = until_star p ++ star :: rest.
Proof.
  induction p as [|c p IH]; cbn; [by left|].
  destruct (Ascii.eqb_spec c star) as [->|]; [right; by exists p|].
  destruct IH as [->|[rest ?]]; [by left|right; exists rest; cbn; congruence].
Qed.

Lemma match_backwards_spec (mat src : str) :
  (length mat <= length src)%nat →
  ∃ b : bool, match_backwards mat src = Def b ∧
    (b = true ↔ Forall2 char_ok mat (take (length mat) src)).
Proof.
  revert src. induction mat as [|c mat IH]; intros [|d src] Hl; cbn in Hl; try lia.
  1, 2: by exists true.
  cbn [match_backwards length take]. destruct (IH src ltac:(lia)) as (b & Hb & Hspec).
  assert (char_ok c d → b = true ↔ Forall2 char_ok (c :: mat) (d :: take (length mat) src)).
  { intros Hcd. rewrite Forall2_cons, Hspec. tauto. }
  destruct (Ascii.eqb_spec c qmark) as [->|]; [exists b; split; [done|]; by apply H; left|].
  destruct (Ascii.eqb_spec c d) as [->|]; cbn.
  - exists b. split; [done|]. apply H. by right.
  - exists false. split; [done|]. rewrite Forall2_cons. unfold char_ok. naive_solver.
Qed.

(** The searched part of a pattern, when it is found: the loop goes on at the
    last character of the occurrence. *)
Lemma found_step (sub0 rest pre mid0 post : str) (l d : ascii) :
  plain (sub0 ++ [l]) → Forall2 char_ok (sub0 ++ [l]) (mid0 ++ [d]) →
  glob (l :: star :: rest) (d :: post) →
  glob (star :: (sub0 ++ [l]) ++ star :: rest) (pre ++ (mid0 ++ [d]) ++ post).
Proof.
  intros Hp HF Hg. constructor. apply glob_plain_app; [done..|].
  apply Forall_app in Hp as [_ Hl]. inversion Hl; subst.
  by apply glob_char_inv in Hg as (? & ? & [= -> ->] & _ & ?).
Qed.

(** Searching the leftmost occurrence loses no match. *)
Lemma leftmost_enough (sub0 rest s pre mid0 post : str) (l d : ascii) :
  plain (sub0 ++ [l]) → s = pre ++ (mid0 ++ [d]) ++ post →
  Forall2 char_ok (sub0 ++ [l]) (mid0 ++ [d]) →
  (∀ q, 0 <= q < Z.of_nat (length pre) → ¬ occurs s (sub0 ++ [l]) q) →
  glob (star :: (sub0 ++ [l]) ++ star :: rest) s →
  glob (l :: star :: rest) (d :: post).
Proof.
  intros Hp Hs HF Hleft Hg.
  apply glob_star_inv in Hg as (pre' & s' & Hs' & Hg).
  apply glob_plain_inv in Hg as (mid' & s'' & -> & HF' & Hg); [|done].
  assert (length pre <= length pre')%nat as Hle.
  { destruct (decide (length pre <= length pre')%nat); [done|].
    destruct (Hleft (Z.of_nat (length pre')) ltac:(lia)). subst s. rewrite Hs'.
    by apply occurs_intro. }
  pose proof (Forall2_length _ _ _ HF) as Hl1. pose proof (Forall2_length _ _ _ HF') as Hl2.
  apply Forall2_app_inv in HF as [_ Hlast]; [|rewrite !length_app in Hl1; cbn in Hl1; lia].
  inversion Hlast; subst. apply Forall_app in Hp as [_ Hpl]. inversion Hpl; subst.
  constructor; [done..|].
  assert (post = drop (length (pre ++ mid0 ++ [d])) (pre' ++ mid' ++ s'')) as ->.
  { by rewrite <-Hs', (app_assoc pre (mid0 ++ [d])), drop_app_length. }
  rewrite (app_assoc pre' mid' s''), drop_app_le; [by apply glob_star_pre|].
  rewrite !length_app in Hl1. rewrite !length_app in Hl2. rewrite !length_app. cbn in *. lia.
Qed.

Definition decides (r : ub bool) (m s : str) : Prop :=
  ∃ b : bool, r = Def b ∧ (b = true → glob m s) ∧ (qmark ∉ m → glob m s → b = true).
Lemma decides_Def (b : bool) (m s : str) :
  (b = true ↔ glob m s) → decides (Def b) m s.
Proof. exists b. naive_solver. Qed.

(** The last part of a pattern is compared with the end of the string. *)
Lemma last_part_decided (sub s : str) :
  plain sub → (length sub <= length s)%nat →
  decides (match_backwards (reverse sub) (reverse s)) (star :: sub) s.
Proof.
  intros Hp Hl. destruct (match_backwards_spec (reverse sub) (reverse s)) as (b & -> & Hb);
    [by rewrite !length_reverse|].
  apply decides_Def. rewrite Hb, length_reverse. clear b Hb. split.
  - intros HF%Forall2_reverse. rewrite <-(take_drop (length s - length sub) s).
    constructor. apply glob_plain; [done|].
    rewrite reverse_involutive, take_reverse, reverse_involutive in HF.
    done.
  - intros (pre & s' & -> & HF)%glob_star_inv. apply glob_plain in HF; [|done].
    rewrite reverse_app, (Forall2_length _ _ _ HF), <-(length_reverse s'), take_app_length.
    by apply Forall2_reverse.
Qed.

Lemma drop_last (sub0 rest : str) (l : ascii) :
  drop (length (sub0 ++ [l])) (star :: (sub0 ++ [l]) ++ rest) = l :: rest.
Proof.
  rewrite length_app. cbn [length]. rewrite Nat.add_1_r. cbn [drop].
  by rewrite <-app_assoc, drop_app_length.
Qed.

Lemma match_loop_spec (fuel : nat) (m s : str) :
  merged m → (m = [] → s = []) → (length m < fuel)%nat → decides (match_loop fuel m s) m s.
Proof.
  revert m s. induction fuel as [|fuel IH]; intros m s Hm Hnil Hf; [lia|].
  destruct m as [|c m']; cbn [match_loop].
  { rewrite Hnil by done. apply decides_Def. split; auto. }
  destruct Hm as [Hc Hm]. destruct (Ascii.eqb_spec c star) as [->|Hne].
  - destruct m' as [|c' m'']; [apply decides_Def; split; [|done];
      intros _; rewrite <-(app_nil_r s); auto|].
    set (m' := c' :: m'') in *. cbv zeta.
    pose proof (until_star_plain m') as Hp. pose proof (until_star_split m') as Hsplit.
    assert (until_star m' ≠ []) as Hsub.
    { specialize (Hc eq_refl). cbn in *. by destruct (Ascii.eqb_spec c' star); [congruence|]. }
    revert Hp Hsplit Hsub. generalize (until_star m'). intros sub Hp Hsplit Hsub.
    destruct (Z.ltb_spec (Z.of_nat (length s)) (Z.of_nat (length sub))) as [Hlt|Hge].
    { apply decides_Def. split; [done|].
      intros (pre & s' & -> & Hg)%glob_star_inv. exfalso.
      assert (∃ p, m' = sub ++ p) as [p ->]
        by (destruct Hsplit as [<-|[r ?]]; [exists []; by rewrite app_nil_r|eauto]).
      apply glob_plain_inv in Hg as (mid & s'' & -> & HF & _); [|done].
      apply Forall2_length in HF. rewrite !length_app in Hlt. lia. }
    case_bool_decide as Hlen.
    { destruct Hsplit as [<-|[rest Heq]];
        [|rewrite Heq, length_app in Hlen; cbn in Hlen; lia].
      apply last_part_decided; [done|lia]. }
    destruct Hsplit as [<-|[rest Heq]]; [done|]. rewrite Heq in *. clear Heq Hlen m'.
    destruct (finding_string_spec s sub Hsub) as (p & -> & Hfound & Hleft).
    cbn [mbind ub_bind]. destruct (Z.eqb_spec p (-1)) as [->|Hp1]; cbn [negb].
    { exists false. split; [done|]. split; [done|].
      intros Hq (pre & s' & -> & Hg)%glob_star_inv.
      apply glob_plain_inv in Hg as (mid & s'' & -> & HF & _); [|done].
      destruct (Hleft ltac:(set_solver) (Z.of_nat (length pre)) ltac:(lia) ltac:(by left)).
      by apply occurs_intro. }
    destruct Hfound as [?|[Hp0 Hocc]]; [done|].
    apply occurs_split in Hocc as (pre & mid & post & Hs & Hpre & HF); [|done].
    destruct sub as [|l sub0 _] using rev_ind; [done|].
    destruct mid as [|d mid0 _] using rev_ind;
      [apply Forall2_length in HF; rewrite length_app in HF; cbn in HF; lia|].
    rewrite drop_last.
    replace (drop _ s) with (d :: post); last first.
    { pose proof (Forall2_length _ _ _ HF) as Hl. rewrite !length_app in Hl. cbn in Hl.
      rewrite Hs, !length_app. cbn [length].
      replace (Z.to_nat _) with (length (pre ++ mid0)) by (rewrite length_app; lia).
      by rewrite <-!app_assoc, app_assoc, drop_app_length. }
    destruct (IH (l :: star :: rest) (d :: post)) as (b & -> & Hb1 & Hb2).
    { rewrite <-app_assoc in Hm. by apply merged_app_r in Hm. }
    { done. }
    { cbn in Hf. rewrite !length_app in Hf. cbn in *. lia. }
    exists b. split; [done|]. split.
    + intros Hb. rewrite Hs. by apply found_step; auto.
    + intros Hq Hg. apply Hb2; [set_solver|].
      eapply leftmost_enough; [done|exact Hs|done| |exact Hg].
      intros q Hq'. apply Hleft; [set_solver|lia|right; lia].
  - destruct s as [|d s']; [apply decides_Def; split; [done|];
      by intros (? & ? & ? & _)%glob_char_inv|].
    destruct (negb (Ascii.eqb c qmark) && negb (Ascii.eqb d c)) eqn:Hcmp.
    { apply decides_Def. split; [done|].
      intros (? & ? & [= <- <-] & Hcd & _)%glob_char_inv; [|done]. exfalso.
      destruct (Ascii.eqb_spec c qmark), (Ascii.eqb_spec d c); try done.
      by destruct Hcd. }
    assert (char_ok c d) as Hcd.
    { destruct (Ascii.eqb_spec c qmark), (Ascii.eqb_spec d c); try done; ((by left) || (by right)). }
    destruct (bool_decide (m' = []) && bool_decide (s' ≠ [])) eqn:Hend.
    { apply andb_true_iff in Hend as [->%bool_decide_eq_true Hs'%bool_decide_eq_true].
      apply decides_Def. split; [done|].
      by intros (? & ? & [= <- <-] & _ & ->%glob_nil_inv)%glob_char_inv. }
    destruct (IH m' s') as (b & -> & Hb1 & Hb2); [done| |cbn in Hf; lia|].
    { intros ->. destruct s'; done. }
    exists b. split; [done|]. split; [auto|].
    intros Hq (? & ? & [= <- <-] & _ & ?)%glob_char_inv; [|done].
    apply Hb2; [|done]. set_solver.
Qed.

Lemma to_lower_qmark (c : ascii) : to_lower c = qmark → c = qmark.
Proof. destruct c as [[] [] [] [] [] [] [] []]; vm_compute; congruence. Qed.
Lemma fold_case_qmark (s : str) : qmark ∈ fold_case s → qmark ∈ s.
Proof.
  intros (c & Heq & Hc)%list_elem_of_fmap.
  symmetry in Heq. by apply to_lower_qmark in Heq as ->.
Qed.
Lemma c_str_sub (c : ascii) (s : str) : c ∈ c_str s → c ∈ s.
Proof.
  induction s as [|d s IH]; [done|]. cbn. destruct (Ascii.eqb_spec d zero).
  - by intros ?%elem_of_nil.
  - rewrite !elem_of_cons. tauto.
Qed.

Lemma matching_string_spec (source mat : str) :
  decides (matching_string source mat false) (fold_case mat) (fold_case source).
Proof.
  unfold matching_string. destruct mat as [|c mat].
  { apply decides_Def. rewrite bool_decide_eq_true.
    split; [intros ->; constructor|]. by intros ?%glob_nil_inv%fmap_nil_inv. }
  set (pat := c :: mat). assert (pat ≠ []) as Hne by done. cbn [mbind ub_bind].
  change (to_lower <$> source) with (fold_case source).
  change (to_lower <$> pat) with (fold_case pat).
  destruct (match_loop_spec (2 * length (merge_stars (fold_case pat)) + 1)
    (merge_stars (fold_case pat)) (fold_case source)) as (b & -> & Hb1 & Hb2).
  - apply merge_stars_merged.
  - intros Heq%(f_equal head). by rewrite merge_stars_head in Heq.
  - lia.
  - exists b. split; [done|]. rewrite merge_stars_glob in Hb1, Hb2. split; [done|].
    intros Hq. apply Hb2. by intros ?%merge_stars_qmark.
Qed.

(** The copying loop writes one past the end of the buffer, whatever the string. *)
Lemma copy_loop_overruns (source : str) (b : list (option ascii)) (i : Z) :
  Forall (.≠ zero) source → 0 <= i → Z.of_nat (length b) = i + Z.of_nat (length source) + 1 →
  copy_loop source b i = Undef.
Proof.
  revert b i. induction source as [|c source IH]; intros b i Hz Hi Hl; cbn [copy_loop].
  { unfold array_set. cbn [length] in Hl. by rewrite (proj2 (Z.ltb_ge _ _)), andb_false_r by lia. }
  apply Forall_cons in Hz as [Hc Hz]. cbn [length] in Hl. unfold array_set at 1.
  rewrite (proj2 (Z.leb_le _ _)), (proj2 (Z.ltb_lt _ _)) by lia. cbn [andb mbind ub_bind].
  destruct (Ascii.eqb_spec c zero); [done|].
  apply IH; [done|lia|]. rewrite length_insert. lia.
Qed.
Lemma c_str_no_zero (s : str) : Forall (.≠ zero) (c_str s).
Proof.
  induction s as [|c s IH]; cbn; [constructor|].
  destruct (Ascii.eqb_spec c zero); constructor; auto.
Qed.

(** ** Properties *)


Definition s_ (s : string) : str := String.list_ascii_of_string s.

(** Defect: With ['?'] in a searched part the automaton skips matches: ["aaab"] is
    matched by the pattern ["*a?b*"] (["a"], then ["aab"]), yet [match] says it is not.
    *)
Theorem qmark_search_misses :
  glob (s_ "*a?b*") (s_ "aaab") ∧ match_ (s_ "aaab") (s_ "*a?b*") false = Def false.
Proof.
  split; [|vm_compute; reflexivity].
  apply (glob_star _ (s_ "a") (s_ "aab")).
  apply (glob_char "a" _ "a"); [done|by right|].
  apply (glob_char qmark _ "a"); [done|by left|].
  apply (glob_char "b" _ "b"); [done|by right|].
  apply (glob_star _ [] []). constructor.
Qed.

(** Defect: A comparison that respects case is undefined: the loop that copies the
    source ([while ( *(tmp_src + i) = *(source + i++))]) writes each character one place
    too far, the first is never set and the last write is outside the buffer. *)
Theorem case_sensitive_match_undefined (source : str) :
  match_ source (s_ "a") true = Undef.
Proof.
  unfold match_, matching_string. cbn [c_str s_].
  rewrite copy_loop_overruns; [done|apply c_str_no_zero|done|].
  rewrite length_replicate. lia.
Qed.
