(* ===== verification/RpcContext.v ===== *)
(** * Calls of the rpc layer ([network/rpc/net/async_rpc_context.hpp])

    A context is the record shared by everybody who deals with one call: the
    task that made it, the channel that sends it and matches its reply, the
    timer that bounds it.  A call container holds the calls to send and the
    calls that wait for a reply; one instance of the template matches replies
    by call id, the other by protocol.  [net_result] and its exception come
    from [network/net/exception.hpp].

    A [std::function] member is modelled by whether it is set; calling it is an
    item of the list of callbacks the operation returns. *)
From stdpp Require Import base option list numbers gmap sorting strings.
From S2P Require Import Prelude NetOrder Proto RawMsg RpcHeader.
Local Open Scope Z_scope.

(** ** Results *)

Record net_result := NetResult { app_ec_ : Z; sys_ec_ : Z; msg_ : string }.
#[export] Instance net_result_eq_dec : EqDecision net_result.
Proof. solve_decision. Defined.

Definition net_result_default : net_result := NetResult 0 0 "".
Definition net_result_code (ec : error_code) : net_result := NetResult (error_code_val ec) 0 "".
Definition net_result_sys (ec : error_code) (err : Z) : net_result :=
  NetResult (error_code_val ec) err "".
Definition net_result_of_sys (ec : Z) : net_result :=
  NetResult (error_code_val (if ec =? 0 then ec_ok else ec_fail)) ec "".
Definition net_result_msg (ec : error_code) (em : string) : net_result :=
  NetResult (error_code_val ec) 0 em.
Definition is_success (r : net_result) : bool := (app_ec_ r =? 0) && (sys_ec_ r =? 0).
Definition is_failure (r : net_result) : bool := negb (is_success r).
Definition is_app_error (r : net_result) : bool :=
  negb (sys_ec_ r =? 0) || negb (app_ec_ r =? 0).
Definition net_code (r : net_result) : Z := app_ec_ r.
Definition net_value (r : net_result) : Z := sys_ec_ r.

(** ** What a context needs of its header type *)
Class CallHeader (H : Type) := {
  ch_new : Z → Z → Z → H;              (* header(code, protocol, length) *)
  ch_is_reply : H → bool;
  ch_need_reply : H → bool;
  ch_reply : H → bool → H;
  ch_result : H → Z;
  ch_set_result : H → Z → H;
  ch_length : H → Z;
  ch_set_length : H → Z → H;
  ch_call_id : H → Z;
  ch_set_conn_id : H → Z → H;
  ch_proto : H → Z;
  ch_hton : H → H;
  ch_ntoh : H → H;
  ch_bytes : H → list Z
}.

#[export] Instance client_call_header (big_endian : bool) : CallHeader client_msg_header := {|
  ch_new := client_init;
  ch_is_reply := client_is_reply;
  ch_need_reply := client_need_reply;
  ch_reply := client_reply;
  ch_result := cmh_result;
  ch_set_result := client_set_result;
  ch_length := cmh_length;
  ch_set_length := client_set_length;
  ch_call_id := client_call_id;
  ch_set_conn_id := client_set_conn_id;
  ch_proto := client_proto;
  ch_hton := client_hton big_endian;
  ch_ntoh := client_ntoh big_endian;
  ch_bytes := client_bytes
|}.
#[export] Instance server_call_header (big_endian : bool) : CallHeader (list Z) := {|
  ch_new := msg_header_server_short;
  ch_is_reply := is_reply;
  ch_need_reply := need_reply;
  ch_reply := reply;
  ch_result := result;
  ch_set_result := set_result;
  ch_length := msg_length;
  ch_set_length := set_msg_length;
  ch_call_id := call_id;
  ch_set_conn_id := set_conn_id;
  ch_proto := proto;
  ch_hton := rpc_hton big_endian;
  ch_ntoh := rpc_ntoh big_endian;
  ch_bytes := λ h, h
|}.

(** ** Contexts *)

Record rpc_context (H : Type) := RpcContext {
  send_msg : list Z;
  head : H;
  recv_msg : list Z;
  err : net_result;
  on_ok : bool;
  on_error : bool;
  post_func : bool;
  barrier_ptr : option bool;     (* is_over_ of the waitable object *)
  is_over : bool;
  timer_ptr_ : bool;
  duration_ : Z;                 (* milliseconds *)
  reply_protocol_id : Z
}.
Arguments RpcContext {H}.
Arguments send_msg {H}. Arguments head {H}. Arguments recv_msg {H}. Arguments err {H}.
Arguments on_ok {H}. Arguments on_error {H}. Arguments post_func {H}.
Arguments barrier_ptr {H}. Arguments is_over {H}. Arguments timer_ptr_ {H}.
Arguments duration_ {H}. Arguments reply_protocol_id {H}.
#[export] Instance rpc_context_eq_dec `{EqDecision H} : EqDecision (rpc_context H).
Proof. solve_decision. Defined.

(** What an operation on a context calls. *)
Inductive callback :=
| Cb_ok (data : list Z)
| Cb_error (r : net_result)
| Cb_notify
| Cb_post.
#[export] Instance callback_eq_dec : EqDecision callback.
Proof. solve_decision. Defined.

(** What a thread that waits for a context sees. *)
Inductive wait_result := W_blocked | W_returns | W_throws (r : net_result).

Section context.
Context {H : Type} `{CH : CallHeader H}.
Implicit Types c : rpc_context H.

Definition set_head (h : H) c : rpc_context H :=
  RpcContext (send_msg c) h (recv_msg c) (err c) (on_ok c) (on_error c) (post_func c)
    (barrier_ptr c) (is_over c) (timer_ptr_ c) (duration_ c) (reply_protocol_id c).
Definition set_recv_msg (data : list Z) c : rpc_context H :=
  RpcContext (send_msg c) (head c) data (err c) (on_ok c) (on_error c) (post_func c)
    (barrier_ptr c) (is_over c) (timer_ptr_ c) (duration_ c) (reply_protocol_id c).
Definition set_timer_ptr c : rpc_context H :=
  RpcContext (send_msg c) (head c) (recv_msg c) (err c) (on_ok c) (on_error c) (post_func c)
    (barrier_ptr c) (is_over c) true (duration_ c) (reply_protocol_id c).

(** The constructors; the send buffers point at [head] and [send_msg]. *)
Definition context_of_header (h : H) (msg : list Z) : rpc_context H :=
  RpcContext msg h [] net_result_default false false false None false false 0 0.
Definition context_of_protocol (protocol : Z) (msg : list Z) : rpc_context H :=
  context_of_header (ch_new 0 protocol (u32 (Z.of_nat (length msg)))) msg.
Definition context_response (h : H) (msg : list Z) (postf : bool) : rpc_context H :=
  RpcContext msg (ch_set_length h (u32 (Z.of_nat (length msg)))) [] net_result_default
    false false postf None false false 0 0.

Definition context_ntoh c : rpc_context H := set_head (ch_ntoh (head c)) c.
Definition context_hton c : rpc_context H := set_head (ch_hton (head c)) c.
Definition context_is_reply c : bool := ch_is_reply (head c).
Definition context_need_reply c : bool := ch_need_reply (head c).
Definition context_reply_protocol c : Z :=
  if negb (reply_protocol_id c =? 0) then reply_protocol_id c
  else reply_protocol (ch_proto (head c)).
Definition have_reply_process c : bool :=
  on_ok c || on_error c || bool_decide (is_Some (barrier_ptr c)) || timer_ptr_ c.
Definition get_send_message c : list Z := ch_bytes (head c) ++ send_msg c.
(** The buffer a reply body is read into: [recv_msg] resized. *)
Definition get_recv_message (size : Z) c : rpc_context H :=
  set_recv_msg (resize (Z.to_nat size) 0 (recv_msg c)) c.

(** Both ends of a call: the first to come closes it. *)
Definition finish (cb : list callback) c : list callback * rpc_context H :=
  (cb ++ (if barrier_ptr c then [Cb_notify] else []),
   RpcContext (send_msg c) (head c) (recv_msg c) (err c) (on_ok c) (on_error c) (post_func c)
     (match barrier_ptr c with Some _ => Some true | None => None end)
     true (timer_ptr_ c) (duration_ c) (reply_protocol_id c)).
Definition context_ok c : list callback * rpc_context H :=
  if negb (is_over c)
  then finish (if on_ok c then [Cb_ok (recv_msg c)] else []) c
  else ([], c).
Definition post_error c : list callback * rpc_context H :=
  if negb (is_over c)
  then finish (if on_error c then [Cb_error (err c)] else []) c
  else ([], c).
Definition set_err (r : net_result) c : rpc_context H :=
  RpcContext (send_msg c) (head c) (recv_msg c) r (on_ok c) (on_error c) (post_func c)
    (barrier_ptr c) (is_over c) (timer_ptr_ c) (duration_ c) (reply_protocol_id c).
Definition context_error (recv_error : net_result) c : list callback * rpc_context H :=
  post_error (set_err recv_error c).

Definition create_barrier c : rpc_context H :=
  match barrier_ptr c with
  | None =>
      RpcContext (send_msg c) (head c) (recv_msg c) (err c) (on_ok c) (on_error c)
        (post_func c) (Some false) (is_over c) (timer_ptr_ c) (duration_ c)
        (reply_protocol_id c)
  | Some _ => c
  end.
Definition wait c : wait_result :=
  match barrier_ptr c with
  | Some false => W_blocked
  | _ => if is_failure (err c) then W_throws (err c) else W_returns
  end.
Definition apply_post_func c : list callback := if post_func c then [Cb_post] else [].
Definition timeout (duration : Z) c : rpc_context H :=
  RpcContext (send_msg c) (head c) (recv_msg c) (err c) (on_ok c) (on_error c) (post_func c)
    (barrier_ptr c) (is_over c) (timer_ptr_ c) duration (reply_protocol_id c).

(** Responses. *)
Definition make_message (h : H) (msg : list Z) (postf : bool) : rpc_context H :=
  context_response h msg postf.
Definition make_error_message (h : H) (code : error_code) : rpc_context H :=
  make_message (ch_set_result h (u16 (error_code_val code))) [] false.
End context.

(** ** Call containers *)

(** What a channel needs of its container.  A context is known by its place in
    the store of shared contexts. *)
Class CallContainer (H C : Type) := {
  cc_new : C;
  push_call : Z → rpc_context H → C → rpc_context H * C;
  task_calls_from_list : C → list Z * C;
  call_list_ : C → list Z;
  get_call_from_map : Z → C → ub (option Z * C);
  task_calls_from_map : C → list Z * C
}.
Definition call_list_empty `{CallContainer H C} (c : C) : bool :=
  bool_decide (call_list_ c = []).

(** *** By call id *)
Module ById.
Record call_container := CallContainer_ {
  call_map_ : gmap Z Z;
  call_list : list Z;
  call_id_ : Z
}.
Definition new : call_container := CallContainer_ ∅ [] 0.

Definition push_call_response (id : Z) (ctx : rpc_context (list Z)) (c : call_container)
    : rpc_context (list Z) * call_container :=
  if need_reply (head ctx) then
    let call_id := u32 (call_id_ c + 1) in
    (set_head (set_call_id (head ctx) call_id) ctx,
     CallContainer_
       (match call_map_ c !! call_id with
        | Some _ => call_map_ c
        | None => <[call_id := id]> (call_map_ c)
        end) (call_list c) call_id)
  else (ctx, c).
Definition push_call (id : Z) (ctx : rpc_context (list Z)) (c : call_container)
    : rpc_context (list Z) * call_container :=
  let '(ctx, c) := if need_reply (head ctx) && have_reply_process ctx
                   then push_call_response id ctx c else (ctx, c) in
  (ctx, CallContainer_ (call_map_ c) (call_list c ++ [id]) (call_id_ c)).
Definition task_calls_from_list (c : call_container) : list Z * call_container :=
  (call_list c, CallContainer_ (call_map_ c) [] (call_id_ c)).
Definition get_call_from_map (call_id : Z) (c : call_container)
    : option Z * call_container :=
  match call_map_ c !! call_id with
  | Some id => (Some id, CallContainer_ (delete call_id (call_map_ c)) (call_list c) (call_id_ c))
  | None => (None, c)
  end.
Definition remove_call_from_map (call_id : Z) (c : call_container) : call_container :=
  match call_map_ c !! call_id with
  | Some _ => CallContainer_ (delete call_id (call_map_ c)) (call_list c) (call_id_ c)
  | None => c
  end.
Definition task_calls_from_map (c : call_container) : list Z * call_container :=
  ((in_key_order (call_map_ c)).*2, CallContainer_ ∅ (call_list c) (call_id_ c)).
Definition get_call_list_size (c : call_container) : Z := Z.of_nat (length (call_list c)).
Definition get_call_map_size (c : call_container) : Z := Z.of_nat (size (call_map_ c)).
End ById.

#[export] Instance by_id_container : CallContainer (list Z) ById.call_container := {|
  cc_new := ById.new;
  push_call := ById.push_call;
  task_calls_from_list := ById.task_calls_from_list;
  call_list_ := ById.call_list;
  get_call_from_map k c := Def (ById.get_call_from_map k c);
  task_calls_from_map := ById.task_calls_from_map
|}.

(** *** By protocol: the calls of a protocol queue for its replies *)
Module ByProtocol.
Record call_container := CallContainer_ {
  call_map_ : gmap Z (list Z);
  call_list : list Z
}.
Definition new : call_container := CallContainer_ ∅ [].

Section ops.
Context `{CH : CallHeader client_msg_header}.
Definition push_call_response (id : Z) (ctx : rpc_context client_msg_header)
    (c : call_container) : call_container :=
  if context_need_reply ctx then
    let protocol_id := context_reply_protocol ctx in
    match call_map_ c !! protocol_id with
    | Some q => CallContainer_ (<[protocol_id := q ++ [id]]> (call_map_ c)) (call_list c)
    | None => CallContainer_ (<[protocol_id := [id]]> (call_map_ c)) (call_list c)
    end
  else c.
Definition push_call (id : Z) (ctx : rpc_context client_msg_header) (c : call_container)
    : rpc_context client_msg_header * call_container :=
  let c := if context_need_reply ctx then push_call_response id ctx c else c in
  (ctx, CallContainer_ (call_map_ c) (call_list c ++ [id])).
End ops.
Definition task_calls_from_list (c : call_container) : list Z * call_container :=
  (call_list c, CallContainer_ (call_map_ c) []).
(** [front] and [pop] of an empty queue are undefined. *)
Definition get_call_from_map (protocol_id : Z) (c : call_container)
    : ub (option Z * call_container) :=
  match call_map_ c !! protocol_id with
  | Some [] => Undef
  | Some [id] =>
      Def (Some id, CallContainer_ (delete protocol_id (call_map_ c)) (call_list c))
  | Some (id :: q) =>
      Def (Some id, CallContainer_ (<[protocol_id := q]> (call_map_ c)) (call_list c))
  | None => Def (None, c)
  end.
Definition remove_call_from_map (protocol_id : Z) (c : call_container) : ub call_container :=
  match call_map_ c !! protocol_id with
  | Some [] => Undef
  | Some [_] => Def (CallContainer_ (delete protocol_id (call_map_ c)) (call_list c))
  | Some (_ :: q) => Def (CallContainer_ (<[protocol_id := q]> (call_map_ c)) (call_list c))
  | None => Def c
  end.
(** The queues, emptied front to back by [stop_rcp_calls_impl]. *)
Definition task_calls_from_map (c : call_container) : list Z * call_container :=
  (mjoin (in_key_order (call_map_ c)).*2, CallContainer_ ∅ (call_list c)).
Definition get_call_list_size (c : call_container) : Z := Z.of_nat (length (call_list c)).
Definition get_call_map_size (c : call_container) : Z := Z.of_nat (size (call_map_ c)).
End ByProtocol.

#[export] Instance by_protocol_container `{CH : CallHeader client_msg_header} :
    CallContainer client_msg_header ByProtocol.call_container := {|
  cc_new := ByProtocol.new;
  push_call := ByProtocol.push_call;
  task_calls_from_list := ByProtocol.task_calls_from_list;
  call_list_ := ByProtocol.call_list;
  get_call_from_map := ByProtocol.get_call_from_map;
  task_calls_from_map := ByProtocol.task_calls_from_map
|}.

(** ** What a container promises *)

(** [cc_ok D c]: every context that waits in [c] is in [D], and [c] is in the
    shape its operations need. *)
Class CallContainerLaws (H C : Type) `{CallContainer H C} := {
  cc_ok : gset Z → C → Prop;
  cc_ok_new D : cc_ok D cc_new;
  cc_list_new : call_list_ cc_new = [];
  cc_ok_mono D D' c : D ⊆ D' → cc_ok D c → cc_ok D' c;
  cc_push_ctx id ctx c : ∃ h, (push_call id ctx c).1 = set_head h ctx;
  cc_push D id ctx c : cc_ok D c → id ∈ D →
    call_list_ (push_call id ctx c).2 = call_list_ c ++ [id] ∧ cc_ok D (push_call id ctx c).2;
  cc_take_list D c : cc_ok D c →
    (task_calls_from_list c).1 = call_list_ c ∧
    call_list_ (task_calls_from_list c).2 = [] ∧ cc_ok D (task_calls_from_list c).2;
  cc_get D k c : cc_ok D c →
    ∃ r c', get_call_from_map k c = Def (r, c') ∧ call_list_ c' = call_list_ c ∧
      cc_ok D c' ∧ (∀ id, r = Some id → id ∈ D);
  cc_take_map D c : cc_ok D c →
    call_list_ (task_calls_from_map c).2 = call_list_ c ∧
    cc_ok D (task_calls_from_map c).2 ∧ Forall (.∈ D) (task_calls_from_map c).1
}.

Section by_id.
Import ById.
Definition by_id_ok (D : gset Z) (c : call_container) : Prop :=
  map_Forall (λ _ id, id ∈ D) (call_map_ c).
#[export] Program Instance by_id_laws : CallContainerLaws (list Z) call_container :=
  {| cc_ok := by_id_ok |}.
Next Obligation. intros D. apply map_Forall_empty. Qed.
Next Obligation. done. Qed.
Next Obligation. intros D D' c Hsub Hok k id Hk. by apply Hsub, (Hok k). Qed.
Next Obligation.
  intros id ctx c. cbn. unfold ById.push_call, push_call_response.
  destruct (need_reply (head ctx)), (have_reply_process ctx); cbn; eauto;
    exists (head ctx); by destruct ctx.
Qed.
Next Obligation.
  intros D id ctx c Hok Hid. cbn. unfold ById.push_call, push_call_response.
  destruct (need_reply (head ctx)), (have_reply_process ctx); cbn; try done.
  split; [done|]. destruct (call_map_ c !! _); [done|]. by apply map_Forall_insert_2.
Qed.
Next Obligation. done. Qed.
Next Obligation.
  intros D k c Hok. cbn. unfold ById.get_call_from_map.
  destruct (call_map_ c !! k) as [id|] eqn:Hk.
  - eexists _, _. split; [done|]. split; [done|]. split; [by apply map_Forall_delete|].
    intros ? [= <-]. by apply (Hok k).
  - by eexists _, _.
Qed.
Next Obligation.
  intros D c Hok. cbn. split; [done|]. split; [apply map_Forall_empty|].
  apply Forall_fmap, Forall_forall. intros [k id] Hin. cbn.
  rewrite in_key_order_perm in Hin. apply elem_of_map_to_list in Hin. by apply (Hok k).
Qed.
End by_id.

Section by_protocol.
Import ByProtocol.
Context `{CH : CallHeader client_msg_header}.
Definition by_protocol_ok (D : gset Z) (c : call_container) : Prop :=
  map_Forall (λ _ q, q ≠ [] ∧ Forall (.∈ D) q) (call_map_ c).
#[export] Program Instance by_protocol_laws :
    CallContainerLaws client_msg_header call_container := {| cc_ok := by_protocol_ok |}.
Next Obligation. intros D. apply map_Forall_empty. Qed.
Next Obligation. done. Qed.
Next Obligation.
  intros D D' c Hsub Hok k q Hk. destruct (Hok k q Hk) as [? HF]. split; [done|].
  eapply Forall_impl; [done|]. intros id. apply Hsub.
Qed.
Next Obligation. intros id ctx c. exists (head ctx). by destruct ctx. Qed.
Next Obligation.
  intros D id ctx c Hok Hid. cbn. unfold push_call_response.
  destruct (context_need_reply ctx); [|done].
  destruct (call_map_ c !! _) as [q|] eqn:Hq; cbn; (split; [done|]);
    (apply map_Forall_insert_2; [|done]).
  - destruct (Hok _ _ Hq). split; [by destruct q|]. apply Forall_app; auto.
  - auto.
Qed.
Next Obligation. done. Qed.
Next Obligation.
  intros D k c Hok. cbn. unfold ByProtocol.get_call_from_map.
  destruct (call_map_ c !! k) as [q|] eqn:Hq; [|by eexists _, _].
  destruct (Hok _ _ Hq) as [Hne HF]. destruct q as [|id [|id' q]]; [done|..];
    inversion HF; subst; (eexists _, _; split; [done|]; split; [done|]; split;
      [|by intros ? [= <-]]).
  - by apply map_Forall_delete.
  - apply map_Forall_insert_2; auto.
Qed.
Next Obligation.
  intros D c Hok. cbn. split; [done|]. split; [apply map_Forall_empty|].
  apply Forall_forall. intros id (q & Hid & Hq)%list_elem_of_join.
  apply list_elem_of_fmap in Hq as ([k q'] & -> & Hin).
  rewrite in_key_order_perm in Hin. apply elem_of_map_to_list in Hin.
  destruct (Hok _ _ Hin) as [_ HF]. rewrite Forall_forall in HF. by apply HF.
Qed.
End by_protocol.

(** ** Matching replies *)

(** Operations of a channel on its container. *)
Inductive cc_op (H : Type) :=
| Op_push (id : Z) (ctx : rpc_context H)
| Op_take_list
| Op_reply (key : Z).
Arguments Op_push {H}. Arguments Op_take_list {H}. Arguments Op_reply {H}.

(** The contexts the replies were answered with. *)
Fixpoint run_cc `{CallContainer H C} (ops : list (cc_op H)) (c : C) : ub (list (option Z) * C) :=
  match ops with
  | [] => Def ([], c)
  | Op_push id ctx :: ops => run_cc ops (push_call id ctx c).2
  | Op_take_list :: ops => run_cc ops (task_calls_from_list c).2
  | Op_reply key :: ops =>
      '(r, c) ← get_call_from_map key c;
      '(rs, c) ← run_cc ops c;
      Def (r :: rs, c)
  end.

Section by_id_matching.
Import ById.
Implicit Types c : call_container.

(** Ids below [n] have been given out. *)
Definition ids_below (n : Z) c : Prop :=
  0 <= call_id_ c <= n ∧ map_Forall (λ k _, k <= call_id_ c) (call_map_ c).
Lemma ids_below_push n id ctx c :
  ids_below n c → n + 1 < 2 ^ 32 → ids_below (n + 1) (ById.push_call id ctx c).2.
Proof.
  intros [Hn Hk] Hlt. unfold ById.push_call, push_call_response.
  destruct (need_reply (head ctx)), (have_reply_process ctx); cbn;
    try (split; [cbn; lia|exact Hk]).
  unfold u32. rewrite Z.mod_small by lia. split; [cbn; lia|]. cbn.
  assert (map_Forall (λ k (_ : Z), k <= call_id_ c + 1) (call_map_ c)).
  { eapply map_Forall_impl; [exact Hk|]. cbn. lia. }
  destruct (call_map_ c !! _); [done|]. apply map_Forall_insert_2; [lia|done].
Qed.
Lemma ids_below_mono n m c : ids_below n c → n <= m → ids_below m c.
Proof. intros [? ?] ?. split; [lia|done]. Qed.
Lemma ids_below_run ops : ∀ n c rs c',
  ids_below n c → n + Z.of_nat (length ops) < 2 ^ 32 →
  run_cc ops c = Def (rs, c') → ids_below (n + Z.of_nat (length ops)) c'.
Proof.
  induction ops as [|o ops IH]; intros n c rs c' Hn Hlt Hr; cbn in Hr, Hlt.
  { injection Hr as <- <-. by rewrite Z.add_0_r. }
  replace (n + Z.of_nat (length (o :: ops))) with (n + 1 + Z.of_nat (length ops)) by (cbn; lia).
  destruct o as [id ctx| |k].
  - eapply IH, Hr; [|lia]. apply ids_below_push; [done|lia].
  - eapply IH, Hr; [|lia]. destruct Hn. split; [cbn; lia|done].
  - destruct (ById.get_call_from_map k c) as [r c0] eqn:Hg. inv_def.
    eapply IH; [|lia|eassumption]. apply (ids_below_mono n); [|lia].
    unfold ById.get_call_from_map in Hg. destruct (call_map_ c !! k) as [id|]; simplify_eq; [|done].
    destruct Hn. split; [done|]. by apply map_Forall_delete.
Qed.

(** A waiting call is not disturbed by other calls and other replies. *)
Lemma waiting_run k id ops : ∀ c rs c',
  call_map_ c !! k = Some id → Forall (λ o, o ≠ Op_reply k) ops →
  run_cc ops c = Def (rs, c') → call_map_ c' !! k = Some id.
Proof.
  induction ops as [|o ops IH]; intros c rs c' Hk Hops Hr; cbn in Hr; [by inv_def|].
  inversion Hops as [|? ? Ho Hops']; subst. destruct o as [id' ctx| |k'].
  - eapply IH, Hr; [|done]. unfold ById.push_call, push_call_response.
    destruct (need_reply (head ctx)), (have_reply_process ctx); cbn; try done.
    destruct (call_map_ c !! u32 _) eqn:Hnew; [done|].
    rewrite lookup_insert_ne; [done|]. intros Heq. congruence.
  - by eapply IH, Hr.
  - destruct (ById.get_call_from_map k' c) as [r c0] eqn:Hg. inv_def.
    eapply IH; [|done|eassumption].
    unfold ById.get_call_from_map in Hg. destruct (call_map_ c !! k') as [id'|]; simplify_eq; [|done].
    cbn. rewrite lookup_delete_ne; [done|]. congruence.
Qed.
End by_id_matching.

(** C13: By call id, a reply reaches the call it answers: whatever calls are made and
    replies come before and after (fewer than 2^32 in all), the reply that carries the
    id written into a call's header is answered with that call's context, once. *)
Theorem reply_reaches_its_call (before after : list (cc_op (list Z))) (id : Z)
    (ctx : rpc_context (list Z)) (rs1 rs2 : list (option Z)) (c1 c2 : ById.call_container) :
  Z.of_nat (length before) + 1 < 2 ^ 32 →
  run_cc before ById.new = Def (rs1, c1) →
  header_wf (head ctx) → need_reply (head ctx) = true → have_reply_process ctx = true →
  let sent := ById.push_call id ctx c1 in
  let key := call_id (head sent.1) in
  Forall (λ o, o ≠ Op_reply key) after →
  run_cc after sent.2 = Def (rs2, c2) →
  let taken := ById.get_call_from_map key c2 in
  taken.1 = Some id ∧ (ById.get_call_from_map key taken.2).1 = None.
Proof.
  intros Hlen H1 Hwf Hneed Hhave sent key Hafter H2.
  destruct (ids_below_run before 0 ById.new rs1 c1) as [Hn Hk]; [|cbn; lia|exact H1|].
  { split; [cbn; lia|]. apply map_Forall_empty. }
  assert (key = ById.call_id_ c1 + 1) as Hkey.
  { unfold key, sent, ById.push_call, ById.push_call_response. rewrite Hneed, Hhave. cbn.
    unfold u32. rewrite Z.mod_small by lia. apply call_id_set_call_id; [done|lia]. }
  assert (ById.call_map_ sent.2 !! key = Some id) as Hin.
  { rewrite Hkey. unfold sent, ById.push_call, ById.push_call_response. rewrite Hneed, Hhave. cbn.
    unfold u32. rewrite Z.mod_small by lia.
    destruct (ById.call_map_ c1 !! (ById.call_id_ c1 + 1)) as [x|] eqn:Hx.
    - specialize (Hk _ _ Hx). cbn in Hk. lia.
    - apply lookup_insert_eq. }
  pose proof (waiting_run key id after sent.2 rs2 c2 Hin Hafter H2) as Hin2.
  unfold ById.get_call_from_map. rewrite Hin2. cbn. by rewrite lookup_delete_eq.
Qed.

Definition sample_call : rpc_context (list Z) :=
  RpcContext [1; 2] (msg_header_internal 0 (MsgOption false false 0 0 0) 0 2 77) []
    net_result_default true true false None false false 0 0.
Definition sample_before : list (cc_op (list Z)) := [Op_push 5 sample_call; Op_take_list].
Definition sample_after : list (cc_op (list Z)) := [Op_push 6 sample_call; Op_reply 3; Op_reply 1].
Definition sample_container (m : ub (list (option Z) * ById.call_container)) : ById.call_container :=
  match m with Def (_, c) => c | Undef => ById.new end.

Lemma reply_reaches_its_call_witness :
  let c1 := sample_container (run_cc sample_before ById.new) in
  let c2 := sample_container (run_cc sample_after (ById.push_call 9 sample_call c1).2) in
  let key := call_id (head (ById.push_call 9 sample_call c1).1) in
  key = 2 ∧ (ById.get_call_from_map key c2).1 = Some 9.
Proof.
  intros c1 c2 key. split; [vm_compute; reflexivity|].
  apply (reply_reaches_its_call sample_before sample_after 9 sample_call [] [Some 6; Some 5]
    (sample_container (run_cc sample_before ById.new))
    (sample_container (run_cc sample_after (ById.push_call 9 sample_call
       (sample_container (run_cc sample_before ById.new))).2)));
    [vm_compute; reflexivity..| |vm_compute; reflexivity|vm_compute; reflexivity| |vm_compute; reflexivity].
  - split; [|vm_compute; reflexivity]. by apply (bool_decide_eq_true_1 _).
  - repeat constructor; vm_compute; discriminate.
Defined.

Section by_protocol_matching.
Import ByProtocol.
Context `{CH : CallHeader client_msg_header}.

(** The specification: a queue of calls for each protocol. *)
Definition queues : Type := Z → list Z.
Definition spec_push (id : Z) (ctx : rpc_context client_msg_header) (q : queues) : queues :=
  λ p, q p ++ (if context_need_reply ctx && bool_decide (context_reply_protocol ctx = p)
               then [id] else []).
Definition spec_reply (key : Z) (q : queues) : option Z * queues :=
  (hd_error (q key), λ p, if bool_decide (p = key) then tail (q p) else q p).
Fixpoint spec_run (ops : list (cc_op client_msg_header)) (q : queues) : list (option Z) :=
  match ops with
  | [] => []
  | Op_push id ctx :: ops => spec_run ops (spec_push id ctx q)
  | Op_take_list :: ops => spec_run ops q
  | Op_reply key :: ops => (spec_reply key q).1 :: spec_run ops (spec_reply key q).2
  end.

Definition implements (c : call_container) (q : queues) : Prop :=
  ∀ p, call_map_ c !! p = match q p with [] => None | l => Some l end.

Lemma implements_push id ctx c q :
  implements c q → implements (ByProtocol.push_call id ctx c).2 (spec_push id ctx q).
Proof.
  intros Hi p. specialize (Hi p) as Hp. unfold ByProtocol.push_call, push_call_response, spec_push.
  destruct (context_need_reply ctx); cbn; [|by rewrite app_nil_r].
  specialize (Hi (context_reply_protocol ctx)) as Hk.
  case_bool_decide as Heq; [subst p|rewrite app_nil_r].
  - rewrite Hk. destruct (q (context_reply_protocol ctx)); cbn; by rewrite lookup_insert_eq.
  - destruct (call_map_ c !! context_reply_protocol ctx); cbn; by rewrite lookup_insert_ne.
Qed.
Lemma implements_reply k c q :
  implements c q →
  ∃ c', ByProtocol.get_call_from_map k c = Def ((spec_reply k q).1, c') ∧
    implements c' (spec_reply k q).2.
Proof.
  intros Hi. unfold ByProtocol.get_call_from_map, spec_reply. rewrite (Hi k). cbn.
  destruct (q k) as [|id [|id' l]] eqn:Hk; cbn; eexists; (split; [done|]); intros p;
    (case_bool_decide as Heq; [subst p; rewrite Hk|]); cbn.
  - by rewrite (Hi k), Hk.
  - apply Hi.
  - by rewrite lookup_delete_eq.
  - by rewrite lookup_delete_ne by done.
  - by rewrite lookup_insert_eq.
  - by rewrite lookup_insert_ne by done.
Qed.
Lemma implements_run ops : ∀ c q,
  implements c q → ∃ c', run_cc ops c = Def (spec_run ops q, c').
Proof.
  induction ops as [|[id ctx| |k] ops IH]; intros c q Hi; cbn [run_cc spec_run].
  - by eexists.
  - apply IH. by apply implements_push.
  - by apply IH.
  - destruct (implements_reply k c q Hi) as (c' & Hr & Hi'). cbn. rewrite Hr. cbn.
    destruct (IH c' _ Hi') as [c'' ->]. cbn. by eexists.
Qed.
End by_protocol_matching.

(** C23: By protocol, the container refines one queue of calls for each reply protocol:
    whatever calls and replies come, no empty queue is ever asked for its front, and
    each reply is answered with the oldest call that waits for its protocol. *)
Theorem replies_answer_oldest_call `{CH : CallHeader client_msg_header}
    (ops : list (cc_op client_msg_header)) :
  ∃ c', run_cc ops ByProtocol.new = Def (spec_run ops (λ _, []), c').
Proof. apply implements_run. by intros p. Qed.
