(* ===== verification/RpcChannel.v ===== *)
(** * The rpc channel ([network/rpc/net/async_rpc_channel.hpp])

    A channel sends the calls handed to it one after the other over a socket
    and matches the replies it reads with the contexts that wait for them.
    Every completion of the transport runs a handler, so the channel is a state
    machine driven by labels.  The state holds, besides the members, the store
    of shared contexts, the posted lambdas, the operations in flight, the bytes
    handed to the transport and the callbacks made so far.  It is generic in
    the header type and in the call container, as the template is.  Mutexes are
    not modelled: a label runs to its end. *)
From stdpp Require Import base option list numbers strings gmap.
From S2P Require Import Prelude Proto RpcHeader RpcContext.
Local Open Scope Z_scope.

(** ** State *)

Inductive status_t := st_disconnected | st_connecting | st_connected | st_disconnecting.
#[export] Instance status_t_eq_dec : EqDecision status_t.
Proof. solve_decision. Defined.

(** The lambdas posted by [call_context] and by [call_impl1]. *)
Inductive chan_task := Tk_call | Tk_retry.

(** What [async_read] was asked for. *)
Inductive read_op :=
| R_head
| R_body (id : Z) (size : Z)
| R_request (size : Z).

Inductive chan_event (H : Type) :=
| Ev_callback (id : Z) (cb : callback)
| Ev_after_send (h : H)
| Ev_on_read (h : H) (body : list Z)
| Ev_router_error (r : net_result)
| Ev_on_connect (r : net_result)
| Ev_on_disconnect (r : net_result)
| Ev_start_ok
| Ev_start_error (r : net_result).
Arguments Ev_callback {H}. Arguments Ev_after_send {H}. Arguments Ev_on_read {H}.
Arguments Ev_router_error {H}. Arguments Ev_on_connect {H}. Arguments Ev_on_disconnect {H}.
Arguments Ev_start_ok {H}. Arguments Ev_start_error {H}.

(** The transport: the socket, the writes and reads in flight, the number of
    connects in flight, the connection's two callbacks (whether each wraps a
    user's function; [None]: both are null), the frames written. *)
Record transport := Transport {
  socket_open : bool;
  writing : list (Z * list Z);
  reading : list read_op;
  connecting : nat;
  conn_funcs : option (bool * bool);
  sent : list (Z * list Z)
}.

Record channel (H C : Type) := Channel {
  status_ : status_t;
  calls_ : C;
  to_calls_ : list Z;
  head_ : H;
  read_buffer_ : list Z;
  is_client_ : bool;
  irptr_ : bool;
  net : transport;
  store : gmap Z (rpc_context H);
  posts : list chan_task;
  events : list (chan_event H)
}.
Arguments Channel {H C}.
Arguments status_ {H C}. Arguments calls_ {H C}. Arguments to_calls_ {H C}.
Arguments head_ {H C}. Arguments read_buffer_ {H C}. Arguments is_client_ {H C}.
Arguments irptr_ {H C}. Arguments net {H C}. Arguments store {H C}.
Arguments posts {H C}. Arguments events {H C}.

Section channel.
Context {H C : Type} `{CH : CallHeader H} `{CC : CallContainer H C}.
(** The router: its filter of outgoing messages and whether it wants to know
    about those sent. *)
Context (before_send_func_ : option (H → bool)) (after_send_func_ : bool).
Notation chan := (channel H C).
Implicit Types s : chan.

(** *** Updates *)
Definition set_status (st : status_t) s : chan :=
  Channel st (calls_ s) (to_calls_ s) (head_ s) (read_buffer_ s) (is_client_ s) (irptr_ s)
    (net s) (store s) (posts s) (events s).
Definition set_calls (c : C) (to_calls : list Z) s : chan :=
  Channel (status_ s) c to_calls (head_ s) (read_buffer_ s) (is_client_ s) (irptr_ s)
    (net s) (store s) (posts s) (events s).
Definition set_recv (h : H) (buf : list Z) s : chan :=
  Channel (status_ s) (calls_ s) (to_calls_ s) h buf (is_client_ s) (irptr_ s)
    (net s) (store s) (posts s) (events s).
Definition set_net (n : transport) s : chan :=
  Channel (status_ s) (calls_ s) (to_calls_ s) (head_ s) (read_buffer_ s) (is_client_ s)
    (irptr_ s) n (store s) (posts s) (events s).
Definition put (id : Z) (ctx : rpc_context H) s : chan :=
  Channel (status_ s) (calls_ s) (to_calls_ s) (head_ s) (read_buffer_ s) (is_client_ s)
    (irptr_ s) (net s) (<[id := ctx]> (store s)) (posts s) (events s).
Definition set_posts (ps : list chan_task) s : chan :=
  Channel (status_ s) (calls_ s) (to_calls_ s) (head_ s) (read_buffer_ s) (is_client_ s)
    (irptr_ s) (net s) (store s) ps (events s).
Definition emit (es : list (chan_event H)) s : chan :=
  Channel (status_ s) (calls_ s) (to_calls_ s) (head_ s) (read_buffer_ s) (is_client_ s)
    (irptr_ s) (net s) (store s) (posts s) (events s ++ es).

Definition start_write (id : Z) (bytes : list Z) s : chan :=
  let n := net s in
  set_net (Transport (socket_open n) (writing n ++ [(id, bytes)]) (reading n) (connecting n)
             (conn_funcs n) (sent n ++ [(id, bytes)])) s.
Definition start_read (r : read_op) s : chan :=
  let n := net s in
  set_net (Transport (socket_open n) (writing n) (reading n ++ [r]) (connecting n) (conn_funcs n)
             (sent n)) s.
Definition post (t : chan_task) s : chan := set_posts (posts s ++ [t]) s.

(** *** Completing a context *)
Definition run_callbacks (id : Z) (r : list callback * rpc_context H) s : chan :=
  emit (Ev_callback id <$> r.1) (put id r.2 s).
Definition ctx_ok (id : Z) s : ub chan :=
  ctx ← deref (store s !! id); Def (run_callbacks id (context_ok ctx) s).
Definition ctx_error (id : Z) (r : net_result) s : ub chan :=
  ctx ← deref (store s !! id); Def (run_callbacks id (context_error r ctx) s).

(** *** Closing *)
(** [shutdown] of a normal close has no effect besides closing. *)
Definition close_socket (normal_close : bool) s : chan :=
  let n := net s in
  set_net (Transport false (writing n) (reading n) (connecting n) (conn_funcs n) (sent n)) s.

Fixpoint stop_rcp_calls_impl (to_responses : list Z) (err : net_result) s : ub chan :=
  match to_responses with
  | [] => Def s
  | id :: rest => s ← ctx_error id err s; stop_rcp_calls_impl rest err s
  end.
Definition stop_rpc_calls (err : net_result) s : ub chan :=
  let '(to_responses, c) := task_calls_from_map (calls_ s) in
  stop_rcp_calls_impl to_responses err (set_calls c [] s).

Definition stop_rpc_service (err : net_result) (on_error_func : bool) s : ub (bool * chan) :=
  let s := set_status st_disconnecting s in
  let s := close_socket (net_value err =? 0) s in
  s ← stop_rpc_calls err s;
  let s := if on_error_func then emit [Ev_start_error err] s else s in
  Def (on_error_func, set_status st_disconnected s).

Definition chan_on_error (err : net_result) s : ub chan :=
  '(_, s) ← stop_rpc_service err false s;
  let s := if negb (is_client_ s) then emit [Ev_router_error err] s else s in
  Def (if irptr_ s then emit [Ev_on_disconnect err] s else s).
Definition chan_on_sys_error (ec : Z) s : ub chan :=
  chan_on_error (net_result_sys ec_badconnect ec) s.
Definition disconnect s : ub chan := chan_on_error (net_result_code ec_be_disconnected) s.

(** *** Sending *)
Definition duration_max : Z := 2 ^ 63 - 1.
Definition set_timeout (id : Z) s : ub chan :=
  ctx ← deref (store s !! id);
  if on_ok ctx || on_error ctx || bool_decide (is_Some (barrier_ptr ctx)) then
    if (duration_ ctx <=? 0) || (duration_ ctx =? duration_max) then Def s
    else Def (put id (set_timer_ptr ctx) s)
  else Def s.
Definition handle_timeout (id : Z) (error : Z) s : ub chan :=
  ctx_error id (net_result_sys ec_timeout error) s.

Definition call_impl1 s : ub chan :=
  match to_calls_ s with
  | [] => Undef
  | id :: _ =>
      ctx ← deref (store s !! id);
      if match before_send_func_ with Some f => negb (f (head ctx)) | None => false end then
        s ← ctx_error id (net_result_code ec_cancel) s;
        Def (post Tk_retry s)
      else
        let s := put id (context_hton ctx) s in
        s ← set_timeout id s;
        ctx ← deref (store s !! id);
        Def (start_write id (get_send_message ctx) s)
  end.
Definition call_impl s : ub chan :=
  if negb (call_list_empty (calls_ s)) then
    let '(to_calls, c) := task_calls_from_list (calls_ s) in
    call_impl1 (set_calls c to_calls s)
  else Def s.

Definition call_context (id : Z) (ctx : rpc_context H) s : ub chan :=
  let s := put id ctx s in
  if negb (bool_decide (status_ s = st_connected))
     && negb (bool_decide (status_ s = st_connecting)) then
    ctx_error id (net_result_msg ec_badconnect "rpc session already stopped"%string) s
  else
    let empty := call_list_empty (calls_ s) in
    let '(ctx, c) := push_call id ctx (calls_ s) in
    let s := put id ctx (set_calls c (to_calls_ s) s) in
    if empty && bool_decide (status_ s = st_connected) then Def (post Tk_call s) else Def s.
Definition response (id : Z) (ctx : rpc_context H) s : ub chan := call_context id ctx s.
Definition send (id : Z) (header : H) (data : list Z) s : ub chan :=
  call_context id (context_of_header header (take (Z.to_nat (ch_length header)) data)) s.

Definition run_chan_task (t : chan_task) s : ub chan :=
  match t, to_calls_ s with
  | Tk_call, [] => call_impl s
  | Tk_call, _ => Def s
  | Tk_retry, [] => call_impl s
  | Tk_retry, _ => call_impl1 s
  end.

Definition handle_send (error : Z) (id : Z) s : ub chan :=
  if negb (socket_open (net s)) then Def s
  else
    match to_calls_ s with
    | [] => Undef
    | _ :: to_calls =>
        ctx ← deref (store s !! id);
        let ctx := context_ntoh ctx in
        let s := put id ctx (set_calls (calls_ s) to_calls s) in
        if negb (error =? 0) then chan_on_sys_error error s
        else
          let s := if after_send_func_ then emit [Ev_after_send (head ctx)] s else s in
          let s := if context_is_reply ctx
                   then emit (Ev_callback id <$> apply_post_func ctx) s else s in
          match to_calls_ s with [] => call_impl s | _ => call_impl1 s end
    end.

(** *** Receiving *)
Definition recv_head s : chan := start_read R_head s.
Definition max_body : Z := 5 * 1024 * 1024.

Definition call_complete (id : Z) s : ub chan :=
  let s := recv_head s in
  ctx ← deref (store s !! id);
  let rcode := ch_result (head ctx) in
  if rcode <? result_code_val rc_fail then ctx_ok id s
  else ctx_error id (NetResult (error_code_val ec_remote_error) rcode "") s.

Definition recv_request s : ub chan :=
  let len := ch_length (head_ s) in
  if len =? 0 then Def (recv_head (emit [Ev_on_read (head_ s) []] s))
  else if max_body <? len then chan_on_error (net_result_code ec_invalid_header) s
  else
    let buf := if 1024 <? len then resize (Z.to_nat len) 0 (read_buffer_ s)
               else read_buffer_ s in
    let s := set_recv (head_ s) buf s in
    assert_ub (len <=? Z.of_nat (length buf));;
    Def (start_read (R_request len) s).

Definition recv_call_reply s : ub chan :=
  '(r, c) ← get_call_from_map (ch_call_id (head_ s)) (calls_ s);
  let s := set_calls c (to_calls_ s) s in
  match r with
  | None => recv_request s
  | Some id =>
      ctx ← deref (store s !! id);
      if negb (on_ok ctx) && negb (on_error ctx) && bool_decide (barrier_ptr ctx = None)
      then recv_request s
      else
        let len := ch_length (head_ s) in
        let ctx := set_head (ch_set_result (ch_set_length (head ctx) len)
                               (ch_result (head_ s))) ctx in
        let s := put id ctx s in
        if len =? 0 then call_complete id s
        else if max_body <? len then chan_on_error (net_result_code ec_invalid_header) s
        else Def (start_read (R_body id len) (put id (get_recv_message len ctx) s))
  end.
Definition recv_body s : ub chan :=
  if ch_is_reply (head_ s) then recv_call_reply s else recv_request s.

(** [h] is what the read left in [head_]. *)
Definition handle_recv_head (error : Z) (h : H) s : ub chan :=
  let s := set_recv h (read_buffer_ s) s in
  if negb (socket_open (net s)) then Def s
  else
    let s := set_recv (ch_ntoh (head_ s)) (read_buffer_ s) s in
    if error =? 0 then recv_body s else chan_on_sys_error error s.
Definition handle_recv_reply (id : Z) (error : Z) (data : list Z) s : ub chan :=
  ctx ← deref (store s !! id);
  let s := put id (set_recv_msg data ctx) s in
  if negb (socket_open (net s)) then Def s
  else if error =? 0 then call_complete id s else chan_on_sys_error error s.
(** The read overwrote the start of the buffer. *)
Definition handle_recv_request (error : Z) (data : list Z) s : ub chan :=
  assert_ub (Z.of_nat (length data) <=? Z.of_nat (length (read_buffer_ s)));;
  let s := set_recv (head_ s) (data ++ drop (length data) (read_buffer_ s)) s in
  if negb (socket_open (net s)) then Def s
  else if error =? 0 then
    let header := head_ s in
    let s := recv_head s in
    Def (emit [Ev_on_read header (take (Z.to_nat (ch_length header)) (read_buffer_ s))] s)
  else chan_on_sys_error error s.

(** *** Connecting *)
Definition start_rpc_service s : ub chan :=
  let s := set_status st_connected s in
  s ← call_impl s;
  Def (recv_head s).
(** [async_connection::start] and the connect it starts, which opens the
    socket. *)
Definition conn_start (on_success on_error_func : bool) s : chan :=
  let n := net s in
  set_net (Transport true (writing n) (reading n) (S (connecting n))
             (Some (on_success, on_error_func)) (sent n)) s.
(** The arguments say whether the callbacks are set. *)
Definition start (on_success on_error_func : bool) s : chan :=
  if negb (bool_decide (status_ s = st_disconnected)) then
    let r := net_result_code ec_repeat_connect in
    if on_error_func then emit [Ev_start_error r] s
    else if irptr_ s then emit [Ev_on_connect r] s else s
  else
    let s := set_status st_connecting s in
    conn_start on_success on_error_func s.
(** Of an accepted connection. *)
Definition start_accepted s : ub chan :=
  if negb (bool_decide (status_ s = st_disconnected)) then Def s else start_rpc_service s.
Definition on_connected (error : Z) (on_success on_error_func : bool) s : ub chan :=
  if error =? 0 then
    s ← start_rpc_service s;
    Def (if on_success then emit [Ev_start_ok] s
         else if irptr_ s then emit [Ev_on_connect net_result_default] s else s)
  else
    let r := net_result_sys ec_connect_fail error in
    '(handled, s) ← stop_rpc_service r on_error_func s;
    Def (if handled : bool then s
         else if irptr_ s then emit [Ev_on_connect r] s else s).
(** [async_connection::handle_connection]: the callbacks are called once. *)
Definition handle_connection (error : Z) s : ub chan :=
  s ← match conn_funcs (net s) with
      | Some (on_success, on_error_func) => on_connected error on_success on_error_func s
      | None => Def s
      end;
  let n := net s in
  Def (set_net (Transport (socket_open n) (writing n) (reading n) (connecting n) None
                  (sent n)) s).

(** A channel of an accepted socket, or one to connect. *)
Definition channel_new (head_zero : H) (opened is_client irptr : bool) : chan :=
  Channel st_disconnected cc_new [] head_zero (replicate 1024 0) is_client irptr
    (Transport opened [] [] O None []) ∅ [] [].

(** ** The machine *)
Inductive label :=
| L_call (id : Z) (ctx : rpc_context H)
| L_task
| L_sent (error : Z)
| L_head (error : Z) (h : H)
| L_data (error : Z) (data : list Z)
| L_timeout (id : Z) (error : Z)
| L_start (on_success on_error_func : bool)
| L_connected (error : Z)
| L_disconnect.

(** Take an operation that completed out of those in flight. *)
Definition set_ops (w : list (Z * list Z)) (r : list read_op) (c : nat) s : chan :=
  set_net (Transport (socket_open (net s)) w r c (conn_funcs (net s)) (sent (net s))) s.

Definition step (l : label) s : ub chan :=
  let n := net s in
  match l with
  | L_call id ctx =>
      (* a context is new when it is handed over *)
      match store s !! id with
      | None => call_context id ctx s
      | Some _ => Def s
      end
  | L_task =>
      match posts s with
      | [] => Def s
      | t :: ps => run_chan_task t (set_posts ps s)
      end
  | L_sent error =>
      match writing n with
      | [] => Def s
      | (id, _) :: ws => handle_send error id (set_ops ws (reading n) (connecting n) s)
      end
  | L_head error h =>
      match reading n with
      | R_head :: rs => handle_recv_head error h (set_ops (writing n) rs (connecting n) s)
      | _ => Def s
      end
  | L_data error data =>
      match reading n with
      | R_body id size :: rs =>
          (* [data] is what the buffer holds after the read *)
          if negb (bool_decide (length data = Z.to_nat size)) then Def s
          else handle_recv_reply id error data (set_ops (writing n) rs (connecting n) s)
      | R_request size :: rs =>
          if (error =? 0) && negb (bool_decide (length data = Z.to_nat size)) then Def s
          else if size <? Z.of_nat (length data) then Def s
          else handle_recv_request error data (set_ops (writing n) rs (connecting n) s)
      | _ => Def s
      end
  | L_timeout id error =>
      match store s !! id with
      | Some ctx => if timer_ptr_ ctx then handle_timeout id error s else Def s
      | None => Def s
      end
  | L_start on_success on_error_func => Def (start on_success on_error_func s)
  | L_connected error =>
      match connecting n with
      | O => Def s
      | S k => handle_connection error (set_ops (writing n) (reading n) k s)
      end
  | L_disconnect => disconnect s
  end.

Fixpoint run (ls : list label) s : ub chan :=
  match ls with
  | [] => Def s
  | l :: ls => s ← step l s; run ls s
  end.
End channel.

(** ** A call completes at most once *)

Definition is_completion (cb : callback) : bool :=
  match cb with Cb_ok _ | Cb_error _ => true | _ => false end.
Definition completes {H} (id : Z) (e : chan_event H) : bool :=
  match e with Ev_callback id' cb => bool_decide (id' = id) && is_completion cb | _ => false end.
Definition completions {H} (id : Z) (es : list (chan_event H)) : nat :=
  sum_list_with (λ e, Nat.b2n (completes id e)) es.
Definition closings (cbs : list callback) : nat :=
  sum_list_with (λ cb, Nat.b2n (is_completion cb)) cbs.
Definition over {H C} (id : Z) (s : channel H C) : nat :=
  match store s !! id with Some ctx => if is_over ctx then 1 else 0 | None => 0 end.

(** A waiting thread is woken: a closed context is not waited for. *)
Definition awake {H} (ctx : rpc_context H) : Prop :=
  is_over ctx = true → wait ctx ≠ W_blocked.

(** What every operation does to the calls: no more completions than contexts
    it closes, and no closed context that is still waited for. *)
Definition calls_step {H C} (s s' : channel H C) : Prop :=
  (∀ id, completions id (events s') + over id s <= completions id (events s) + over id s')%nat ∧
  ((∀ id ctx, store s !! id = Some ctx → awake ctx) →
   ∀ id ctx, store s' !! id = Some ctx → awake ctx).
#[export] Instance calls_step_preorder {H C} : PreOrder (@calls_step H C).
Proof.
  split.
  - intros s. split; [intros id; lia|done].
  - intros s1 s2 s3 [Ha Hb] [Hc Hd]. split.
    + intros id. specialize (Ha id). specialize (Hc id). lia.
    + intros Hall. by apply Hd, Hb.
Qed.

Lemma completions_app {H} (id : Z) (es es' : list (chan_event H)) :
  completions id (es ++ es') = (completions id es + completions id es')%nat.
Proof. apply sum_list_with_app. Qed.
Lemma completions_callbacks {H} (id id' : Z) (cbs : list callback) :
  completions id (@Ev_callback H id' <$> cbs) = if decide (id' = id) then closings cbs else 0%nat.
Proof.
  unfold completions, closings. induction cbs as [|cb cbs IH]; [by destruct decide|].
  cbn. rewrite IH. case_bool_decide; destruct (decide (id' = id)); done.
Qed.

Section once.
Context {H C : Type} `{CH : CallHeader H} `{CC : CallContainer H C}.
Context (before_send : option (H → bool)) (after_send : bool).
Notation chan := (channel H C).
Implicit Types s : chan.

(** Operations that leave the store and the completions alone. *)
Lemma calls_step_quiet s s' :
  store s' = store s → (∀ id, completions id (events s') = completions id (events s)) →
  calls_step s s'.
Proof.
  intros Hs He. split; [|by rewrite Hs].
  intros id. rewrite He. unfold over. rewrite Hs. lia.
Qed.
Lemma calls_step_emit es s :
  (∀ id, completions id es = 0%nat) → calls_step s (emit es s).
Proof. intros He. apply calls_step_quiet; [done|]. intros id. cbn [emit events]. rewrite completions_app, He. lia. Qed.

(** A context rewritten without reopening or closing it. *)
Lemma calls_step_put id ctx ctx' s :
  store s !! id = Some ctx → is_over ctx' = is_over ctx → barrier_ptr ctx' = barrier_ptr ctx →
  err ctx' = err ctx → calls_step s (put id ctx' s).
Proof.
  intros Hs Ho Hb He. split.
  - intros id'. unfold over. cbn [put emit store events]. destruct (decide (id' = id)) as [->|].
    + rewrite lookup_insert_eq, Hs, Ho. lia.
    + rewrite lookup_insert_ne by done. lia.
  - intros Hall id' c'. cbn. rewrite lookup_insert_Some. intros [[<- <-]|[_ Hc]]; [|by eapply Hall].
    intros Hover. rewrite Ho in Hover. specialize (Hall id ctx Hs Hover).
    unfold wait in *. by rewrite Hb, He.
Qed.
(** A new context. *)
Lemma calls_step_new id ctx s :
  store s !! id = None → is_over ctx = false → calls_step s (put id ctx s).
Proof.
  intros Hs Ho. split.
  - intros id'. unfold over. cbn [put emit store events]. destruct (decide (id' = id)) as [->|].
    + rewrite Hs. lia.
    + rewrite lookup_insert_ne by done. lia.
  - intros Hall id' c'. cbn. rewrite lookup_insert_Some. intros [[<- <-]|[_ Hc]]; [|by eapply Hall].
    intros Hover. congruence.
Qed.

(** Closing a context. *)
Definition closes (r : list callback * rpc_context H) (ctx : rpc_context H) : Prop :=
  (closings r.1 + Nat.b2n (is_over ctx) <= Nat.b2n (is_over r.2))%nat ∧
  (awake ctx → awake r.2).
Lemma context_ok_closes (ctx : rpc_context H) : closes (context_ok ctx) ctx.
Proof.
  unfold closes, context_ok, finish, awake, wait.
  destruct (is_over ctx) eqn:Ho; cbn; rewrite ?Ho; [done|].
  split; [destruct (on_ok ctx), (barrier_ptr ctx); cbn; lia|].
  intros _ _. destruct (barrier_ptr ctx), (is_failure (err ctx)); done.
Qed.
Lemma context_error_closes r (ctx : rpc_context H) : closes (context_error r ctx) ctx.
Proof.
  unfold closes, context_error, post_error, finish, awake, wait, set_err. cbn.
  destruct (is_over ctx) eqn:Ho; cbn; rewrite ?Ho.
  - split; [done|]. intros Hw _. specialize (Hw eq_refl).
    destruct (barrier_ptr ctx) as [[]|], (is_failure r); done.
  - split; [destruct (on_error ctx), (barrier_ptr ctx); cbn; lia|].
    intros _ _. destruct (barrier_ptr ctx), (is_failure r); done.
Qed.
Lemma calls_step_run id r ctx s :
  store s !! id = Some ctx → closes r ctx → calls_step s (run_callbacks id r s).
Proof.
  intros Hs [Hc Ha]. split.
  - intros id'. unfold run_callbacks. cbn [emit put events]. rewrite completions_app, completions_callbacks.
    unfold over. cbn [emit put store]. destruct (decide (id = id')) as [<-|].
    + rewrite lookup_insert_eq, Hs.
      destruct (is_over ctx), (is_over r.2); cbn in *; lia.
    + rewrite lookup_insert_ne by done. lia.
  - intros Hall id' c'. unfold run_callbacks. cbn. rewrite lookup_insert_Some.
    intros [[<- <-]|[_ Hc']]; [eapply Ha, Hall; done|by eapply Hall].
Qed.
Lemma ctx_ok_step id s s' : ctx_ok id s = Def s' → calls_step s s'.
Proof. unfold ctx_ok. intros. inv_def. by eapply calls_step_run, context_ok_closes. Qed.
Lemma ctx_error_step id r s s' : ctx_error id r s = Def s' → calls_step s s'.
Proof. unfold ctx_error. intros. inv_def. by eapply calls_step_run, context_error_closes. Qed.
End once.

Section once_ops.
Context {H C : Type} `{CH : CallHeader H} `{CC : CallContainer H C} `{!CallContainerLaws H C}.
Context (before_send : option (H → bool)) (after_send : bool).
Notation chan := (channel H C).
Implicit Types s : chan.

(** Decompose a run and chain the steps of its parts. *)
Ltac quiet := apply calls_step_quiet; [done|by intros; cbn [events]].
Ltac noise := apply calls_step_emit; intros; done.

Lemma stop_rcp_calls_impl_step ids r : ∀ s s',
  stop_rcp_calls_impl ids r s = Def s' → calls_step s s'.
Proof.
  induction ids as [|id ids IH]; intros s s' Hr; cbn in Hr; inv_def; [done|].
  etrans; [by eapply ctx_error_step|by eapply IH].
Qed.
Lemma stop_rpc_calls_step r s s' : stop_rpc_calls r s = Def s' → calls_step s s'.
Proof.
  unfold stop_rpc_calls. destruct (task_calls_from_map _) as [ids c]. intros Hr.
  etrans; [|by eapply stop_rcp_calls_impl_step]. quiet.
Qed.
Lemma stop_rpc_service_step r f s b s' :
  stop_rpc_service r f s = Def (b, s') → calls_step s s'.
Proof.
  unfold stop_rpc_service. intros Hr. inv_def.
  match goal with Hs : stop_rpc_calls _ _ = Def _ |- _ => apply stop_rpc_calls_step in Hs end.
  etrans; [|etrans; [eassumption|]]; [quiet|].
  etrans; [|quiet]. destruct b; [noise|done].
Qed.
Lemma chan_on_error_step r s s' : chan_on_error r s = Def s' → calls_step s s'.
Proof.
  unfold chan_on_error. intros Hr. inv_def.
  match goal with Hs : stop_rpc_service _ _ _ = Def _ |- _ => apply stop_rpc_service_step in Hs end.
  etrans; [eassumption|].
  destruct (negb _); destruct (irptr_ _); try done; try noise.
  etrans; noise.
Qed.
Lemma set_timeout_step id s s' : set_timeout id s = Def s' → calls_step s s'.
Proof.
  unfold set_timeout. intros Hr. inv_def.
  destruct (_ || _); [destruct (_ || _)|]; inv_def; try done.
  by eapply calls_step_put.
Qed.
Lemma call_impl1_step s s' : call_impl1 before_send s = Def s' → calls_step s s'.
Proof.
  unfold call_impl1. destruct (to_calls_ s) as [|id rest]; [done|]. intros Hr.
  apply ub_bind_Def in Hr as (ctx & Hctx & Hr). apply deref_Def in Hctx.
  destruct (match before_send with Some _ => _ | None => _ end).
  - inv_def. etrans; [by eapply ctx_error_step|quiet].
  - inv_def. etrans; [by eapply (calls_step_put id ctx (context_hton ctx))|].
    etrans; [by eapply set_timeout_step|quiet].
Qed.
Lemma call_impl_step s s' : call_impl before_send s = Def s' → calls_step s s'.
Proof.
  unfold call_impl. destruct (negb _); [|intros; by inv_def].
  destruct (task_calls_from_list _) as [ids c]. intros Hr%call_impl1_step.
  etrans; [|done]. quiet.
Qed.
Lemma call_context_step id ctx s s' :
  store s !! id = None → is_over ctx = false →
  call_context id ctx s = Def s' → calls_step s s'.
Proof.
  intros Hnew Ho. unfold call_context. pose proof (calls_step_new id ctx s Hnew Ho) as Hput.
  destruct (negb _ && negb _); intros Hr.
  - etrans; [exact Hput|by eapply ctx_error_step].
  - destruct (cc_push_ctx id ctx (calls_ (put id ctx s))) as [h Hh].
    destruct (push_call id ctx (calls_ (put id ctx s))) as [ctx' c]. cbn in Hh. subst ctx'.
    assert (∀ c tc, calls_step s (put id (set_head h ctx) (set_calls c tc (put id ctx s)))) as Hgo.
    { intros c' tc. etrans; [exact Hput|].
      trans (set_calls c' tc (put id ctx s)); [quiet|].
      by apply (calls_step_put id ctx); [apply lookup_insert_eq|..]. }
    destruct (call_list_empty _ && _); inv_def; [|apply Hgo].
    match goal with |- calls_step _ (post _ ?x) => trans x; [apply Hgo|quiet] end.
Qed.
Lemma run_chan_task_step t s s' : run_chan_task before_send t s = Def s' → calls_step s s'.
Proof.
  unfold run_chan_task. destruct t, (to_calls_ s); intros Hr;
    first [by apply call_impl_step|by apply call_impl1_step|by inv_def].
Qed.
Lemma handle_send_step error id s s' :
  handle_send before_send after_send error id s = Def s' → calls_step s s'.
Proof.
  unfold handle_send. destruct (negb (socket_open _)); [intros; by inv_def|].
  destruct (to_calls_ s) as [|? tc]; [done|]. intros Hr.
  apply ub_bind_Def in Hr as (ctx & Hctx & Hr). apply deref_Def in Hctx.
  etrans; [by eapply (calls_step_put id ctx (context_ntoh ctx))|].
  destruct (negb (error =? 0)).
  { etrans; [|by eapply chan_on_error_step]. quiet. }
  etrans; [|match type of Hr with (match _ with [] => call_impl _ ?x | _ => _ end) = _ =>
    instantiate (1 := x);
    destruct (to_calls_ x); [by apply call_impl_step|by apply call_impl1_step] end].
  etrans; [|destruct (context_is_reply _); [|done]];
    [|apply calls_step_emit; intros id'; rewrite completions_callbacks;
      unfold apply_post_func; case_decide; [|done]; by destruct (post_func _)].
  destruct after_send; [|quiet]. etrans; [|noise]. quiet.
Qed.
Lemma call_complete_step id s s' : call_complete id s = Def s' → calls_step s s'.
Proof.
  unfold call_complete. intros Hr.
  apply ub_bind_Def in Hr as (ctx & Hctx & Hr). etrans; [|destruct (_ <? _);
    [by eapply ctx_ok_step|by eapply ctx_error_step]]. quiet.
Qed.
Lemma recv_request_step s s' : recv_request s = Def s' → calls_step s s'.
Proof.
  unfold recv_request. intros Hr. destruct (_ =? _).
  { inv_def. etrans; [|quiet]. noise. }
  destruct (_ <? _); [by eapply chan_on_error_step|]. inv_def. quiet.
Qed.
Lemma recv_call_reply_step s s' : recv_call_reply s = Def s' → calls_step s s'.
Proof.
  unfold recv_call_reply. intros Hr.
  apply ub_bind_Def in Hr as ([[id|] c] & _ & Hr); last first.
  { etrans; [|by eapply recv_request_step]. quiet. }
  apply ub_bind_Def in Hr as (ctx & Hctx & Hr). apply deref_Def in Hctx.
  destruct (_ && _).
  { etrans; [|by eapply recv_request_step]. quiet. }
  etrans; [|destruct (_ =? _); [by eapply call_complete_step|]; destruct (_ <? _);
    [by eapply chan_on_error_step|]; inv_def].
  - etrans; [|by eapply calls_step_put]. quiet.
  - etrans; [|quiet]. etrans; [|by eapply calls_step_put; [apply lookup_insert_eq|..]]. done.
Qed.
Lemma recv_body_step s s' : recv_body s = Def s' → calls_step s s'.
Proof.
  unfold recv_body. destruct (ch_is_reply _);
    [apply recv_call_reply_step|apply recv_request_step].
Qed.
Lemma handle_recv_head_step error h s s' :
  handle_recv_head error h s = Def s' → calls_step s s'.
Proof.
  unfold handle_recv_head. intros Hr. destruct (negb _); [inv_def; quiet|].
  etrans; [|destruct (_ =? _); [by eapply recv_body_step|by eapply chan_on_error_step]]. quiet.
Qed.
Lemma handle_recv_reply_step id error data s s' :
  handle_recv_reply id error data s = Def s' → calls_step s s'.
Proof.
  unfold handle_recv_reply. intros Hr.
  apply ub_bind_Def in Hr as (ctx & Hctx & Hr). apply deref_Def in Hctx.
  trans (put id (set_recv_msg data ctx) s); [by eapply calls_step_put|].
  destruct (negb _); [by inv_def|].
  destruct (_ =? _); [by eapply call_complete_step|by eapply chan_on_error_step].
Qed.
Lemma handle_recv_request_step error data s s' :
  handle_recv_request error data s = Def s' → calls_step s s'.
Proof.
  unfold handle_recv_request. intros Hr.
  apply ub_bind_Def in Hr as (_ & _ & Hr). destruct (negb _); [inv_def; quiet|].
  destruct (_ =? _).
  - inv_def. etrans; [|noise]. quiet.
  - etrans; [|by eapply chan_on_error_step]. quiet.
Qed.
Lemma start_rpc_service_step s s' : start_rpc_service before_send s = Def s' → calls_step s s'.
Proof.
  unfold start_rpc_service. intros Hr. inv_def.
  etrans; [|etrans; [by eapply call_impl_step|]]; quiet.
Qed.
Lemma handle_connection_step error s s' :
  handle_connection before_send error s = Def s' → calls_step s s'.
Proof.
  unfold handle_connection. intros Hr. inv_def.
  etrans; [|quiet]. destruct (conn_funcs _) as [[f g]|]; [|by inv_def].
  unfold on_connected in *. destruct (_ =? _); inv_def.
  - etrans; [by eapply start_rpc_service_step|].
    destruct f; [noise|]. destruct (irptr_ _); [noise|done].
  - etrans; [by eapply stop_rpc_service_step|].
    destruct b; [done|]. destruct (irptr_ _); [noise|done].
Qed.
Lemma start_step f g s : calls_step s (start f g s).
Proof.
  unfold start. destruct (negb _); [|quiet].
  destruct g; [noise|]. destruct (irptr_ _); [noise|done].
Qed.

(** The calls a label hands over are open. *)
Definition fresh_call (l : @label H) : Prop :=
  match l with L_call _ ctx => is_over ctx = false | _ => True end.

Lemma step_calls l s s' :
  fresh_call l → step before_send after_send l s = Def s' → calls_step s s'.
Proof.
  intros Hf. destruct l; cbn [step]; intros Hr.
  - destruct (store s !! id) eqn:Hs; [by inv_def|by eapply call_context_step].
  - destruct (posts s); [by inv_def|]. etrans; [|by eapply run_chan_task_step]. quiet.
  - destruct (writing _) as [|[id bs] ws]; [by inv_def|].
    etrans; [|by eapply handle_send_step]. quiet.
  - destruct (reading _) as [|[] rs]; try by inv_def.
    etrans; [|by eapply handle_recv_head_step]. quiet.
  - destruct (reading _) as [|[] rs]; try by inv_def.
    + destruct (negb _); [by inv_def|]. etrans; [|by eapply handle_recv_reply_step]. quiet.
    + destruct (_ && _); [by inv_def|]. destruct (_ <? _); [by inv_def|].
      etrans; [|by eapply handle_recv_request_step]. quiet.
  - destruct (store s !! id) as [ctx|]; [|by inv_def]. destruct (timer_ptr_ ctx); [|by inv_def].
    by eapply ctx_error_step.
  - inv_def. apply start_step.
  - destruct (connecting _); [by inv_def|]. etrans; [|by eapply handle_connection_step]. quiet.
  - by eapply chan_on_error_step.
Qed.
Lemma run_calls ls : ∀ s s',
  Forall fresh_call ls → run before_send after_send ls s = Def s' → calls_step s s'.
Proof.
  induction ls as [|l ls IH]; intros s s' Hf Hr; cbn in Hr; [by inv_def|].
  inversion Hf; subst. inv_def. etrans; [by eapply step_calls|by eapply IH].
Qed.
End once_ops.

(** C11: Along any run of a new channel, connected or accepted, with any interleaving of
    calls, posted tasks, completions, timeouts and reconnects, every call gets at most
    one of its two callbacks, and a call that got one is closed: a thread waiting for it
    is woken. *)
Theorem call_completes_once {H C : Type} `{CH : CallHeader H} `{CC : CallContainer H C}
    `{!CallContainerLaws H C} (before_send : option (H → bool)) (after_send : bool)
    (head_zero : H) (opened is_client irptr : bool) (ls : list (@label H))
    (s : channel H C) (id : Z) :
  Forall fresh_call ls →
  run before_send after_send ls (channel_new head_zero opened is_client irptr) = Def s →
  (completions id (events s) <= 1)%nat ∧
  (completions id (events s) = 1%nat →
   ∃ ctx, store s !! id = Some ctx ∧ is_over ctx = true ∧ wait ctx ≠ W_blocked).
Proof.
  intros Hf Hr. destruct (run_calls _ _ _ _ _ Hf Hr) as [Hle Hawake].
  specialize (Hle id). change (completions id (events (channel_new _ _ _ _))) with 0%nat in Hle.
  change (over id (channel_new _ _ _ _)) with 0%nat in Hle.
  unfold over in Hle. destruct (store s !! id) as [ctx|] eqn:Hs; [|split; lia].
  destruct (is_over ctx) eqn:Ho; [|split; lia]. split; [lia|].
  intros _. exists ctx. split; [done|]. split; [done|].
  apply (Hawake ltac:(intros ? ? Hl; cbn in Hl; by rewrite lookup_empty in Hl) id); done.
Qed.

(** ** Stopping *)
Section stopping.
Context {H C : Type} `{CH : CallHeader H} `{CC : CallContainer H C} `{!CallContainerLaws H C}.
Notation chan := (channel H C).
Implicit Types s : chan.

(** The contexts the container answers replies with. *)
Definition waiting (c : C) : list Z := (task_calls_from_map c).1.

Lemma stop_impl_store ids r : ∀ s s' id,
  stop_rcp_calls_impl ids r s = Def s' → id ∉ ids → store s' !! id = store s !! id.
Proof.
  induction ids as [|id' ids IH]; intros s s' id Hr Hid; cbn in Hr; inv_def; [done|].
  apply not_elem_of_cons in Hid as [Hne Hid]. unfold ctx_error in *. inv_def.
  rewrite (IH _ _ id Hr Hid). by apply lookup_insert_ne.
Qed.
Lemma stop_impl_net ids r : ∀ s s',
  stop_rcp_calls_impl ids r s = Def s' → net s' = net s ∧ calls_ s' = calls_ s ∧
  to_calls_ s' = to_calls_ s ∧ posts s' = posts s.
Proof.
  induction ids as [|id' ids IH]; intros s s' Hr; cbn in Hr; inv_def; [done|].
  unfold ctx_error in *. inv_def. by destruct (IH _ _ Hr) as (-> & -> & -> & ->).
Qed.
Lemma chan_on_error_store r s s' id :
  chan_on_error r s = Def s' → id ∉ waiting (calls_ s) →
  store s' !! id = store s !! id ∧ status_ s' = st_disconnected ∧
  socket_open (net s') = false.
Proof.
  unfold chan_on_error, stop_rpc_service, stop_rpc_calls, waiting. intros Hr Hid. inv_def.
  change (calls_ (close_socket _ _)) with (calls_ s) in *.
  destruct (task_calls_from_map (calls_ s)) as [ids c']. 
  match goal with Hs : stop_rcp_calls_impl _ _ _ = Def _ |- _ =>
    pose proof (stop_impl_store _ _ _ _ id Hs Hid) as Hst; apply stop_impl_net in Hs as (Hnet & _) end.
  cbn in Hst, Hnet. destruct (negb _), (irptr_ _); cbn; by rewrite Hst, Hnet.
Qed.
End stopping.

(** ** A stranded call *)
Section stranded.
Context {H C : Type} `{CH : CallHeader H} `{CC : CallContainer H C} `{!CallContainerLaws H C}.
Context (before_send : option (H → bool)) (after_send : bool).
Context (id : Z) (call : rpc_context H) (n : nat).
Notation chan := (channel H C).
Implicit Types s : chan.

(** The call stands in the store as it is, and nothing in the channel refers to
    it: not the container, no list of calls to send, no write and no read. *)
Record stranded s : Prop := Stranded {
  stranded_store : store s !! id = Some call;
  stranded_calls : ∃ D, id ∉ D ∧ cc_ok D (calls_ s);
  stranded_list : id ∉ call_list_ (calls_ s);
  stranded_to_calls : id ∉ to_calls_ s;
  stranded_writing : id ∉ (writing (net s)).*1;
  stranded_reading : ∀ size, R_body id size ∉ reading (net s);
  stranded_events : completions id (events s) = n
}.
(** A label that is not the timeout of an armed timer of the call. *)
Definition not_its_timeout (l : @label H) : Prop :=
  match l with L_timeout id' _ => id' = id → timer_ptr_ call = false | _ => True end.

Lemma stranded_put id' c s : id' ≠ id → stranded s → stranded (put id' c s).
Proof. intros Hne []. split; try done. cbn. by rewrite lookup_insert_ne. Qed.
Lemma stranded_emit es s : completions id es = 0%nat → stranded s → stranded (emit es s).
Proof. intros He []. split; try done. cbn [emit events]. rewrite completions_app. lia. Qed.
Lemma stranded_set_calls c tc s :
  (∃ D, id ∉ D ∧ cc_ok D c) → id ∉ call_list_ c → id ∉ tc → stranded s →
  stranded (set_calls c tc s).
Proof. intros ??? []. by split. Qed.
Lemma stranded_status st s : stranded s → stranded (set_status st s).
Proof. by intros []. Qed.
Lemma stranded_close b s : stranded s → stranded (close_socket b s).
Proof. by intros []. Qed.
Lemma stranded_recv h buf s : stranded s → stranded (set_recv h buf s).
Proof. by intros []. Qed.
Lemma stranded_posts ps s : stranded s → stranded (set_posts ps s).
Proof. by intros []. Qed.
Lemma stranded_start_write id' bs s : id' ≠ id → stranded s → stranded (start_write id' bs s).
Proof.
  intros Hne []. split; try done. cbn. rewrite fmap_app, not_elem_of_app. split; [done|].
  cbn. by rewrite list_elem_of_singleton.
Qed.
Lemma stranded_start_read r s : (∀ size, r ≠ R_body id size) → stranded s → stranded (start_read r s).
Proof.
  intros Hne []. split; try done. cbn. intros size. rewrite not_elem_of_app. split; [done|].
  rewrite list_elem_of_singleton. intros Heq. by apply (Hne size).
Qed.
Lemma stranded_ops w r k s :
  id ∉ w.*1 → (∀ size, R_body id size ∉ r) → stranded s → stranded (set_ops w r k s).
Proof. intros ?? []. by split. Qed.
Lemma stranded_run id' r s : id' ≠ id → stranded s → stranded (run_callbacks id' r s).
Proof.
  intros Hne Hs. apply stranded_emit; [|by apply stranded_put].
  rewrite completions_callbacks. by rewrite decide_False.
Qed.
Lemma ctx_ok_stranded id' s s' : id' ≠ id → stranded s → ctx_ok id' s = Def s' → stranded s'.
Proof. unfold ctx_ok. intros. inv_def. by apply stranded_run. Qed.
Lemma ctx_error_stranded id' r s s' :
  id' ≠ id → stranded s → ctx_error id' r s = Def s' → stranded s'.
Proof. unfold ctx_error. intros. inv_def. by apply stranded_run. Qed.
Lemma stop_impl_stranded ids r : ∀ s s',
  id ∉ ids → stranded s → stop_rcp_calls_impl ids r s = Def s' → stranded s'.
Proof.
  induction ids as [|id' ids IH]; intros s s' Hid Hs Hr; cbn in Hr; inv_def; [done|].
  apply not_elem_of_cons in Hid as [Hne Hid]. eapply IH; [done| |done].
  by eapply ctx_error_stranded.
Qed.
Lemma stop_rpc_service_stranded r f s b s' :
  stranded s → stop_rpc_service r f s = Def (b, s') → stranded s'.
Proof.
  unfold stop_rpc_service, stop_rpc_calls. intros Hs Hr. inv_def.
  change (calls_ (close_socket _ _)) with (calls_ s) in *.
  destruct (stranded_calls _ Hs) as (D & Hid & Hc).
  destruct (cc_take_map D (calls_ s) Hc) as (Hl & Hc' & HF).
  destruct (task_calls_from_map (calls_ s)) as [ids c]. cbn [fst snd] in *.
  match goal with Hi : stop_rcp_calls_impl _ _ _ = Def _ |- _ => apply stop_impl_stranded in Hi end.
  - apply stranded_status. by destruct b; [apply stranded_emit|].
  - rewrite Forall_forall in HF. intros Hin. by apply Hid, HF.
  - apply stranded_set_calls; [by exists D| |by apply not_elem_of_nil|].
    + rewrite Hl. apply (stranded_list _ Hs).
    + by apply stranded_close, stranded_status.
Qed.
Lemma chan_on_error_stranded r s s' : stranded s → chan_on_error r s = Def s' → stranded s'.
Proof.
  unfold chan_on_error. intros Hs Hr. inv_def.
  match goal with Hi : stop_rpc_service _ _ _ = Def _ |- _ =>
    apply stop_rpc_service_stranded in Hi; [|done] end.
  destruct (negb _), (irptr_ _); by repeat apply stranded_emit.
Qed.

(** *** Sending *)
Lemma set_timeout_stranded id' s s' :
  id' ≠ id → stranded s → set_timeout id' s = Def s' → stranded s'.
Proof.
  unfold set_timeout. intros Hne Hs Hr. inv_def.
  destruct (_ || _); [destruct (_ || _)|]; inv_def; try done. by apply stranded_put.
Qed.
Lemma call_impl1_stranded s s' : stranded s → call_impl1 before_send s = Def s' → stranded s'.
Proof.
  unfold call_impl1. intros Hs. pose proof (stranded_to_calls _ Hs) as Hto.
  destruct (to_calls_ s) as [|id' rest]; [done|]. apply not_elem_of_cons in Hto as [Hne _].
  intros Hr. apply ub_bind_Def in Hr as (ctx & _ & Hr).
  destruct (match before_send with Some _ => _ | None => _ end); inv_def.
  - apply stranded_posts. by eapply ctx_error_stranded.
  - apply stranded_start_write; [done|]. eapply set_timeout_stranded; [done| |done].
    by apply stranded_put.
Qed.
Lemma call_impl_stranded s s' : stranded s → call_impl before_send s = Def s' → stranded s'.
Proof.
  unfold call_impl. intros Hs. destruct (negb _); [|intros; by inv_def].
  destruct (stranded_calls _ Hs) as (D & Hid & Hc).
  destruct (cc_take_list D (calls_ s) Hc) as (Hl & Hn & Hc').
  destruct (task_calls_from_list _) as [ids c]. cbn [fst snd] in *. subst ids.
  apply call_impl1_stranded. apply stranded_set_calls; [by exists D| | |done].
  - rewrite Hn. by apply not_elem_of_nil.
  - apply (stranded_list _ Hs).
Qed.
Lemma call_context_stranded id' ctx s s' :
  id' ≠ id → stranded s → call_context id' ctx s = Def s' → stranded s'.
Proof.
  intros Hne Hs. unfold call_context.
  assert (stranded (put id' ctx s)) as Hs1 by by apply stranded_put.
  destruct (negb _ && negb _); [by apply ctx_error_stranded|].
  destruct (stranded_calls _ Hs1) as (D & Hid & Hc).
  destruct (cc_push ({[id']} ∪ D) id' ctx (calls_ (put id' ctx s))) as [Hl Hc'];
    [by eapply cc_ok_mono, Hc; set_solver|set_solver|].
  destruct (push_call id' ctx (calls_ (put id' ctx s))) as [ctx' c]. cbn [fst snd] in *.
  assert (stranded (put id' ctx' (set_calls c (to_calls_ (put id' ctx s)) (put id' ctx s)))) as Hs2.
  { apply stranded_put; [done|]. apply stranded_set_calls; [| |apply (stranded_to_calls _ Hs1)|done].
    - exists ({[id']} ∪ D). split; [set_solver|done].
    - rewrite Hl, not_elem_of_app. split; [apply (stranded_list _ Hs1)|].
      rewrite list_elem_of_singleton. done. }
  destruct (_ && _); intros Hr; inv_def; [by apply stranded_posts|done].
Qed.
Lemma run_chan_task_stranded t s s' :
  stranded s → run_chan_task before_send t s = Def s' → stranded s'.
Proof.
  unfold run_chan_task. intros Hs. destruct t, (to_calls_ s);
    first [by apply call_impl_stranded|by apply call_impl1_stranded|intros; by inv_def].
Qed.
Lemma handle_send_stranded error id' s s' :
  id' ≠ id → stranded s → handle_send before_send after_send error id' s = Def s' → stranded s'.
Proof.
  unfold handle_send. intros Hne Hs. destruct (negb (socket_open _)); [intros; by inv_def|].
  pose proof (stranded_to_calls _ Hs) as Hto.
  destruct (to_calls_ s) as [|? tc]; [done|]. apply not_elem_of_cons in Hto as [_ Hto]. intros Hr.
  apply ub_bind_Def in Hr as (ctx & _ & Hr).
  assert (stranded (put id' (context_ntoh ctx) (set_calls (calls_ s) tc s))) as Hs1.
  { apply stranded_put; [done|]. apply stranded_set_calls; [apply (stranded_calls _ Hs)| |done|done].
    apply (stranded_list _ Hs). }
  destruct (negb (error =? 0)); [by eapply chan_on_error_stranded|].
  match type of Hr with (match _ with [] => call_impl _ ?x | _ => _ end) = _ =>
    assert (stranded x) as Hx; [|by destruct (to_calls_ x);
      [eapply call_impl_stranded|eapply call_impl1_stranded]] end.
  assert (∀ c s2, stranded s2 → stranded
    (if context_is_reply c then emit (Ev_callback id' <$> apply_post_func c) s2 else s2)) as Hpost.
  { intros c s2 Hs2. destruct (context_is_reply c); [|done]. apply stranded_emit; [|done].
    rewrite completions_callbacks. by rewrite decide_False. }
  apply Hpost. by destruct after_send; [apply stranded_emit|].
Qed.

(** *** Receiving and connecting *)
Lemma stranded_recv_head s : stranded s → stranded (recv_head s).
Proof. by apply stranded_start_read. Qed.
Lemma call_complete_stranded id' s s' :
  id' ≠ id → stranded s → call_complete id' s = Def s' → stranded s'.
Proof.
  unfold call_complete. intros Hne Hs%stranded_recv_head Hr.
  apply ub_bind_Def in Hr as (ctx & _ & Hr).
  destruct (_ <? _); [by eapply ctx_ok_stranded|by eapply ctx_error_stranded].
Qed.
Lemma recv_request_stranded s s' : stranded s → recv_request s = Def s' → stranded s'.
Proof.
  unfold recv_request. intros Hs Hr. destruct (_ =? _).
  { inv_def. by apply stranded_recv_head, stranded_emit. }
  destruct (_ <? _); [by eapply chan_on_error_stranded|]. inv_def.
  by apply stranded_start_read, stranded_recv.
Qed.
Lemma recv_call_reply_stranded s s' : stranded s → recv_call_reply s = Def s' → stranded s'.
Proof.
  unfold recv_call_reply. intros Hs Hr. destruct (stranded_calls _ Hs) as (D & Hid & Hc).
  destruct (cc_get D (ch_call_id (head_ s)) (calls_ s) Hc) as (r & c & Hg & Hl & Hc' & Hin).
  rewrite Hg in Hr. cbn [mbind ub_bind] in Hr.
  assert (stranded (set_calls c (to_calls_ s) s)) as Hs1.
  { apply stranded_set_calls; [by exists D| |apply (stranded_to_calls _ Hs)|done].
    rewrite Hl. apply (stranded_list _ Hs). }
  destruct r as [id'|]; [|by eapply recv_request_stranded].
  assert (id' ≠ id) as Hne by (intros ->; by apply Hid, Hin).
  apply ub_bind_Def in Hr as (ctx & _ & Hr).
  destruct (_ && _); [by eapply recv_request_stranded|].
  destruct (_ =? _); [eapply call_complete_stranded, Hr; [done|by apply stranded_put]|].
  destruct (_ <? _); [eapply chan_on_error_stranded, Hr; by apply stranded_put|]. inv_def.
  apply stranded_start_read; [by intros size [=]|]. by repeat apply stranded_put.
Qed.
Lemma handle_recv_head_stranded error h s s' :
  stranded s → handle_recv_head error h s = Def s' → stranded s'.
Proof.
  unfold handle_recv_head. intros Hs Hr. destruct (negb _); [inv_def; by apply stranded_recv|].
  destruct (_ =? _); [|by eapply chan_on_error_stranded, Hr; repeat apply stranded_recv].
  unfold recv_body in Hr.
  destruct (ch_is_reply _); [eapply recv_call_reply_stranded, Hr|eapply recv_request_stranded, Hr];
    by repeat apply stranded_recv.
Qed.
Lemma handle_recv_reply_stranded id' error data s s' :
  id' ≠ id → stranded s → handle_recv_reply id' error data s = Def s' → stranded s'.
Proof.
  unfold handle_recv_reply. intros Hne Hs Hr. apply ub_bind_Def in Hr as (ctx & _ & Hr).
  destruct (negb _); [inv_def; by apply stranded_put|].
  destruct (_ =? _); [eapply call_complete_stranded, Hr|eapply chan_on_error_stranded, Hr];
    try done; by apply stranded_put.
Qed.
Lemma handle_recv_request_stranded error data s s' :
  stranded s → handle_recv_request error data s = Def s' → stranded s'.
Proof.
  unfold handle_recv_request. intros Hs Hr. apply ub_bind_Def in Hr as (_ & _ & Hr).
  destruct (negb _); [inv_def; by apply stranded_recv|]. destruct (_ =? _).
  - inv_def. by apply stranded_emit, stranded_recv_head, stranded_recv.
  - eapply chan_on_error_stranded, Hr. by apply stranded_recv.
Qed.
Lemma start_rpc_service_stranded s s' :
  stranded s → start_rpc_service before_send s = Def s' → stranded s'.
Proof.
  unfold start_rpc_service. intros Hs Hr. inv_def. apply stranded_recv_head.
  eapply call_impl_stranded; [|done]. by apply stranded_status.
Qed.
Lemma handle_connection_stranded error s s' :
  stranded s → handle_connection before_send error s = Def s' → stranded s'.
Proof.
  unfold handle_connection. intros Hs Hr. inv_def.
  match goal with |- stranded (set_net _ ?x) => assert (stranded x) as Hx; [|by destruct Hx] end.
  destruct (conn_funcs _) as [[f g]|]; [|by inv_def].
  unfold on_connected in *. destruct (_ =? _); inv_def.
  - match goal with Hi : start_rpc_service _ _ = Def _ |- _ =>
      apply start_rpc_service_stranded in Hi; [|done] end.
    destruct f; [by apply stranded_emit|]. by destruct (irptr_ _); [apply stranded_emit|].
  - match goal with Hi : stop_rpc_service _ _ _ = Def _ |- _ =>
      apply stop_rpc_service_stranded in Hi; [|done] end.
    destruct b; [done|]. by destruct (irptr_ _); [apply stranded_emit|].
Qed.
Lemma start_stranded f g s : stranded s → stranded (start f g s).
Proof.
  unfold start. intros Hs. destruct (negb _); [|by destruct Hs].
  destruct g; [by apply stranded_emit|]. by destruct (irptr_ _); [apply stranded_emit|].
Qed.

Lemma step_stranded l s s' :
  not_its_timeout l → stranded s → step before_send after_send l s = Def s' → stranded s'.
Proof.
  intros Hl Hs. destruct l; cbn [step]; intros Hr.
  - destruct (store s !! id0) eqn:Hs0; [by inv_def|]. eapply call_context_stranded, Hr; [|done].
    intros ->. by rewrite (stranded_store _ Hs) in Hs0.
  - destruct (posts s); [by inv_def|]. eapply run_chan_task_stranded, Hr. by apply stranded_posts.
  - pose proof (stranded_writing _ Hs) as Hw.
    destruct (writing _) as [|[id' bs] ws]; [by inv_def|]. apply not_elem_of_cons in Hw as [Hne Hw].
    eapply handle_send_stranded, Hr; [done|].
    apply stranded_ops; [done|apply (stranded_reading _ Hs)|done].
  - pose proof (stranded_reading _ Hs) as Hrd.
    destruct (reading _) as [|[] rs]; try by inv_def.
    eapply handle_recv_head_stranded, Hr.
    apply stranded_ops; [apply (stranded_writing _ Hs)| |done].
    intros size Hin. apply (Hrd size). by right.
  - pose proof (stranded_reading _ Hs) as Hrd.
    destruct (reading _) as [|r rs]; [by inv_def|].
    assert (stranded (set_ops (writing (net s)) rs (connecting (net s)) s)) as Hs1.
    { apply stranded_ops; [apply (stranded_writing _ Hs)| |done].
      intros size Hin. apply (Hrd size). by right. }
    destruct r as [|id' size|size]; try by inv_def.
    + destruct (negb _); [by inv_def|]. eapply handle_recv_reply_stranded, Hr; [|done].
      intros ->. apply (Hrd size). by left.
    + destruct (_ && _); [by inv_def|]. destruct (_ <? _); [by inv_def|].
      by eapply handle_recv_request_stranded.
  - destruct (store s !! id0) as [ctx|] eqn:Hs0; [|by inv_def].
    destruct (timer_ptr_ ctx) eqn:Ht; [|by inv_def].
    eapply ctx_error_stranded, Hr; [|done]. intros ->. cbn in Hl.
    rewrite (stranded_store _ Hs) in Hs0. injection Hs0 as ->. by rewrite Hl in Ht.
  - inv_def. by apply start_stranded.
  - destruct (connecting _); [by inv_def|]. eapply handle_connection_stranded, Hr.
    apply stranded_ops; [apply (stranded_writing _ Hs)|apply (stranded_reading _ Hs)|done].
  - by eapply chan_on_error_stranded.
Qed.
Lemma run_stranded ls : ∀ s s',
  Forall not_its_timeout ls → stranded s → run before_send after_send ls s = Def s' → stranded s'.
Proof.
  induction ls as [|l ls IH]; intros s s' Hf Hs Hr; cbn in Hr; [by inv_def|].
  inversion Hf; subst. inv_def. eapply IH; [done| |done]. by eapply step_stranded.
Qed.
End stranded.

(** C34 (defect): A connection lost in the middle of a reply strands its call. When the
    body of a reply to a waited call is being read, the call has been sent, and the
    container (which gave the call up when the reply's header came) knows no other use
    of it, a read error closes the channel and fails the calls that wait in the
    container, but not this one: from then on nothing in the channel refers to the call.
    Whatever happens later (calls, completions, disconnects, reconnects, timeouts of
    other calls), the call is not completed and the thread that waits for it stays
    blocked, except by the call's own timeout: that only if the call had a timer armed
    when it was sent. *)
Theorem broken_reply_strands_call {H C : Type} `{CH : CallHeader H} `{CC : CallContainer H C}
    `{!CallContainerLaws H C} (before_send : option (H → bool)) (after_send : bool)
    (D : gset Z) (s s' s'' : channel H C) (id size error : Z) (rs : list read_op)
    (ctx : rpc_context H) (data : list Z) (ls : list (@label H)) :
  reading (net s) = R_body id size :: rs → (∀ size', R_body id size' ∉ rs) →
  id ∉ (writing (net s)).*1 → id ∉ to_calls_ s → id ∉ call_list_ (calls_ s) →
  id ∉ D → cc_ok D (calls_ s) → socket_open (net s) = true →
  store s !! id = Some ctx → is_over ctx = false → barrier_ptr ctx = Some false →
  error ≠ 0 → length data = Z.to_nat size →
  step before_send after_send (L_data error data) s = Def s' →
  Forall (not_its_timeout id ctx) ls → run before_send after_send ls s' = Def s'' →
  status_ s' = st_disconnected ∧ socket_open (net s') = false ∧
  completions id (events s'') = completions id (events s) ∧
  ∃ ctx', store s'' !! id = Some ctx' ∧ is_over ctx' = false ∧ wait ctx' = W_blocked.
Proof.
  intros Hread Hrs Hw Hto Hl Hid Hc Hopen Hs Ho Hb Herr Hlen Hstep Hls Hrun.
  assert (stranded id (set_recv_msg data ctx) (completions id (events s))
    (put id (set_recv_msg data ctx) (set_ops (writing (net s)) rs (connecting (net s)) s))) as Hst.
  { split; try done; [apply lookup_insert_eq|by exists D]. }
  cbn [step] in Hstep. rewrite Hread in Hstep.
  rewrite bool_decide_eq_true_2 in Hstep by done. cbn [negb] in Hstep.
  unfold handle_recv_reply in Hstep. cbn [set_ops set_net store] in Hstep. rewrite Hs in Hstep.
  cbn [deref mbind ub_bind] in Hstep.
  change (socket_open (net (put _ _ _))) with (socket_open (net s)) in Hstep.
  rewrite Hopen in Hstep. cbn [negb] in Hstep. destruct (Z.eqb_spec error 0) as [?|_]; [done|].
  pose proof (chan_on_error_stranded _ _ _ _ _ _ Hst Hstep) as Hst1.
  apply (run_stranded before_send after_send _ _ _ ls s' s'') in Hst1; [|exact Hls|exact Hrun].
  apply (chan_on_error_store _ _ _ id) in Hstep as (_ & Hstat & Hclosed); last first.
  { destruct (cc_take_map D (calls_ s) Hc) as (_ & _ & HF). rewrite Forall_forall in HF.
    intros Hin. by apply Hid, HF. }
  split; [done|]. split; [done|]. split; [apply (stranded_events _ _ _ _ Hst1)|].
  exists (set_recv_msg data ctx). split; [apply (stranded_store _ _ _ _ Hst1)|].
  split; [exact Ho|]. unfold wait. cbn. by rewrite Hb.
Qed.

(** ** A filtered call *)
Section rejected.
Context {H C : Type} `{CH : CallHeader H} `{CC : CallContainer H C} `{!CallContainerLaws H C}.
Context (f : H → bool) (after_send : bool) (id : Z) (rest : list Z) (h : H)
        (out : list (Z * list Z)).
Notation chan := (channel H C).
Implicit Types s : chan.

(** Calls, posted lambdas and timers. *)
Definition outgoing (l : @label H) : Prop :=
  match l with L_call _ _ | L_task | L_timeout _ _ => True | _ => False end.
(** The call at the front is one the filter rejects, and its lambda is posted. *)
Definition stuck s : Prop :=
  to_calls_ s = id :: rest ∧ head <$> store s !! id = Some h ∧ sent (net s) = out ∧
  Tk_retry ∈ posts s.

Lemma ctx_error_stuck id' r s s' : stuck s → ctx_error id' r s = Def s' → stuck s'.
Proof.
  intros (Hto & Hh & Hs & Hp) Hr. unfold ctx_error in Hr. inv_def.
  match goal with Ha : store s !! id' = Some _ |- _ => rename Ha into Hc end.
  split; [done|]. split; [|done]. unfold run_callbacks. cbn [emit put store].
  destruct (decide (id' = id)) as [->|]; [|by rewrite lookup_insert_ne].
  rewrite lookup_insert_eq. rewrite Hc in Hh. cbn in *. rewrite <-Hh. f_equal.
  unfold context_error, post_error, finish. by destruct (negb _).
Qed.
Lemma call_context_stuck id' ctx s s' :
  stuck s → store s !! id' = None → call_context id' ctx s = Def s' → stuck s'.
Proof.
  intros (Hto & Hh & Hs & Hp) Hnew. unfold call_context.
  assert (id' ≠ id) as Hne by (intros ->; rewrite Hnew in Hh; done).
  destruct (negb _ && negb _); intros Hr.
  - eapply ctx_error_stuck, Hr. repeat split; [done| |done|done]. cbn. by rewrite lookup_insert_ne.
  - destruct (push_call id' ctx (calls_ (put id' ctx s))) as [ctx' c].
    assert (stuck (put id' ctx' (set_calls c (to_calls_ (put id' ctx s)) (put id' ctx s)))).
    { repeat split; [done| |done|done]. cbn. by rewrite !lookup_insert_ne. }
    destruct (_ && _); inv_def; [|done].
    repeat split; [done| |done|apply elem_of_app; by left]. cbn. by rewrite !lookup_insert_ne.
Qed.
Lemma task_stuck t ps s s' :
  f h = false → stuck s → posts s = t :: ps →
  run_chan_task (Some f) t (set_posts ps s) = Def s' → stuck s'.
Proof.
  intros Hf (Hto & Hh & Hs & Hp) Hps. unfold run_chan_task. cbn [set_posts to_calls_].
  rewrite Hto. destruct t; intros Hr.
  - inv_def. repeat split; try done. cbn. rewrite Hps in Hp.
    by apply elem_of_cons in Hp as [?|?].
  - unfold call_impl1 in Hr. cbn [set_posts to_calls_ store] in Hr. rewrite Hto in Hr.
    destruct (store s !! id) as [ctx|] eqn:Hc; [|done]. cbn in Hh. injection Hh as Hh.
    cbn [deref mbind ub_bind] in Hr. rewrite Hh, Hf in Hr. cbn [negb] in Hr. inv_def.
    unfold ctx_error in *. inv_def.
    match goal with Ha : store (set_posts ps s) !! id = Some _ |- _ =>
      cbn in Ha; rewrite Hc in Ha; injection Ha as <- end.
    repeat split; [done| |done|apply elem_of_app; right; by left].
    cbn. rewrite lookup_insert_eq. cbn. f_equal. rewrite <-Hh.
    unfold context_error, post_error, finish. by destruct (negb _).
Qed.
Lemma outgoing_stuck ls : ∀ s s',
  f h = false → Forall outgoing ls → stuck s → run (Some f) after_send ls s = Def s' → stuck s'.
Proof.
  induction ls as [|l ls IH]; intros s s' Hf Hout Hst Hr; cbn in Hr; [by inv_def|].
  inversion Hout as [|? ? Hl Hls]; subst. apply ub_bind_Def in Hr as (s1 & H1 & Hr).
  apply (IH s1); [done|done| |done]. destruct l; try done; cbn in H1.
  - destruct (store s !! id0) eqn:Hn; [by inv_def|]. by eapply call_context_stuck.
  - destruct (posts s) as [|t ps] eqn:Hps; [by inv_def|]. by eapply task_stuck.
  - destruct (store s !! id0) as [ctx|]; [|by inv_def]. destruct (timer_ptr_ ctx); [|by inv_def].
    by eapply ctx_error_stuck.
Qed.
End rejected.

(** Defect: A call that [before_send_func_] rejects is failed but not removed from
    the calls to send: the posted lambda tries it again, for ever. Whatever further
    calls are made and lambdas run, nothing is sent any more and the channel keeps
    posting. *)
Theorem rejected_call_blocks_channel {H C : Type} `{CH : CallHeader H} `{CC : CallContainer H C}
    `{!CallContainerLaws H C} (f : H → bool) (after_send : bool) (s s1 s2 : channel H C)
    (id : Z) (rest : list Z) (ctx : rpc_context H) (ls : list (@label H)) :
  to_calls_ s = id :: rest → store s !! id = Some ctx → f (head ctx) = false →
  call_impl1 (Some f) s = Def s1 →
  Forall outgoing ls → run (Some f) after_send ls s1 = Def s2 →
  sent (net s2) = sent (net s) ∧ to_calls_ s2 = id :: rest ∧ Tk_retry ∈ posts s2.
Proof.
  intros Hto Hs Hf H1 Hout Hr.
  assert (stuck id rest (head ctx) (sent (net s)) s1) as Hst.
  { eapply (task_stuck f id rest (head ctx) (sent (net s)) Tk_retry (posts s)
      (set_posts (Tk_retry :: posts s) s)); [done| |done|].
    - repeat split; [done|cbn; by rewrite Hs|by left].
    - unfold run_chan_task. cbn [set_posts to_calls_]. rewrite Hto.
      destruct s. exact H1. }
  by apply (outgoing_stuck f after_send id rest (head ctx) (sent (net s)) ls s1 s2 Hf Hout Hst)
    in Hr as (? & _ & ? & ?).
Qed.

(** ** A session *)
Section session.
Context {H C : Type} `{CH : CallHeader H} `{CC : CallContainer H C} `{!CallContainerLaws H C}.
Context (after_send : bool).
Notation chan := (channel H C).
Implicit Types s : chan.

Definition read_ok (D : gset Z) (buf : list Z) (rs : list read_op) : Prop :=
  match rs with
  | [] | [R_head] => True
  | [R_body id _] => id ∈ D
  | [R_request size] => size <= Z.of_nat (length buf)
  | _ => False
  end.
(** Everything the channel refers to exists, and the reads in flight fit. *)
Record safe (D : gset Z) s : Prop := Safe {
  safe_dom : dom (store s) = D;
  safe_calls : cc_ok D (calls_ s);
  safe_list : Forall (.∈ D) (call_list_ (calls_ s));
  safe_to_calls : Forall (.∈ D) (to_calls_ s);
  safe_writing : Forall (λ w, w.1 ∈ D) (writing (net s));
  safe_buffer : 1024 <= Z.of_nat (length (read_buffer_ s));
  safe_reading : read_ok D (read_buffer_ s) (reading (net s))
}.

(** The sending side of a session, given the calls handed over. *)
Definition sending (acc : list Z) s : Prop :=
  socket_open (net s) = true →
  status_ s = st_connected ∧
  (sent (net s)).*1 ++ tail (to_calls_ s) ++ call_list_ (calls_ s) = acc ∧
  Forall (eq Tk_call) (posts s) ∧
  ((to_calls_ s = [] ∧ writing (net s) = [] ∧
    (call_list_ (calls_ s) = [] ∨ Tk_call ∈ posts s)) ∨
   ∃ id rest bs, to_calls_ s = id :: rest ∧ writing (net s) = [(id, bs)]).

(** What the sending side depends on. *)
Definition same_sending s s' : Prop :=
  status_ s' = status_ s ∧ call_list_ (calls_ s') = call_list_ (calls_ s) ∧
  to_calls_ s' = to_calls_ s ∧ posts s' = posts s ∧ writing (net s') = writing (net s) ∧
  sent (net s') = sent (net s) ∧ socket_open (net s') = socket_open (net s).
(** A handler that leaves the sending side alone or closes the channel. *)
Definition quiet_ok (D : gset Z) s (r : ub chan) : Prop :=
  ∃ s', r = Def s' ∧ safe D s' ∧ (same_sending s s' ∨ socket_open (net s') = false).

Lemma same_sending_refl s : same_sending s s.
Proof. done. Qed.
Lemma sending_same acc s s' :
  same_sending s s' ∨ socket_open (net s') = false → sending acc s → sending acc s'.
Proof.
  unfold sending. intros [(-> & -> & -> & -> & -> & -> & ->)|Hc] Hs; [done|].
  intros Ho. congruence.
Qed.
Lemma quiet_ok_from D s1 s2 r : same_sending s1 s2 → quiet_ok D s2 r → quiet_ok D s1 r.
Proof.
  intros Heq (s' & ? & ? & Hq). exists s'. split; [done|]. split; [done|].
  destruct Hq as [Hq|?]; [left|by right]. unfold same_sending in *.
  destruct Hq as (-> & -> & -> & -> & -> & -> & ->). done.
Qed.
Lemma quiet_ok_Def D s s' : safe D s' → same_sending s s' → quiet_ok D s (Def s').
Proof. exists s'. auto. Qed.

Lemma safe_lookup D s id : safe D s → id ∈ D → ∃ ctx, store s !! id = Some ctx.
Proof. intros Hs Hid. rewrite <-(safe_dom _ _ Hs) in Hid. by apply elem_of_dom. Qed.
Lemma safe_put D s id ctx : safe D s → id ∈ D → safe D (put id ctx s).
Proof.
  intros [] Hid. split; try done. cbn. rewrite dom_insert_L. set_solver.
Qed.
Lemma safe_emit D s es : safe D s → safe D (emit es s).
Proof. by intros []. Qed.
Lemma safe_set_calls D s c tc :
  safe D s → cc_ok D c → Forall (.∈ D) (call_list_ c) → Forall (.∈ D) tc →
  safe D (set_calls c tc s).
Proof. by intros []. Qed.
Lemma safe_status D s st : safe D s → safe D (set_status st s).
Proof. by intros []. Qed.
Lemma safe_close D s b : safe D s → safe D (close_socket b s).
Proof. by intros []. Qed.
Lemma safe_start_read D s r :
  safe D s → reading (net s) = [] → read_ok D (read_buffer_ s) [r] → safe D (start_read r s).
Proof. intros [] Hr ?. split; try done. cbn. by rewrite Hr. Qed.
Lemma safe_set_head D s h : safe D s → safe D (set_recv h (read_buffer_ s) s).
Proof. by intros []. Qed.

Lemma ctx_error_ok D s id r : safe D s → id ∈ D → quiet_ok D s (ctx_error id r s).
Proof.
  intros Hs Hid. unfold ctx_error. destruct (safe_lookup _ _ _ Hs Hid) as [ctx ->]. cbn.
  apply quiet_ok_Def; [|done]. by apply safe_emit, safe_put.
Qed.
Lemma ctx_ok_ok D s id : safe D s → id ∈ D → quiet_ok D s (ctx_ok id s).
Proof.
  intros Hs Hid. unfold ctx_ok. destruct (safe_lookup _ _ _ Hs Hid) as [ctx ->]. cbn.
  apply quiet_ok_Def; [|done]. by apply safe_emit, safe_put.
Qed.
Lemma stop_impl_ok D ids r : ∀ s,
  safe D s → Forall (.∈ D) ids → socket_open (net s) = false →
  ∃ s', stop_rcp_calls_impl ids r s = Def s' ∧ safe D s' ∧ socket_open (net s') = false.
Proof.
  induction ids as [|id ids IH]; intros s Hs HF Hc; [by exists s|].
  inversion HF; subst. cbn [stop_rcp_calls_impl].
  destruct (ctx_error_ok D s id r) as (s1 & -> & Hs1 & Hq); [done..|]. cbn [mbind ub_bind].
  apply IH; [done..|]. destruct Hq as [(_&_&_&_&_&_&Hq)|Hq]; congruence.
Qed.
Lemma chan_on_error_ok D s r : safe D s → quiet_ok D s (chan_on_error r s).
Proof.
  intros Hs. unfold chan_on_error, stop_rpc_service, stop_rpc_calls.
  set (s1 := close_socket _ _). assert (safe D s1) as Hs1 by by apply safe_close, safe_status.
  destruct (cc_take_map D (calls_ s1) (safe_calls _ _ Hs1)) as (Hl & Hc & HF).
  destruct (task_calls_from_map (calls_ s1)) as [ids c]. cbn [fst snd] in *.
  destruct (stop_impl_ok D ids r (set_calls c [] s1)) as (s2 & -> & Hs2 & Ho); [|done|done|].
  { apply safe_set_calls; [done|done| |done]. rewrite Hl. by apply (safe_list _ _ Hs1). }
  cbn [mbind ub_bind]. eexists. split; [done|].
  split; [|right; by destruct (negb _), (irptr_ _)].
  destruct (negb _), (irptr_ _); repeat apply safe_emit; by apply safe_status.
Qed.

Lemma chan_on_error_closed r s s' : chan_on_error r s = Def s' → socket_open (net s') = false.
Proof.
  unfold chan_on_error, stop_rpc_service, stop_rpc_calls. intros Hr. inv_def.
  destruct (task_calls_from_map _) as [ids c].
  match goal with Hs : stop_rcp_calls_impl _ _ _ = Def _ |- _ =>
    apply stop_impl_net in Hs as (Hnet & _) end.
  by destruct (negb _), (irptr_ _); cbn; rewrite Hnet.
Qed.

Lemma recv_head_ok D s : safe D s → reading (net s) = [] → quiet_ok D s (Def (recv_head s)).
Proof. intros Hs Hr. apply quiet_ok_Def; [|done]. by apply safe_start_read. Qed.
Lemma call_complete_ok D s id :
  safe D s → reading (net s) = [] → id ∈ D → quiet_ok D s (call_complete id s).
Proof.
  intros Hs Hr Hid. unfold call_complete.
  assert (safe D (recv_head s)) as Hs1 by by apply safe_start_read.
  destruct (safe_lookup _ _ _ Hs1 Hid) as [ctx ->]. cbn [deref mbind ub_bind].
  apply (quiet_ok_from _ _ (recv_head s)); [done|].
  destruct (_ <? _); [by apply ctx_ok_ok|by apply ctx_error_ok].
Qed.
Lemma recv_request_ok D s : safe D s → reading (net s) = [] → quiet_ok D s (recv_request s).
Proof.
  intros Hs Hr. unfold recv_request. destruct (_ =? _).
  { apply quiet_ok_Def; [|done]. by apply safe_start_read; [apply safe_emit|..]. }
  destruct (_ <? _); [by apply chan_on_error_ok|].
  set (len := ch_length (head_ s)).
  assert (len <= Z.of_nat (length (if 1024 <? len then resize (Z.to_nat len) 0 (read_buffer_ s)
            else read_buffer_ s)) ∧
          1024 <= Z.of_nat (length (if 1024 <? len then resize (Z.to_nat len) 0 (read_buffer_ s)
            else read_buffer_ s))) as [Hlen Hbig].
  { pose proof (safe_buffer _ _ Hs). destruct (Z.ltb_spec 1024 len); [|lia].
    rewrite length_resize. lia. }
  revert Hlen Hbig. generalize (if 1024 <? len then resize (Z.to_nat len) 0 (read_buffer_ s)
            else read_buffer_ s). intros buf Hlen Hbig.
  destruct (Z.leb_spec len (Z.of_nat (length buf))); [|lia]. cbn [assert_ub mbind ub_bind].
  apply quiet_ok_Def; [|done]. destruct Hs. split; try done. cbn. by rewrite Hr.
Qed.
Lemma recv_call_reply_ok D s :
  safe D s → reading (net s) = [] → quiet_ok D s (recv_call_reply s).
Proof.
  intros Hs Hr. unfold recv_call_reply.
  destruct (cc_get D (ch_call_id (head_ s)) (calls_ s) (safe_calls _ _ Hs))
    as (r & c & -> & Hl & Hc & Hin). cbn [mbind ub_bind].
  assert (safe D (set_calls c (to_calls_ s) s)) as Hs1.
  { apply safe_set_calls; [done..| |apply (safe_to_calls _ _ Hs)].
    rewrite Hl. apply (safe_list _ _ Hs). }
  apply (quiet_ok_from _ _ (set_calls c (to_calls_ s) s));
    [by repeat split|].
  destruct r as [id|]; [|by apply recv_request_ok]. specialize (Hin id eq_refl).
  destruct (safe_lookup _ _ _ Hs1 Hin) as [ctx ->]. cbn [deref mbind ub_bind].
  destruct (_ && _); [by apply recv_request_ok|].
  set (ctx' := set_head _ ctx).
  assert (safe D (put id ctx' (set_calls c (to_calls_ s) s))) as Hs2 by by apply safe_put.
  apply (quiet_ok_from _ _ (put id ctx' (set_calls c (to_calls_ s) s))); [done|].
  destruct (_ =? _); [by apply call_complete_ok|].
  destruct (_ <? _); [by apply chan_on_error_ok|].
  apply quiet_ok_Def; [|done]. by apply safe_start_read; [apply safe_put|..].
Qed.

(** The receiving handlers, once their read is taken out. *)
Lemma handle_recv_head_ok D s e h :
  safe D s → reading (net s) = [] → quiet_ok D s (handle_recv_head e h s).
Proof.
  intros Hs Hr. unfold handle_recv_head.
  assert (safe D (set_recv h (read_buffer_ s) s)) as Hs1 by by apply safe_set_head.
  apply (quiet_ok_from _ _ (set_recv h (read_buffer_ s) s)); [done|].
  destruct (negb _); [by apply quiet_ok_Def|].
  apply (quiet_ok_from _ _ (set_recv (ch_ntoh h) (read_buffer_ s) s)); [done|].
  assert (safe D (set_recv (ch_ntoh h) (read_buffer_ s) s)) as Hs2 by by apply safe_set_head.
  cbn [head_ set_recv read_buffer_]. destruct (_ =? _); [|by apply chan_on_error_ok].
  unfold recv_body. destruct (ch_is_reply _); [by apply recv_call_reply_ok|by apply recv_request_ok].
Qed.
Lemma handle_recv_reply_ok D s id e data :
  safe D s → reading (net s) = [] → id ∈ D → quiet_ok D s (handle_recv_reply id e data s).
Proof.
  intros Hs Hr Hid. unfold handle_recv_reply.
  destruct (safe_lookup _ _ _ Hs Hid) as [ctx ->]. cbn [deref mbind ub_bind].
  assert (safe D (put id (set_recv_msg data ctx) s)) as Hs1 by by apply safe_put.
  apply (quiet_ok_from _ _ (put id (set_recv_msg data ctx) s)); [done|].
  destruct (negb _); [by apply quiet_ok_Def|].
  destruct (_ =? _); [by apply call_complete_ok|by apply chan_on_error_ok].
Qed.
Lemma handle_recv_request_ok D s e data :
  safe D s → reading (net s) = [] →
  Z.of_nat (length data) <= Z.of_nat (length (read_buffer_ s)) →
  quiet_ok D s (handle_recv_request e data s).
Proof.
  intros Hs Hr Hlen. unfold handle_recv_request.
  destruct (Z.leb_spec (Z.of_nat (length data)) (Z.of_nat (length (read_buffer_ s)))); [|lia].
  cbn [assert_ub mbind ub_bind].
  set (s1 := set_recv _ _ s). apply (quiet_ok_from _ _ s1); [done|].
  assert (safe D s1) as Hs1.
  { destruct Hs. split; try done; cbn; [|by rewrite Hr].
    rewrite length_app, length_drop. lia. }
  destruct (negb _); [by apply quiet_ok_Def|].
  destruct (_ =? _); [|by apply chan_on_error_ok].
  apply quiet_ok_Def; [|done]. by apply safe_emit, safe_start_read.
Qed.

(** The sending handlers. *)
Definition step_ok (D : gset Z) (acc : list Z) (r : ub chan) : Prop :=
  ∃ s', r = Def s' ∧ safe D s' ∧ sending acc s'.
Lemma step_ok_quiet D acc s r : quiet_ok D s r → sending acc s → step_ok D acc r.
Proof.
  intros (s' & ? & ? & Hq) Hs. exists s'. split; [done|]. split; [done|].
  by eapply sending_same.
Qed.

(** [call_impl1] starts the write of the call at the front. *)
Lemma call_impl1_ok D s id rest :
  safe D s → to_calls_ s = id :: rest →
  ∃ s' bs, call_impl1 None s = Def s' ∧ safe D s' ∧
    status_ s' = status_ s ∧ calls_ s' = calls_ s ∧ to_calls_ s' = id :: rest ∧
    posts s' = posts s ∧ writing (net s') = writing (net s) ++ [(id, bs)] ∧
    sent (net s') = sent (net s) ++ [(id, bs)] ∧ socket_open (net s') = socket_open (net s).
Proof.
  intros Hs Hto. unfold call_impl1. rewrite Hto.
  assert (id ∈ D) as Hid.
  { pose proof (safe_to_calls _ _ Hs) as HF. rewrite Hto in HF. by inversion HF. }
  destruct (safe_lookup _ _ _ Hs Hid) as [ctx ->]. cbn [deref mbind ub_bind negb].
  unfold set_timeout. cbn [store put]. rewrite lookup_insert_eq. cbn [deref mbind ub_bind].
  set (s1 := put id (context_hton ctx) s).
  assert (safe D s1) as Hs1 by by apply safe_put.
  assert (∃ s2 c2, (if on_ok (context_hton ctx) || on_error (context_hton ctx)
      || bool_decide (is_Some (barrier_ptr (context_hton ctx)))
    then if (duration_ (context_hton ctx) <=? 0) || (duration_ (context_hton ctx) =? duration_max)
         then Def s1 else Def (put id (set_timer_ptr (context_hton ctx)) s1)
    else Def s1) = Def s2 ∧ s2 = put id c2 s1 ∧ store s2 !! id = Some c2) as (s2 & c2 & -> & -> & Hc2).
  { assert (s1 = put id (context_hton ctx) s1) as Heq.
    { unfold s1, put. cbn. by rewrite insert_insert_eq. }
    destruct (_ || _); [destruct (_ || _)|]; eexists _, _; (split; [done|]);
      (split; [first [exact Heq|done]|]); apply lookup_insert_eq. }
  cbn [mbind ub_bind]. rewrite Hc2. cbn [deref mbind ub_bind].
  eexists _, _. split; [done|]. split; [|by repeat split].
  destruct (safe_put D s1 id c2 Hs1 Hid). split; try done. cbn.
  apply Forall_app. split; [done|]. by repeat constructor.
Qed.
Lemma call_impl_ok D acc s :
  safe D s → (socket_open (net s) = true →
    status_ s = st_connected ∧ (sent (net s)).*1 ++ call_list_ (calls_ s) = acc ∧
    Forall (eq Tk_call) (posts s) ∧ writing (net s) = []) →
  to_calls_ s = [] → step_ok D acc (call_impl None s).
Proof.
  intros Hs Hsend Hto. unfold call_impl, call_list_empty. case_bool_decide as He; cbn [negb].
  { exists s. split; [done|]. split; [done|]. intros Ho.
    destruct (Hsend Ho) as (? & ? & ? & ?). rewrite Hto. split; [done|]. split; [done|].
    split; [done|]. left. auto. }
  destruct (cc_take_list D (calls_ s) (safe_calls _ _ Hs)) as (H1 & H2 & H3).
  destruct (task_calls_from_list (calls_ s)) as [tc c]. cbn [fst snd] in *. subst tc.
  destruct (call_list_ (calls_ s)) as [|id rest] eqn:Hl; [done|].
  destruct (call_impl1_ok D (set_calls c (id :: rest) s) id rest)
    as (s' & bs & -> & Hs' & Hst & Hca & Htc & Hp & Hw & Hse & Hop); [|done|].
  { apply safe_set_calls; [done|done|by rewrite H2|]. rewrite <-Hl. apply (safe_list _ _ Hs). }
  exists s'. split; [done|]. split; [done|]. intros Ho. rewrite Hop in Ho.
  destruct (Hsend Ho) as (Hconn & Hacc & Hpo & Hwr). cbn in Hca, Hst, Hp, Hw, Hse.
  rewrite Hst, Hse, Htc, Hp, Hw, Hca, H2, Hwr. cbn [tail].
  rewrite fmap_app, app_nil_r, <-app_assoc. split; [done|]. split; [done|].
  split; [done|]. right. eauto.
Qed.

Lemma safe_new D s id ctx : safe D s → safe ({[id]} ∪ D) (put id ctx s).
Proof.
  intros [Hd Hc Hl Ht Hw Hb Hr]. assert (D ⊆ {[id]} ∪ D) as Hsub by set_solver.
  assert (∀ l : list Z, Forall (.∈ D) l → Forall (.∈ {[id]} ∪ D) l) as Hmono.
  { intros l HF. eapply Forall_impl; [exact HF|]. intros x. apply Hsub. }
  split; cbn; auto.
  - rewrite dom_insert_L. by rewrite Hd.
  - by eapply cc_ok_mono.
  - eapply Forall_impl; [exact Hw|]. intros [x bs]. apply Hsub.
  - destruct (reading (net s)) as [|[] []]; cbn in *; auto.
Qed.
Lemma call_context_ok D acc s id ctx :
  safe D s → sending acc s →
  step_ok ({[id]} ∪ D) (acc ++ [id]) (call_context id ctx s).
Proof.
  intros Hs Hsend. pose proof (safe_new D s id ctx Hs) as Hs1. unfold call_context.
  assert (id ∈ ({[id]} ∪ D : gset Z)) as Hid by set_solver.
  cbn [status_ put calls_ to_calls_].
  destruct (negb (bool_decide (status_ s = st_connected)) && _) eqn:Hst.
  { apply (step_ok_quiet _ _ (put id ctx s)); [by apply ctx_error_ok|].
    intros Ho. destruct (Hsend Ho) as [Hc _]. rewrite Hc in Hst. done. }
  destruct (cc_push _ id ctx (calls_ s) (safe_calls _ _ Hs1) Hid) as [Hl Hc].
  destruct (push_call id ctx (calls_ s)) as [ctx' c]. cbn [fst snd] in *.
  change (status_ (set_calls c (to_calls_ s) (put id ctx s))) with (status_ s).
  set (s2 := put id ctx' (set_calls c (to_calls_ s) (put id ctx s))).
  assert (safe ({[id]} ∪ D) s2) as Hs2.
  { apply safe_put; [|done]. apply safe_set_calls; [done|done| |].
    - rewrite Hl. apply Forall_app. split; [|by repeat constructor]. apply (safe_list _ _ Hs1).
    - apply (safe_to_calls _ _ Hs1). }
  assert (step_ok ({[id]} ∪ D) (acc ++ [id]) (Def (if call_list_empty (calls_ s)
    && bool_decide (status_ s = st_connected) then post Tk_call s2 else s2))) as Hgo;
    [|revert Hgo; by match goal with |- _ → step_ok _ _ (if ?b then _ else _) => destruct b end].
  eexists. split; [done|].
  split; [by match goal with |- safe _ (if ?b then _ else _) => destruct b; [destruct Hs2|] end|].
  intros Ho. destruct Hsend as (Hconn & <- & Hpo & Hwr);
    [revert Ho; by match goal with |- socket_open (net (if ?b then _ else _)) = true → _ => destruct b end|].
  rewrite (bool_decide_eq_true_2 (status_ s = st_connected)) by done. rewrite andb_true_r.
  destruct (call_list_empty (calls_ s)) eqn:He; unfold call_list_empty in He;
    [apply bool_decide_eq_true in He|apply bool_decide_eq_false in He];
    subst s2; cbn; rewrite Hl, <-?app_assoc; cbn;
    (split; [done|]); (split; [by rewrite ?He|]).
  - split; [apply Forall_app; split; [done|by repeat constructor]|].
    destruct Hwr as [(? & ? & _)|?]; [left|by right].
    split; [done|]. split; [done|]. right. apply elem_of_app. right. by left.
  - split; [done|]. destruct Hwr as [(? & ? & [?|?])|?]; [done|left; auto|by right].
Qed.
Lemma run_chan_task_ok D acc s t ps :
  safe D s → sending acc s → posts s = t :: ps →
  step_ok D acc (run_chan_task None t (set_posts ps s)).
Proof.
  intros Hs Hsend Hps. assert (safe D (set_posts ps s)) as Hs1 by by destruct Hs.
  unfold run_chan_task. cbn [to_calls_ set_posts].
  destruct (to_calls_ s) as [|id rest] eqn:Hto.
  - assert (step_ok D acc (call_impl None (set_posts ps s))); [|by destruct t].
    apply call_impl_ok; [done| |done]. intros Ho. destruct (Hsend Ho) as (? & Hacc & HF & Hw).
    rewrite Hto in Hacc. rewrite Hps in HF. inversion HF; subst.
    destruct Hw as [(_ & ? & _)|(? & ? & ? & ? & _)]; [done|congruence].
  - destruct t.
    + eexists. split; [done|]. split; [done|]. intros Ho.
      destruct (Hsend Ho) as (? & ? & HF & Hw). rewrite Hps in HF. inversion HF; subst.
      split; [done|]. split; [done|]. split; [done|].
      destruct Hw as [(? & _)|?]; [congruence|by right].
    + destruct (call_impl1_ok D (set_posts ps s) id rest) as (s' & bs & -> & Hs' & _ & _ & _ & _ & _ & _ & Ho);
        [done|done|].
      exists s'. split; [done|]. split; [done|]. intros Ho'. rewrite Ho in Ho'.
      destruct (Hsend Ho') as (_ & _ & HF & _). rewrite Hps in HF. by inversion HF.
Qed.
Lemma handle_send_ok D acc s e id bs ws :
  safe D s → sending acc s → writing (net s) = (id, bs) :: ws →
  step_ok D acc (handle_send None after_send e id
    (set_ops ws (reading (net s)) (connecting (net s)) s)).
Proof.
  intros Hs Hsend Hw. set (s1 := set_ops ws _ _ s).
  pose proof (safe_writing _ _ Hs) as HF. rewrite Hw in HF. inversion HF as [|? ? Hid Hws]; subst.
  cbn in Hid.
  assert (safe D s1) as Hs1 by by destruct Hs.
  unfold handle_send. destruct (socket_open (net s)) eqn:Ho;
    change (socket_open (net s1)) with (socket_open (net s)); rewrite Ho; cbn [negb];
    [|exists s1; split; [done|]; split; [done|]; intros Ho'; cbn in Ho'; congruence].
  destruct (Hsend Ho) as (Hconn & <- & HFp & [(? & ? & _)|(id' & rest & bs' & Hto & Hwr)]);
    [congruence|].
  rewrite Hw in Hwr. injection Hwr as <- <- ->.
  change (to_calls_ s1) with (to_calls_ s). rewrite Hto.
  destruct (safe_lookup _ _ _ Hs1 Hid) as [ctx ->]. cbn [deref mbind ub_bind].
  pose proof (safe_to_calls _ _ Hs) as HFt. rewrite Hto in HFt. inversion HFt; subst.
  set (s2 := put id (context_ntoh ctx) (set_calls (calls_ s1) rest s1)).
  assert (safe D s2) as Hs2.
  { apply safe_put; [|done]. apply safe_set_calls; [done|apply (safe_calls _ _ Hs1)|
      apply (safe_list _ _ Hs1)|done]. }
  destruct (negb (e =? 0)).
  { destruct (chan_on_error_ok D s2 (net_result_sys ec_badconnect e) Hs2) as (s' & Hr & Hs' & Hq).
    exists s'. split; [exact Hr|]. split; [done|].
    apply (chan_on_error_closed _ _ _) in Hr. intros Ho'. congruence. }
  set (s3 := if after_send then _ else s2). set (s4 := if context_is_reply _ then _ else s3).
  assert (safe D s4) as Hs4.
  { unfold s4, s3. destruct (context_is_reply _), after_send; repeat apply safe_emit; done. }
  assert (same_sending s2 s4) as Heq.
  { unfold s4, s3. by destruct (context_is_reply _), after_send. }
  destruct Heq as (E1 & E2 & E3 & E4 & E5 & E6 & E7). cbn in E1, E2, E3, E4, E5, E6, E7.
  rewrite Hto in *. cbn [tail].
  destruct rest as [|id2 rest].
  - rewrite E3. apply call_impl_ok; [done| |done]. intros _. by rewrite E1, E2, E4, E5, E6.
  - rewrite E3.
    destruct (call_impl1_ok D s4 id2 rest)
      as (s' & bs2 & -> & Hs' & Hst & Hca & Htc & Hp & Hw' & Hse & Hop); [done|done|].
    exists s'. split; [done|]. split; [done|]. intros _.
    rewrite Hst, Hse, Htc, Hp, Hw', Hca, E1, E2, E4, E5, E6. cbn [tail].
    rewrite fmap_app, <-app_assoc. split; [done|]. split; [done|]. split; [done|].
    right. eauto.
Qed.

(** Everything but a new connect, which takes the channel into its next
    session. *)
Definition session_label (l : @label H) : Prop :=
  match l with L_start _ _ | L_connected _ => False | _ => True end.
Definition called1 (l : @label H) : list Z := match l with L_call id _ => [id] | _ => [] end.
Definition called (ls : list (@label H)) : list Z := ls ≫= called1.

Lemma read_taken D s r rs :
  safe D s → reading (net s) = r :: rs →
  rs = [] ∧ read_ok D (read_buffer_ s) [r] ∧
  safe D (set_ops (writing (net s)) [] (connecting (net s)) s).
Proof.
  intros [] Hr. rewrite Hr in *. destruct rs; [|by destruct r].
  split; [done|]. split; [done|]. by split.
Qed.
Lemma channel_session_step D acc s l :
  safe D s → sending acc s → session_label l → Forall (.∉ D) (called1 l) →
  step_ok (list_to_set (called1 l) ∪ D) (acc ++ called1 l) (step None after_send l s).
Proof.
  intros Hs Hsend Hl Hnew. destruct l; try done; cbn [step called1 list_to_set] in *;
    rewrite ?(left_id_L ∅ (∪)), ?app_nil_r, ?(right_id_L ∅ (∪)).
  - inversion Hnew as [|? ? Hid _]; subst. rewrite <-(safe_dom _ _ Hs) in Hid.
    rewrite (not_elem_of_dom_1 _ _ Hid). by apply call_context_ok.
  - destruct (posts s) as [|t ps] eqn:Hps; [by exists s|]. by apply run_chan_task_ok.
  - destruct (writing (net s)) as [|[id bs] ws] eqn:Hw; [by exists s|].
    by apply (handle_send_ok _ _ _ _ _ bs).
  - destruct (reading (net s)) as [|r rs] eqn:Hr; [by exists s|].
    destruct (read_taken D s r rs Hs Hr) as (-> & Hok & Hs1).
    destruct r; try by exists s. apply (step_ok_quiet _ _ _ _ (handle_recv_head_ok _ _ _ _ Hs1 eq_refl)).
    exact Hsend.
  - destruct (reading (net s)) as [|r rs] eqn:Hr; [by exists s|].
    destruct (read_taken D s r rs Hs Hr) as (-> & Hok & Hs1).
    destruct r; try by exists s.
    + destruct (negb _); [by exists s|].
      apply (step_ok_quiet _ _ _ _ (handle_recv_reply_ok _ _ _ _ data Hs1 eq_refl Hok)). exact Hsend.
    + destruct (_ && _); [by exists s|]. cbn in Hok.
      destruct (Z.ltb_spec size (Z.of_nat (length data))); [by exists s|].
      apply (step_ok_quiet _ _ (set_ops (writing (net s)) [] (connecting (net s)) s));
        [|exact Hsend].
      apply handle_recv_request_ok; [done|done|]. cbn. lia.
  - destruct (store s !! id) as [ctx|] eqn:Hid; [|by exists s].
    destruct (timer_ptr_ ctx); [|by exists s].
    apply (step_ok_quiet _ _ s); [|done]. apply ctx_error_ok; [done|].
    rewrite <-(safe_dom _ _ Hs). by apply elem_of_dom_2 in Hid.
  - apply (step_ok_quiet _ _ s); [|done]. by apply chan_on_error_ok.
Qed.
Lemma session_run ls : ∀ D acc s,
  safe D s → sending acc s → Forall session_label ls → NoDup (called ls) →
  Forall (.∉ D) (called ls) →
  ∃ D', step_ok D' (acc ++ called ls) (run None after_send ls s).
Proof.
  induction ls as [|l ls IH]; intros D acc s Hs Hsend Hl Hnd Hnew.
  { exists D, s. cbn. by rewrite app_nil_r. }
  inversion Hl; subst. unfold called in *. cbn [mbind list_bind] in *.
  apply NoDup_app in Hnd as (Hnd1 & Hdisj & Hnd2). apply Forall_app in Hnew as [Hn1 Hn2].
  destruct (channel_session_step D acc s l) as (s1 & Hr & Hs1 & Hsend1); [done..|].
  cbn [run]. rewrite Hr. cbn [mbind ub_bind]. rewrite app_assoc. eapply IH; [done..|].
  apply Forall_forall. intros id Hin. rewrite Forall_forall in Hn2. specialize (Hn2 id Hin).
  specialize (Hdisj id). set_solver.
Qed.
Lemma accepted_safe head_zero is_client irptr :
  ∃ s0, start_accepted None (channel_new head_zero true is_client irptr) = Def s0 ∧
    safe ∅ s0 ∧ sending [] s0.
Proof.
  unfold start_accepted, start_rpc_service, call_impl, call_list_empty.
  cbn [channel_new status_ set_status calls_].
  rewrite !bool_decide_eq_true_2 by (done || apply cc_list_new). cbn [negb mbind ub_bind].
  eexists. split; [done|]. split.
  - split; cbn; [apply dom_empty_L|apply cc_ok_new|by rewrite cc_list_new|done|done| |done].
    by vm_compute.
  - intros _. cbn. rewrite cc_list_new. split; [done|]. split; [done|]. split; [done|].
    left. auto.
Qed.
End session.

(** C1: In a session of an accepted channel (no filter of outgoing messages; calls,
    posted lambdas, completions with or without error, timeouts, disconnects in any
    order), the channel never runs into undefined behaviour: no call is popped off an
    empty list, no read overruns its buffer, no context is missing. While the socket is
    open, each call is written once, in the order of the calls; and when nothing is
    posted and no write is in flight, every call has been written: none is stuck. *)
Theorem channel_sends_in_order {H C : Type} `{CH : CallHeader H} `{CC : CallContainer H C}
    `{!CallContainerLaws H C} (after_send : bool) (head_zero : H) (is_client irptr : bool)
    (ls : list (@label H)) :
  Forall session_label ls → NoDup (called ls) →
  ∃ s0 s : channel H C,
    start_accepted None (channel_new head_zero true is_client irptr) = Def s0 ∧
    run None after_send ls s0 = Def s ∧
    (socket_open (net s) = true →
     (sent (net s)).*1 ++ tail (to_calls_ s) ++ call_list_ (calls_ s) = called ls ∧
     (posts s = [] → writing (net s) = [] → (sent (net s)).*1 = called ls)).
Proof.
  intros Hl Hnd. destruct (accepted_safe head_zero is_client irptr) as (s0 & H0 & Hs & Hsend).
  destruct (session_run after_send ls ∅ [] s0) as (D & s & Hr & _ & Hfin); [done..| |].
  { apply Forall_forall. set_solver. }
  exists s0, s. split; [done|]. split; [done|]. intros Ho.
  destruct (Hfin Ho) as (_ & Hacc & _ & Hw). split; [done|]. intros Hp Hw0.
  destruct Hw as [(Hto & _ & [Hl0|Hin])|(? & ? & ? & _ & Hw)].
  - cbn in Hacc. rewrite Hto, Hl0 in Hacc. cbn in Hacc. by rewrite app_nil_r in Hacc.
  - rewrite Hp in Hin. by apply elem_of_nil in Hin.
  - congruence.
Qed.

(** The reply to a closed call is read and dropped. *)
Lemma reply_to_over {H C : Type} `{CH : CallHeader H} `{CC : CallContainer H C}
    (s : channel H C) (id : Z) (c : C) (ctx : rpc_context H) :
  get_call_from_map (ch_call_id (head_ s)) (calls_ s) = Def (Some id, c) →
  store s !! id = Some ctx → is_over ctx = true → on_ok ctx = true → ch_length (head_ s) = 0 →
  ∃ s', recv_call_reply s = Def s' ∧ calls_ s' = c ∧
    (∀ id', id' ≠ id → store s' !! id' = store s !! id') ∧ events s' = events s.
Proof.
  intros Hget Hs Hover Hok Hlen. unfold recv_call_reply. rewrite Hget. cbn [mbind ub_bind].
  change (store (set_calls _ _ s)) with (store s). rewrite Hs. cbn [deref mbind ub_bind].
  rewrite Hok. cbn [negb andb]. change (head_ (set_calls _ _ s)) with (head_ s). rewrite Hlen.
  cbn [Z.eqb]. unfold call_complete. set (ctx' := set_head _ ctx).
  change (store (recv_head _)) with (<[id := ctx']> (store s)).
  rewrite lookup_insert_eq. cbn [deref mbind ub_bind].
  assert (∀ r, r = ([] : list callback, ctx') ∨ (∃ e, r = ([], set_err e ctx')) →
    ∃ s', Def (run_callbacks id r (recv_head (put id ctx' (set_calls c (to_calls_ s) s)))) = Def s' ∧
      calls_ s' = c ∧ (∀ id', id' ≠ id → store s' !! id' = store s !! id') ∧ events s' = events s) as Hgo.
  { intros r Hr. eexists. split; [done|]. split; [done|].
    destruct Hr as [->|[e ->]]; (split; [intros id' Hne; cbn; by rewrite !lookup_insert_ne|]);
      cbn; apply app_nil_r. }
  unfold ctx_ok, ctx_error. change (store (recv_head _)) with (<[id := ctx']> (store s)).
  rewrite lookup_insert_eq. cbn [deref mbind ub_bind].
  unfold context_ok, context_error, post_error. change (is_over (set_err _ ctx')) with (is_over ctx).
  change (is_over ctx') with (is_over ctx). rewrite Hover. cbn [negb].
  destruct (_ <? _); apply Hgo; eauto.
Qed.

(** Defect: By protocol, a call that timed out keeps its place in the queue. If
    its reply never comes, the reply to the next call of the protocol is given to it and
    dropped: no callback is made, and the call that was answered goes on waiting, now
    for the reply of its successor. *)
Theorem timed_out_call_takes_next_reply (big_endian : bool)
    (before_send : option (client_msg_header → bool)) (after_send : bool)
    (s s' : channel client_msg_header ByProtocol.call_container) (h : client_msg_header)
    (a b : Z) (rest : list Z) (ca : rpc_context client_msg_header) :
  let CH := client_call_header big_endian in
  let reply := client_ntoh big_endian h in
  reading (net s) = [R_head] → socket_open (net s) = true →
  client_is_reply reply = true → cmh_length reply = 0 →
  ByProtocol.call_map_ (calls_ s) !! client_call_id reply = Some (a :: b :: rest) →
  store s !! a = Some ca → is_over ca = true → on_ok ca = true → a ≠ b →
  step before_send after_send (L_head 0 h) s = Def s' →
  (∀ id, completions id (events s') = completions id (events s)) ∧
  store s' !! b = store s !! b ∧
  ByProtocol.call_map_ (calls_ s') !! client_call_id reply = Some (b :: rest).
Proof.
  intros CH reply Hr Ho Hrep Hlen Hmap Ha Hover Hok Hab. cbn [step]. rewrite Hr.
  unfold handle_recv_head. change (socket_open (net (set_recv _ _ _))) with (socket_open (net s)).
  rewrite Ho. cbn [negb Z.eqb]. unfold recv_body.
  set (s1 := set_recv (ch_ntoh _) _ _).
  change (ch_is_reply (head_ s1)) with (client_is_reply reply). rewrite Hrep. intros Hstep.
  destruct (reply_to_over s1 a (ByProtocol.CallContainer_
    (<[client_call_id reply := b :: rest]> (ByProtocol.call_map_ (calls_ s)))
    (ByProtocol.call_list (calls_ s))) ca) as (s2 & Hs2 & Hc2 & Hst2 & Hev2);
    [|exact Ha|done|done|exact Hlen|].
  { change (ByProtocol.get_call_from_map (client_call_id reply) (calls_ s) = Def (Some a,
      ByProtocol.CallContainer_
        (<[client_call_id reply := b :: rest]> (ByProtocol.call_map_ (calls_ s)))
        (ByProtocol.call_list (calls_ s)))).
    unfold ByProtocol.get_call_from_map. by rewrite Hmap. }
  rewrite Hs2 in Hstep. injection Hstep as <-. rewrite Hev2, Hc2, Hst2 by done.
  split; [done|]. split; [done|]. apply lookup_insert_eq.
Qed.

(** ** Concrete runs *)
Module Sample.
#[local] Instance server_head : CallHeader (list Z) := server_call_header false.
#[local] Instance client_head : CallHeader client_msg_header := client_call_header false.
Notation server_channel := (channel (list Z) ById.call_container).
Notation client_channel := (channel client_msg_header ByProtocol.call_container).

Definition call_head (reply : bool) (call_id len : Z) : list Z :=
  msg_header_internal 0 (MsgOption reply false 0 0 0) call_id len 77.
(** A call with both callbacks, and one a thread waits for. *)
Definition waited {H} (h : H) : rpc_context H :=
  RpcContext [1; 2; 3] h [] net_result_default true true false (Some false) false false 50 0.
Definition answered_run : list (@label (list Z)) :=
  [L_call 1 (waited (call_head false 0 3)); L_task; L_call 2 (waited (call_head false 0 3));
   L_sent 0; L_sent 0; L_head 0 (call_head true 2 4); L_data 0 [9; 9; 9; 9];
   L_timeout 1 0; L_disconnect].
Definition server_new : server_channel := channel_new (replicate 24 0) true false false.
Definition accepted_run : list (@label (list Z)) := L_start false false :: L_connected 0 :: answered_run.
(** A reply of four bytes for call 1 whose body is being read. *)
Definition half_read_run : list (@label (list Z)) :=
  [L_start false false; L_connected 0; L_call 1 (waited (call_head false 0 3)); L_task; L_sent 0;
   L_head 0 (call_head true 1 4)].
Definition state_of {A} (d : A) (m : ub A) : A := match m with Def a => a | Undef => d end.
Definition half_read : server_channel := state_of server_new (run None false half_read_run server_new).
Definition later_run : list (@label (list Z)) :=
  [L_disconnect; L_start false false; L_connected 0; L_call 2 (waited (call_head false 0 3)); L_task;
   L_sent 0; L_timeout 2 0; L_disconnect].
Definition stored {H C} (d : rpc_context H) (s : channel H C) (id : Z) : rpc_context H :=
  default d (store s !! id).

(** A channel whose filter lets nothing out. *)
Definition filtered : server_channel :=
  state_of server_new (run (Some (λ _, false)) false
    [L_start false false; L_connected 0; L_call 1 (waited (call_head false 0 3)); L_task] server_new).

(** Two client calls of one protocol; the first timed out. *)
Definition sample_proto : Z :=
  to_protocol_id {| fp_id := 5; fp_server_type := 1; fp_need_reply := true;
                    fp_is_reply := false; fp_game_type := 0 |}.
Definition client_new : client_channel := channel_new client_default true true false.
Definition late_run : list (@label client_msg_header) :=
  [L_start false false; L_connected 0; L_call 1 (waited (client_init 0 sample_proto 3)); L_task;
   L_sent 0; L_timeout 1 0; L_call 2 (waited (client_init 0 sample_proto 3)); L_task; L_sent 0].
Definition late : client_channel := state_of client_new (run None false late_run client_new).
Definition late_reply : client_msg_header := client_init 0 (reply_protocol sample_proto) 0.
End Sample.
Import Sample.
#[local] Existing Instance server_head.
#[local] Existing Instance client_head.

Lemma call_completes_once_witness :
  match run None false accepted_run server_new with
  | Def s => (completions 2 (events s) <= 1)%nat ∧ completions 2 (events s) = 1%nat
  | Undef => False
  end.
Proof.
  destruct (run None false accepted_run server_new) as [s|] eqn:Hr; [|vm_compute in Hr; discriminate].
  split; [|vm_compute in Hr; injection Hr as <-; vm_compute; reflexivity].
  apply (call_completes_once None false (replicate 24 0) true false false accepted_run s 2);
    [repeat constructor|exact Hr].
Defined.

Lemma half_read_idle : (writing (net half_read)).*1 = [] ∧ to_calls_ half_read = [] ∧
  call_list_ (calls_ half_read) = [] ∧ ById.call_map_ (calls_ half_read) = ∅.
Proof. split_and!; vm_compute; reflexivity. Qed.
(** The channel is connected again and another call is made and closed. *)
Lemma broken_reply_strands_call_witness :
  match run None false later_run (state_of half_read (step None false (L_data 104 [0; 0; 0; 0]) half_read)) with
  | Def s => ∃ ctx, store s !! 1 = Some ctx ∧ is_over ctx = false ∧ wait ctx = W_blocked
  | Undef => False
  end.
Proof.
  destruct (run None false later_run (state_of half_read (step None false (L_data 104 [0; 0; 0; 0]) half_read)))
    as [s|] eqn:Hr; [|vm_compute in Hr; discriminate].
  destruct half_read_idle as (Hi1 & Hi2 & Hi3 & Hi4).
  refine (proj2 (proj2 (proj2 (broken_reply_strands_call None false ∅ half_read
    (state_of half_read (step None false (L_data 104 [0; 0; 0; 0]) half_read)) s 1 4 104 []
    (stored (waited []) half_read 1) [0; 0; 0; 0] later_run _ _ _ _ _ _ _ _ _ _ _ _ _ _ _ Hr)))).
  - vm_compute; reflexivity.
  - intros ?. apply not_elem_of_nil.
  - rewrite Hi1. apply not_elem_of_nil.
  - rewrite Hi2. apply not_elem_of_nil.
  - rewrite Hi3. apply not_elem_of_nil.
  - apply not_elem_of_empty.
  - intros k id Hk. exfalso. rewrite Hi4 in Hk. by rewrite lookup_empty in Hk.
  - vm_compute; reflexivity.
  - vm_compute; reflexivity.
  - vm_compute; reflexivity.
  - vm_compute; reflexivity.
  - done.
  - reflexivity.
  - vm_compute; reflexivity.
  - repeat constructor. discriminate.
Defined.

Lemma rejected_call_blocks_channel_witness :
  match run (Some (λ _, false)) false [L_task; L_call 2 (waited []); L_task; L_task]
      (state_of filtered (call_impl1 (Some (λ _, false)) filtered)) with
  | Def s => sent (net s) = []
  | Undef => False
  end.
Proof.
  destruct (run (Some (λ _, false)) false [L_task; L_call 2 (waited []); L_task; L_task]
    (state_of filtered (call_impl1 (Some (λ _, false)) filtered))) as [s|] eqn:Hr;
    [|vm_compute in Hr; discriminate].
  apply (rejected_call_blocks_channel (λ _, false) false filtered
    (state_of filtered (call_impl1 (Some (λ _, false)) filtered)) s 1 []
    (stored (waited []) filtered 1) [L_task; L_call 2 (waited []); L_task; L_task]);
    [vm_compute; reflexivity..|repeat constructor|exact Hr].
Defined.

Lemma channel_sends_in_order_witness :
  ∃ s0 s : server_channel,
    start_accepted None server_new = Def s0 ∧ run None false answered_run s0 = Def s.
Proof.
  destruct (channel_sends_in_order (C := ById.call_container) false (replicate 24 0) false false
    answered_run) as (s0 & s & H0 & Hr & _); [repeat constructor|by apply (bool_decide_eq_true_1 _)|].
  exists s0, s. split; [exact H0|exact Hr].
Defined.

Lemma timed_out_call_takes_next_reply_witness :
  store (state_of late (step None false (L_head 0 late_reply) late)) !! 2 = store late !! 2.
Proof.
  apply (timed_out_call_takes_next_reply false None false late
    (state_of late (step None false (L_head 0 late_reply) late)) late_reply 1 2 []
    (stored (waited client_default) late 1)); first [vm_compute; reflexivity | discriminate].
Defined.
