(* ===== verification/RpcTask.v ===== *)
(** * Rpc tasks ([network/rpc/net/rpc_task.hpp])

    What a call returns to its caller: a task object that collects the callbacks,
    the delay and the timeout, and hands the call to the channel when it is
    destroyed or waited for, connecting first if need be.  A machine over the
    channel of [RpcChannel]: its steps are operations on the task objects, the
    timers they arm and the completion of a connect, whose callbacks are kept
    here.  A context is known by its number; it belongs to the tasks until it is
    handed to the channel. *)
From stdpp Require Import base option list numbers gmap strings.
From S2P Require Import Prelude Proto RpcHeader RpcContext RpcChannel.
Local Open Scope Z_scope.

(** ** Definitions *)
(** *** Objects *)
Record rpc_task := RpcTask { t_ctx : Z; t_dismiss : bool; t_timer : bool; t_duration : Z }.
(** [rpc_task(client, ctx)]; the move leaves its source dismissed, the copy, which is
    the only constructor the typed tasks have left, does not. *)
Definition task_new (ctx : Z) : rpc_task := RpcTask ctx false false 0.
Definition task_move (t : rpc_task) : rpc_task * rpc_task :=
  (t, RpcTask (t_ctx t) true (t_timer t) (t_duration t)).
Definition task_copy (t : rpc_task) : rpc_task * rpc_task := (t, t).
Definition task_dismissed (t : rpc_task) : rpc_task := RpcTask (t_ctx t) true (t_timer t) (t_duration t).
Definition task_delay (duration : Z) (t : rpc_task) : rpc_task :=
  if duration <=? 0 then t else RpcTask (t_ctx t) (t_dismiss t) true duration.

(** [connect_task]; what a move does not write is indeterminate. *)
Record connect_task := ConnectTask {
  ct_dismiss : bool; ct_on_ok : bool; ct_on_error : bool;
  ct_barrier : option nat; ct_result : bool;
  ct_timer : bool; ct_duration : Z;
  ct_timer_timeout : bool; ct_timeout_duration : option Z
}.
Definition connect_task_new : connect_task := ConnectTask false false false None false true 0 true (Some 0).
Definition connect_task_move (t : connect_task) : connect_task * connect_task :=
  (ConnectTask (ct_dismiss t) (ct_on_ok t) (ct_on_error t) (ct_barrier t) (ct_result t)
     (ct_timer t) (ct_duration t) false None,
   ConnectTask true false false None false false (ct_duration t) (ct_timer_timeout t) (ct_timeout_duration t)).
Definition ct_set_on_ok (t : connect_task) : connect_task :=
  ConnectTask (ct_dismiss t) true (ct_on_error t) (ct_barrier t) (ct_result t) (ct_timer t) (ct_duration t)
    (ct_timer_timeout t) (ct_timeout_duration t).
Definition ct_set_on_error (t : connect_task) : connect_task :=
  ConnectTask (ct_dismiss t) (ct_on_ok t) true (ct_barrier t) (ct_result t) (ct_timer t) (ct_duration t)
    (ct_timer_timeout t) (ct_timeout_duration t).
Definition ct_delay (duration : Z) (t : connect_task) : connect_task :=
  if 0 <? duration then
    ConnectTask (ct_dismiss t) (ct_on_ok t) (ct_on_error t) (ct_barrier t) (ct_result t) (ct_timer t) duration
      (ct_timer_timeout t) (ct_timeout_duration t)
  else t.
Definition ct_timeout (duration : Z) (t : connect_task) : connect_task :=
  if 0 <? duration then
    ConnectTask (ct_dismiss t) (ct_on_ok t) (ct_on_error t) (ct_barrier t) (ct_result t) (ct_timer t)
      (ct_duration t) (ct_timer_timeout t) (Some duration)
  else t.
(** [timeout(int)] *)
Definition ct_timeout_ms (milliseconds : Z) (t : connect_task) : connect_task := ct_delay milliseconds t.

(** What a connect calls when it ends: the function of an rpc task, of a caller, or
    of a thread that waits. *)
Inductive on_connect := OC_call (ctx : Z) | OC_user (on_ok on_error : bool) | OC_wait (barrier : nat).
(** What a timer of a task runs. *)
Inductive delayed := D_call (ctx : Z) | D_start (oc : on_connect) | D_timeout (barrier : nat).
Inductive task_event := TE_irouter_connect (r : net_result) | TE_ok | TE_error (r : net_result) | TE_throw (r : net_result).

Section task.
Context {H C : Type} `{CH : CallHeader H} `{CC : CallContainer H C}.
Context (before_send_func_ : option (H → bool)) (after_send_func_ : bool).

Record state := State {
  chan : channel H C;
  ctxs : gmap Z (rpc_context H);          (* not handed over yet *)
  tasks : list (option rpc_task);         (* the objects; [None]: destroyed *)
  connecting_ : option on_connect;
  timers : list delayed;
  barriers : list (option net_result);    (* of connects; [Some]: over *)
  cancels : list Z;                       (* posted by [cancel] *)
  threads : list (nat * Z);               (* blocked on a connect, to make a call *)
  made : gset Z;                          (* the contexts made *)
  handed : list Z;                        (* those given to the channel *)
  dropped : list Z;                       (* those answered by a failed connect or forgotten *)
  task_events : list task_event
}.
Implicit Types s : state.
Definition on_chan (x : channel H C) s : state :=
  State x (ctxs s) (tasks s) (connecting_ s) (timers s) (barriers s) (cancels s) (threads s) (made s) (handed s) (dropped s) (task_events s).
Definition set_ctxs (x : gmap Z (rpc_context H)) s : state :=
  State (chan s) x (tasks s) (connecting_ s) (timers s) (barriers s) (cancels s) (threads s) (made s) (handed s) (dropped s) (task_events s).
Definition set_tasks (x : list (option rpc_task)) s : state :=
  State (chan s) (ctxs s) x (connecting_ s) (timers s) (barriers s) (cancels s) (threads s) (made s) (handed s) (dropped s) (task_events s).
Definition set_connecting (x : option on_connect) s : state :=
  State (chan s) (ctxs s) (tasks s) x (timers s) (barriers s) (cancels s) (threads s) (made s) (handed s) (dropped s) (task_events s).
Definition set_timers (x : list delayed) s : state :=
  State (chan s) (ctxs s) (tasks s) (connecting_ s) x (barriers s) (cancels s) (threads s) (made s) (handed s) (dropped s) (task_events s).
Definition set_barriers (x : list (option net_result)) s : state :=
  State (chan s) (ctxs s) (tasks s) (connecting_ s) (timers s) x (cancels s) (threads s) (made s) (handed s) (dropped s) (task_events s).
Definition set_cancels (x : list Z) s : state :=
  State (chan s) (ctxs s) (tasks s) (connecting_ s) (timers s) (barriers s) x (threads s) (made s) (handed s) (dropped s) (task_events s).
Definition set_threads (x : list (nat * Z)) s : state :=
  State (chan s) (ctxs s) (tasks s) (connecting_ s) (timers s) (barriers s) (cancels s) x (made s) (handed s) (dropped s) (task_events s).
Definition set_made (x : gset Z) s : state :=
  State (chan s) (ctxs s) (tasks s) (connecting_ s) (timers s) (barriers s) (cancels s) (threads s) x (handed s) (dropped s) (task_events s).
Definition set_handed (x : list Z) s : state :=
  State (chan s) (ctxs s) (tasks s) (connecting_ s) (timers s) (barriers s) (cancels s) (threads s) (made s) x (dropped s) (task_events s).
Definition set_dropped (x : list Z) s : state :=
  State (chan s) (ctxs s) (tasks s) (connecting_ s) (timers s) (barriers s) (cancels s) (threads s) (made s) (handed s) x (task_events s).
Definition emit_task (es : list task_event) s : state :=
  State (chan s) (ctxs s) (tasks s) (connecting_ s) (timers s) (barriers s) (cancels s) (threads s) (made s) (handed s) (dropped s) (task_events s ++ es).

(** *** Handing a call over *)
Definition ctx_of (id : Z) s : option (rpc_context H) :=
  match ctxs s !! id with Some c => Some c | None => store (chan s) !! id end.
Definition task_call (id : Z) s : ub state :=
  ctx ← deref (ctx_of id s);
  c ← call_context id ctx (chan s);
  Def (set_handed (handed s ++ [id]) (set_ctxs (delete id (ctxs s)) (on_chan c s))).
(** [on_error_func]: the context's callbacks, or the router is told. *)
Definition has_callbacks (ctx : rpc_context H) : bool :=
  on_ok ctx || on_error ctx || bool_decide (is_Some (barrier_ptr ctx)).
Definition task_call_error (id : Z) (ec : net_result) s : ub state :=
  ctx ← deref (ctx_of id s);
  let s := set_dropped (dropped s ++ [id]) s in
  if has_callbacks ctx then
    c ← ctx_error id ec (put id ctx (chan s));
    Def (set_ctxs (delete id (ctxs s)) (on_chan c s))
  else Def (if irptr_ (chan s) then emit_task [TE_irouter_connect ec] s else s).

(** What a caller sets on a task; the task shares its context with the channel. *)
Inductive ctx_update := U_reply (reply_id : Z) | U_on_ok | U_on_error | U_timeout (duration : Z).
Definition update_context (u : ctx_update) (ctx : rpc_context H) : rpc_context H :=
  match u with
  | U_reply reply_id =>
      RpcContext (send_msg ctx) (head ctx) (recv_msg ctx) (err ctx) (on_ok ctx) (on_error ctx) (post_func ctx)
        (barrier_ptr ctx) (is_over ctx) (timer_ptr_ ctx) (duration_ ctx) (u32 reply_id)
  | U_on_ok =>
      RpcContext (send_msg ctx) (head ctx) (recv_msg ctx) (err ctx) true (on_error ctx) (post_func ctx)
        (barrier_ptr ctx) (is_over ctx) (timer_ptr_ ctx) (duration_ ctx) (reply_protocol_id ctx)
  | U_on_error =>
      RpcContext (send_msg ctx) (head ctx) (recv_msg ctx) (err ctx) (on_ok ctx) true (post_func ctx)
        (barrier_ptr ctx) (is_over ctx) (timer_ptr_ ctx) (duration_ ctx) (reply_protocol_id ctx)
  | U_timeout duration => timeout duration ctx
  end.
Definition set_context (id : Z) (ctx : rpc_context H) s : state :=
  match ctxs s !! id with
  | Some _ => set_ctxs (<[id := ctx]> (ctxs s)) s
  | None => on_chan (put id ctx (chan s)) s
  end.
Definition task_update (u : ctx_update) (t : rpc_task) s : ub state :=
  ctx ← deref (ctx_of (t_ctx t) s);
  Def (set_context (t_ctx t) (update_context u ctx) s).

(** [client_->cancel(ctx_)] posts this. *)
Definition run_cancel (id : Z) s : ub state :=
  ctx ← deref (ctx_of id s);
  '(_, calls) ← get_call_from_map (ch_call_id (head ctx)) (calls_ (chan s));
  let c := set_calls calls (to_calls_ (chan s)) (chan s) in
  c ← ctx_error id (net_result_msg ec_cancel "rpc canceled by client") (put id ctx c);
  Def (set_ctxs (delete id (ctxs s)) (on_chan c s)).

(** *** The callbacks of a connect *)
Definition barrier_result (b : nat) s : option net_result := mjoin (barriers s !! b).
Definition notify (b : nat) (r : net_result) s : state :=
  match barrier_result b s with
  | Some _ => s
  | None => set_barriers (<[b := Some r]> (barriers s)) s
  end.
Definition connect_ok (oc : on_connect) s : ub state :=
  match oc with
  | OC_call id =>
      task_call id (if irptr_ (chan s) then emit_task [TE_irouter_connect net_result_default] s else s)
  | OC_user on_ok _ => Def (if on_ok then emit_task [TE_ok] s else s)
  | OC_wait b => Def (notify b net_result_default s)
  end.
Definition connect_error (oc : on_connect) (ec : net_result) s : ub state :=
  match oc with
  | OC_call id => task_call_error id ec s
  | OC_user _ on_error => Def (if on_error then emit_task [TE_error ec] s else s)
  | OC_wait b => Def (notify b ec s)
  end.
Definition oc_funcs (oc : on_connect) : bool * bool :=
  match oc with OC_user on_ok on_error => (on_ok, on_error) | _ => (true, true) end.
(** What a new connect forgets: the functions of the one in flight. *)
Definition forget s : state :=
  match connecting_ s with
  | Some (OC_call id) => set_dropped (dropped s ++ [id]) s
  | _ => s
  end.
(** [client_->start(on_ok, on_error)] *)
Definition task_start (oc : on_connect) s : ub state :=
  let c := start (oc_funcs oc).1 (oc_funcs oc).2 (chan s) in
  if negb (bool_decide (status_ (chan s) = st_disconnected)) then
    if (oc_funcs oc).2 then connect_error oc (net_result_code ec_repeat_connect) (on_chan c s)
    else Def (on_chan c s)
  else Def (set_connecting (Some oc) (on_chan c (forget s))).

(** *** [do_call_managed], of a call and of a connect *)
Definition connect_managed (oc : on_connect) (timer : bool) (duration : Z) s : ub state :=
  if negb timer || (duration <=? 0) then task_start oc s
  else Def (set_timers (timers s ++ [D_start oc]) s).
Definition connect_call_managed (t : connect_task) s : ub state :=
  if ct_dismiss t then Def s
  else connect_managed (OC_user (ct_on_ok t) (ct_on_error t)) (ct_timer t) (ct_duration t) s.
Definition must_connect s : bool :=
  is_client_ (chan s) && bool_decide (status_ (chan s) = st_disconnected).
Definition do_call_managed (t : rpc_task) s : ub state :=
  if t_dismiss t then Def s
  else if must_connect s then
    let ct := ct_delay (t_duration t) connect_task_new in
    connect_managed (OC_call (t_ctx t)) (ct_timer ct) (ct_duration ct) s
  else if negb (t_timer t) || (t_duration t <=? 0) then task_call (t_ctx t) s
  else Def (set_timers (timers s ++ [D_call (t_ctx t)]) s).

(** *** Waiting *)
(** [connect_task::wait], up to where the thread blocks on the barrier it returns. *)
Definition connect_wait (duration : option Z) (t : connect_task) s : ub (option nat * connect_task * state) :=
  if ct_dismiss t then _ ← assert_ub (ct_result t); Def (None, t, s)
  else
    let timeout := match duration with Some d => Some d | None => ct_timeout_duration t end in
    let '(b, s) := match ct_barrier t with
                   | Some b => (b, s)
                   | None => (length (barriers s), set_barriers (barriers s ++ [None]) s)
                   end in
    d ← deref timeout;
    s ← (if 0 <? d then
           _ ← assert_ub (ct_timer_timeout t);
           Def (set_timers (timers s ++ [D_timeout b]) s)
         else Def s);
    s ← task_start (OC_wait b) s;
    Def (Some b, ConnectTask true false false (Some b) true (ct_timer t) (ct_duration t) (ct_timer_timeout t) timeout, s).
(** What [typed_rpc_task::wait] makes of the context; a void result has no [on_ok]. *)
Definition wait_context (duration : Z) (has_result : bool) (ctx : rpc_context H) : rpc_context H :=
  let ctx := timeout duration ctx in
  RpcContext (send_msg ctx) (head ctx) (recv_msg ctx) (err ctx) has_result false (post_func ctx)
    (barrier_ptr ctx) (is_over ctx) (timer_ptr_ ctx) (duration_ ctx) (reply_protocol_id ctx).
Definition with_barrier (id : Z) s : ub state :=
  ctx ← deref (ctx_of id s);
  Def (set_ctxs (<[id := create_barrier ctx]> (ctxs s)) s).
(** [do_call_and_wait], up to where the thread blocks: on a connect, or on the
    context's barrier. *)
Definition do_call_and_wait (k : nat) (duration : Z) (has_result : bool) s : ub state :=
  match mjoin (tasks s !! k) with
  | None => Def s
  | Some t =>
      if t_dismiss t then Def s
      else
        ctx ← deref (ctx_of (t_ctx t) s);
        let s := set_tasks (<[k := Some (task_dismissed t)]> (tasks s)) s in
        let s := set_ctxs (<[t_ctx t := wait_context duration has_result ctx]> (ctxs s)) s in
        if must_connect s then
          '(b, _, s) ← connect_wait None connect_task_new s;
          b ← deref b;
          Def (set_threads (threads s ++ [(b, t_ctx t)]) s)
        else s ← with_barrier (t_ctx t) s; task_call (t_ctx t) s
  end.
(** The thread goes on when its connect is over. *)
Definition resume (i : nat) s : ub state :=
  match threads s !! i with
  | None => Def s
  | Some (b, id) =>
      match barrier_result b s with
      | None => Def s
      | Some r =>
          let s := set_threads (delete i (threads s)) s in
          if is_success r then s ← with_barrier id s; task_call id s
          else Def (emit_task [TE_throw r] (set_dropped (dropped s ++ [id]) s))
      end
  end.

(** *** The machine *)
Inductive tlabel :=
| TL_new (id : Z) (ctx : rpc_context H)       (* a call makes an object *)
| TL_move (k : nat)
| TL_copy (k : nat)
| TL_delay (k : nat) (duration : Z)
| TL_update (k : nat) (u : ctx_update)        (* reply, on_ok, on_error, timeout *)
| TL_cancel (k : nat)
| TL_cancelled                                (* the lambda posted by a cancel *)
| TL_destroy (k : nat)
| TL_wait (k : nat) (duration : Z) (has_result : bool)
| TL_resume (i : nat)
| TL_connect (on_ok on_error : bool) (delay : Z)  (* connect().on_ok(..).on_error(..).delay(..) *)
| TL_connect_wait (duration : option Z)       (* connect().wait(..) *)
| TL_timer (i : nat)
| TL_connected (error : Z)
| TL_chan (l : @label H).
Definition run_delayed (d : delayed) s : ub state :=
  match d with
  | D_call id => task_call id s
  | D_start oc => task_start oc s
  | D_timeout b => Def (notify b (net_result_code ec_timeout) s)
  end.
Definition tstep (l : tlabel) s : ub state :=
  match l with
  | TL_new id ctx =>
      if decide (id ∈ made s) then Def s
      else Def (set_tasks (tasks s ++ [Some (task_new id)])
                  (set_made ({[id]} ∪ made s) (set_ctxs (<[id := ctx]> (ctxs s)) s)))
  | TL_move k =>
      match mjoin (tasks s !! k) with
      | Some t =>
          let '(t', t) := task_move t in Def (set_tasks (<[k := Some t]> (tasks s) ++ [Some t']) s)
      | None => Def s
      end
  | TL_copy k =>
      match mjoin (tasks s !! k) with
      | Some t =>
          let '(t', t) := task_copy t in Def (set_tasks (<[k := Some t]> (tasks s) ++ [Some t']) s)
      | None => Def s
      end
  | TL_delay k d =>
      match mjoin (tasks s !! k) with
      | Some t => Def (set_tasks (<[k := Some (task_delay d t)]> (tasks s)) s)
      | None => Def s
      end
  | TL_update k u =>
      match mjoin (tasks s !! k) with
      | Some t => task_update u t s
      | None => Def s
      end
  | TL_cancel k =>
      match mjoin (tasks s !! k) with
      | Some t => Def (set_cancels (cancels s ++ [t_ctx t]) s)
      | None => Def s
      end
  | TL_cancelled =>
      match cancels s with
      | id :: l => run_cancel id (set_cancels l s)
      | [] => Def s
      end
  | TL_destroy k =>
      match mjoin (tasks s !! k) with
      | Some t => do_call_managed t (set_tasks (<[k := None]> (tasks s)) s)
      | None => Def s
      end
  | TL_wait k d r => do_call_and_wait k d r s
  | TL_resume i => resume i s
  | TL_connect f g d =>
      let ct := if f then ct_set_on_ok connect_task_new else connect_task_new in
      let ct := if g then ct_set_on_error ct else ct in
      connect_call_managed (ct_delay d ct) s
  | TL_connect_wait d => '(_, _, s) ← connect_wait d connect_task_new s; Def s
  | TL_timer i =>
      match timers s !! i with
      | Some d => run_delayed d (set_timers (delete i (timers s)) s)
      | None => Def s
      end
  | TL_connected error =>
      c ← step before_send_func_ after_send_func_ (L_connected error) (chan s);
      match connecting (net (chan s)), connecting_ s with
      | S _, Some oc =>
          let s := set_connecting None (on_chan c s) in
          if error =? 0 then connect_ok oc s
          else connect_error oc (net_result_sys ec_connect_fail error) s
      | _, _ => Def (on_chan c s)
      end
  | TL_chan l =>
      match l with
      | L_call _ _ | L_start _ _ | L_connected _ => Def s   (* made by the tasks *)
      | l => c ← step before_send_func_ after_send_func_ l (chan s); Def (on_chan c s)
      end
  end.
Fixpoint trun (ls : list tlabel) s : ub state :=
  match ls with [] => Def s | l :: ls => s ← tstep l s; trun ls s end.
Definition state_new (c : channel H C) : state := State c ∅ [] None [] [] [] [] ∅ [] [] [].
End task.

(** ** Every call made is in one place *)
(** [one id i]: whether [i] is [id]. *)
Definition one (id i : Z) : nat := Nat.b2n (bool_decide (id = i)).
Definition in_object (i : Z) (o : option rpc_task) : nat :=
  match o with Some t => if t_dismiss t then O else one (t_ctx t) i | None => O end.
Definition in_connect (i : Z) (oc : on_connect) : nat :=
  match oc with OC_call id => one id i | _ => O end.
Definition in_delayed (i : Z) (d : delayed) : nat :=
  match d with D_call id => one id i | D_start oc => in_connect i oc | D_timeout _ => O end.
Definition in_list (i : Z) (l : list Z) : nat := sum_list_with (λ id, one id i) l.
Definition in_threads (i : Z) (l : list (nat * Z)) : nat := sum_list_with (λ t, one t.2 i) l.
(** With an object, waiting for a connect or a timer, handed over, or dropped. *)
Definition places {H C} (i : Z) (s : @state H C) : nat :=
  (sum_list_with (in_object i) (tasks s) + from_option (in_connect i) O (connecting_ s)
   + sum_list_with (in_delayed i) (timers s) + in_threads i (threads s)
   + in_list i (handed s) + in_list i (dropped s))%nat.

Section conserved.
Context {H C : Type} `{CH : CallHeader H} `{CC : CallContainer H C}.
Context (before_send : option (H → bool)) (after_send : bool).
Implicit Types s : @state H C.

(** An operation that makes no context and puts [n i] more of [i] in a place. *)
Definition adds (n : Z → nat) s s' : Prop :=
  made s' = made s ∧ ∀ i, (places i s' = places i s + n i)%nat.
Ltac count_places := split; [done|intros i; unfold places, in_list, in_threads; simpl;
  rewrite ?sum_list_with_app; simpl; lia].

Lemma quiet_trans n s1 s2 s3 : adds (λ _, O) s1 s2 → adds n s2 s3 → adds n s1 s3.
Proof. intros [Hm H12] [Hm' H23]. split; [congruence|]. intros i. rewrite H23, H12. lia. Qed.
Lemma task_call_adds id s s' : task_call id s = Def s' → adds (one id) s s'.
Proof. unfold task_call. intros Hc. inv_def. count_places. Qed.
Lemma task_call_error_adds id ec s s' : task_call_error id ec s = Def s' → adds (one id) s s'.
Proof.
  unfold task_call_error. intros Hc. inv_def. destruct has_callbacks; inv_def; [count_places|].
  destruct irptr_; count_places.
Qed.
Lemma notify_adds b r s : adds (λ _, O) s (notify b r s).
Proof. unfold notify. destruct barrier_result; count_places. Qed.
Lemma connect_ok_adds oc s s' : connect_ok oc s = Def s' → adds (λ i, in_connect i oc) s s'.
Proof.
  destruct oc as [id|[] ?|b]; simpl; intros Hc; inv_def; try count_places; [|apply notify_adds].
  apply task_call_adds in Hc. destruct irptr_; done.
Qed.
Lemma connect_error_adds oc ec s s' : connect_error oc ec s = Def s' → adds (λ i, in_connect i oc) s s'.
Proof.
  destruct oc as [id|? []|b]; simpl; intros Hc; inv_def; try count_places; [|apply notify_adds].
  by apply task_call_error_adds in Hc.
Qed.
Lemma task_start_adds oc s s' : task_start oc s = Def s' → adds (λ i, in_connect i oc) s s'.
Proof.
  unfold task_start. intros Hc. destruct bool_decide; simpl in Hc.
  - inv_def. unfold forget. destruct (connecting_ s) as [[]|] eqn:Hs; split; try done; intros i;
      unfold places, in_list; simpl; rewrite ?Hs, ?sum_list_with_app; simpl; lia.
  - destruct (oc_funcs oc) as [f []] eqn:Ho; simpl in Hc.
    + apply connect_error_adds in Hc. done.
    + inv_def. destruct oc; simplify_eq/=. count_places.
Qed.
Lemma connect_managed_adds oc timer d s s' :
  connect_managed oc timer d s = Def s' → adds (λ i, in_connect i oc) s s'.
Proof.
  unfold connect_managed. destruct (_ || _); intros Hc; [by apply task_start_adds in Hc|].
  inv_def. count_places.
Qed.
Lemma do_call_managed_adds t s s' :
  do_call_managed t s = Def s' → adds (λ i, in_object i (Some t)) s s'.
Proof.
  unfold do_call_managed, in_object. intros Hc. destruct (t_dismiss t); [inv_def; count_places|].
  destruct must_connect; [by apply connect_managed_adds in Hc|].
  destruct (_ || _); [by apply task_call_adds in Hc|]. inv_def. count_places.
Qed.
Lemma connect_call_managed_adds t s s' : connect_call_managed t s = Def s' → adds (λ _, O) s s'.
Proof.
  unfold connect_call_managed. destruct ct_dismiss; intros Hc; [inv_def; count_places|].
  by apply connect_managed_adds in Hc.
Qed.
Lemma connect_wait_adds d t s r s' : connect_wait d t s = Def (r, s') → adds (λ _, O) s s'.
Proof.
  unfold connect_wait. destruct ct_dismiss; intros Hc; [inv_def; count_places|].
  destruct (match ct_barrier t with Some b => _ | None => _ end) as [b s1] eqn:Hb.
  assert (adds (λ _, O) s s1) as H1 by (destruct ct_barrier; simplify_eq; count_places).
  inv_def. eapply quiet_trans; [exact H1|].
  eapply quiet_trans; [|by match goal with Ht : task_start _ _ = _ |- _ => apply task_start_adds in Ht end].
  destruct (0 <? _); inv_def; count_places.
Qed.
Lemma with_barrier_adds id s s' : with_barrier id s = Def s' → adds (λ _, O) s s'.
Proof. unfold with_barrier. intros Hc. inv_def. count_places. Qed.

(** Taking the call out of an object, and what it holds put elsewhere. *)
Lemma taken_adds (k : nat) (t : rpc_task) (o : option rpc_task) s s1 s' :
  tasks s !! k = Some (Some t) → (∀ i, in_object i o = O) →
  adds (λ _, O) (set_tasks (<[k := o]> (tasks s)) s) s1 →
  adds (λ i, in_object i (Some t)) s1 s' → adds (λ _, O) s s'.
Proof.
  intros Hk Ho [Hm1 H1] [Hm2 H2]. split; [simpl in *; congruence|]. intros i.
  rewrite H2, H1. pose proof (sum_list_insert (in_object i) _ _ _ o Hk).
  rewrite Ho in *. unfold places in *. simpl in *. lia.
Qed.
Lemma do_call_and_wait_adds k d r s s' : do_call_and_wait k d r s = Def s' → adds (λ _, O) s s'.
Proof.
  unfold do_call_and_wait. intros Hc. destruct (mjoin _) as [t|] eqn:Hk; [|inv_def; count_places].
  apply mjoin_lookup in Hk. destruct (t_dismiss t) eqn:Ht; [inv_def; count_places|]. inv_def.
  assert (∀ i, one (t_ctx t) i = in_object i (Some t)) as Ho by (intros i; simpl; by rewrite Ht).
  destruct must_connect; inv_def.
  - match goal with Hw : connect_wait _ _ _ = _ |- _ => apply connect_wait_adds in Hw; rename Hw into H1 end.
    eapply (taken_adds k t (Some (task_dismissed t))); [done|done|exact H1|].
    split; [done|]. intros i. rewrite <- Ho. unfold places, in_threads. simpl.
    rewrite sum_list_with_app. simpl. lia.
  - match goal with Hw : with_barrier _ _ = _ |- _ => apply with_barrier_adds in Hw; rename Hw into H1 end.
    eapply (taken_adds k t (Some (task_dismissed t))); [done|done|exact H1|].
    apply task_call_adds in Hc as [? Hc]. split; [done|]. intros i. by rewrite <- Ho.
Qed.
Lemma resume_adds j s s' : resume j s = Def s' → adds (λ _, O) s s'.
Proof.
  unfold resume. intros Hc. destruct (threads s !! j) as [[b id]|] eqn:Hj; [|inv_def; count_places].
  destruct barrier_result as [r|]; [|inv_def; count_places].
  assert (∀ i, (places i (set_threads (delete j (threads s)) s) + one id i = places i s)%nat) as H1.
  { intros i. pose proof (sum_list_delete (λ t, one t.2 i) _ _ _ Hj). unfold places, in_threads. simpl in *. lia. }
  destruct is_success; inv_def.
  - match goal with Hb : with_barrier _ _ = _ |- _ => apply with_barrier_adds in Hb as [Hm Hw] end.
    apply task_call_adds in Hc as [Hm' Hc]. split; [simpl in *; congruence|].
    intros i. rewrite Hc, Hw, <- (H1 i). lia.
  - split; [done|]. intros i. rewrite <- (H1 i). unfold places, in_list. simpl.
    rewrite sum_list_with_app. simpl. lia.
Qed.
Lemma run_delayed_adds d s s' : run_delayed d s = Def s' → adds (λ i, in_delayed i d) s s'.
Proof.
  destruct d as [id|oc|b]; simpl; intros Hc.
  - by apply task_call_adds in Hc.
  - by apply task_start_adds in Hc.
  - inv_def. apply notify_adds.
Qed.

Definition is_copy (l : @tlabel H) : bool := match l with TL_copy _ => true | _ => false end.
(** Each context made is in one place, any other in none. *)
Definition conserved s : Prop := ∀ i, places i s = if decide (i ∈ made s) then 1%nat else O.
Lemma adds_conserved s s' : adds (λ _, O) s s' → conserved s → conserved s'.
Proof. intros [Hm Ha] Hs i. rewrite Ha, Hm, (Hs i). lia. Qed.

Lemma new_conserved id ctx s :
  id ∉ made s → conserved s →
  conserved (set_tasks (tasks s ++ [Some (task_new id)])
               (set_made ({[id]} ∪ made s) (set_ctxs (<[id := ctx]> (ctxs s)) s))).
Proof.
  intros Hid Hs i. specialize (Hs i). revert Hs. unfold places, one. simpl.
  rewrite sum_list_with_app. simpl. unfold one. case_bool_decide; subst; simpl.
  - rewrite decide_False by done. rewrite decide_True by set_solver. lia.
  - intros Hs. rewrite (decide_ext (i ∈ {[id]} ∪ made s) (i ∈ made s)) by set_solver. lia.
Qed.
Lemma tstep_adds l s s' :
  is_copy l = false → (∀ id ctx, l ≠ TL_new id ctx) →
  tstep before_send after_send l s = Def s' → adds (λ _, O) s s'.
Proof.
  intros Hl Hn. destruct l as [id ctx|k|k|k d|k u|k| |k|k d r|j|f g d|d|j|e|l]; simpl; intros Hc;
    [by destruct (Hn id ctx)| |done|..].
  - destruct (mjoin _) as [t|] eqn:Hk; [|inv_def; count_places]. apply mjoin_lookup in Hk. inv_def.
    split; [done|]. intros i. unfold places. simpl. rewrite sum_list_with_app.
    pose proof (sum_list_insert (in_object i) _ _ _ (Some (task_dismissed t)) Hk) as Hi.
    unfold task_dismissed in Hi. simpl in *. lia.
  - destruct (mjoin _) as [t|] eqn:Hk; [|inv_def; count_places]. apply mjoin_lookup in Hk. inv_def.
    split; [done|]. intros i. unfold places. simpl.
    pose proof (sum_list_insert (in_object i) _ _ _ (Some (task_delay d t)) Hk) as Hi.
    unfold task_delay in *. destruct (d <=? 0); simpl in *; lia.
  - destruct (mjoin _) as [t|]; [|inv_def; count_places]. unfold task_update, set_context in Hc.
    inv_def. destruct (ctxs s !! _); count_places.
  - destruct (mjoin _) as [t|]; inv_def; count_places.
  - destruct (cancels s); [inv_def; count_places|]. unfold run_cancel in Hc. inv_def. count_places.
  - destruct (mjoin _) as [t|] eqn:Hk; [|inv_def; count_places]. apply mjoin_lookup in Hk.
    apply do_call_managed_adds in Hc.
    by eapply (taken_adds k t None); [done|done|split; [done|intros; lia]|].
  - by apply do_call_and_wait_adds in Hc.
  - by apply resume_adds in Hc.
  - by apply connect_call_managed_adds in Hc.
  - inv_def. by match goal with Hw : connect_wait _ _ _ = _ |- _ => apply connect_wait_adds in Hw end.
  - destruct (timers s !! j) as [d|] eqn:Hj; [|inv_def; count_places].
    apply run_delayed_adds in Hc as [Hm Hc]. split; [done|]. intros i. rewrite Hc.
    pose proof (sum_list_delete (in_delayed i) _ _ _ Hj). unfold places in *. simpl in *. lia.
  - inv_def. destruct (connecting _); [inv_def; count_places|].
    destruct (connecting_ s) as [oc|] eqn:Ho; [|inv_def; count_places].
    assert (adds (λ i, in_connect i oc) (set_connecting None (on_chan a s)) s') as [Hm Ha']
      by (destruct (e =? 0); [by apply connect_ok_adds in Hc|by apply connect_error_adds in Hc]).
    split; [done|]. intros i. rewrite Ha'. unfold places. simpl. rewrite Ho. simpl. lia.
  - destruct l; inv_def; count_places.
Qed.
Lemma trun_conserved ls s s' :
  Forall (λ l, is_copy l = false) ls → trun before_send after_send ls s = Def s' →
  conserved s → conserved s'.
Proof.
  intros Hls. revert s. induction Hls as [|l ls Hl _ IH]; intros s Hr Hs; simpl in Hr; [by inv_def|].
  inv_def. apply (IH _ Hr). destruct l; try by (eapply adds_conserved; [|done]; by eapply tstep_adds).
  simpl in Ha. destruct (decide _); inv_def; [done|]. by apply new_conserved.
Qed.
Lemma in_list_NoDup (l : list Z) : (∀ i, (in_list i l <= 1)%nat) → NoDup l.
Proof.
  induction l as [|x l IH]; intros Hl; constructor.
  - intros Hx. specialize (Hl x). unfold in_list, one in Hl. simpl in Hl.
    rewrite bool_decide_true in Hl by done. simpl in Hl.
    apply list_elem_of_split in Hx as (l1 & l2 & ->).
    rewrite sum_list_with_app in Hl. simpl in Hl. rewrite bool_decide_true in Hl by done. simpl in Hl. lia.
  - apply IH. intros i. specialize (Hl i). unfold in_list in *. simpl in Hl. lia.
Qed.
End conserved.

(** ** Theorems *)

Section tasks.
Context {H C : Type} `{CH : CallHeader H} `{CC : CallContainer H C}.
Context (before_send : option (H → bool)) (after_send : bool).

(** C31: Calls are conserved: whatever happens to the tasks, their timers, their
    connects and the channel, as long as no task is copied, each call made is at any
    time in exactly one place: with an object that will make it, waiting for a timer or
    a connect, handed to the channel, or dropped by a connect that failed or was
    superseded. So no call is handed to the channel twice. *)
Theorem calls_conserved (c : channel H C) (ls : list tlabel) (s : state) :
  Forall (λ l, is_copy l = false) ls →
  trun before_send after_send ls (state_new c) = Def s →
  NoDup (handed s) ∧ ∀ id, places id s = if decide (id ∈ made s) then 1%nat else 0%nat.
Proof.
  intros Hls Hr. assert (conserved s) as Hs.
  { apply (trun_conserved _ _ _ _ _ Hls Hr). intros i. by rewrite decide_False by set_solver. }
  split; [|exact Hs]. apply in_list_NoDup. intros i. specialize (Hs i). unfold places in Hs.
  destruct (decide _); lia.
Qed.

(** [wait] of a connect task that was moved: the duration that decides whether there
    is a timeout is indeterminate, and a timeout given has no timer. *)
Theorem moved_connect_task_cannot_wait (t : connect_task) (duration : option Z) (s : @state H C) :
  ct_dismiss t = false → (duration = None ∨ ∃ d, duration = Some d ∧ 0 < d) →
  connect_wait duration (connect_task_move t).1 s = Undef.
Proof.
  intros Ht Hd. unfold connect_wait. simpl. rewrite Ht.
  destruct Hd as [->|(d & -> & Hd)]; destruct (ct_barrier t); simpl; try done;
    by rewrite (proj2 (Z.ltb_lt _ _) Hd).
Qed.
(** [timeout(int)] of a connect task is its [delay]. *)
Theorem connect_timeout_delays (milliseconds : Z) (t : connect_task) :
  0 < milliseconds →
  ct_timeout_duration (ct_timeout_ms milliseconds t) = ct_timeout_duration t ∧
  ct_duration (ct_timeout_ms milliseconds t) = milliseconds.
Proof. intros Hm. unfold ct_timeout_ms, ct_delay. by rewrite (proj2 (Z.ltb_lt _ _) Hm). Qed.
End tasks.

(** *** Runs of a client of a server *)
#[local] Instance head_by_id : CallHeader (list Z) := server_call_header false.
Notation task_state := (@state (list Z) ById.call_container).
Definition task_client : task_state := state_new (channel_new (replicate 24 0) false true true).
Definition task_ctx (n : Z) : rpc_context (list Z) :=
  RpcContext [n] (Sample.call_head false 0 1) [] net_result_default true true false None false false 0 0.
Definition task_run (ls : list tlabel) : ub task_state := trun None false ls task_client.

(** The first call connects; the second, moved about, is made meanwhile; the third
    waits for its reply. *)
Definition three_calls : list (@tlabel (list Z)) :=
  [TL_new 1 (task_ctx 1); TL_destroy 0; TL_new 2 (task_ctx 2); TL_move 1; TL_destroy 1; TL_destroy 2;
   TL_connected 0; TL_new 3 (task_ctx 3); TL_update 3 (U_reply 7); TL_wait 3 1000 true; TL_destroy 3; TL_chan (L_sent 0); TL_chan (L_sent 0)].
Lemma calls_conserved_witness :
  match task_run three_calls with
  | Def s => NoDup (handed s) ∧ handed s = [2; 1; 3]
  | Undef => False
  end.
Proof.
  destruct (task_run three_calls) as [s|] eqn:Hr; [|vm_compute in Hr; discriminate].
  split; [|vm_compute in Hr; injection Hr as <-; vm_compute; reflexivity].
  destruct (calls_conserved None false (channel_new (replicate 24 0) false true true) three_calls s)
    as [Hd _]; [repeat constructor|exact Hr|exact Hd].
Defined.

Definition handed_of (m : ub task_state) : option (list Z * list Z * list Z) :=
  match m with Def s => Some (handed s, dropped s, fst <$> sent (net (chan s))) | Undef => None end.
(** A call made while the client connects is sent before the one it connects for. *)
Example call_overtakes_connecting_call :
  handed_of (task_run three_calls) = Some ([2; 1; 3], [], [2; 1; 3]).
Proof. vm_compute. reflexivity. Qed.
(** A typed task has only a copy constructor: [auto t = client->call(..).on_ok(..)]
    leaves two objects that both make the call. *)
Example copied_task_calls_twice :
  handed_of (task_run [TL_new 1 (task_ctx 1); TL_connect true true 0; TL_connected 0; TL_copy 0; TL_destroy 0; TL_destroy 1;
                          TL_chan L_task; TL_chan (L_sent 0)])
  = Some ([1; 1], [], [1; 1]).
Proof. vm_compute. reflexivity. Qed.
(** A call delayed on a client that is not connected fails with [repeat_connect] when
    the client connects before the delay is over. *)
Example delayed_call_fails_on_connected_client :
  (λ s, (status_ (chan s), handed s, dropped s, err <$> store (chan s) !! 1)) <$>
    match task_run [TL_new 1 (task_ctx 1); TL_delay 0 50; TL_destroy 0; TL_new 2 (task_ctx 2); TL_destroy 1;
                    TL_connected 0; TL_timer 0] with Def s => Some s | Undef => None end
  = Some (st_connected, [2], [1], Some (net_result_code ec_repeat_connect)).
Proof. vm_compute. reflexivity. Qed.
(** A connect that follows a disconnect forgets the call the first one was for: none
    of its callbacks is called. *)
Example superseded_connect_loses_call :
  (λ s, (handed s, dropped s, completions 1 (events (chan s)), task_events s)) <$>
    match task_run [TL_new 1 (task_ctx 1); TL_destroy 0; TL_chan L_disconnect; TL_new 2 (task_ctx 2); TL_destroy 1;
                    TL_connected 0; TL_connected 0] with Def s => Some s | Undef => None end
  = Some ([2], [1], 0%nat, [TE_irouter_connect net_result_default]).
Proof. vm_compute. reflexivity. Qed.
(** [cancel] answers the call, but the task still makes it. *)
Example cancelled_call_is_sent :
  (λ s, (fst <$> sent (net (chan s)), err <$> store (chan s) !! 1)) <$>
    match task_run [TL_connect true true 0; TL_connected 0; TL_new 1 (task_ctx 1); TL_cancel 0; TL_cancelled;
                    TL_destroy 0; TL_chan L_task] with Def s => Some s | Undef => None end
  = Some ([1], Some (net_result_msg ec_cancel "rpc canceled by client")).
Proof. vm_compute. reflexivity. Qed.
