(* ===== verification/Router.v ===== *)
(** * The rpc router ([network/rpc/net/router.hpp], [router_impl.hpp],
      [invoker_traits.hpp], [router_register.hpp])

    The server's side of a call: the router looks a message's protocol up among
    the registered invokers, the invoker unpacks the arguments, runs the handler
    and answers through the channel.  Generic in the header, whose laws
    [CallHeaderLaws] states for both headers.  A handler is a function of the
    header it may change and the body, with what it returns, packed, or throws. *)
From stdpp Require Import base option list numbers gmap strings.
From S2P Require Import Prelude NetOrder Proto MemoryStream RawMsg RpcHeader RpcContext RpcChannel.
Local Open Scope Z_scope.

(** ** What the router needs of a header *)
Class CallHeaderLaws (H : Type) `{CH : CallHeader H} := {
  ch_wf : H → Prop;
  (** where the caller's container keeps the call a header is answered to *)
  ch_reply_key : H → Z;
  ch_result_range h : ch_wf h → 0 ≤ ch_result h < 2 ^ 16;
  ch_need_not_reply h : ch_need_reply h = true → ch_is_reply h = false;
  ch_reply_spec h : ch_wf h →
    ch_wf (ch_reply h true) ∧ ch_is_reply (ch_reply h true) = true ∧
    ch_need_reply (ch_reply h true) = false ∧ ch_result (ch_reply h true) = ch_result h ∧
    ch_call_id (ch_reply h true) = ch_reply_key h;
  ch_set_result_spec h r : ch_wf h → 0 ≤ r < 2 ^ 16 →
    ch_wf (ch_set_result h r) ∧ ch_is_reply (ch_set_result h r) = ch_is_reply h ∧
    ch_need_reply (ch_set_result h r) = ch_need_reply h ∧ ch_result (ch_set_result h r) = r ∧
    ch_proto (ch_set_result h r) = ch_proto h;
  ch_set_length_spec h n : ch_wf h → 0 ≤ n < 2 ^ 32 →
    ch_wf (ch_set_length h n) ∧ ch_is_reply (ch_set_length h n) = ch_is_reply h ∧
    ch_need_reply (ch_set_length h n) = ch_need_reply h ∧
    ch_result (ch_set_length h n) = ch_result h ∧ ch_length (ch_set_length h n) = n ∧
    ch_call_id (ch_set_length h n) = ch_call_id h ∧ ch_proto (ch_set_length h n) = ch_proto h;
  ch_ntoh_hton h : ch_wf h → ch_ntoh (ch_hton h) = h
}.

(** ** Definitions *)
(** *** Bodies of messages taken off a channel
    [msg->body()] of a message that is not const returns a copy, and the copy
    constructor initialises nothing: a member that was not written is [None]. *)
Record body_copy := BodyCopy {
  bc_data : option (option (list Z)); bc_block : option bool; bc_length : option Z; bc_offset : option Z
}.
Definition copy_body (other : msg_body) : body_copy := BodyCopy None None None None.
Definition body_copy_free (b : body_copy) : ub unit :=
  d ← deref (bc_data b);
  match d with
  | Some _ => block ← deref (bc_block b); assert_ub block
  | None => Def tt
  end.
Definition body_copy_reset (b : body_copy) (data_ptr : list Z) (block : bool) (data_size : Z) : ub body_copy :=
  _ ← body_copy_free b;
  Def (BodyCopy (Some (Some data_ptr)) (Some block) (Some (u32 data_size)) (Some 0)).

Section router.
Context {H : Type} `{CH : CallHeader H}.
Implicit Types h : H.

(** *** Invokers *)
(** What a handler makes of a request; with it the header it leaves. *)
Inductive handler_out :=
| H_returns (h : H) (message : list Z)   (* packed; nothing of [void] *)
| H_throws (h : H) (code : error_code).  (* a [net_exception], of unpacking too *)
Inductive ap_event :=
| Ap_response (ctx : rpc_context H)      (* conn->response(ctx) *)
| Ap_on_receive (h : H) (data : list Z). (* conn->get_irouter()->on_receive *)
Record inv_result := InvResult { ir_head : H; ir_events : list ap_event; ir_exit : option error_code }.

(** [invoker_traits::get]: with and without a function to call after the reply
    has been sent. *)
Definition codec_invoke (handler : H → list Z → handler_out) (post : bool) h (data : list Z) : inv_result :=
  let recv_proto := ch_proto h in
  match handler h data with
  | H_throws h code => InvResult h [] (Some code)
  | H_returns h message =>
      if ch_result h =? result_code_val rc_not_reply then InvResult h [] None
      else if recv_proto =? ch_proto h then
        if negb (ch_need_reply h) then InvResult h [] None
        else
          let h := ch_reply h true in
          InvResult h [Ap_response (make_message h message post)] None
      else InvResult h [Ap_response (make_message h message post)] None
  end.

(** What is registered: such an invoker, or a function of the connection, the header
    and the data. *)
Inductive invoker :=
| Codec_invoker (handler : H → list Z → handler_out) (post : bool)
| Raw_invoker (f : H → list Z → inv_result).
Definition invoke (i : invoker) h (data : list Z) : inv_result :=
  match i with
  | Codec_invoker handler post => codec_invoke handler post h data
  | Raw_invoker f => f h data
  end.

(** *** The router *)
Record router := Router {
  invokers_ : gmap Z (option invoker);          (* a function may be empty *)
  before_invoker_ : option (H → list Z → bool);
  proto_invokers_ : list ((H → bool) * invoker)
}.
Definition router_new : router := Router ∅ None [].
Definition set_invokers (m : gmap Z (option invoker)) (rt : router) : router :=
  Router m (before_invoker_ rt) (proto_invokers_ rt).
Definition base_register_invoker (name : Z) (i : option invoker) (rt : router) : bool * router :=
  match invokers_ rt !! name with
  | Some _ => (false, rt)
  | None => (true, set_invokers (<[name := i]> (invokers_ rt)) rt)
  end.
Definition register_codec_invoker_impl (proto_hash : Z) (handler : H → list Z → handler_out) (post : bool)
    (rt : router) : bool * router :=
  match invokers_ rt !! proto_hash with
  | Some _ => (false, rt)
  | None => (true, set_invokers (<[proto_hash := Some (Codec_invoker handler post)]> (invokers_ rt)) rt)
  end.
Definition register_raw_invoker_impl (proto_hash : Z) (i : option invoker) (rt : router) : bool * router :=
  match invokers_ rt !! proto_hash with
  | Some _ => (false, rt)
  | None => (true, set_invokers (<[proto_hash := i]> (invokers_ rt)) rt)
  end.
(** A handler is registered by protocol number or by name, through its hash. *)
Definition register_handler (protocol : Z) handler post rt : bool * router :=
  register_codec_invoker_impl protocol handler post rt.
Definition register_handler_name (hash_ : string → Z) (name : string) handler post rt : bool * router :=
  register_codec_invoker_impl (hash_ name) handler post rt.
Definition register_raw_handler (protocol : Z) i rt : bool * router := register_raw_invoker_impl protocol i rt.
Definition set_before_invoker (f : option (H → list Z → bool)) (rt : router) : router :=
  Router (invokers_ rt) f (proto_invokers_ rt).

Fixpoint proto_invoker (l : list ((H → bool) * invoker)) h : option invoker :=
  match l with
  | [] => None
  | (func, i) :: l => if func h then Some i else proto_invoker l h
  end.
(** The [try] block of [apply_invoker]; [irouter]: whether the channel has one. *)
Definition apply_try (irouter : bool) (rt : router) h (data : list Z) : inv_result :=
  if match before_invoker_ rt with Some f => negb (f h data) | None => false end
  then InvResult h [] None
  else
    match proto_invoker (proto_invokers_ rt) h with
    | Some i => invoke i h data
    | None =>
        match invokers_ rt !! ch_proto h with
        | None =>
            if irouter then InvResult h [Ap_on_receive h data] None
            else if ch_need_reply h
            then InvResult h [Ap_response (make_error_message h ec_no_handler)] None
            else InvResult h [] None
        | Some None =>
            if negb (ch_need_reply h) then InvResult h [] None
            else InvResult h [Ap_response (make_error_message h ec_no_handler)] None
        | Some (Some i) => invoke i h data
        end
    end.
Definition apply_invoker (irouter : bool) (rt : router) h (data : list Z) : list ap_event :=
  let r := apply_try irouter rt h data in
  match ir_exit r with
  | None => ir_events r
  | Some code =>
      if negb (ch_need_reply (ir_head r)) then ir_events r
      else ir_events r ++ [Ap_response (make_error_message (ir_head r) code)]
  end.
End router.
Arguments H_returns {H}. Arguments H_throws {H}. Arguments Ap_response {H}. Arguments Ap_on_receive {H}.
Arguments InvResult {H}. Arguments handler_out : clear implicits. Arguments ap_event : clear implicits.
Arguments inv_result : clear implicits. Arguments invoker : clear implicits. Arguments router : clear implicits.
Arguments Codec_invoker {H}. Arguments Raw_invoker {H}. Arguments Router {H}. Arguments router_new {H}.

(** [router_register::init_callback_functions]: the function a channel calls with
    the header and its buffer makes a message of them, to be posted. *)
Section on_read.
Context `{ALLOC : Allocator} {H : Type} `{HDR : Header H}.
Definition on_read (header : H) (read_buffer : list Z) : ub (H * body_copy) :=
  let msg := basic_msg_of_header header in
  b ← body_copy_reset (copy_body (m_body msg)) read_buffer false (Z.of_nat (length read_buffer));
  _ ← body_copy_free b;
  Def (header, b).
End on_read.

(** ** The two headers *)
(** *** The union of internal and server headers *)
Record header_view := HeaderView {
  v_is_reply : bool; v_need_reply : bool; v_proto : Z; v_call_id : Z; v_result : Z; v_length : Z
}.
Definition view (h : list Z) : header_view :=
  HeaderView (is_reply h) (need_reply h) (proto h) (call_id h) (result h) (msg_length h).
Lemma internal_view i :
  internal_ok i → imh_flag i = 65535 →
  header_wf (internal_bytes i) ∧
  view (internal_bytes i) = HeaderView (mo_is_reply (imh_option i))
    (negb (mo_is_reply (imh_option i)) && negb (mo_is_one_way (imh_option i)))
    (imh_hash i) (imh_call_id i) (imh_result i) (imh_len i).
Proof.
  intros Hi Hf. destruct (on_internal i Hi Hf) as [Hb Hh]. split; [by apply internal_bytes_wf|].
  unfold view, is_reply, need_reply, proto, call_id, result, msg_length. by rewrite Hb, Hh.
Qed.
Lemma server_view s :
  server_ok s → smh_from_unique_id s ≠ 65535 →
  let p := to_protocol (smh_protocol_id s) in
  header_wf (server_bytes s) ∧
  view (server_bytes s) = HeaderView (fp_is_reply p) (negb (fp_is_reply p) && fp_need_reply p)
    (smh_protocol_id s) (smh_call_id s) (smh_result s) (smh_length s).
Proof.
  intros Hs Hf. destruct (on_server s Hs Hf) as [Hb Hh]. split; [by apply server_bytes_wf|].
  unfold view, is_reply, need_reply, proto, call_id, result, msg_length. by rewrite Hb, Hh.
Qed.
Lemma server_update f t c i re v p l i' re' p' l' :
  server_ok (ServerMsgHeader f t c i re v p l) →
  0 ≤ i' < 2 ^ 32 → 0 ≤ re' < 2 ^ 16 → 0 ≤ p' < 2 ^ 32 → 0 ≤ l' < 2 ^ 32 →
  server_ok (ServerMsgHeader f t c i' re' v p' l').
Proof.
  unfold server_ok, server_sizes, server_fields, field_ok. simpl. intros Hok. intros.
  rewrite !Forall2_cons in *. naive_solver lia.
Qed.
Lemma server_fields_range f t c i re v p l :
  server_ok (ServerMsgHeader f t c i re v p l) →
  0 ≤ i < 2 ^ 32 ∧ 0 ≤ re < 2 ^ 16 ∧ 0 ≤ p < 2 ^ 32 ∧ 0 ≤ l < 2 ^ 32.
Proof.
  unfold server_ok, server_sizes, server_fields, field_ok. simpl. rewrite !Forall2_cons. naive_solver lia.
Qed.

Lemma set_result_view h r :
  header_wf h → 0 ≤ r < 2 ^ 16 →
  header_wf (set_result h r) ∧
  view (set_result h r) = let v := view h in
    HeaderView (v_is_reply v) (v_need_reply v) (v_proto v) (v_call_id v) r (v_length v).
Proof.
  intros Hwf Hr. destruct (header_cases h Hwf) as [(i&Hi&Hf&->)|(s&Hs&Hf&->)].
  - destruct (internal_view i Hi Hf) as [_ Hv]. rewrite Hv.
    destruct (on_internal i Hi Hf) as [Hb Hh]. unfold set_result. rewrite Hb, Hh.
    destruct i as [f re o rb c l hash]. cbn [imh_flag imh_result imh_option imh_reserve_bytes imh_call_id imh_len imh_hash] in *.
    apply (internal_view (InternalMsgHeader f r o rb c l hash)); [|done].
    unfold internal_ok, field_ok in *. simpl in *. naive_solver lia.
  - destruct (server_view s Hs Hf) as [_ Hv]. rewrite Hv.
    destruct (on_server s Hs Hf) as [Hb Hh]. unfold set_result. rewrite Hb, Hh.
    destruct s as [f t c i re v p l]. cbn [smh_from_unique_id smh_to_unique_id smh_conn_id smh_call_id smh_result smh_reserve_bytes
      smh_protocol_id smh_length] in *.
    apply (server_view (ServerMsgHeader f t c i r v p l)); [|done].
    destruct (server_fields_range _ _ _ _ _ _ _ _ Hs) as (?&?&?&?). by eapply server_update.
Qed.
Lemma set_length_view h n :
  header_wf h → 0 ≤ n < 2 ^ 32 →
  header_wf (set_msg_length h n) ∧
  view (set_msg_length h n) = let v := view h in
    HeaderView (v_is_reply v) (v_need_reply v) (v_proto v) (v_call_id v) (v_result v) n.
Proof.
  intros Hwf Hr. destruct (header_cases h Hwf) as [(i&Hi&Hf&->)|(s&Hs&Hf&->)].
  - destruct (internal_view i Hi Hf) as [_ Hv]. rewrite Hv.
    destruct (on_internal i Hi Hf) as [Hb Hh]. unfold set_msg_length. rewrite Hb, Hh.
    destruct i as [f re o rb c l hash]. cbn [imh_flag imh_result imh_option imh_reserve_bytes imh_call_id imh_len imh_hash] in *.
    apply (internal_view (InternalMsgHeader f re o rb c n hash)); [|done].
    unfold internal_ok, field_ok in *. simpl in *. naive_solver lia.
  - destruct (server_view s Hs Hf) as [_ Hv]. rewrite Hv.
    destruct (on_server s Hs Hf) as [Hb Hh]. unfold set_msg_length. rewrite Hb, Hh.
    destruct s as [f t c i re v p l]. cbn [smh_from_unique_id smh_to_unique_id smh_conn_id smh_call_id smh_result smh_reserve_bytes
      smh_protocol_id smh_length] in *.
    apply (server_view (ServerMsgHeader f t c i re v p n)); [|done].
    destruct (server_fields_range _ _ _ _ _ _ _ _ Hs) as (?&?&?&?). by eapply server_update.
Qed.
Lemma reply_view h :
  header_wf h →
  header_wf (reply h true) ∧ is_reply (reply h true) = true ∧ need_reply (reply h true) = false ∧
  result (reply h true) = result h ∧ call_id (reply h true) = call_id h.
Proof.
  intros Hwf. destruct (header_accessors_agree h 0 0 Hwf) as (_&_&_&Hrt&Hir&Hnr&_); [done..|].
  unfold routing in Hrt. injection Hrt as Hc _ Hre. split; [|done].
  destruct (header_cases h Hwf) as [(i&Hi&Hf&->)|(s&Hs&Hf&->)].
  - destruct (on_internal i Hi Hf) as [Hb Hh]. unfold reply. rewrite Hb, Hh. apply internal_bytes_wf.
    destruct i. unfold internal_ok, field_ok, option_ok in *. simpl in *. naive_solver.
  - destruct (on_server s Hs Hf) as [Hb Hh]. unfold reply. rewrite Hb, Hh. apply server_bytes_wf.
    destruct s as [f t c i re v p l]. cbn [smh_from_unique_id smh_to_unique_id smh_conn_id smh_call_id smh_result smh_reserve_bytes
      smh_protocol_id smh_length] in *.
    destruct (server_fields_range _ _ _ _ _ _ _ _ Hs) as (?&?&?&?).
    eapply server_update; [done..|apply reply_protocol_range|done].
Qed.
#[export] Instance server_header_laws be : CallHeaderLaws (CH := server_call_header be) (list Z).
Proof.
  refine {| ch_wf := header_wf : list Z → Prop; ch_reply_key := call_id |}; simpl.
  - intros h Hwf. destruct (header_cases h Hwf) as [(i&Hi&Hf&->)|(s&Hs&Hf&->)].
    + destruct (internal_view i Hi Hf) as [_ Hv]. change (result (internal_bytes i)) with (v_result (view (internal_bytes i))).
      rewrite Hv. cbn [v_result]. unfold internal_ok, field_ok in Hi. naive_solver lia.
    + destruct (server_view s Hs Hf) as [_ Hv]. change (result (server_bytes s)) with (v_result (view (server_bytes s))).
      rewrite Hv. cbn [v_result]. destruct s. simpl. by destruct (server_fields_range _ _ _ _ _ _ _ _ Hs) as (_&?&_).
  - intros h. unfold is_reply, need_reply. case_match; intros [Hr _]%andb_true_iff; by apply negb_true_iff.
  - apply reply_view.
  - intros h r Hwf Hr. destruct (set_result_view h r Hwf Hr) as [? Hv].
    split_and!; [done|exact (f_equal v_is_reply Hv)|exact (f_equal v_need_reply Hv)
      |exact (f_equal v_result Hv)|exact (f_equal v_proto Hv)].
  - intros h n Hwf Hn. destruct (set_length_view h n Hwf Hn) as [? Hv].
    split_and!; [done|exact (f_equal v_is_reply Hv)|exact (f_equal v_need_reply Hv)
      |exact (f_equal v_result Hv)|exact (f_equal v_length Hv)|exact (f_equal v_call_id Hv)
      |exact (f_equal v_proto Hv)].
  - intros h Hwf. by apply rpc_hton_spec.
Defined.

(** *** The header of clients *)
#[export] Instance client_header_laws be : CallHeaderLaws (CH := client_call_header be) client_msg_header.
Proof.
  refine {| ch_wf := client_ok; ch_reply_key h := reply_protocol (cmh_protocol_id h) |}; simpl.
  - intros [r v p l] Hwf. unfold client_ok, client_fields, client_sizes, field_ok in Hwf. simpl in *.
    rewrite !Forall2_cons in Hwf. naive_solver lia.
  - intros h [Hr _]%andb_true_iff. by apply negb_true_iff.
  - intros [r v p l] Hwf. unfold client_ok, client_reply, client_is_reply, client_need_reply in *.
    cbn [cmh_result cmh_reserve_bytes cmh_protocol_id cmh_length] in *.
    rewrite reply_protocol_flags. split; [|done].
    unfold client_fields, client_sizes, field_ok in *. simpl in *. rewrite !Forall2_cons in *.
    pose proof (reply_protocol_range p). naive_solver lia.
  - intros [r0 v p l] r Hwf Hr. split; [|done].
    unfold client_ok, client_fields, client_sizes, field_ok in *. simpl in *. rewrite !Forall2_cons in *.
    naive_solver lia.
  - intros [r v p l] n Hwf Hn. split; [|done].
    unfold client_ok, client_fields, client_sizes, field_ok in *. simpl in *. rewrite !Forall2_cons in *.
    naive_solver lia.
  - intros [r v p l] Hwf. destruct be; [|done].
    unfold client_ok, client_fields, client_sizes in Hwf. simpl in Hwf. rewrite !Forall2_cons in Hwf.
    destruct Hwf as ([_ [_ ?]%ushort_swap]&[_ [_ ?]%ushort_swap]&[_ [_ ?]%uint_swap]&[_ [_ ?]%uint_swap]&_).
    unfold client_ntoh, client_hton. cbn -[ntoh hton]. by f_equal.
Defined.

(** ** A message through both channels *)
Class ReplyContainer (H C : Type) `{CH : CallHeader H} `{CC : CallContainer H C} := {
  rc_push id (ctx : rpc_context H) c :
    context_need_reply ctx = false → (push_call id ctx c).1 = ctx
}.
#[export] Instance by_id_replies be :
  ReplyContainer (CH := server_call_header be) (list Z) ById.call_container.
Proof.
  split. intros id ctx c Hn. unfold context_need_reply in Hn. simpl in *. unfold ById.push_call.
  by rewrite Hn.
Qed.
#[export] Instance by_protocol_replies be :
  ReplyContainer (CH := client_call_header be) (CC := by_protocol_container (CH := client_call_header be))
    client_msg_header ByProtocol.call_container.
Proof. by split. Qed.

Section trip.
Context {H C : Type} `{HL : CallHeaderLaws H} `{CL : CallContainerLaws H C} `{RC : !ReplyContainer H C}.
Implicit Types (h : H) (ctx : rpc_context H) (s : channel H C).

(** A channel that is connected and has nothing to send. *)
Definition idle s : Prop :=
  status_ s = st_connected ∧ to_calls_ s = [] ∧ call_list_ (calls_ s) = [] ∧ posts s = [].
Lemma call_impl1_sends s id l ctx :
  to_calls_ s = id :: l → store s !! id = Some ctx →
  on_ok ctx || on_error ctx || bool_decide (is_Some (barrier_ptr ctx)) = false →
  call_impl1 None s =
    Def (start_write id (ch_bytes (ch_hton (head ctx)) ++ send_msg ctx) (put id (context_hton ctx) s)).
Proof.
  intros Hto Hs Hb. unfold call_impl1. rewrite Hto, Hs. cbn [deref mbind ub_bind]. unfold set_timeout.
  assert (store (put id (context_hton ctx) s) !! id = Some (context_hton ctx)) as Hp
    by apply lookup_insert_eq.
  rewrite Hp. cbn [deref mbind ub_bind].
  change (on_ok (context_hton ctx)) with (on_ok ctx). change (on_error (context_hton ctx)) with (on_error ctx).
  change (barrier_ptr (context_hton ctx)) with (barrier_ptr ctx). rewrite Hb. cbn [deref mbind ub_bind].
  by rewrite Hp.
Qed.
Lemma call_context_idle s id ctx c :
  idle s → push_call id ctx (calls_ s) = (ctx, c) →
  call_context id ctx s = Def (post Tk_call (put id ctx (set_calls c (to_calls_ s) (put id ctx s)))).
Proof.
  intros (Hst&_&Hcl&_) Hpush. unfold call_context.
  change (status_ (put id ctx s)) with (status_ s). change (calls_ (put id ctx s)) with (calls_ s).
  rewrite Hst. cbn [bool_decide negb andb]. unfold call_list_empty. rewrite Hcl, Hpush.
  change (status_ (put id ctx (set_calls c (to_calls_ (put id ctx s)) (put id ctx s)))) with (status_ s).
  by rewrite Hst.
Qed.
Lemma idle_sends D s id ctx after :
  idle s → cc_ok D (calls_ s) → id ∈ D → store s !! id = None →
  context_need_reply ctx = false → have_reply_process ctx = false →
  ∃ s', run None after [L_call id ctx; L_task] s = Def s' ∧
    writing (net s') = writing (net s) ++ [(id, ch_bytes (ch_hton (head ctx)) ++ send_msg ctx)].
Proof.
  intros Hidle Hok Hin Hstore Hn Hh. pose proof Hidle as (Hst&Hto&Hcl&Hp).
  destruct (cc_push D id ctx (calls_ s) Hok Hin) as [Hl Hok'].
  destruct (cc_take_list _ _ Hok') as (Ht&_&_). rewrite Hcl in Hl. simpl in Hl. rewrite Hl in Ht.
  pose proof (rc_push id ctx (calls_ s) Hn) as Hctx. unfold have_reply_process in Hh.
  apply orb_false_iff in Hh as [Hh _].
  destruct (push_call id ctx (calls_ s)) as [ctx' c'] eqn:Hpush. simpl in Hctx, Hl, Ht. subst ctx'.
  destruct (task_calls_from_list c') as [to c''] eqn:Htake. simpl in Ht. subst to.
  cbn [run step]. rewrite Hstore, (call_context_idle s id ctx c' Hidle Hpush). cbn [mbind ub_bind].
  set (s1 := put id ctx (set_calls c' (to_calls_ s) (put id ctx s))).
  change (posts (post Tk_call s1)) with (posts s ++ [Tk_call]). rewrite Hp. cbn [app].
  unfold run_chan_task. change (to_calls_ (set_posts [] (post Tk_call s1))) with (to_calls_ s). rewrite Hto.
  unfold call_impl, call_list_empty. change (calls_ (set_posts [] (post Tk_call s1))) with c'.
  rewrite Hl. cbn [bool_decide negb]. rewrite bool_decide_false by done. cbn [negb]. rewrite Htake.
  rewrite (call_impl1_sends _ id [] ctx); [|done| |done]; [by eexists|].
  apply lookup_insert_eq.
Qed.

(** What a client that waits for the answer to a call makes of one. *)
Definition waits_for key id ctx c s : Prop :=
  socket_open (net s) = true ∧ reading (net s) = [R_head] ∧
  get_call_from_map key (calls_ s) = Def (Some id, c) ∧ store s !! id = Some ctx ∧
  is_over ctx = false ∧ on_ok ctx = true ∧ recv_msg ctx = [].
Definition arrives h (r : list Z) : list (@label H) :=
  L_head 0 h :: (if bool_decide (r = []) then [] else [L_data 0 r]).
Lemma ctx_ok_waiting s id ctx :
  store s !! id = Some ctx → is_over ctx = false → on_ok ctx = true →
  ∃ s', ctx_ok id s = Def s' ∧ events s' = events s ++ (Ev_callback id <$>
    (Cb_ok (recv_msg ctx) :: if barrier_ptr ctx then [Cb_notify] else [])).
Proof.
  intros Hs Hover Hon. unfold ctx_ok. rewrite Hs. cbn [deref mbind ub_bind].
  unfold context_ok. rewrite Hover, Hon. by eexists.
Qed.
Lemma waiting_call_completes s id ctx :
  store s !! id = Some ctx → is_over ctx = false → on_ok ctx = true →
  ch_result (head ctx) < result_code_val rc_fail →
  ∃ s', call_complete id s = Def s' ∧ events s' = events s ++ (Ev_callback id <$>
    (Cb_ok (recv_msg ctx) :: if barrier_ptr ctx then [Cb_notify] else [])).
Proof.
  intros Hs Hover Hon Hres. unfold call_complete.
  change (store (recv_head s)) with (store s). rewrite Hs. cbn [deref mbind ub_bind].
  zcase; [|lia]. by apply (ctx_ok_waiting (recv_head s)).
Qed.
(** The header of a reply has been read. *)
Lemma recv_body_reply s h (r : list Z) id ctx c :
  head_ s = h → ch_is_reply h = true → ch_length h = Z.of_nat (length r) →
  Z.of_nat (length r) ≤ max_body →
  get_call_from_map (ch_call_id h) (calls_ s) = Def (Some id, c) → store s !! id = Some ctx →
  on_ok ctx = true →
  let ctx' := set_head (ch_set_result (ch_set_length (head ctx) (Z.of_nat (length r))) (ch_result h)) ctx in
  let s' := put id ctx' (set_calls c (to_calls_ s) s) in
  recv_body s = match r with
                | [] => call_complete id s'
                | _ => Def (start_read (R_body id (Z.of_nat (length r)))
                              (put id (get_recv_message (Z.of_nat (length r)) ctx') s'))
                end.
Proof.
  intros Hh Hrep Hlen Hmax Hget Hs Hon ctx' s'. unfold recv_body. rewrite Hh, Hrep.
  unfold recv_call_reply. rewrite Hh, Hget. cbn [mbind ub_bind].
  change (store (set_calls c (to_calls_ s) s)) with (store s). rewrite Hs. cbn [deref mbind ub_bind].
  rewrite Hon. cbn [negb andb]. change (head_ (set_calls c (to_calls_ s) s)) with (head_ s).
  rewrite Hh, Hlen. fold ctx' s'. destruct r as [|b r]; [done|].
  rewrite (proj2 (Z.eqb_neq _ _)) by (simpl; lia). zcase; [lia|done].
Qed.
Lemma reply_completes before after s h (r : list Z) id ctx c :
  ch_wf h → ch_is_reply h = true → ch_result h < result_code_val rc_fail →
  ch_length h = Z.of_nat (length r) → Z.of_nat (length r) ≤ max_body →
  ch_wf (head ctx) →
  waits_for (ch_call_id h) id ctx c s →
  ∃ s', run before after (arrives (ch_hton h) r) s = Def s' ∧
    events s' = events s ++ (Ev_callback id <$>
      (Cb_ok r :: if barrier_ptr ctx then [Cb_notify] else [])).
Proof.
  intros Hwf Hrep Hres Hlen Hmax Hctx (Ho&Hrd&Hget&Hs&Hover&Hon&Hrm). unfold arrives.
  set (ctx' := set_head (ch_set_result (ch_set_length (head ctx) (Z.of_nat (length r))) (ch_result h)) ctx).
  assert (ch_result (head ctx') = ch_result h) as Hset.
  { unfold max_body in Hmax. destruct (ch_set_length_spec (head ctx) (Z.of_nat (length r)) Hctx) as [Hwf' _]; [lia|].
    by destruct (ch_set_result_spec _ (ch_result h) Hwf' (ch_result_range h Hwf)) as (_&_&_&?&_). }
  cbn [run step]. rewrite Hrd. unfold handle_recv_head.
  set (s1 := set_ops _ _ _ _).
  change (socket_open (net (set_recv (ch_hton h) (read_buffer_ s1) s1))) with (socket_open (net s)).
  rewrite Ho. cbn [negb Z.eqb]. change (head_ (set_recv (ch_hton h) _ _)) with (ch_hton h).
  rewrite ch_ntoh_hton by done. set (s2 := set_recv h _ _).
  pose proof (recv_body_reply s2 h r id ctx c eq_refl Hrep Hlen Hmax Hget Hs Hon) as Hbody.
  cbv zeta in Hbody. fold ctx' in Hbody. set (s3 := put id ctx' _) in Hbody.
  assert (store s3 !! id = Some ctx') as Hs3 by apply lookup_insert_eq.
  rewrite Hbody. destruct r as [|b r].
  - destruct (waiting_call_completes s3 id ctx' Hs3 Hover Hon) as (s'&->&He); [by rewrite Hset|].
    exists s'. split; [done|]. rewrite He. by change (recv_msg ctx') with (recv_msg ctx); rewrite Hrm.
  - cbn [mbind ub_bind]. rewrite bool_decide_false by done. cbn [run step]. set (n := Z.of_nat (length (b :: r))).
    set (ctx2 := get_recv_message n ctx'). set (s4 := start_read (R_body id n) (put id ctx2 s3)).
    change (reading (net s4)) with [R_body id n]. 
    assert (length (b :: r) = Z.to_nat n) as Hlr by by unfold n; rewrite Nat2Z.id.
    cbv iota beta zeta. rewrite bool_decide_true by done.
    cbn [negb]. unfold handle_recv_reply. set (s5 := set_ops _ _ _ s4).
    assert (store s5 !! id = Some ctx2) as Hs5 by apply lookup_insert_eq.
    rewrite Hs5. cbn [deref mbind ub_bind]. set (s6 := put id _ s5).
    change (socket_open (net s6)) with (socket_open (net s)). rewrite Ho. cbn [negb Z.eqb].
    destruct (waiting_call_completes s6 id (set_recv_msg (b :: r) ctx2)) as (s'&->&He); try done.
    { apply lookup_insert_eq. }
    { by change (head (set_recv_msg (b :: r) ctx2)) with (head ctx'); rewrite Hset. }
    exists s'. split; [done|]. rewrite He. done.
Qed.

(** *** Answers *)
Lemma answer_head h (r : list Z) post :
  ch_wf h → Z.of_nat (length r) ≤ max_body →
  let e := head (make_message h r post) in
  ch_wf e ∧ ch_is_reply e = ch_is_reply h ∧ ch_need_reply e = ch_need_reply h ∧
  ch_result e = ch_result h ∧ ch_length e = Z.of_nat (length r) ∧ ch_call_id e = ch_call_id h ∧
  ch_proto e = ch_proto h.
Proof.
  intros Hwf Hr. unfold max_body in Hr. simpl.
  replace (u32 (Z.of_nat (length r))) with (Z.of_nat (length r)); [apply ch_set_length_spec; [done|lia]|].
  unfold u32. rewrite Z.mod_small; lia.
Qed.
Lemma codec_answers (f : H → list Z → handler_out H) post h data r :
  ch_need_reply h = true → ch_result h ≠ result_code_val rc_not_reply →
  f h data = H_returns h r →
  codec_invoke f post h data =
    InvResult (ch_reply h true) [Ap_response (make_message (ch_reply h true) r post)] None.
Proof.
  intros Hn Hres Hf. unfold codec_invoke. rewrite Hf, (proj2 (Z.eqb_neq _ _) Hres), Z.eqb_refl, Hn. done.
Qed.
Lemma error_head h code :
  ch_wf h →
  let e := head (make_error_message h code) in
  ch_wf e ∧ ch_is_reply e = ch_is_reply h ∧ ch_need_reply e = ch_need_reply h ∧
  ch_length e = 0 ∧ ch_proto e = ch_proto h.
Proof.
  intros Hwf. unfold make_error_message.
  destruct (ch_set_result_spec h (u16 (error_code_val code)) Hwf) as (Hwf'&Hr&Hn&_&Hp).
  { apply Z.mod_pos_bound. lia. }
  destruct (answer_head _ [] false Hwf') as (?&->&->&_&->&_&->); [done|]. done.
Qed.
End trip.

(** ** Properties *)
Section properties.
Context {H C : Type} `{HL : CallHeaderLaws H} `{CL : CallContainerLaws H C} `{RC : !ReplyContainer H C}.
Implicit Types (h : H) (ctx : rpc_context H) (srv cli : channel H C).
Definition responses (es : list (ap_event H)) : list (rpc_context H) :=
  omap (λ e, match e with Ap_response ctx => Some ctx | Ap_on_receive _ _ => None end) es.
(** Handlers are registered, not raw functions of the channel. *)
Definition only_handlers (rt : router H) : Prop :=
  proto_invokers_ rt = [] ∧
  map_Forall (λ _ i, i = None ∨ ∃ f post, i = Some (Codec_invoker f post)) (invokers_ rt).
Definition accepts (rt : router H) h (data : list Z) : Prop :=
  match before_invoker_ rt with Some f => f h data = true | None => True end.
(** A handler leaves a request that wants an answer as it is, or says that it
    does not answer. *)
Definition fair (rt : router H) h (data : list Z) : Prop :=
  ∀ f post, invokers_ rt !! ch_proto h = Some (Some (Codec_invoker f post)) →
    match f h data with
    | H_returns h' _ => ch_need_reply h' = true ∧ ch_result h' ≠ result_code_val rc_not_reply
    | H_throws h' _ => ch_need_reply h' = true
    end.

(** C15: A request is answered once: a message makes the router answer at most once,
    whatever the handler does to the header; and a request that wants an answer, if no
    filter rejects it and no other router takes it over, gets exactly one, found or not,
    whether the handler returns or throws, unless the handler refuses. *)
Theorem request_answered_once (rt : router H) irouter h data :
  only_handlers rt →
  (length (apply_invoker irouter rt h data) ≤ 1)%nat ∧
  (ch_need_reply h = true → accepts rt h data → irouter = false → fair rt h data →
    ∃ ctx, apply_invoker irouter rt h data = [Ap_response ctx]).
Proof.
  intros [Hp Hi]. unfold apply_invoker, apply_try. rewrite Hp. cbn [proto_invoker]. split.
  - set (b := match before_invoker_ rt with Some f => negb (f h data) | None => false end).
    destruct b; [simpl; lia|]. destruct (invokers_ rt !! ch_proto h) as [[i|]|] eqn:Hl.
    + destruct (Hi _ _ Hl) as [|(f&post&[= ->])]; [done|]. unfold invoke, codec_invoke.
      destruct (f h data) as [h' r|h' code].
      * destruct (ch_result h' =? _); [simpl; lia|]. destruct (_ =? _); [|simpl; lia].
        destruct (ch_need_reply h'); simpl; lia.
      * simpl. destruct (ch_need_reply h'); simpl; lia.
    + destruct (ch_need_reply h); simpl; lia.
    + destruct irouter; [simpl; lia|]. destruct (ch_need_reply h); simpl; lia.
  - intros Hn Hacc -> Hfair. unfold accepts in Hacc.
    assert (match before_invoker_ rt with Some f => negb (f h data) | None => false end = false) as ->.
    { destruct (before_invoker_ rt); [by rewrite Hacc|done]. }
    destruct (invokers_ rt !! ch_proto h) as [[i|]|] eqn:Hl.
    + destruct (Hi _ _ Hl) as [|(f&post&[= ->])]; [done|]. specialize (Hfair _ _ Hl).
      unfold invoke, codec_invoke. destruct (f h data) as [h' r|h' code].
      * destruct Hfair as [Hn' Hr']. rewrite (proj2 (Z.eqb_neq _ _) Hr'), Hn'.
        destruct (_ =? _); by eexists.
      * simpl. rewrite Hfair. simpl. by eexists.
    + rewrite Hn. simpl. by eexists.
    + rewrite Hn. simpl. by eexists.
Qed.

(** C2: A call comes back: the request a client sent, received by a router whose handler
    returns a result, is answered by one response; the server's channel, when it has
    nothing else to send, writes the response's header and the result; and the client's
    channel that reads them completes the call that waits for this answer, with the
    result, once. For either header and its container. *)
Theorem rpc_round_trip D (rt : router H) irouter f post h data r before after srv cli rid id ctx c :
  ch_wf h → ch_need_reply h = true → ch_result h < result_code_val rc_not_reply →
  accepts rt h data → proto_invokers_ rt = [] →
  invokers_ rt !! ch_proto h = Some (Some (Codec_invoker f post)) →
  f h data = H_returns h r → Z.of_nat (length r) ≤ max_body →
  idle srv → cc_ok D (calls_ srv) → rid ∈ D → store srv !! rid = None →
  waits_for (ch_reply_key h) id ctx c cli → ch_wf (head ctx) →
  ∃ rctx srv' cli',
    apply_invoker irouter rt h data = [Ap_response rctx] ∧
    run None false [L_call rid rctx; L_task] srv = Def srv' ∧
    writing (net srv') = writing (net srv) ++ [(rid, ch_bytes (ch_hton (head rctx)) ++ r)] ∧
    run before after (arrives (ch_hton (head rctx)) r) cli = Def cli' ∧
    events cli' = events cli ++ (Ev_callback id <$>
      (Cb_ok r :: if barrier_ptr ctx then [Cb_notify] else [])).
Proof.
  intros Hwf Hn Hres Hacc Hp Hl Hf Hr Hidle Hok Hrid Hstore Hwait Hctx.
  destruct (ch_reply_spec h Hwf) as (Hwf'&Hrep&Hnr&Hres'&Hkey).
  destruct (answer_head (ch_reply h true) r post Hwf' Hr) as (Ewf&Erep&Enr&Eres&Elen&Eid&_).
  set (rctx := make_message (ch_reply h true) r post) in *.
  destruct (idle_sends D srv rid rctx false) as (srv'&Hsrv&Hw); try done.
  { unfold context_need_reply. by rewrite Enr. }
  assert (ch_reply_key h = ch_call_id (head rctx)) as Hid by by rewrite Eid.
  assert (result_code_val rc_not_reply = 99 ∧ result_code_val rc_fail = 100) as [Hc1 Hc2] by done.
  destruct (reply_completes before after cli (head rctx) r id ctx c) as (cli'&Hcli&Hev); try done.
  { by rewrite Erep. }
  { rewrite Eres, Hres'. lia. }
  { by rewrite <-Hid. }
  exists rctx, srv', cli'. split; [|done].
  unfold apply_invoker, apply_try. rewrite Hp. cbn [proto_invoker].
  assert (match before_invoker_ rt with Some f => negb (f h data) | None => false end = false) as ->.
  { unfold accepts in Hacc. destruct (before_invoker_ rt); [by rewrite Hacc|done]. }
  rewrite Hl. cbn [invoke]. rewrite (codec_answers f post h data r) by (done || lia). done.
Qed.

(** What the two sides say to each other after a message, [n] messages long: each
    answer is taken to the router of the other side. *)
Fixpoint exchange (n : nat) (rt rt' : router H) h (data : list Z) : list (rpc_context H) :=
  match n with
  | O => []
  | S n =>
      rs ← responses (apply_invoker false rt h data);
      rs :: exchange n rt' rt (head rs) (send_msg rs)
  end.
Definition unknown (rt : router H) (p : Z) : Prop :=
  before_invoker_ rt = None ∧ proto_invokers_ rt = [] ∧
  (invokers_ rt !! p = None ∨ invokers_ rt !! p = Some None).
Lemma unknown_answer (rt : router H) h data :
  unknown rt (ch_proto h) → ch_need_reply h = true →
  apply_invoker false rt h data = [Ap_response (make_error_message h ec_no_handler)].
Proof.
  intros (Hb&Hp&Hi) Hn. unfold apply_invoker, apply_try. rewrite Hb, Hp. simpl.
  destruct Hi as [->| ->]; by rewrite Hn.
Qed.
Lemma exchange_endless n : ∀ (rt rt' : router H) h data,
  ch_wf h → ch_need_reply h = true → unknown rt (ch_proto h) → unknown rt' (ch_proto h) →
  length (exchange n rt rt' h data) = n.
Proof.
  induction n as [|n IH]; intros rt rt' h data Hwf Hn Hu Hu'; [done|].
  cbn [exchange]. rewrite (unknown_answer rt h data Hu Hn).
  destruct (error_head h ec_no_handler Hwf) as (Ewf&_&En&_&Ep).
  cbv zeta in *. remember (make_error_message h ec_no_handler) as e eqn:He. clear He. simpl.
  f_equal. rewrite app_nil_r. apply IH; [done|by rewrite En|by rewrite Ep|by rewrite Ep].
Qed.

(** Defect: The answer that says there is no handler is not marked as a reply: it
    is a request that wants an answer. The client's channel hands it to its router and
    the call goes on waiting, with its entry in the container; and as the client's
    router has no handler for the protocol either, it answers in kind, and the two sides
    go on for ever. *)
Theorem error_answer_is_a_request (rt rt' : router H) h data before after cli n :
  ch_wf h → ch_need_reply h = true →
  unknown rt (ch_proto h) → unknown rt' (ch_proto h) →
  socket_open (net cli) = true → reading (net cli) = [R_head] →
  let e := head (make_error_message h ec_no_handler) in
  apply_invoker false rt h data = [Ap_response (make_error_message h ec_no_handler)] ∧
  (∃ cli', run before after (arrives (ch_hton e) []) cli = Def cli' ∧
    events cli' = events cli ++ [Ev_on_read e []] ∧
    store cli' = store cli ∧ calls_ cli' = calls_ cli) ∧
  length (exchange n rt rt' h data) = n.
Proof.
  intros Hwf Hn Hu Hu' Ho Hrd e. destruct (error_head h ec_no_handler Hwf) as (Ewf&Er&En&El&_).
  fold e in Ewf, Er, En, El. split; [by apply unknown_answer|]. split; [|by apply exchange_endless]. clearbody e.
  destruct cli as [st calls to hd buf cl ir [so wr rd cn cf se] sto ps evs]. simpl in *. subst so rd.
  unfold handle_recv_head. simpl. rewrite ch_ntoh_hton by done. unfold recv_body. simpl.
  rewrite Er, (ch_need_not_reply h Hn).
  unfold recv_request. simpl. rewrite El. simpl. eexists. split; [done|]. done.
Qed.
End properties.

(** ** Witnesses: a server with one handler, a client that waits *)
Import Sample.
#[local] Existing Instance server_head.
Definition calling : channel (list Z) ById.call_container :=
  state_of server_new (run None false
    [L_start false false; L_connected 0; L_call 1 (waited (call_head false 0 3)); L_task; L_sent 0] server_new).
Definition serving : channel (list Z) ById.call_container :=
  state_of server_new (start_accepted None server_new).
Definition echo : list Z → list Z → handler_out (list Z) := λ h data, H_returns h (9 :: data).
Definition echo_router : router (list Z) := (register_handler 77 echo true router_new).2.
Lemma call_head_wf : header_wf (call_head false 1 3).
Proof. split; [|vm_compute; reflexivity]. by apply (bool_decide_eq_true_1 _). Qed.
Lemma echo_only : only_handlers echo_router.
Proof.
  split; [done|]. unfold echo_router, register_handler, register_codec_invoker_impl. simpl.
  apply map_Forall_insert_2; [|apply map_Forall_empty]. right. by eexists _, _.
Qed.
(** The body a channel hands over is released twice: once before it is ever set. *)
Lemma on_read_undefined `{Allocator} (h : msg_header) (read_buffer : list Z) :
  on_read h read_buffer = Undef.
Proof. done. Qed.
Lemma request_answered_once_witness :
  ∃ ctx, apply_invoker false echo_router (call_head false 1 3) [1; 2; 3] = [Ap_response ctx].
Proof.
  apply (request_answered_once echo_router false (call_head false 1 3) [1; 2; 3] echo_only);
    [vm_compute; reflexivity|exact I|reflexivity|].
  intros f post Hf. vm_compute in Hf. by simplify_eq.
Defined.
Lemma rpc_round_trip_witness :
  ∃ rctx srv' cli',
    apply_invoker false echo_router (call_head false 1 3) [1; 2; 3] = [Ap_response rctx] ∧
    run None false [L_call 5 rctx; L_task] serving = Def srv' ∧
    writing (net srv') = [(5, call_head true 1 4 ++ [9; 1; 2; 3])] ∧
    run None false (arrives (ch_hton (head rctx)) [9; 1; 2; 3]) calling = Def cli' ∧
    events cli' = events calling ++ [Ev_callback 1 (Cb_ok [9; 1; 2; 3]); Ev_callback 1 Cb_notify].
Proof.
  destruct (rpc_round_trip {[5]} echo_router false echo true (call_head false 1 3) [1; 2; 3] [9; 1; 2; 3]
    None false serving calling 5 1 (stored (waited []) calling 1)
    (ById.get_call_from_map 1 (calls_ calling)).2) as (rctx&srv'&cli'&H1&H2&H3&H4&H5).
  - apply call_head_wf.
  - vm_compute. reflexivity.
  - vm_compute. reflexivity.
  - exact I.
  - reflexivity.
  - vm_compute. reflexivity.
  - reflexivity.
  - vm_compute. discriminate.
  - split_and!; vm_compute; reflexivity.
  - apply (bool_decide_eq_true_1 _). vm_compute. reflexivity.
  - apply (bool_decide_eq_true_1 _). vm_compute. reflexivity.
  - vm_compute. reflexivity.
  - split_and!; vm_compute; reflexivity.
  - split; [|vm_compute; reflexivity]. apply (bool_decide_eq_true_1 _). vm_compute. reflexivity.
  - exists rctx, srv', cli'. split; [exact H1|]. split; [exact H2|]. split; [|split; [exact H4|exact H5]].
    rewrite H3. vm_compute in H1. injection H1 as <-. vm_compute. reflexivity.
Defined.
Lemma error_answer_is_a_request_witness :
  let e := head (make_error_message (call_head false 1 3) ec_no_handler) in
  ch_is_reply e = false ∧
  match run None false (arrives (ch_hton e) []) calling with
  | Def cli' => store cli' = store calling ∧ calls_ cli' = calls_ calling
  | Undef => False
  end ∧
  length (exchange 100 router_new (Router ∅ None []) (call_head false 1 3) []) = 100%nat.
Proof.
  intros e. split; [vm_compute; reflexivity|].
  destruct (error_answer_is_a_request (C := ById.call_container) router_new (Router ∅ None [])
    (call_head false 1 3) [] None false calling 100) as (_&(cli'&Hr&_&Hs&Hc)&Hn).
  - apply call_head_wf.
  - vm_compute. reflexivity.
  - split; [reflexivity|]. split; [reflexivity|]. by left.
  - split; [reflexivity|]. split; [reflexivity|]. by left.
  - vm_compute. reflexivity.
  - vm_compute. reflexivity.
  - split; [|exact Hn]. unfold e. rewrite Hr. split; [exact Hs|exact Hc].
Defined.
