(* ===== verification/GoChannel.v ===== *)
(** * Channels ([network/base/channel.h])

    [_channel] is a Go-style channel between threads: a mutex, three condition
    variables, a queue and five flags.  The critical sections are functions on
    the flags and the queue; the threads are program counters between them, so
    a run is an interleaving of critical sections and of the notifications that
    happen outside the lock.  Condition variables have their sleepers: a wait
    whose predicate is false sleeps, [notify_one] wakes one sleeper if there is
    one and is lost otherwise, and spurious wake-ups are allowed.  The history
    of a run (what was enqueued and dequeued) is kept beside the channel. *)
From stdpp Require Import base option list numbers.
From S2P Require Import Prelude.
Local Open Scope Z_scope.

(** ** Definitions *)
Record go_channel (T : Type) := GoChannel {
  m_queue : list (nat * T);
  m_is_send_done : bool;
  m_is_try_send_done : bool;
  m_is_recv_ready : bool;
  m_is_try_send_ready : bool;
  m_is_try_recv_ready : bool
}.
Arguments GoChannel {T}.
Arguments m_queue {T}.
Arguments m_is_send_done {T}.
Arguments m_is_try_send_done {T}.
Arguments m_is_recv_ready {T}.
Arguments m_is_try_send_ready {T}.
Arguments m_is_try_recv_ready {T}.

(** What a thread is doing; the waits on a condition variable are split into
    awake and asleep.  A sender that has enqueued carries the number of its
    element; a receiver that has dequeued carries the element, and, like a
    successful [try_recv_ptr], whom it is about to notify: a sender that waits
    to begin, or the one that waits to end. *)
Inductive thread_pc (T : Type) :=
| Idle
| Send_begin (v : T) | Send_begin_asleep (v : T)
| Send_notify_recv (k : nat)
| Send_end (k : nat) | Send_end_asleep (k : nat)
| Send_notify_begin (k : nat)
| Recv_enter | Recv_awake | Recv_asleep
| Recv_notify (to_begin : bool) (v : T)
| Try_send (v : T) | Try_send_notify | Try_send_result (ok : bool)
| Try_recv | Try_recv_notify (to_begin : bool) (v : T) | Try_recv_result (v : option T).
Arguments Idle {T}.
Arguments Send_begin {T}.
Arguments Send_begin_asleep {T}.
Arguments Send_notify_recv {T}.
Arguments Send_end {T}.
Arguments Send_end_asleep {T}.
Arguments Send_notify_begin {T}.
Arguments Recv_enter {T}.
Arguments Recv_awake {T}.
Arguments Recv_asleep {T}.
Arguments Recv_notify {T}.
Arguments Try_send {T}.
Arguments Try_send_notify {T}.
Arguments Try_send_result {T}.
Arguments Try_recv {T}.
Arguments Try_recv_notify {T}.
Arguments Try_recv_result {T}.

Inductive event (T : Type) := Enq (i : nat) (v : T) | Deq (i : nat) (v : T).
Arguments Enq {T}.
Arguments Deq {T}.

Section channel.
(** [N] is the channel's size; [asserts] says whether assertions are compiled
    in ([NDEBUG] is not defined). *)
Context {T : Type} (N : nat) (asserts : bool).
Implicit Types (c : go_channel T) (i j k : nat) (v : T).

Definition channel_new : go_channel T := GoChannel [] true true false false false.

(** [assert(b)]: [None] stops the program. *)
Definition assert_ (b : bool) : option () := if negb asserts || b then Some () else None.

Definition is_full c : bool := bool_decide (N < length (m_queue c))%nat.
Definition is_try_ready c : bool := m_is_try_recv_ready c && m_is_try_send_ready c.
(** [N - m_queue.size()], of type [size_t]. *)
Definition free_slots c : Z := u64 (Z.of_nat N - Z.of_nat (length (m_queue c))).

(** *** The predicates the condition variables wait for *)
Definition send_begin_pred c : bool :=
  m_is_send_done c && m_is_try_send_done c && negb (is_full c).
Definition send_end_pred c : bool := negb (is_full c).
Definition recv_pred c : bool := negb (bool_decide (m_queue c = [])).

(** *** Critical sections *)
Definition recv_enter c : go_channel T :=
  GoChannel (m_queue c) (m_is_send_done c) (m_is_try_send_done c) true
    (m_is_try_send_ready c) (m_is_try_recv_ready c).

Definition enqueue i v (send_done try_send_done : bool) c : go_channel T :=
  GoChannel (m_queue c ++ [(i, v)]) send_done try_send_done (m_is_recv_ready c)
    (m_is_try_send_ready c) (m_is_try_recv_ready c).

(** [_send] once the begin wait is over: to the end of the first block. *)
Definition send_first_block i v c : option (go_channel T) :=
  _ ← assert_ (m_is_send_done c);
  _ ← assert_ (m_is_try_send_done c);
  _ ← assert_ (negb (is_full c));
  _ ← assert_ (negb (is_try_ready c));
  Some (enqueue i v false (m_is_try_send_done c) c).

(** [_send] once the end wait is over. *)
Definition send_second_block c : go_channel T :=
  GoChannel (m_queue c) true (m_is_try_send_done c) (m_is_recv_ready c)
    (m_is_try_send_ready c) (m_is_try_recv_ready c).

(** [_post_blocking_recv]: the channel after it, and whether it notifies
    [m_send_begin_cv] (else [m_send_end_cv]). *)
Definition post_blocking_recv c : option (go_channel T * bool) :=
  _ ← assert_ (negb (is_full c) || negb (m_is_send_done c) || negb (m_is_try_send_done c));
  _ ← assert_ (m_is_try_send_done c || m_is_send_done c);
  let c := GoChannel (tail (m_queue c)) (m_is_send_done c) true false false false in
  _ ← assert_ (negb (is_full c));
  Some (c, m_is_send_done c).

(** [recv] once the wait of [_pre_blocking_recv] is over.  The queue is not
    empty then; [front] of an empty one would have no value. *)
Definition recv_block i c : option (go_channel T * bool * T) :=
  _ ← assert_ (negb (is_try_ready c));
  '(sender, v) ← head (m_queue c);
  _ ← assert_ (negb (is_full c) || negb (bool_decide (i = sender)));
  '(c, to_begin) ← post_blocking_recv c;
  Some (c, to_begin, v).

Definition try_send i v c : option (go_channel T * bool) :=
  let c := GoChannel (m_queue c) (m_is_send_done c) (m_is_try_send_done c)
             (m_is_recv_ready c) true (m_is_try_recv_ready c) in
  _ ← assert_ (negb (is_try_ready c));
  if negb (m_is_send_done c) || negb (m_is_try_send_done c) || is_full c
     || ((0 =? free_slots c) && negb (m_is_recv_ready c))
  then Some (c, false)
  else
    _ ← assert_ (m_is_send_done c);
    _ ← assert_ (m_is_try_send_done c);
    _ ← assert_ (negb (is_full c));
    let try_send_done := 0 <? free_slots c in
    _ ← assert_ (try_send_done || m_is_recv_ready c);
    Some (enqueue i v (m_is_send_done c) try_send_done c, true).

Definition try_recv_ptr i c : option (go_channel T * option (bool * T)) :=
  let c := GoChannel (m_queue c) (m_is_send_done c) (m_is_try_send_done c)
             (m_is_recv_ready c) (m_is_try_send_ready c) true in
  match m_queue c with
  | [] => Some (c, None)
  | (sender, v) :: q =>
      _ ← assert_ (negb (is_full c) || negb (m_is_send_done c) || negb (m_is_try_send_done c));
      _ ← assert_ (m_is_try_send_done c || m_is_send_done c);
      _ ← assert_ (negb (is_full c) || negb (bool_decide (i = sender)));
      let c := GoChannel q (m_is_send_done c) true (m_is_recv_ready c) false false in
      _ ← assert_ (negb (is_full c));
      Some (c, Some (m_is_send_done c, v))
  end.

(** The cases of a select: [try_lock] may find the channel locked. *)
Definition try_send_run (locked : bool) i v c : option (go_channel T * bool) :=
  if locked then Some (c, false) else try_send i v c.
Definition try_recv_run (locked : bool) i c : option (go_channel T * option (bool * T)) :=
  if locked then Some (c, None) else try_recv_ptr i c.

(** *** Threads *)
Record sys := Sys {
  chan : go_channel T;
  threads : list (thread_pc T);
  history : list (event T)
}.
Definition sys_init (n : nat) : sys := Sys channel_new (replicate n Idle) [].

Definition goto i (pc : thread_pc T) (s : sys) : sys :=
  Sys (chan s) (<[i:=pc]> (threads s)) (history s).
Definition update i (c : go_channel T) (pc : thread_pc T) (evs : list (event T)) (s : sys) : sys :=
  Sys c (<[i:=pc]> (threads s)) (history s ++ evs).

Definition enqs (h : list (event T)) : list (nat * T) :=
  omap (λ e, match e with Enq i v => Some (i, v) | Deq _ _ => None end) h.
Definition deqs (h : list (event T)) : list T :=
  omap (λ e, match e with Enq _ _ => None | Deq _ v => Some v end) h.

(** The three condition variables. *)
Inductive cond_var := Send_begin_cv | Send_end_cv | Recv_cv.
Definition asleep_on (cv : cond_var) (pc : thread_pc T) : bool :=
  match cv, pc with
  | Send_begin_cv, Send_begin_asleep _ | Send_end_cv, Send_end_asleep _
  | Recv_cv, Recv_asleep => true
  | _, _ => false
  end.
Definition wake (pc : thread_pc T) : thread_pc T :=
  match pc with
  | Send_begin_asleep v => Send_begin v
  | Send_end_asleep k => Send_end k
  | Recv_asleep => Recv_awake
  | pc => pc
  end.

(** [cv.notify_one()]. *)
Inductive notify_one (cv : cond_var) : sys → sys → Prop :=
| notify_wakes s j pc :
    threads s !! j = Some pc → asleep_on cv pc = true → notify_one cv s (goto j (wake pc) s)
| notify_lost s :
    Forall (λ pc, asleep_on cv pc = false) (threads s) → notify_one cv s s.

(** What a thread does next, and the condition variable it notifies after. *)
Definition sender_cv (to_begin : bool) : cond_var :=
  if to_begin then Send_begin_cv else Send_end_cv.

Inductive step : sys → sys → Prop :=
(* the client *)
| step_call_send s i v :
    threads s !! i = Some Idle → step s (goto i (Send_begin v) s)
| step_call_recv s i : threads s !! i = Some Idle → step s (goto i Recv_enter s)
| step_call_try_send s i v : threads s !! i = Some Idle → step s (goto i (Try_send v) s)
| step_call_try_recv s i : threads s !! i = Some Idle → step s (goto i Try_recv s)
(* send *)
| step_send_sleep s i v :
    threads s !! i = Some (Send_begin v) → send_begin_pred (chan s) = false →
    step s (goto i (Send_begin_asleep v) s)
| step_send_enqueue s i v c :
    threads s !! i = Some (Send_begin v) → send_begin_pred (chan s) = true →
    send_first_block i v (chan s) = Some c →
    step s (update i c (Send_notify_recv (length (enqs (history s)))) [Enq i v] s)
| step_send_notify s i k s' :
    threads s !! i = Some (Send_notify_recv k) → notify_one Recv_cv s s' →
    step s (goto i (Send_end k) s')
| step_send_end_sleep s i k :
    threads s !! i = Some (Send_end k) → send_end_pred (chan s) = false →
    step s (goto i (Send_end_asleep k) s)
| step_send_end s i k :
    threads s !! i = Some (Send_end k) → send_end_pred (chan s) = true →
    step s (update i (send_second_block (chan s)) (Send_notify_begin k) [] s)
| step_send_return s i k s' :
    threads s !! i = Some (Send_notify_begin k) → notify_one Send_begin_cv s s' →
    step s (goto i Idle s')
(* recv *)
| step_recv_enter s i :
    threads s !! i = Some Recv_enter → recv_pred (chan s) = false →
    step s (update i (recv_enter (chan s)) Recv_asleep [] s)
| step_recv_enter_pop s i c to_begin v :
    threads s !! i = Some Recv_enter → recv_pred (chan s) = true →
    recv_block i (recv_enter (chan s)) = Some (c, to_begin, v) →
    step s (update i c (Recv_notify to_begin v) [Deq i v] s)
| step_recv_sleep s i :
    threads s !! i = Some Recv_awake → recv_pred (chan s) = false →
    step s (goto i Recv_asleep s)
| step_recv_pop s i c to_begin v :
    threads s !! i = Some Recv_awake → recv_pred (chan s) = true →
    recv_block i (chan s) = Some (c, to_begin, v) →
    step s (update i c (Recv_notify to_begin v) [Deq i v] s)
| step_recv_return s i to_begin v s' :
    threads s !! i = Some (Recv_notify to_begin v) → notify_one (sender_cv to_begin) s s' →
    step s (goto i Idle s')
(* the cases of a select *)
| step_try_send_fails s i v locked c :
    threads s !! i = Some (Try_send v) → try_send_run locked i v (chan s) = Some (c, false) →
    step s (update i c (Try_send_result false) [] s)
| step_try_send s i v locked c :
    threads s !! i = Some (Try_send v) → try_send_run locked i v (chan s) = Some (c, true) →
    step s (update i c Try_send_notify [Enq i v] s)
| step_try_send_notify s i s' :
    threads s !! i = Some Try_send_notify → notify_one Recv_cv s s' →
    step s (goto i (Try_send_result true) s')
| step_try_recv_fails s i locked c :
    threads s !! i = Some Try_recv → try_recv_run locked i (chan s) = Some (c, None) →
    step s (update i c (Try_recv_result None) [] s)
| step_try_recv s i locked c to_begin v :
    threads s !! i = Some Try_recv → try_recv_run locked i (chan s) = Some (c, Some (to_begin, v)) →
    step s (update i c (Try_recv_notify to_begin v) [Deq i v] s)
| step_try_recv_notify s i to_begin v s' :
    threads s !! i = Some (Try_recv_notify to_begin v) →
    notify_one (sender_cv to_begin) s s' →
    step s (goto i (Try_recv_result (Some v)) s')
| step_try_send_return s i ok :
    threads s !! i = Some (Try_send_result ok) → step s (goto i Idle s)
| step_try_recv_return s i r :
    threads s !! i = Some (Try_recv_result r) → step s (goto i Idle s)
(* spurious wake-ups *)
| step_spurious s i pc cv :
    threads s !! i = Some pc → asleep_on cv pc = true → step s (goto i (wake pc) s).

Inductive reachable (n : nat) : sys → Prop :=
| reach_init : reachable n (sys_init n)
| reach_step s s' : reachable n s → step s s' → reachable n s'.

(** The thread is about to run a section one of whose assertions fails. *)
Definition aborts i s : bool :=
  match threads s !! i with
  | Some (Send_begin v) =>
      send_begin_pred (chan s) && bool_decide (send_first_block i v (chan s) = None)
  | Some Recv_enter =>
      recv_pred (chan s) && bool_decide (recv_block i (recv_enter (chan s)) = None)
  | Some Recv_awake => recv_pred (chan s) && bool_decide (recv_block i (chan s) = None)
  | Some (Try_send v) => bool_decide (try_send i v (chan s) = None)
  | Some Try_recv => bool_decide (try_recv_ptr i (chan s) = None)
  | _ => false
  end.

(** No thread can move but by a spurious wake-up or a new call. *)
Definition quiescent s : Prop :=
  Forall (λ pc, pc = Idle ∨ ∃ cv, asleep_on cv pc = true) (threads s).

(** *** A scheduler: what one thread does next, made executable *)
Inductive choice := Call (pc : thread_pc T) | Go | Wake (j : nat) | Locked | Spurious.
Definition notify_exec (cv : cond_var) (w : choice) s : option sys :=
  match w with
  | Wake j =>
      pc ← threads s !! j;
      if asleep_on cv pc then Some (goto j (wake pc) s) else None
  | _ => if forallb (λ pc, negb (asleep_on cv pc)) (threads s) then Some s else None
  end.
Definition exec i (w : choice) s : option sys :=
  pc ← threads s !! i;
  match w, pc with
  | Call next, Idle =>
      match next with
      | Send_begin _ | Recv_enter | Try_send _ | Try_recv => Some (goto i next s)
      | _ => None
      end
  | Spurious, (Send_begin_asleep _ | Send_end_asleep _ | Recv_asleep) => Some (goto i (wake pc) s)
  | (Go | Wake _), Send_notify_recv k => s ← notify_exec Recv_cv w s; Some (goto i (Send_end k) s)
  | (Go | Wake _), Send_notify_begin _ => s ← notify_exec Send_begin_cv w s; Some (goto i Idle s)
  | (Go | Wake _), Recv_notify b _ => s ← notify_exec (sender_cv b) w s; Some (goto i Idle s)
  | (Go | Wake _), Try_send_notify =>
      s ← notify_exec Recv_cv w s; Some (goto i (Try_send_result true) s)
  | (Go | Wake _), Try_recv_notify b v =>
      s ← notify_exec (sender_cv b) w s; Some (goto i (Try_recv_result (Some v)) s)
  | Go, Send_begin v =>
      if send_begin_pred (chan s) then
        c ← send_first_block i v (chan s);
        Some (update i c (Send_notify_recv (length (enqs (history s)))) [Enq i v] s)
      else Some (goto i (Send_begin_asleep v) s)
  | Go, Send_end k =>
      if send_end_pred (chan s)
      then Some (update i (send_second_block (chan s)) (Send_notify_begin k) [] s)
      else Some (goto i (Send_end_asleep k) s)
  | Go, Recv_enter =>
      if recv_pred (chan s) then
        '(c, b, v) ← recv_block i (recv_enter (chan s));
        Some (update i c (Recv_notify b v) [Deq i v] s)
      else Some (update i (recv_enter (chan s)) Recv_asleep [] s)
  | Go, Recv_awake =>
      if recv_pred (chan s) then
        '(c, b, v) ← recv_block i (chan s);
        Some (update i c (Recv_notify b v) [Deq i v] s)
      else Some (goto i Recv_asleep s)
  | (Go | Locked), Try_send v =>
      '(c, ok) ← try_send_run (match w with Locked => true | _ => false end) i v (chan s);
      Some (if ok : bool then update i c Try_send_notify [Enq i v] s
            else update i c (Try_send_result false) [] s)
  | (Go | Locked), Try_recv =>
      '(c, r) ← try_recv_run (match w with Locked => true | _ => false end) i (chan s);
      Some (match r with
            | Some (b, v) => update i c (Try_recv_notify b v) [Deq i v] s
            | None => update i c (Try_recv_result None) [] s
            end)
  | Go, (Try_send_result _ | Try_recv_result _) => Some (goto i Idle s)
  | _, _ => None
  end.
Fixpoint run (l : list (nat * choice)) s : option sys :=
  match l with [] => Some s | (i, w) :: l => s ← exec i w s; run l s end.

(** *** The contract: a first-in first-out queue of [N + 1] places *)
Inductive fifo_step : list (nat * T) → event T → list (nat * T) → Prop :=
| fifo_enq q i v : (length q ≤ N)%nat → fifo_step q (Enq i v) (q ++ [(i, v)])
| fifo_deq q i j v : fifo_step ((j, v) :: q) (Deq i v) q.
Inductive fifo_run : list (event T) → list (nat * T) → Prop :=
| fifo_nil : fifo_run [] []
| fifo_snoc h q e q' : fifo_run h q → fifo_step q e q' → fifo_run (h ++ [e]) q'.

(** ** Counting threads *)
Definition sending (pc : thread_pc T) : bool :=
  match pc with Send_notify_recv _ | Send_end _ | Send_end_asleep _ => true | _ => false end.
Definition awake_at (cv : cond_var) (pc : thread_pc T) : bool :=
  match cv, pc with
  | Send_begin_cv, Send_begin _ | Send_end_cv, Send_end _ | Recv_cv, Recv_awake => true
  | _, _ => false
  end.
Definition notifies (cv : cond_var) (pc : thread_pc T) : bool :=
  match cv, pc with
  | Send_begin_cv, (Send_notify_begin _ | Recv_notify true _ | Try_recv_notify true _)
  | Send_end_cv, (Recv_notify false _ | Try_recv_notify false _)
  | Recv_cv, (Send_notify_recv _ | Try_send_notify) => true
  | _, _ => false
  end.

(** ** The invariant *)
Notation asleep cv s := (count (asleep_on cv) (threads s)).
Notation awake cv s := (count (awake_at cv) (threads s)).
Notation notifying cv s := (count (notifies cv) (threads s)).
Notation qlen s := (length (m_queue (chan s))).
Notation flag b := (Nat.b2n b).

Record inv (s : sys) : Prop := {
  (* the bounds, and who may have filled the queue *)
  inv_len : (qlen s ≤ N + 1)%nat;
  inv_full : (N < qlen s →
    flag (m_is_send_done (chan s)) = 0 ∨ flag (m_is_try_send_done (chan s)) = 0)%nat;
  inv_try : (flag (m_is_try_send_done (chan s)) = 0 →
    flag (m_is_send_done (chan s)) = 1 ∧ N < qlen s)%nat;
  (* one sender between its two blocks *)
  inv_sending : (count sending (threads s) + flag (m_is_send_done (chan s)) = 1)%nat;
  inv_ready : (flag (m_is_recv_ready (chan s)) ≤ asleep Recv_cv s + awake Recv_cv s)%nat;
  (* no wake-up is lost *)
  inv_recv : (asleep Recv_cv s = 0 ∨ qlen s ≤ awake Recv_cv s + notifying Recv_cv s)%nat;
  inv_end : (asleep Send_end_cv s = 0 ∨ N < qlen s ∨ 1 ≤ notifying Send_end_cv s)%nat;
  inv_begin : (asleep Send_begin_cv s = 0 ∨
    flag (m_is_send_done (chan s)) = 0 ∨ flag (m_is_try_send_done (chan s)) = 0 ∨
    N < qlen s ∨ 1 ≤ awake Send_begin_cv s + notifying Send_begin_cv s)%nat
}.

Lemma asleep_end_sending l : (count (asleep_on Send_end_cv) l ≤ count sending l)%nat.
Proof. induction l as [|[] l IH]; simpl; lia. Qed.

(** Every count of the goal, after the moves that changed it. *)
Ltac tally_one f l i pc' :=
  match goal with
  | Hi : l !! i = Some ?pc |- _ =>
      let a := eval cbn in (Nat.b2n (f pc)) in
      let b := eval cbn in (Nat.b2n (f pc')) in
      let H := fresh "Hc" in
      pose proof (count_insert f l i _ pc' Hi : (count f (<[i:=pc']> l) + a = count f l + b)%nat)
        as H;
      let n := fresh "n" in set (n := count f (<[i:=pc']> l)) in *; clearbody n
  end.
Ltac tally := repeat match goal with
  | |- context [count ?f (<[?i:=?pc']> ?l)] => tally_one f l i pc'
  | _ : context [count ?f (<[?i:=?pc']> ?l)] |- _ => tally_one f l i pc'
  end.
(** A field of the invariant: from the same field alone when that is enough. *)
Ltac by_field I law :=
  match type of I with inv ?s =>
  cbn [goto update chan threads history m_queue m_is_send_done m_is_try_send_done
       m_is_recv_ready enqueue send_second_block recv_enter];
  pose proof (law _ I); tally; cbn [sender_cv] in *; rewrite ?length_app in *; cbn [length Nat.b2n] in *;
  first [lia | pose proof (asleep_end_sending (threads s)); destruct I; lia]
  end.
Ltac inv_split I :=
  split; [by_field I inv_len|by_field I inv_full|by_field I inv_try|by_field I inv_sending
         |by_field I inv_ready|by_field I inv_recv|by_field I inv_end|by_field I inv_begin].

Lemma inv_init n : inv (sys_init n).
Proof. split; simpl; rewrite ?count_replicate; simpl; lia. Qed.

(** A thread that is not asleep keeps its place when another is notified. *)
Lemma notify_inv cv s s' i pc :
  threads s !! i = Some pc → asleep_on cv pc = false → notify_one cv s s' →
  threads s' !! i = Some pc ∧ chan s' = chan s ∧ history s' = history s ∧
  (s' = s ∧ asleep cv s = 0%nat ∨
   ∃ j pcj, j ≠ i ∧ threads s !! j = Some pcj ∧ asleep_on cv pcj = true ∧ s' = goto j (wake pcj) s).
Proof.
  intros Hi Hpc Hn. destruct Hn as [s j pcj Hj Ha|s Ha].
  - assert (j ≠ i) by congruence. split_and!; try done; simpl.
    + by rewrite list_lookup_insert_ne.
    + right. by exists j, pcj.
  - split_and!; try done. left. split; [done|by apply count_none].
Qed.

(** A notification, and the move of the thread that makes it. *)
Inductive notify_move : cond_var → thread_pc T → thread_pc T → Prop :=
| move_send k : notify_move Recv_cv (Send_notify_recv k) (Send_end k)
| move_send_done k : notify_move Send_begin_cv (Send_notify_begin k) Idle
| move_recv b v : notify_move (sender_cv b) (Recv_notify b v) Idle
| move_try_send : notify_move Recv_cv Try_send_notify (Try_send_result true)
| move_try_recv b v :
    notify_move (sender_cv b) (Try_recv_notify b v) (Try_recv_result (Some v)).

Lemma inv_notify cv s s' i pc pc' :
  inv s → threads s !! i = Some pc → notify_move cv pc pc' → notify_one cv s s' →
  inv (goto i pc' s').
Proof.
  intros I Hi Hmove Hn.
  assert (asleep_on cv pc = false) as Hpc by (by destruct Hmove as [|?|[]| |[]]).
  destruct (notify_inv cv s s' i pc Hi Hpc Hn) as (Hi'&Hch&_&[[-> H0]|(j&pcj&Hj&Hlj&Ha&->)]).
  - destruct Hmove as [|?|[]| |[]]; simpl in H0; inv_split I.
  - cbn [goto threads] in Hi'.
    destruct Hmove as [|?|[]| |[]]; destruct pcj; try discriminate Ha; cbn [wake] in *; inv_split I.
Qed.

(** ** What the critical sections do *)
Lemma assert_bind_Some {A} (b : bool) (f : () → option A) r :
  (assert_ b ≫= f) = Some r → f () = Some r ∧ (asserts = true → b = true).
Proof. unfold assert_. destruct asserts, b; simpl; naive_solver. Qed.
Ltac inv_assert H := repeat (apply assert_bind_Some in H as [H ?]).

Lemma send_first_block_Some i v c c' :
  send_first_block i v c = Some c' → c' = enqueue i v false (m_is_try_send_done c) c.
Proof. unfold send_first_block. intros H. inv_assert H. by simplify_eq. Qed.
Lemma recv_block_Some i c c' b v :
  recv_block i c = Some (c', b, v) →
  ∃ j q, m_queue c = (j, v) :: q ∧ b = m_is_send_done c ∧
    c' = GoChannel q (m_is_send_done c) true false false false.
Proof.
  unfold recv_block, post_blocking_recv. intros H. inv_assert H.
  destruct (m_queue c) as [|[j w] q] eqn:Hq; simpl in H; [done|].
  inv_assert H. apply bind_Some in H as ([c1 b1]&H&?). inv_assert H. simplify_eq.
  by exists j, q.
Qed.
Lemma try_recv_ptr_Some i c c' b v :
  try_recv_ptr i c = Some (c', Some (b, v)) →
  ∃ j q, m_queue c = (j, v) :: q ∧ b = m_is_send_done c ∧
    c' = GoChannel q (m_is_send_done c) true (m_is_recv_ready c) false false.
Proof.
  unfold try_recv_ptr. simpl. intros H.
  destruct (m_queue c) as [|[j w] q] eqn:Hq; simpl in H; [done|].
  inv_assert H. simplify_eq. by exists j, q.
Qed.
Lemma free_slots_not_full c :
  Z.of_nat N < 2 ^ 64 - 1 → is_full c = false →
  free_slots c = Z.of_nat N - Z.of_nat (length (m_queue c)) ∧ (length (m_queue c) ≤ N)%nat.
Proof.
  unfold is_full, free_slots. intros HN Hf%bool_decide_eq_false.
  split; [|lia]. apply Z.mod_small. lia.
Qed.

(** A failed attempt leaves everything but the flags of selects. *)
Definition same_state c c' : Prop :=
  m_queue c' = m_queue c ∧ m_is_send_done c' = m_is_send_done c ∧
  m_is_try_send_done c' = m_is_try_send_done c ∧ m_is_recv_ready c' = m_is_recv_ready c.
Lemma try_send_run_false locked i v c c' :
  try_send_run locked i v c = Some (c', false) → same_state c c'.
Proof.
  unfold try_send_run, try_send. destruct locked; intros H; [by simplify_eq|].
  inv_assert H. simpl in H. case_match; [by simplify_eq|]. inv_assert H. by simplify_eq.
Qed.
Lemma try_recv_run_None locked i c c' :
  try_recv_run locked i c = Some (c', None) → same_state c c'.
Proof.
  unfold try_recv_run, try_recv_ptr. destruct locked; intros H; [by simplify_eq|].
  simpl in H. destruct (m_queue c) as [|[j w] q] eqn:Hq; [by simplify_eq/=|].
  inv_assert H. done.
Qed.
Lemma try_recv_run_Some locked i c c' b v :
  try_recv_run locked i c = Some (c', Some (b, v)) → try_recv_ptr i c = Some (c', Some (b, v)).
Proof. by destruct locked. Qed.
Lemma try_send_run_true locked i v c c' :
  try_send_run locked i v c = Some (c', true) → try_send i v c = Some (c', true).
Proof. by destruct locked. Qed.
Lemma try_send_true i v c c' :
  try_send i v c = Some (c', true) →
  send_begin_pred c = true ∧ (free_slots c = 0 → m_is_recv_ready c = true) ∧
  c' = GoChannel (m_queue c ++ [(i, v)]) true (0 <? free_slots c) (m_is_recv_ready c) true
         (m_is_try_recv_ready c).
Proof.
  unfold try_send, send_begin_pred, enqueue, is_full, free_slots. simpl. intros H.
  inv_assert H. case_match eqn:Hc; [by simplify_eq|]. inv_assert H. simplify_eq.
  destruct (m_is_send_done c), (m_is_try_send_done c), (bool_decide (N < _)%nat); try done.
  split_and!; [done| |done]. intros Hz. rewrite Hz in Hc. by destruct (m_is_recv_ready c).
Qed.

(** ** Every run keeps the invariant *)
Context (HN : Z.of_nat N < 2 ^ 64 - 1).

Lemma send_begin_pred_true c :
  send_begin_pred c = true →
  m_is_send_done c = true ∧ m_is_try_send_done c = true ∧ (length (m_queue c) ≤ N)%nat.
Proof.
  unfold send_begin_pred, is_full. rewrite !andb_true_iff, negb_true_iff, bool_decide_eq_false.
  intros [[??]?]. split_and!; auto; lia.
Qed.
Lemma send_begin_pred_false c :
  send_begin_pred c = false →
  (flag (m_is_send_done c) = 0 ∨ flag (m_is_try_send_done c) = 0 ∨ N < length (m_queue c))%nat.
Proof.
  unfold send_begin_pred, is_full.
  rewrite !andb_false_iff, negb_false_iff, bool_decide_eq_true.
  by intros [[->| ->]|?]; auto.
Qed.
Lemma send_end_pred_true c : send_end_pred c = true → (length (m_queue c) ≤ N)%nat.
Proof. unfold send_end_pred, is_full. rewrite negb_true_iff, bool_decide_eq_false. lia. Qed.
Lemma send_end_pred_false c : send_end_pred c = false → (N < length (m_queue c))%nat.
Proof. unfold send_end_pred, is_full. by rewrite negb_false_iff, bool_decide_eq_true. Qed.
Lemma recv_pred_false c : recv_pred c = false → m_queue c = [].
Proof. unfold recv_pred. by rewrite negb_false_iff, bool_decide_eq_true. Qed.

(** A dequeue, by [recv] ([ready] is cleared) or by a select. *)
Lemma inv_dequeue s i j pc pc' v q ready t1 t2 evs :
  inv s → threads s !! i = Some pc → m_queue (chan s) = (j, v) :: q →
  (pc = Recv_enter ∧ ready = false ∨ pc = Recv_awake ∧ ready = false ∨
   pc = Try_recv ∧ ready = m_is_recv_ready (chan s)) →
  (pc' = Recv_notify (m_is_send_done (chan s)) v ∨
   pc' = Try_recv_notify (m_is_send_done (chan s)) v) →
  inv (update i (GoChannel q (m_is_send_done (chan s)) true ready t1 t2) pc' evs s).
Proof.
  intros I Hi Hq Hpc Hpc'.
  assert (qlen s = S (length q)) as Hl by (by rewrite Hq).
  destruct (m_is_send_done (chan s)) eqn:Hsd; pose proof (f_equal Nat.b2n Hsd) as Hf; simpl in Hf;
    destruct Hpc as [[-> ->]|[[-> ->]|[-> ->]]], Hpc' as [-> | ->]; inv_split I.
Qed.

(** An enqueue: by [_send], or by a select that finds room or a receiver. *)
Lemma inv_send_enqueue s i v k c :
  inv s → threads s !! i = Some (Send_begin v) → send_begin_pred (chan s) = true →
  send_first_block i v (chan s) = Some c →
  inv (update i c (Send_notify_recv k) [Enq i v] s).
Proof.
  intros I Hi (Hs&Ht&?)%send_begin_pred_true ->%send_first_block_Some.
  pose proof (f_equal Nat.b2n Hs). pose proof (f_equal Nat.b2n Ht).
  cbn [Nat.b2n] in *. inv_split I.
Qed.
Lemma inv_try_send s i v c :
  inv s → threads s !! i = Some (Try_send v) → try_send i v (chan s) = Some (c, true) →
  inv (update i c Try_send_notify [Enq i v] s).
Proof.
  intros I Hi (Hp&Hr&->)%try_send_true.
  apply send_begin_pred_true in Hp as (Hs&Ht&Hl).
  destruct (free_slots_not_full (chan s)) as [Hfree _]; [done| |].
  { unfold is_full. by apply bool_decide_eq_false, Nat.nlt_ge. }
  pose proof (f_equal Nat.b2n Hs). pose proof (f_equal Nat.b2n Ht). cbn [Nat.b2n] in *.
  assert ((0 < free_slots (chan s)) ∧ Nat.b2n (0 <? free_slots (chan s)) = 1%nat ∨
          (free_slots (chan s) = 0) ∧ Nat.b2n (0 <? free_slots (chan s)) = 0%nat) as Hb
    by (destruct (Z.ltb_spec 0 (free_slots (chan s))); simpl; lia).
  inv_split I.
Qed.
Lemma inv_channel s i pc pc' c evs :
  inv s → threads s !! i = Some pc → same_state (chan s) c →
  (∃ v, pc = Try_send v ∧ pc' = Try_send_result false) ∨ pc = Try_recv ∧ pc' = Try_recv_result None →
  inv (update i c pc' evs s).
Proof.
  intros I Hi (Hq&Hs&Ht&Hr) [(v&->&->)|[-> ->]]; destruct c; simpl in *; subst; inv_split I.
Qed.

(** The moves that leave the channel alone. *)
Inductive quiet_move (c : go_channel T) : thread_pc T → thread_pc T → Prop :=
| quiet_send v : quiet_move c Idle (Send_begin v)
| quiet_recv : quiet_move c Idle Recv_enter
| quiet_try_send v : quiet_move c Idle (Try_send v)
| quiet_try_recv : quiet_move c Idle Try_recv
| quiet_try_send_return b : quiet_move c (Try_send_result b) Idle
| quiet_try_recv_return r : quiet_move c (Try_recv_result r) Idle
| quiet_begin_sleep v : send_begin_pred c = false → quiet_move c (Send_begin v) (Send_begin_asleep v)
| quiet_end_sleep k : send_end_pred c = false → quiet_move c (Send_end k) (Send_end_asleep k)
| quiet_recv_sleep : recv_pred c = false → quiet_move c Recv_awake Recv_asleep
| quiet_begin_wake v : quiet_move c (Send_begin_asleep v) (Send_begin v)
| quiet_end_wake k : quiet_move c (Send_end_asleep k) (Send_end k)
| quiet_recv_wake : quiet_move c Recv_asleep Recv_awake.

Lemma inv_quiet s i pc pc' :
  inv s → threads s !! i = Some pc → quiet_move (chan s) pc pc' → inv (goto i pc' s).
Proof.
  intros I Hi Hm.
  destruct Hm as [v| |v| |b|r|v Hp%send_begin_pred_false|k Hp%send_end_pred_false
    |Hp%recv_pred_false%(f_equal length)|v|k|]; inv_split I.
Qed.

Lemma inv_step s s' : inv s → step s s' → inv s'.
Proof.
  intros I Hstep. destruct Hstep;
    try (eapply inv_quiet; [done..|by constructor]);
    try (eapply inv_notify; [done..| |done]; by constructor).
  - by eapply inv_send_enqueue.
  - apply send_end_pred_true in H0. inv_split I.
  - apply recv_pred_false, (f_equal length) in H0. inv_split I.
  - apply recv_block_Some in H1 as (j&q&Hq&->&->).
    eapply inv_dequeue; eauto.
  - apply recv_block_Some in H1 as (j&q&Hq&->&->).
    eapply inv_dequeue; eauto.
  - apply try_send_run_false in H0. eapply inv_channel; eauto.
  - apply try_send_run_true in H0. by eapply inv_try_send.
  - apply try_recv_run_None in H0. eapply inv_channel; eauto.
  - apply try_recv_run_Some, try_recv_ptr_Some in H0 as (j&q&Hq&->&->).
    eapply inv_dequeue; eauto 6.
  - destruct cv, pc; try discriminate H0; eapply inv_quiet; eauto using quiet_move.
Qed.

Theorem reachable_inv n s : reachable n s → inv s.
Proof. induction 1; eauto using inv_init, inv_step. Qed.

(** ** The scheduler makes steps of the machine *)
Lemma notify_exec_sound cv w s s' : notify_exec cv w s = Some s' → notify_one cv s s'.
Proof.
  assert (∀ s', (if forallb (λ pc, negb (asleep_on cv pc)) (threads s) then Some s else None)
                = Some s' → notify_one cv s s') as Hlost.
  { intros s1 H. case_match eqn:Hf; simplify_eq. constructor. apply Forall_lookup.
    intros i pc Hi. apply negb_true_iff. rewrite forallb_forall in Hf. apply Hf.
    eapply list_elem_of_In, list_elem_of_lookup_2, Hi. }
  destruct w; simpl; try apply Hlost. intros (pc&Hj&H)%bind_Some.
  case_match eqn:Ha; simplify_eq. by econstructor.
Qed.
Lemma exec_sound i w s s' : exec i w s = Some s' → step s s'.
Proof.
  unfold exec. intros (pc&Hi&H)%bind_Some.
  destruct w, pc; try discriminate H;
    try (apply bind_Some in H as (?&?%notify_exec_sound&?); simplify_eq; by econstructor);
    repeat case_match; simplify_eq; try by econstructor.
  - apply bind_Some in H as (c&?&?). simplify_eq. by econstructor.
  - apply bind_Some in H as ([[c b] v]&?&?). simplify_eq. by econstructor.
  - apply bind_Some in H as ([[c b] v]&?&?). simplify_eq. by econstructor.
  - apply bind_Some in H as ([c []]&?&?); simplify_eq; by econstructor.
  - apply bind_Some in H as ([c [[b v]|]]&?&?); simplify_eq; by econstructor.
  - apply bind_Some in H as ([c []]&?&?); simplify_eq; by econstructor.
  - apply bind_Some in H as ([c [[b v]|]]&?&?); simplify_eq; by econstructor.
  - by apply (step_spurious s i _ Send_begin_cv).
  - by apply (step_spurious s i _ Send_end_cv).
  - by apply (step_spurious s i _ Recv_cv).
Qed.
Lemma run_reachable n l s s' : reachable n s → run l s = Some s' → reachable n s'.
Proof.
  revert s; induction l as [|[i w] l IH]; simpl; intros s Hs H; [by simplify_eq|].
  apply bind_Some in H as (s1&?%exec_sound&?). eauto using reach_step.
Qed.

(** ** The history is a run of a bounded queue *)
Lemma fifo_run_len h q : fifo_run h q → (length q ≤ N + 1)%nat.
Proof.
  induction 1 as [|h q e q' _ IH Hs]; [simpl; lia|].
  destruct Hs; simpl in *; rewrite ?length_app; simpl; lia.
Qed.
Lemma enqs_app h h' : enqs (h ++ h') = enqs h ++ enqs h'.
Proof. apply omap_app. Qed.
Lemma deqs_app h h' : deqs (h ++ h') = deqs h ++ deqs h'.
Proof. apply omap_app. Qed.
Lemma fifo_run_order h q : fifo_run h q → (enqs h).*2 = deqs h ++ q.*2.
Proof.
  induction 1 as [|h q e q' _ IH Hs]; [done|]. rewrite enqs_app, deqs_app, fmap_app, IH.
  destruct Hs; simpl; rewrite ?fmap_app; simpl; by rewrite ?app_nil_r, <-?app_assoc.
Qed.

Lemma fifo_run_step s s' :
  fifo_run (history s) (m_queue (chan s)) → step s s' →
  fifo_run (history s') (m_queue (chan s')).
Proof.
  intros Hf Hstep. destruct Hstep; simpl; rewrite ?app_nil_r; try done;
    try (by match goal with H : notify_one _ _ _ |- _ => destruct H end).
  - apply send_first_block_Some in H1 as ->. apply send_begin_pred_true in H0 as (_&_&?).
    econstructor; [done|]. by constructor.
  - apply recv_block_Some in H1 as (j&q&Hq&_&->). simpl in *. rewrite Hq in Hf.
    econstructor; [done|]. by constructor.
  - apply recv_block_Some in H1 as (j&q&Hq&_&->). simpl in *. rewrite Hq in Hf.
    econstructor; [done|]. by constructor.
  - apply try_send_run_false in H0 as (->&_). done.
  - apply try_send_run_true, try_send_true in H0 as ((_&_&?)%send_begin_pred_true&_&->).
    econstructor; [done|]. by constructor.
  - apply try_recv_run_None in H0 as (->&_). done.
  - apply try_recv_run_Some, try_recv_ptr_Some in H0 as (j&q&Hq&_&->). simpl. rewrite Hq in Hf.
    econstructor; [done|]. by constructor.
Qed.
Lemma reachable_fifo n s : reachable n s → fifo_run (history s) (m_queue (chan s)).
Proof. induction 1; [constructor|eauto using fifo_run_step]. Qed.

(** ** Tickets: what a sender knows of its element *)
Definition ticket (h : list (event T)) i (pc : thread_pc T) : Prop :=
  match pc with
  | Send_notify_recv k | Send_end k | Send_end_asleep k => ∃ v, enqs h !! k = Some (i, v)
  | Send_notify_begin k => (∃ v, enqs h !! k = Some (i, v)) ∧ (k < length (deqs h) + N)%nat
  | _ => True
  end.
Definition tickets s : Prop := ∀ i pc, threads s !! i = Some pc → ticket (history s) i pc.

Lemma ticket_app h h' i pc : ticket h i pc → ticket (h ++ h') i pc.
Proof.
  assert (∀ k, (∃ v, enqs h !! k = Some (i, v)) → ∃ v, enqs (h ++ h') !! k = Some (i, v)) as He.
  { intros k [v Hv]. exists v. rewrite enqs_app. by apply lookup_app_l_Some. }
  destruct pc; simpl; eauto. intros [??]. split; [eauto|]. rewrite deqs_app, length_app. lia.
Qed.
Lemma tickets_update i c pc evs s :
  tickets s → ticket (history s ++ evs) i pc → tickets (update i c pc evs s).
Proof.
  intros Ht Hpc j pcj Hj. simpl in *. destruct (decide (i = j)) as [->|].
  - apply list_lookup_insert_Some in Hj as [(_&->&_)|(?&_)]; done.
  - rewrite list_lookup_insert_ne in Hj by done. by apply ticket_app, Ht.
Qed.
Lemma tickets_goto i pc s : tickets s → ticket (history s) i pc → tickets (goto i pc s).
Proof.
  intros Ht Hpc. pose proof (tickets_update i (chan s) pc [] s Ht) as H.
  unfold update in H. rewrite app_nil_r in H. by apply H.
Qed.
Lemma tickets_notify cv s s' : tickets s → notify_one cv s s' → tickets s'.
Proof.
  intros Ht Hn. destruct Hn as [s j pc Hj Ha|]; [|done].
  apply tickets_goto; [done|]. apply Ht in Hj. by destruct cv, pc.
Qed.
Lemma notify_history cv s s' : notify_one cv s s' → history s' = history s.
Proof. by destruct 1. Qed.

Lemma enqs_length h q : fifo_run h q → length (enqs h) = (length (deqs h) + length q)%nat.
Proof.
  intros H%fifo_run_order%(f_equal length). by rewrite length_app, !length_fmap in H.
Qed.

Lemma tickets_step s s' :
  fifo_run (history s) (m_queue (chan s)) → tickets s → step s s' → tickets s'.
Proof.
  intros Hf Ht Hstep.
  assert (∀ i pc, threads s !! i = Some pc → ticket (history s) i pc) as Hi by done.
  destruct Hstep; try (match goal with H : threads _ !! _ = Some _ |- _ => apply Hi in H as Hk end);
    try (match goal with H : notify_one _ _ _ |- _ =>
           pose proof (notify_history _ _ _ H) as Hh; apply tickets_notify in H; [|done] end);
    try (apply tickets_goto; [done|]; simpl in *; try rewrite Hh; solve [done | exact Hk]);
    try (apply tickets_update; [done|]; done).
  - apply tickets_update; [done|]. exists v. by rewrite enqs_app, lookup_app_r, Nat.sub_diag by done.
  - apply tickets_update; [done|]. apply send_end_pred_true in H0. apply enqs_length in Hf. rewrite app_nil_r.
    split; [done|]. destruct Hk as [v Hk%lookup_lt_Some]. lia.
  - apply tickets_goto; [done|]. destruct cv, pc; try discriminate H0; exact Hk.
Qed.
Lemma reachable_tickets n s : reachable n s → tickets s.
Proof.
  intros H. induction H as [|s s' Hs IH Hstep].
  - intros i pc Hi. simpl in Hi. by apply lookup_replicate in Hi as [-> _].
  - eauto using tickets_step, reachable_fifo.
Qed.

(** ** The assertions of the code *)
Lemma inv_asserts s :
  inv s →
  negb (is_full (chan s)) || negb (m_is_send_done (chan s)) || negb (m_is_try_send_done (chan s)) = true ∧
  m_is_try_send_done (chan s) || m_is_send_done (chan s) = true.
Proof.
  intros I. pose proof (inv_full _ I) as Hf. pose proof (inv_try _ I) as Ht. unfold is_full.
  destruct (m_is_send_done (chan s)), (m_is_try_send_done (chan s)), (bool_decide_reflect (N < qlen s)%nat);
    simpl in *; split; try done; lia.
Qed.
Lemma inv_pop s p q b1 b2 b3 b4 b5 :
  inv s → m_queue (chan s) = p :: q → is_full (GoChannel q b1 b2 b3 b4 b5) = false.
Proof.
  intros I Hq. pose proof (inv_len _ I) as Hl. rewrite Hq in Hl. simpl in Hl.
  apply bool_decide_eq_false. simpl. lia.
Qed.
Lemma assert_bind_None {A} (b : bool) (f : () → option A) :
  (assert_ b ≫= f) = None → b = false ∨ b = true ∧ f () = None ∨ f () = None.
Proof. unfold assert_. destruct asserts, b; simpl; auto. Qed.
Lemma assert_bind_true {A} (f : () → option A) : (assert_ true ≫= f) = f ().
Proof. unfold assert_. by rewrite orb_true_r. Qed.

Definition own_front i c : Prop := is_full c = true ∧ ∃ v q, m_queue c = (i, v) :: q.

Lemma recv_block_None i s ready :
  inv s → recv_pred (chan s) = true →
  recv_block i (GoChannel (m_queue (chan s)) (m_is_send_done (chan s)) (m_is_try_send_done (chan s))
                  ready (m_is_try_send_ready (chan s)) (m_is_try_recv_ready (chan s))) = None →
  is_try_ready (chan s) = true ∨ own_front i (chan s).
Proof.
  intros I Hp. destruct (inv_asserts s I) as [H1 H2].
  unfold recv_block, post_blocking_recv, is_try_ready, own_front. cbn [m_is_try_recv_ready
    m_is_try_send_ready m_queue m_is_send_done m_is_try_send_done].
  destruct (m_is_try_recv_ready (chan s) && m_is_try_send_ready (chan s)) eqn:Hr; [auto|].
  cbn [negb]. rewrite assert_bind_true.
  destruct (m_queue (chan s)) as [|[j v] q] eqn:Hq; simpl; [by unfold recv_pred in Hp; rewrite Hq in Hp|].
  assert (is_full (chan s) = is_full (GoChannel ((j, v) :: q) (m_is_send_done (chan s))
    (m_is_try_send_done (chan s)) ready (m_is_try_send_ready (chan s))
    (m_is_try_recv_ready (chan s)))) as Hfull by (unfold is_full; by rewrite Hq).
  rewrite <-Hfull. destruct (is_full (chan s)) eqn:Hf, (bool_decide_reflect (i = j)) as [->|]; simpl;
    try (intros _; right; by eauto); rewrite assert_bind_true; simpl in *; rewrite ?H1, ?H2;
    rewrite !assert_bind_true, (inv_pop s _ _ _ _ _ _ _ I Hq); simpl; by rewrite assert_bind_true.
Qed.
Lemma try_recv_None i s : inv s → try_recv_ptr i (chan s) = None → own_front i (chan s).
Proof.
  intros I. destruct (inv_asserts s I) as [H1 H2].
  unfold try_recv_ptr, own_front. simpl. destruct (m_queue (chan s)) as [|[j v] q] eqn:Hq; [done|].
  assert (is_full (chan s) = is_full (GoChannel ((j, v) :: q) (m_is_send_done (chan s))
    (m_is_try_send_done (chan s)) (m_is_recv_ready (chan s)) (m_is_try_send_ready (chan s))
    true)) as Hfull by (unfold is_full; by rewrite Hq).
  rewrite <-Hfull, H1, H2, !assert_bind_true.
  destruct (is_full (chan s)) eqn:Hf, (bool_decide_reflect (i = j)) as [->|]; simpl;
    try (intros _; by eauto); by rewrite assert_bind_true, (inv_pop s _ _ _ _ _ _ _ I Hq), assert_bind_true.
Qed.
Lemma send_None i v c :
  send_begin_pred c = true → send_first_block i v c = None → is_try_ready c = true.
Proof.
  unfold send_begin_pred, send_first_block. intros [[-> ->]%andb_true_iff ->]%andb_true_iff.
  rewrite !assert_bind_true. by destruct (is_try_ready c); [|rewrite assert_bind_true].
Qed.
Lemma free_slots_pos c b :
  (0 =? free_slots c) && negb b = false → (0 <? free_slots c) || b = true.
Proof.
  assert (0 ≤ free_slots c) by (by apply Z.mod_pos_bound).
  destruct (Z.eqb_spec 0 (free_slots c)), (Z.ltb_spec 0 (free_slots c)), b; try done; lia.
Qed.
Lemma try_send_None i v c : try_send i v c = None → m_is_try_recv_ready c = true.
Proof.
  unfold try_send, is_try_ready. cbn [m_is_try_recv_ready m_is_try_send_ready].
  destruct (m_is_try_recv_ready c); [done|]. cbn [negb andb]. rewrite assert_bind_true.
  case_match eqn:Hc; [done|].
  apply orb_false_iff in Hc as [[[->%negb_false_iff ->%negb_false_iff]%orb_false_iff ->]%orb_false_iff
    ->%free_slots_pos].
  by rewrite !assert_bind_true.
Qed.

(** ** Theorems *)

(** C4: The channel refines its contract: whatever the interleaving of blocking and
    nonblocking operations, the history of a run is a run of a first-in first-out queue
    of N + 1 places that ends in the queue of the channel; so what was received,
    followed by what is still queued, is what was sent, in order. *)
Theorem channel_refines_fifo n s :
  reachable n s →
  fifo_run (history s) (m_queue (chan s)) ∧
  (enqs (history s)).*2 = deqs (history s) ++ (m_queue (chan s)).*2.
Proof. intros H%reachable_fifo. eauto using fifo_run_order. Qed.

(** C6: A blocking send returns only once all but N of the elements up to its own have
    been received: the sender that is about to return knows its element, and in a
    channel of size zero that very element has been received (the two threads have met).
    *)
Theorem send_waits_for_receiver n s i k :
  reachable n s → threads s !! i = Some (Send_notify_begin k) →
  ∃ v, enqs (history s) !! k = Some (i, v) ∧ (k < length (deqs (history s)) + N)%nat ∧
       (N = 0%nat → deqs (history s) !! k = Some v).
Proof.
  intros Hr Hi. destruct (reachable_tickets n s Hr i _ Hi) as [[v Hv] Hk].
  exists v. split_and!; [done..|]. intros ->. pose proof (fifo_run_order _ _ (reachable_fifo n s Hr)) as Ho.
  assert ((enqs (history s)).*2 !! k = Some v) as Hkv by (by rewrite list_lookup_fmap, Hv).
  rewrite Ho, lookup_app_l in Hkv by lia. done.
Qed.

Lemma quiescent_counts s :
  quiescent s → ∀ cv, awake cv s = 0%nat ∧ notifying cv s = 0%nat ∧
    count sending (threads s) = asleep Send_end_cv s.
Proof.
  unfold quiescent. intros H cv. induction H as [|pc l Hpc _ IH]; [done|].
  destruct IH as (?&?&?). destruct Hpc as [->|[cv' Hcv]]; [by destruct cv|].
  destruct cv, cv', pc; try discriminate Hcv; simpl in *; lia.
Qed.

(** C5: No wake-up is lost: when no thread can move, a receiver sleeps only if the queue
    is empty and a sender only if it is full, so a sender and a receiver never wait for
    each other. *)
Theorem no_lost_wakeup n s i pc :
  reachable n s → quiescent s → threads s !! i = Some pc →
  (asleep_on Recv_cv pc = true → m_queue (chan s) = []) ∧
  (asleep_on Send_begin_cv pc = true ∨ asleep_on Send_end_cv pc = true →
   is_full (chan s) = true).
Proof.
  intros Hr%reachable_inv Hq Hi.
  destruct (quiescent_counts s Hq Recv_cv) as (?&?&_), (quiescent_counts s Hq Send_begin_cv) as (?&?&_),
    (quiescent_counts s Hq Send_end_cv) as (?&?&Hs).
  pose proof (inv_try s Hr) as Ht. split.
  - intros Ha%(count_pos _ _ _ _ Hi). destruct (inv_recv s Hr); [lia|].
    apply nil_length_inv. lia.
  - intros Ha. apply bool_decide_eq_true. pose proof (inv_sending s Hr).
    destruct Ha as [Ha|Ha]; apply (count_pos _ _ _ _ Hi) in Ha.
    + destruct (inv_end s Hr) as [|[|]], (inv_begin s Hr) as [|[|[|[|]]]]; try lia.
    + destruct (inv_end s Hr) as [|[|]]; lia.
Qed.

(** The only assertions of the channel that can fail are the two it documents or
    relies on its clients for: that both ends are not used from selects at once, and
    that a thread does not receive the element it has itself put into a full queue. *)
Theorem failing_assertions n s i :
  reachable n s → aborts i s = true →
  m_is_try_recv_ready (chan s) = true ∧
    (m_is_try_send_ready (chan s) = true ∨ ∃ v, threads s !! i = Some (Try_send v)) ∨
  is_full (chan s) = true ∧ (∃ v q, m_queue (chan s) = (i, v) :: q) ∧
    (∃ pc, threads s !! i = Some pc ∧ In pc [Recv_enter; Recv_awake; Try_recv]).
Proof.
  intros Hr%reachable_inv Ha. unfold aborts in Ha.
  assert (is_try_ready (chan s) = true →
    m_is_try_recv_ready (chan s) = true ∧ m_is_try_send_ready (chan s) = true) as Htr
    by (unfold is_try_ready; by rewrite andb_true_iff).
  destruct (threads s !! i) as [[]|] eqn:Hi; try done;
    try (apply andb_true_iff in Ha as [Hp Ha]); apply bool_decide_eq_true in Ha.
  - apply send_None, Htr in Ha as [??]; auto.
  - apply recv_block_None in Ha as [[??]%Htr|[??]]; auto. right. split_and!; [done..|]. eexists; split; [done|]. simpl; auto.
  - assert (recv_block i (GoChannel (m_queue (chan s)) (m_is_send_done (chan s))
      (m_is_try_send_done (chan s)) (m_is_recv_ready (chan s)) (m_is_try_send_ready (chan s))
      (m_is_try_recv_ready (chan s))) = None) as Hb by (by destruct (chan s)).
    apply recv_block_None in Hb as [[??]%Htr|[??]]; auto. right. split_and!; [done..|]. eexists; split; [done|]. simpl; auto.
  - apply try_send_None in Ha. eauto.
  - apply try_recv_None in Ha as [??]; [|done]. right. split_and!; [done..|]. eexists; split; [done|]. simpl; auto.
Qed.
End channel.

(** ** Runs *)
Module GoSample.
Definition exec_run (N : nat) (n : nat) (l : list (nat * choice (T:=nat))) : option (sys (T:=nat)) :=
  run N true l (sys_init n).
(** A sender and a receiver of a channel of size zero meet. *)
Definition meet : list (nat * choice (T:=nat)) :=
  [(0, Call (Send_begin 7)); (0, Go); (0, Go); (0, Go); (1, Call Recv_enter); (1, Go);
   (1, Wake 0); (0, Go)]%nat.
(** Two senders wait. *)
Definition two_senders : list (nat * choice (T:=nat)) :=
  [(0, Call (Send_begin 7)); (0, Go); (0, Go); (0, Go); (1, Call (Send_begin 8)); (1, Go)]%nat.
(** A select gives its element to a waiting receiver, then its thread receives. *)
Definition self_receive : list (nat * choice (T:=nat)) :=
  [(0, Call Recv_enter); (0, Go); (1, Call (Try_send 5)); (1, Go); (1, Wake 0); (1, Go);
   (1, Call Recv_enter)]%nat.
(** Two receivers wait; one of them is served. *)
Definition one_served : list (nat * choice (T:=nat)) :=
  [(0, Call Recv_enter); (0, Go); (1, Call Recv_enter); (1, Go);
   (2, Call (Send_begin 7)); (2, Go); (2, Wake 0); (0, Go); (0, Go); (2, Go); (2, Go)]%nat.
Definition attempt : list (nat * choice (T:=nat)) := [(2, Call (Try_send 9)); (2, Go); (2, Go)]%nat.
Definition attempts (m : nat) : list (nat * choice (T:=nat)) := concat (replicate m attempt).
(** A select whose two cases are both ends of one channel. *)
Definition both_ends : list (nat * choice (T:=nat)) :=
  [(0, Call (Try_send 1)); (0, Go); (0, Go); (0, Call Try_recv); (0, Go); (0, Go);
   (0, Call (Try_send 1))]%nat.

Definition final (o : option (sys (T:=nat))) : sys (T:=nat) := default (sys_init 0) o.
Lemma run_is_reachable N n l :
  is_Some (exec_run N n l) → reachable N true n (final (exec_run N n l)).
Proof.
  intros [s Hs]. rewrite Hs. simpl. eapply run_reachable, Hs. constructor.
Qed.

Example both_ends_abort : aborts 0 true 0 (final (exec_run 0 1 both_ends)) = true.
Proof. vm_compute. reflexivity. Qed.
End GoSample.

Lemma channel_refines_fifo_witness :
  let s := GoSample.final (GoSample.exec_run 0 2 GoSample.meet) in
  fifo_run 0 (history s) (m_queue (chan s)) ∧
  (enqs (history s)).*2 = deqs (history s) ++ (m_queue (chan s)).*2.
Proof.
  apply (channel_refines_fifo 0 true 2).
  apply GoSample.run_is_reachable. vm_compute. eexists. reflexivity.
Defined.

Lemma send_waits_for_receiver_witness :
  let s := GoSample.final (GoSample.exec_run 0 2 GoSample.meet) in
  ∃ v, enqs (history s) !! 0%nat = Some (0%nat, v) ∧ (0 < length (deqs (history s)) + 0)%nat ∧
       (0%nat = 0%nat → deqs (history s) !! 0%nat = Some v).
Proof.
  apply (send_waits_for_receiver 0 true ltac:(done) 2).
  - apply GoSample.run_is_reachable. vm_compute. eexists. reflexivity.
  - vm_compute. reflexivity.
Defined.

Lemma no_lost_wakeup_witness :
  let s := GoSample.final (GoSample.exec_run 0 2 GoSample.two_senders) in
  is_full 0 (chan s) = true.
Proof.
  intros s. apply (no_lost_wakeup 0 true ltac:(done) 2 s 1 (Send_begin_asleep 8%nat)); [| | |by left].
  - apply GoSample.run_is_reachable. vm_compute. eexists. reflexivity.
  - refine (Forall_cons_2 _ _ _ _ (Forall_cons_2 _ _ _ _ (Forall_nil_2 _))); right;
      [by exists Send_end_cv|by exists Send_begin_cv].
  - vm_compute. reflexivity.
Defined.

Lemma failing_assertions_witness :
  let s := GoSample.final (GoSample.exec_run 0 2 GoSample.self_receive) in
  m_is_try_recv_ready (chan s) = true ∧
    (m_is_try_send_ready (chan s) = true ∨ ∃ v, threads s !! 1%nat = Some (Try_send v)) ∨
  is_full 0 (chan s) = true ∧ (∃ v q, m_queue (chan s) = (1%nat, v) :: q) ∧
    (∃ pc, threads s !! 1%nat = Some pc ∧ In pc [Recv_enter; Recv_awake; Try_recv]).
Proof.
  apply (failing_assertions 0 true ltac:(done) 2).
  - apply GoSample.run_is_reachable. vm_compute. eexists. reflexivity.
  - vm_compute. reflexivity.
Defined.

Lemma attempts_fail m :
  let s := GoSample.final (GoSample.exec_run 0 3 (GoSample.one_served ++ GoSample.attempt)) in
  run 0 true (GoSample.attempts m) s = Some s.
Proof.
  intros s. induction m as [|m IH]; [reflexivity|].
  change (GoSample.attempts (S m)) with (GoSample.attempt ++ GoSample.attempts m).
  transitivity (run 0 true (GoSample.attempts m) s); [|exact IH]. reflexivity.
Qed.

(** Defect: A select can starve: once one of two waiting receivers has been
    served, the channel has forgotten that the other one waits (the flag that says a
    receiver is ready was cleared for both), and a select that keeps offering an element
    to it never succeeds, for any number of attempts. *)
Theorem select_misses_receiver :
  ∃ s, reachable 0 true 3 s ∧ threads s !! 1%nat = Some Recv_asleep ∧
    (∀ i, i ≠ 1%nat → threads s !! i = Some Idle ∨ threads s !! i = None) ∧
    ∀ m, ∃ s', run 0 true (GoSample.attempts (S m)) s = Some s' ∧
      threads s' !! 1%nat = Some Recv_asleep ∧ history s' = history s.
Proof.
  exists (GoSample.final (GoSample.exec_run 0 3 GoSample.one_served)). split_and!.
  - apply GoSample.run_is_reachable. vm_compute. eexists. reflexivity.
  - vm_compute. reflexivity.
  - intros [|[|[|i]]] Hi; [by left|done|by left|by right].
  - intros m. exists (GoSample.final (GoSample.exec_run 0 3 (GoSample.one_served ++ GoSample.attempt))).
    split_and!; [|reflexivity..]. exact (attempts_fail m).
Qed.
