(* ===== verification/Select.v ===== *)
(** * Select ([network/base/channel.h], [select])

    A select holds its cases as functions that try an operation and say whether
    it succeeded ([std::function<bool()>]); here they transform a state.
    [try_once] tries each case once, [wait] goes round the cases until one
    succeeds.  Both start at a random case; the random number is an input. *)
From stdpp Require Import base option list numbers.
From S2P Require Import Prelude.
Local Open Scope Z_scope.

Section select.
Context {S : Type}.
Notation case := (S → S * bool).
Implicit Types (cases : list case) (s : S).

(** ** Definitions *)

(** [m_try_functions.at(k)()]; [at] throws outside the vector. *)
Definition run_case cases (k : Z) s : ub (S * bool) :=
  f ← deref (cases !! Z.to_nat k); Def (f s).

(** The [for] loop: [todo] iterations are left, [j] is the next. *)
Fixpoint try_loop cases (i : Z) (todo : nat) (j : Z) s : ub (S * bool) :=
  match todo with
  | O => Def (s, false)
  | Datatypes.S todo =>
      '(s, ok) ← run_case cases (u64 (i + j) `mod` Z.of_nat (length cases)) s;
      if ok : bool then Def (s, true) else try_loop cases i todo (u64 (j + 1)) s
  end.
Definition try_once cases (random : Z) s : ub (S * bool) :=
  try_loop cases random (length cases) 0 s.

(** [wait], for at most [fuel] turns of its loop: [None] when it is still
    looping then.  Without cases the first turn divides by zero. *)
Fixpoint wait_loop (fuel : nat) cases (i : Z) s : ub (option S) :=
  match fuel with
  | O => Def None
  | Datatypes.S fuel =>
      let n := Z.of_nat (length cases) in
      _ ← assert_ub (negb (n =? 0));
      let i := u64 (i + 1) `mod` n in
      '(s, ok) ← run_case cases i s;
      if ok : bool then Def (Some s) else wait_loop fuel cases i s
  end.
Definition select_wait (fuel : nat) cases (random : Z) s : ub (option S) :=
  wait_loop fuel cases random s.

(** *** The reference: the cases of a list in turn, up to the first success *)
Fixpoint run_until (l : list case) s : S * bool :=
  match l with
  | [] => (s, false)
  | f :: l => let '(s, ok) := f s in if ok : bool then (s, true) else run_until l s
  end.

(** ** Lemmas *)
Lemma run_until_app l1 l2 s :
  run_until (l1 ++ l2) s =
    (let '(s', ok) := run_until l1 s in if ok : bool then (s', true) else run_until l2 s').
Proof. revert s. induction l1 as [|f l1 IH]; intros s; simpl; [done|]. by destruct (f s) as [? []]. Qed.

(** The element [j] places after [i], going round. *)
Lemma rotate_at cases (i : Z) (j : nat) :
  0 ≤ i → (j < length cases)%nat →
  rotate (Z.to_nat (i `mod` Z.of_nat (length cases))) cases !! j =
    cases !! Z.to_nat ((i + Z.of_nat j) `mod` Z.of_nat (length cases)).
Proof.
  intros Hi Hj. rewrite lookup_rotate_r by done. unfold rotate_nat_add. f_equal. f_equal.
  pose proof (Z.mod_pos_bound i (Z.of_nat (length cases))).
  rewrite Z2Nat.id by lia. by rewrite Z.add_mod_idemp_l by lia.
Qed.
Lemma drop_at {A} (l : list A) j x : l !! j = Some x → drop j l = x :: drop (Datatypes.S j) l.
Proof. intros H. by apply drop_S. Qed.

Lemma try_loop_drop cases i todo j s :
  0 ≤ i < 2 ^ 32 → Z.of_nat (length cases) < 2 ^ 32 → (todo + j = length cases)%nat →
  try_loop cases i todo (Z.of_nat j) s =
    Def (run_until (drop j (rotate (Z.to_nat (i `mod` Z.of_nat (length cases))) cases)) s).
Proof.
  intros Hi Hn. revert j s. induction todo as [|todo IH]; intros j s Hj; simpl.
  - by rewrite drop_ge by (rewrite length_rotate; lia).
  - destruct (lookup_lt_is_Some_2
      (rotate (Z.to_nat (i `mod` Z.of_nat (length cases))) cases) j) as [f Hf].
    { rewrite length_rotate. lia. }
    rewrite (drop_at _ _ _ Hf). rewrite rotate_at in Hf by lia.
    unfold run_case, u64. rewrite (Z.mod_small (i + _)), Hf by lia. simpl.
    destruct (f s) as [s' []]; simpl; [done|].
    rewrite Z.mod_small by lia. replace (Z.of_nat j + 1) with (Z.of_nat (Datatypes.S j)) by lia.
    apply IH. lia.
Qed.

Lemma wait_loop_rounds cases i (m : nat) s :
  0 ≤ i < 2 ^ 32 → Z.of_nat (length cases) < 2 ^ 32 → (m ≤ length cases)%nat →
  wait_loop m cases i s =
    Def (let '(s', ok) := run_until (take m (rotate
           (Z.to_nat ((i + 1) `mod` Z.of_nat (length cases))) cases)) s in
         if ok : bool then Some s' else None).
Proof.
  intros Hi Hn Hm. destruct (decide (m = 0%nat)) as [->|Hm0]; [done|].
  set (n := Z.of_nat (length cases)) in *. set (r := rotate _ cases).
  assert (∀ k t, (k + t = m)%nat → ∀ s, ∀ i', (0 ≤ i' < 2 ^ 32) →
    (i' + 1) `mod` n = (i + 1 + Z.of_nat k) `mod` n →
    wait_loop t cases i' s =
      Def (let '(s', ok) := run_until (take t (drop k r)) s in
           if ok : bool then Some s' else None)) as Hgen; [|by apply (Hgen 0%nat m); [lia| |f_equal; lia]].
  intros k t. revert k. induction t as [|t IH]; intros k Hk s1 i' Hi' Hmod; [done|].
  destruct (lookup_lt_is_Some_2 r k) as [f Hf]; [unfold r; rewrite length_rotate; lia|].
  rewrite (drop_at _ _ _ Hf). unfold r, n in Hf. rewrite rotate_at in Hf by lia. fold n in Hf.
  change (wait_loop (Datatypes.S t) cases i' s1) with
    (_ ← assert_ub (negb (n =? 0)); '(s, ok) ← run_case cases (u64 (i' + 1) `mod` n) s1;
     if ok : bool then Def (Some s) else wait_loop t cases (u64 (i' + 1) `mod` n) s).
  destruct (Z.eqb_spec n 0); [lia|]. simpl. unfold run_case, u64.
  rewrite (Z.mod_small (i' + 1)) by lia. rewrite Hmod, Hf. simpl.
  destruct (f s1) as [s2 []]; simpl; [done|]. apply IH; [lia| |].
  - pose proof (Z.mod_pos_bound (i + 1 + Z.of_nat k) n). lia.
  - rewrite Z.add_mod_idemp_l by lia. f_equal. lia.
Qed.

(** ** Theorems *)

(** [try_once] is the reference: starting at the random case it tries every case
    exactly once, in order and going round, until the first that succeeds, and says
    whether one did; no index is out of range. *)
Theorem try_once_rotates cases random s :
  0 ≤ random < 2 ^ 32 → Z.of_nat (length cases) < 2 ^ 32 →
  try_once cases random s =
    Def (run_until (rotate (Z.to_nat (random `mod` Z.of_nat (length cases))) cases) s).
Proof. intros ??. unfold try_once. by rewrite (try_loop_drop _ _ _ 0) by (done || lia). Qed.

Lemma run_until_true l s :
  (∃ k f, l !! k = Some f ∧ ∀ s, (f s).2 = true) → (run_until l s).2 = true.
Proof.
  intros (k&f&Hk&Hf). revert k s Hk. induction l as [|g l IH]; intros [|k] s Hk; simplify_eq/=.
  - specialize (Hf s). by destruct (f s) as [? []].
  - destruct (g s) as [s' []]; [done|]. eauto.
Qed.
Lemma rotate_In cases n k f : cases !! k = Some f → ∃ k', rotate n cases !! k' = Some f.
Proof.
  intros Hk. apply list_elem_of_lookup_1. unfold rotate.
  apply list_elem_of_lookup_2 in Hk. rewrite <-(take_drop (n `mod` length cases) cases) in Hk.
  rewrite elem_of_app in *. tauto.
Qed.

(** [wait] terminates when one of its cases succeeds whenever it is tried: within
    one round it returns, having run the cases from the one after the random one up to
    the first that succeeded and no others. *)
Theorem select_wait_terminates cases random s k f :
  0 ≤ random < 2 ^ 32 → Z.of_nat (length cases) < 2 ^ 32 →
  cases !! k = Some f → (∀ s, (f s).2 = true) →
  ∃ s', select_wait (length cases) cases random s = Def (Some s') ∧
    run_until (rotate (Z.to_nat ((random + 1) `mod` Z.of_nat (length cases))) cases) s = (s', true).
Proof.
  intros Hr Hn Hk Hf. unfold select_wait. rewrite wait_loop_rounds by (done || lia).
  rewrite take_ge by (rewrite length_rotate; lia).
  destruct (rotate_In cases (Z.to_nat ((random + 1) `mod` Z.of_nat (length cases))) k f Hk) as [k' Hk'].
  pose proof (run_until_true _ s ltac:(eauto)) as Ht.
  destruct (run_until _ s) as [s' ok]. simpl in Ht. subst. by exists s'.
Qed.

(** Without a case [wait] divides by zero. *)
Lemma select_wait_empty fuel random s : select_wait (Datatypes.S fuel) [] random s = Undef.
Proof. reflexivity. Qed.
End select.

Definition sample_cases : list (Z → Z * bool) :=
  [(λ s, (s + 1, false)); (λ s, (s + 10, true)); (λ s, (s + 100, false))].

Lemma try_once_rotates_witness :
  try_once sample_cases 5 0 = Def (101 + 10, true).
Proof. rewrite (try_once_rotates sample_cases 5 0 ltac:(lia) ltac:(reflexivity)). reflexivity. Defined.

Lemma select_wait_terminates_witness :
  ∃ s', select_wait 3 sample_cases 1 0 = Def (Some s') ∧ run_until (rotate 2 sample_cases) 0 = (s', true).
Proof.
  apply (select_wait_terminates sample_cases 1 0 1 (λ s, (s + 10, true)));
    [lia|reflexivity|reflexivity|reflexivity].
Defined.
