(* ===== verification/Signal.v ===== *)
(** * Signals ([network/msgbus/msg_signal.hpp])

    A signal keeps its handlers in a ring of reference-counted links, whose
    head holds the default handler.  The links live in a heap, so a use after
    free and the dereference of null are [Undef]; where [new] puts a link is an
    input.  A handler is the client's code: [call] runs it on the whole state,
    of which the signal is a part, so a handler may connect and disconnect. *)
From stdpp Require Import base option list numbers gmap fin_maps.
From S2P Require Import Prelude.
Local Open Scope Z_scope.

(** ** Definitions *)
Record signal_link (F : Type) := SignalLink {
  next : Z;
  prev : Z;
  function : option F;
  ref_count : Z
}.
Arguments SignalLink {F}.
Arguments next {F}.
Arguments prev {F}.
Arguments function {F}.
Arguments ref_count {F}.

Section signal.
Context {F W : Type} `{EqDecision F}.
Notation link := (signal_link F).
Notation heap := (gmap Z link).
Implicit Types (h : heap) (p a b id : Z) (f : F).

(** *** Links *)
Definition set_next (v : Z) (n : link) : link := SignalLink v (prev n) (function n) (ref_count n).
Definition set_prev (v : Z) (n : link) : link := SignalLink (next n) v (function n) (ref_count n).
Definition set_function (g : option F) (n : link) : link :=
  SignalLink (next n) (prev n) g (ref_count n).
Definition set_ref_count (v : Z) (n : link) : link := SignalLink (next n) (prev n) (function n) v.

Definition update_link p (g : link → link) h : ub heap :=
  n ← deref (h !! p); Def (<[p := g n]> h).

Definition incref p h : ub heap :=
  n ← deref (h !! p);
  c ← i32 (ref_count n + 1);
  _ ← assert_ub (0 <? c);
  Def (<[p := set_ref_count c n]> h).
Definition decref p h : ub heap :=
  n ← deref (h !! p);
  c ← i32 (ref_count n - 1);
  if c =? 0 then Def (delete p h)
  else _ ← assert_ub (0 <? c); Def (<[p := set_ref_count c n]> h).

Definition unlink p h : ub heap :=
  h ← update_link p (set_function None) h;
  n ← deref (h !! p);
  h ← (if negb (next n =? 0) then update_link (next n) (set_prev (prev n)) h else Def h);
  n ← deref (h !! p);
  h ← (if negb (prev n =? 0) then update_link (prev n) (set_next (next n)) h else Def h);
  decref p h.

(** [add_before], on the head: [a] is the address of the new link, its id. *)
Definition add_before p a (cb : F) h : ub heap :=
  n ← deref (h !! p);
  let h := <[a := SignalLink p (prev n) (Some cb) 1]> h in
  h ← update_link (prev n) (set_next a) h;
  update_link p (set_prev a) h.

(** [remove_sibling]: the ring is searched from the link after [p]. *)
Fixpoint remove_loop (fuel : nat) p l id h : ub (bool * heap) :=
  match fuel with
  | O => Undef
  | S fuel =>
      if l =? p then Def (false, h)
      else if id =? l then h ← unlink l h; Def (true, h)
      else n ← deref (h !! l); remove_loop fuel p (next n) id h
  end.
Definition remove_sibling (fuel : nat) p id h : ub (bool * heap) :=
  n ← deref (h !! p);
  remove_loop fuel p (if negb (next n =? 0) then next n else p) id h.

(** [deactivate], comparing functions. *)
Fixpoint deactivate_loop (fuel : nat) p l f h : ub (bool * heap) :=
  match fuel with
  | O => Undef
  | S fuel =>
      if l =? p then Def (false, h)
      else
        n ← deref (h !! l);
        if bool_decide (function n = Some f) then h ← unlink l h; Def (true, h)
        else deactivate_loop fuel p (next n) f h
  end.
Definition deactivate (fuel : nat) p f h : ub (bool * heap) :=
  n ← deref (h !! p);
  if bool_decide (function n = Some f) then
    h ← update_link p (set_function None) h; Def (true, h)
  else deactivate_loop fuel p (if negb (next n =? 0) then next n else p) f h.

(** *** Signals: the heap and [callback_ring_] (0 is null) *)
Record signal := Signal { links : heap; callback_ring_ : Z; world : W }.
Implicit Types s : signal.
Definition set_links h s : signal := Signal h (callback_ring_ s) (world s).

Definition ensure_ring a s : ub signal :=
  if negb (callback_ring_ s =? 0) then Def s
  else
    let h := <[a := SignalLink 0 0 None 1]> (links s) in
    h ← incref a h;
    h ← update_link a (set_next a) h;
    h ← update_link a (set_prev a) h;
    Def (Signal h a (world s)).

(** The constructor; [a] is where its ring would be. *)
Definition signal_new a (method : option F) (w : W) : ub signal :=
  let s := Signal ∅ 0 w in
  match method with
  | None => Def s
  | Some f =>
      s ← ensure_ring a s;
      h ← update_link (callback_ring_ s) (set_function (Some f)) (links s);
      Def (set_links h s)
  end.

(** [connect]: [a0] is where a ring would be made, [a] the new link. *)
Definition connect a0 a (cb : F) s : ub (Z * signal) :=
  s ← ensure_ring a0 s;
  h ← add_before (callback_ring_ s) a cb (links s);
  Def (a, set_links h s).
Definition disconnect (fuel : nat) (connection : Z) s : ub (bool * signal) :=
  if negb (callback_ring_ s =? 0) then
    '(r, h) ← remove_sibling fuel (callback_ring_ s) connection (links s);
    Def (r, set_links h s)
  else Def (false, s).

(** The destructor. *)
Fixpoint unlink_all (fuel : nat) p h : ub heap :=
  match fuel with
  | O => Undef
  | S fuel =>
      n ← deref (h !! p);
      if next n =? p then Def h else h ← unlink (next n) h; unlink_all fuel p h
  end.
Definition destroy (fuel : nat) s : ub heap :=
  if negb (callback_ring_ s =? 0) then
    h ← unlink_all fuel (callback_ring_ s) (links s);
    n ← deref (h !! callback_ring_ s);
    _ ← assert_ub (2 <=? ref_count n);
    h ← decref (callback_ring_ s) h;
    decref (callback_ring_ s) h
  else Def (links s).

(** *** Emission *)
Section emit.
Context {R C : Type} (call : F → signal → ub (signal * R)) (collect : C → R → C * bool).

Fixpoint emit_loop (fuel : nat) l (col : C) s : ub (C * signal) :=
  match fuel with
  | O => Undef
  | S fuel =>
      n ← deref (links s !! l);
      '(col, s, continue_emission) ←
        (match function n with
         | Some f => '(s, r) ← call f s;
                     let '(col, go_on) := collect col r in Def (col, s, go_on)
         | None => Def (col, s, true)
         end);
      if negb continue_emission : bool then
        h ← decref l (links s); Def (col, set_links h s)
      else
        n ← deref (links s !! l);
        h ← incref (next n) (links s);
        h ← decref l h;
        let s := set_links h s in
        if negb (next n =? callback_ring_ s) then emit_loop fuel (next n) col s
        else h ← decref (next n) (links s); Def (col, set_links h s)
  end.
Definition emit (fuel : nat) (col : C) s : ub (C * signal) :=
  if callback_ring_ s =? 0 then Def (col, s)
  else
    h ← incref (callback_ring_ s) (links s);
    emit_loop fuel (callback_ring_ s) col (set_links h s).
End emit.

(** [size] and [empty] walk the ring from [callback_ring_], null or not, and
    return without giving back the last reference they took. *)
Fixpoint size_loop (fuel : nat) l (n : Z) s : ub (Z * signal) :=
  match fuel with
  | O => Undef
  | S fuel =>
      k ← deref (links s !! l);
      let n := if function k then n + 1 else n in
      h ← incref (next k) (links s);
      h ← decref l h;
      let s := set_links h s in
      if negb (next k =? callback_ring_ s) then size_loop fuel (next k) n s else Def (n, s)
  end.
Definition size_ (fuel : nat) s : ub (Z * signal) :=
  h ← incref (callback_ring_ s) (links s);
  size_loop fuel (callback_ring_ s) 0 (set_links h s).
Fixpoint empty_loop (fuel : nat) l s : ub (bool * signal) :=
  match fuel with
  | O => Undef
  | S fuel =>
      k ← deref (links s !! l);
      if function k then Def (false, s)
      else
        h ← incref (next k) (links s);
        h ← decref l h;
        let s := set_links h s in
        if negb (next k =? callback_ring_ s) then empty_loop fuel (next k) s else Def (true, s)
  end.
Definition empty_ (fuel : nat) s : ub (bool * signal) :=
  h ← incref (callback_ring_ s) (links s);
  empty_loop fuel (callback_ring_ s) (set_links h s).

(** *** Collectors *)
Definition collector_last {R} (last : R) (r : R) : R * bool := (r, true).
Definition collector_void (u : ()) (r : ()) : () * bool := ((), true).
Definition collector_until0 {R} (truth : R → bool) (result : R) (r : R) : R * bool := (r, truth r).
Definition collector_while0 {R} (truth : R → bool) (result : R) (r : R) : R * bool :=
  (r, negb (truth r)).
Definition collector_vector {R} (result : list R) (r : R) : list R * bool := (result ++ [r], true).

(** ** The ring as a list

    [ring h p dflt xs]: the heap [h] is exactly a ring with head [p], the default
    handler [dflt] and the handlers [xs], each with its id, in order. *)
Definition first_of (xs : list (Z * F)) (q : Z) : Z := match xs with [] => q | x :: _ => x.1 end.
Definition last_of (p : Z) (xs : list (Z * F)) : Z := match last xs with None => p | Some x => x.1 end.
Fixpoint chain h (p : Z) (xs : list (Z * F)) (q : Z) : Prop :=
  match xs with
  | [] => True
  | (a, f) :: xs =>
      h !! a = Some (SignalLink (first_of xs q) p (Some f) 1) ∧ chain h a xs q
  end.
Record ring h (p : Z) (dflt : option F) (xs : list (Z * F)) : Prop := {
  ring_head : h !! p = Some (SignalLink (first_of xs p) (last_of p xs) dflt 2);
  ring_chain : chain h p xs p;
  ring_nodup : NoDup (p :: xs.*1);
  ring_nonnull : 0 ∉ p :: xs.*1;
  ring_dom : ∀ a, is_Some (h !! a) → a ∈ p :: xs.*1
}.

Lemma first_of_app xs ys q : first_of (xs ++ ys) q = first_of xs (first_of ys q).
Proof. by destruct xs. Qed.
Lemma last_of_app p xs ys : last_of p (xs ++ ys) = last_of (last_of p xs) ys.
Proof. unfold last_of. rewrite last_app. by destruct (last ys). Qed.
Lemma last_of_cons p a f xs : last_of p ((a, f) :: xs) = last_of a xs.
Proof. unfold last_of. rewrite last_cons. by destruct (last xs). Qed.
Lemma first_of_in xs q : first_of xs q = q ∨ first_of xs q ∈ xs.*1.
Proof. destruct xs; simpl; [auto|right; constructor]. Qed.
Lemma last_of_in p xs : last_of p xs = p ∨ last_of p xs ∈ xs.*1.
Proof.
  unfold last_of. destruct (last xs) as [x|] eqn:Hl; [right|auto].
  apply last_Some in Hl as [l ->]. rewrite fmap_app, elem_of_app. right. simpl. constructor.
Qed.
Lemma last_of_cons_in p x xs : last_of p (x :: xs) ∈ (x :: xs).*1.
Proof.
  unfold last_of. destruct (last (x :: xs)) as [y|] eqn:Hl; [|by apply last_None in Hl].
  apply last_Some in Hl as [l ->]. rewrite fmap_app, elem_of_app. right. simpl. constructor.
Qed.
Lemma last_of_cons_default p q x xs : last_of p (x :: xs) = last_of q (x :: xs).
Proof. destruct x as [a f]. by rewrite !last_of_cons. Qed.
Lemma chain_app h p xs ys q :
  chain h p (xs ++ ys) q ↔ chain h p xs (first_of ys q) ∧ chain h (last_of p xs) ys q.
Proof.
  revert p. induction xs as [|[a f] xs IH]; intros p; [by unfold last_of; simpl; naive_solver|].
  simpl. rewrite first_of_app, last_of_cons, IH. naive_solver.
Qed.
Lemma chain_frame h h' p xs q :
  (∀ a, a ∈ xs.*1 → h' !! a = h !! a) → chain h p xs q → chain h' p xs q.
Proof.
  revert p. induction xs as [|[b f] xs IH]; intros p Heq; simpl in *; [done|].
  intros [??]. rewrite Heq by constructor. split; [done|]. apply IH; [|done].
  intros a Ha. apply Heq. by constructor.
Qed.
(** The end of a segment, and its start, change without the rest. *)
Lemma chain_alter_next h p xs q q' :
  NoDup xs.*1 → p ∉ xs.*1 → chain h p xs q →
  chain (alter (set_next q') (last_of p xs) h) p xs q'.
Proof.
  revert p. induction xs as [|[a f] xs IH]; intros p Hnd Hp Hc; [done|].
  rewrite last_of_cons in *. destruct Hc as [Ha Hc]. apply NoDup_cons in Hnd as [Hna Hnd].
  split; [|by apply IH]. destruct xs as [|x xs].
  - unfold last_of. simpl in *. by rewrite lookup_alter_eq, Ha.
  - rewrite lookup_alter_ne; [exact Ha|].
    intros Heq. apply Hna. rewrite <-Heq. apply last_of_cons_in.
Qed.
Lemma chain_alter_prev h p p' xs q :
  NoDup xs.*1 → chain h p xs q → chain (alter (set_prev p') (first_of xs q) h) p' xs q.
Proof.
  destruct xs as [|[a f] xs]; [done|]. intros [Hna Hnd]%NoDup_cons [Ha Hc]. simpl. split.
  - by rewrite lookup_alter_eq, Ha.
  - apply chain_frame with h; [|done]. intros b Hb. apply lookup_alter_ne. intros ->. contradiction.
Qed.
Lemma chain_lookup h p xs q a f :
  chain h p xs q → (a, f) ∈ xs → ∃ n, h !! a = Some n ∧ ref_count n = 1 ∧ function n = Some f.
Proof.
  revert p. induction xs as [|[b g] xs IH]; intros p Hc Hin; [by apply elem_of_nil in Hin|].
  destruct Hc as [Hb Hc]. apply elem_of_cons in Hin as [Heq|Hin]; [simplify_eq|eauto].
  rewrite Hb. by eexists.
Qed.

Lemma update_link_alter p g h : is_Some (h !! p) → update_link p g h = Def (alter g p h).
Proof.
  intros [n Hn]. unfold update_link. rewrite Hn. simpl. f_equal. symmetry.
  apply map_eq. intros i. destruct (decide (i = p)) as [->|].
  - by rewrite lookup_alter_eq, lookup_insert_eq, Hn.
  - by rewrite lookup_alter_ne, lookup_insert_ne.
Qed.
Lemma ring_lookup h p dflt xs a : ring h p dflt xs → a ∈ p :: xs.*1 → is_Some (h !! a).
Proof.
  intros Hr Ha. apply elem_of_cons in Ha as [->|Ha]; [rewrite (ring_head _ _ _ _ Hr); by eexists|].
  apply list_elem_of_fmap in Ha as ([b f]&->&Hin).
  destruct (chain_lookup _ _ _ _ _ _ (ring_chain _ _ _ _ Hr) Hin) as (n&Hn&_). by exists n.
Qed.

(** A new handler goes to the end of the list. *)
Lemma add_before_ring h p dflt xs a cb :
  ring h p dflt xs → h !! a = None → a ≠ 0 →
  ∃ h', add_before p a cb h = Def h' ∧ ring h' p dflt (xs ++ [(a, cb)]).
Proof.
  intros Hr Ha Ha0. pose proof (ring_nodup _ _ _ _ Hr) as Hnd. apply NoDup_cons in Hnd as [Hpx Hnd].
  assert (a ∉ p :: xs.*1) as Hfresh.
  { intros Hin. destruct (ring_lookup _ _ _ _ _ Hr Hin) as [n Hn]. congruence. }
  apply not_elem_of_cons in Hfresh as [Hap Hax].
  unfold add_before. rewrite (ring_head _ _ _ _ Hr). simpl. set (pr := last_of p xs).
  assert (pr = p ∨ pr ∈ xs.*1) as Hpr by apply last_of_in.
  assert (pr ≠ a) as Hpa by (destruct Hpr; congruence).
  rewrite update_link_alter; simpl.
  2: { rewrite lookup_insert_ne by done. eapply ring_lookup; [done|]. set_solver. }
  rewrite update_link_alter.
  2: { apply lookup_alter_is_Some. rewrite lookup_insert_ne by done.
       eapply ring_lookup; [done|]. constructor. }
  eexists. split; [done|]. split.
  - rewrite lookup_alter_eq, last_of_app, first_of_app. unfold last_of at 1. simpl.
    destruct xs as [|x xs]; simpl.
    + unfold pr, last_of. simpl. rewrite lookup_alter_eq, lookup_insert_ne, (ring_head _ _ _ _ Hr) by done. done.
    + rewrite lookup_alter_ne, lookup_insert_ne, (ring_head _ _ _ _ Hr); [done..|].
      intros Heq. apply Hpx. rewrite <-Heq. apply last_of_cons_in.
  - apply chain_app. simpl. split.
    + eapply chain_frame; [intros b Hb; apply lookup_alter_ne; congruence|].
      apply chain_alter_next with p; [done..|].
      eapply chain_frame; [|apply (ring_chain _ _ _ _ Hr)].
      intros b Hb. apply lookup_insert_ne. congruence.
    + split; [|done]. rewrite !lookup_alter_ne, lookup_insert_eq by done. done.
  - rewrite fmap_app. simpl. change (p :: xs.*1 ++ [a]) with ((p :: xs.*1) ++ [a]).
    apply NoDup_app. split; [apply (ring_nodup _ _ _ _ Hr)|]. split; [|apply NoDup_singleton].
    intros b Hb ->%list_elem_of_singleton. set_solver.
  - pose proof (ring_nonnull _ _ _ _ Hr). rewrite fmap_app. set_solver.
  - intros b Hb. rewrite !lookup_alter_is_Some in Hb. rewrite fmap_app.
    destruct (decide (b = a)) as [->|]; [set_solver|]. rewrite lookup_insert_ne in Hb by done.
    apply (ring_dom _ _ _ _ Hr) in Hb. set_solver.
Qed.

Lemma ring_split_chain h p dflt xs a f ys :
  ring h p dflt (xs ++ (a, f) :: ys) →
  chain h p xs a ∧ h !! a = Some (SignalLink (first_of ys p) (last_of p xs) (Some f) 1) ∧
  chain h a ys p ∧ NoDup xs.*1 ∧ NoDup ys.*1 ∧ p ∉ xs.*1 ∧ p ∉ ys.*1 ∧ a ∉ xs.*1 ∧ a ∉ ys.*1 ∧
  a ≠ p ∧ (∀ b, b ∈ xs.*1 → b ∉ ys.*1).
Proof.
  intros Hr. pose proof (ring_chain _ _ _ _ Hr) as Hc. apply chain_app in Hc as [Hx [Ha Hy]].
  pose proof (ring_nodup _ _ _ _ Hr) as Hnd. rewrite fmap_app in Hnd. simpl in Hnd.
  apply NoDup_cons in Hnd as [Hp Hnd]. apply NoDup_app in Hnd as (Hnx&Hxy&Hny).
  apply NoDup_cons in Hny as [Hay Hny].
  split_and!; try done; try set_solver.
Qed.

Ltac frame_off :=
  let b := fresh in let Hb := fresh in
  intros b Hb; first [apply lookup_alter_ne | apply lookup_delete_ne]; intros ->; contradiction.
(** Unlinking a handler takes it out of the list and frees its link. *)
Lemma unlink_ring h p dflt xs a f ys :
  ring h p dflt (xs ++ (a, f) :: ys) →
  ∃ h', unlink a h = Def h' ∧ ring h' p dflt (xs ++ ys).
Proof.
  intros Hr. destruct (ring_split_chain _ _ _ _ _ _ _ Hr)
    as (Hx&Ha&Hy&Hnx&Hny&Hpx&Hpy&Hax&Hay&Hap&Hxy).
  pose proof (ring_nonnull _ _ _ _ Hr) as H0. rewrite fmap_app in H0. simpl in H0.
  assert (p ≠ 0 ∧ 0 ∉ xs.*1 ∧ 0 ∉ ys.*1) as (Hp0&Hx0&Hy0) by (split_and!; set_solver).
  set (nx := first_of ys p) in *. set (pr := last_of p xs) in *.
  assert (nx = p ∨ nx ∈ ys.*1) as Hnx' by apply first_of_in.
  assert (pr = p ∨ pr ∈ xs.*1) as Hpr' by apply last_of_in.
  assert (nx ≠ 0 ∧ pr ≠ 0 ∧ nx ≠ a ∧ pr ≠ a) as (?&?&?&?).
  { split_and!; intros Heq; (destruct Hnx', Hpr'); congruence. }
  assert (nx ∉ xs.*1 ∧ pr ∉ ys.*1) as [Hnxx Hpry].
  { split; intros Hin; [destruct Hnx' as [Heq|?]|destruct Hpr' as [Heq|?]];
      try (rewrite Heq in Hin; contradiction); eapply Hxy; done. }
  assert (∀ b, b = p ∨ b ∈ xs.*1 ∨ b ∈ ys.*1 → is_Some (h !! b)) as Hsome.
  { intros b Hb. eapply ring_lookup; [done|]. rewrite fmap_app. set_solver. }
  assert (is_Some (h !! nx) ∧ is_Some (h !! pr)) as [Hnxs Hprs].
  { split; apply Hsome; tauto. }
  unfold unlink. rewrite update_link_alter by (by eexists). simpl.
  rewrite lookup_alter_eq, Ha. simpl. destruct (Z.eqb_spec nx 0); [done|]. simpl.
  rewrite update_link_alter by (by rewrite lookup_alter_is_Some). simpl.
  rewrite lookup_alter_ne, lookup_alter_eq, Ha by done. simpl.
  destruct (Z.eqb_spec pr 0); [done|]. simpl.
  rewrite update_link_alter by (by rewrite !lookup_alter_is_Some). simpl.
  unfold decref. rewrite !lookup_alter_ne, lookup_alter_eq, Ha by done. simpl.
  eexists. split; [reflexivity|]. split.
  - rewrite lookup_delete_ne by done.
    rewrite first_of_app, last_of_app. fold nx pr.
    assert (Hh := ring_head _ _ _ _ Hr). rewrite first_of_app, last_of_app in Hh. simpl in Hh.
    fold pr in Hh. rewrite last_of_cons in Hh.
    assert (∀ x xs', xs = x :: xs' → pr ≠ p) as Hprp.
    { intros x xs' -> Heq. apply Hpx. rewrite <-Heq. apply last_of_cons_in. }
    assert (∀ y ys', ys = y :: ys' → nx ≠ p) as Hnxp.
    { intros y ys' -> Heq. apply Hpy. rewrite <-Heq. constructor. }
    destruct xs as [|x xs], ys as [|y ys].
    + change pr with p. change nx with p. by rewrite !lookup_alter_eq, lookup_alter_ne, Hh.
    + specialize (Hnxp _ _ eq_refl). change pr with p.
      rewrite lookup_alter_eq, !lookup_alter_ne, Hh by done. unfold set_next. simpl. do 2 f_equal.
      apply last_of_cons_default.
    + specialize (Hprp _ _ eq_refl). change nx with p.
      by rewrite lookup_alter_ne, lookup_alter_eq, lookup_alter_ne, Hh.
    + specialize (Hprp _ _ eq_refl). specialize (Hnxp _ _ eq_refl).
      rewrite !lookup_alter_ne, Hh by done. do 2 f_equal. apply last_of_cons_default.
  - apply chain_app. split.
    + eapply chain_frame; [by frame_off|]. apply chain_alter_next with a; [done..|].
      eapply chain_frame; [by frame_off|]. eapply chain_frame; [by frame_off|]. done.
    + eapply chain_frame; [by frame_off|]. eapply chain_frame; [by frame_off|].
      apply chain_alter_prev with a; [done|]. eapply chain_frame; [by frame_off|]. done.
  - rewrite fmap_app. apply NoDup_cons, conj; [by rewrite not_elem_of_app|]. by apply NoDup_app.
  - rewrite fmap_app. by rewrite not_elem_of_cons, not_elem_of_app.
  - intros b Hb. rewrite lookup_delete_is_Some in Hb. destruct Hb as [Hba Hb].
    rewrite !lookup_alter_is_Some in Hb. apply (ring_dom _ _ _ _ Hr) in Hb.
    rewrite fmap_app in *. simpl in *. rewrite elem_of_cons, elem_of_app in *.
    rewrite elem_of_cons in Hb. clear -Hb Hba. naive_solver.
Qed.

Definition without (id : Z) (xs : list (Z * F)) : list (Z * F) := filter (λ x, x.1 ≠ id) xs.
Lemma without_not_in id xs : id ∉ xs.*1 → without id xs = xs.
Proof.
  intros Hid. unfold without. induction xs as [|x xs IH]; [done|]. simpl in Hid.
  apply not_elem_of_cons in Hid as [??]. by rewrite filter_cons_True, IH by (done || congruence).
Qed.

Lemma ring_snoc_next h p dflt xs a f ys :
  ring h p dflt (xs ++ (a, f) :: ys) → ∃ n, h !! a = Some n ∧ next n = first_of ys p.
Proof. intros (_&Ha&_)%ring_split_chain. by eexists. Qed.

(** The search, from any link of the ring on. *)
Lemma remove_loop_ring fuel h p dflt xs ys id :
  ring h p dflt (xs ++ ys) → id ∉ xs.*1 → (length ys < fuel)%nat →
  ∃ h', remove_loop fuel p (first_of ys p) id h = Def (bool_decide (id ∈ ys.*1), h') ∧
    ring h' p dflt (xs ++ without id ys).
Proof.
  revert xs ys. induction fuel as [|fuel IH]; intros xs ys Hr Hid Hf; [lia|].
  destruct ys as [|[a f] ys]; simpl.
  { rewrite Z.eqb_refl. by exists h. }
  destruct (ring_split_chain _ _ _ _ _ _ _ Hr) as (_&Ha&_&_&_&_&_&_&Hay&Hap&_).
  destruct (Z.eqb_spec a p); [done|]. destruct (Z.eqb_spec id a) as [->|Hne].
  - destruct (unlink_ring _ _ _ _ _ _ _ Hr) as (h'&->&Hr'). exists h'. simpl.
    rewrite bool_decide_eq_true_2 by constructor. split; [done|].
    unfold without. rewrite filter_cons_False by (simpl; tauto). fold (without a ys).
    by rewrite without_not_in.
  - rewrite Ha. simpl. destruct (IH (xs ++ [(a, f)]) ys) as (h'&Hh'&Hr').
    + by rewrite <-app_assoc.
    + rewrite fmap_app, not_elem_of_app. simpl. split; [done|]. rewrite list_elem_of_singleton. done.
    + simpl in Hf. lia.
    + exists h'. rewrite Hh'. split.
      * do 2 f_equal. apply bool_decide_ext. rewrite elem_of_cons. tauto.
      * unfold without. rewrite filter_cons_True by (simpl; congruence).
        by rewrite <-app_assoc in Hr'.
Qed.
Lemma remove_sibling_ring fuel h p dflt xs id :
  ring h p dflt xs → (length xs < fuel)%nat →
  ∃ h', remove_sibling fuel p id h = Def (bool_decide (id ∈ xs.*1), h') ∧
    ring h' p dflt (without id xs).
Proof.
  intros Hr Hf. unfold remove_sibling. rewrite (ring_head _ _ _ _ Hr). simpl.
  assert (first_of xs p ≠ 0) as Hnz.
  { pose proof (ring_nonnull _ _ _ _ Hr) as H0. apply not_elem_of_cons in H0 as [??].
    destruct (first_of_in xs p) as [->|Hin]; [congruence|]. intros Heq. rewrite Heq in Hin. done. }
  destruct (Z.eqb_spec (first_of xs p) 0); [done|].
  apply (remove_loop_ring fuel h p dflt [] xs); [done|apply not_elem_of_nil|done].
Qed.

(** The destructor leaves nothing behind. *)
Lemma unlink_all_ring fuel h p dflt xs :
  ring h p dflt xs → (length xs < fuel)%nat →
  ∃ h', unlink_all fuel p h = Def h' ∧ ring h' p dflt [].
Proof.
  revert h xs. induction fuel as [|fuel IH]; intros h xs Hr Hf; [lia|]. simpl.
  rewrite (ring_head _ _ _ _ Hr). simpl. destruct xs as [|[a f] xs]; simpl.
  { rewrite Z.eqb_refl. by exists h. }
  destruct (ring_split_chain h p dflt [] a f xs Hr) as (_&_&_&_&_&_&_&_&_&Hap&_).
  destruct (Z.eqb_spec a p); [done|].
  destruct (unlink_ring h p dflt [] a f xs Hr) as (h'&->&Hr'). simpl.
  apply (IH h' xs Hr'). simpl in Hf. lia.
Qed.

(** ** The signal as a list of handlers *)
Record handlers := Handlers { default_handler : option F; connected : list (Z * F) }.
Definition represents s (l : handlers) : Prop :=
  (callback_ring_ s = 0 ∧ links s = ∅ ∧ l = Handlers None []) ∨
  (ring (links s) (callback_ring_ s) (default_handler l) (connected l)).

Lemma ring_nonnull_head h p dflt xs : ring h p dflt xs → p ≠ 0.
Proof. intros H%ring_nonnull Hp. apply H. rewrite Hp. constructor. Qed.
Lemma ensure_ring_null a s :
  links s = ∅ → callback_ring_ s = 0 → a ≠ 0 →
  ∃ s', ensure_ring a s = Def s' ∧ callback_ring_ s' = a ∧ world s' = world s ∧
    ring (links s') a None [].
Proof.
  intros Hl Hc Ha. unfold ensure_ring. rewrite Hc, Hl. simpl. unfold incref.
  rewrite lookup_insert_eq. simpl.
  rewrite update_link_alter by (by rewrite lookup_insert_eq). simpl.
  rewrite update_link_alter by (by rewrite lookup_alter_is_Some, lookup_insert_eq). simpl.
  eexists. split; [reflexivity|]. simpl. split_and!; [done..|]. split.
  - rewrite !lookup_alter_eq, lookup_insert_eq. done.
  - done.
  - apply NoDup_singleton.
  - by rewrite list_elem_of_singleton.
  - intros b Hb. rewrite !lookup_alter_is_Some in Hb. rewrite list_elem_of_singleton.
    destruct (decide (b = a)) as [|Hba]; [done|]. rewrite !lookup_insert_ne, lookup_empty in Hb by done.
    by apply is_Some_None in Hb.
Qed.

Lemma destroy_ring h p dflt :
  ring h p dflt [] → (h1 ← decref p h; decref p h1) = Def ∅.
Proof.
  intros Hr. unfold decref. rewrite (ring_head _ _ _ _ Hr). simpl. rewrite lookup_insert_eq. simpl. f_equal. apply map_eq. intros b.
  rewrite lookup_empty. destruct (decide (b = p)) as [->|Hb]; [by rewrite lookup_delete_eq|].
  rewrite lookup_delete_ne, lookup_insert_ne by done. destruct (h !! b) eqn:E; [|done].
  assert (b ∈ p :: []) as Hin by (apply (ring_dom _ _ _ _ Hr); by eexists).
  apply list_elem_of_singleton in Hin. contradiction.
Qed.

(** *** The contract of a signal *)
Definition spec_connect (id : Z) (cb : F) (l : handlers) : handlers :=
  Handlers (default_handler l) (connected l ++ [(id, cb)]).
Definition spec_disconnect (id : Z) (l : handlers) : bool * handlers :=
  (bool_decide (id ∈ (connected l).*1), Handlers (default_handler l) (without id (connected l))).

Lemma connect_represents s l a0 a cb :
  represents s l → a0 ≠ 0 → a ≠ 0 → a ≠ a0 → links s !! a = None →
  ∃ s', connect a0 a cb s = Def (a, s') ∧ represents s' (spec_connect a cb l) ∧
    world s' = world s.
Proof.
  intros Hrep Ha0 Ha Haa Hfresh. unfold connect. destruct Hrep as [(Hc&Hl&->)|Hr].
  - destruct (ensure_ring_null a0 s Hl Hc Ha0) as (s'&->&Hc'&Hw&Hr). simpl.
    rewrite Hc'. destruct (add_before_ring _ _ _ _ a cb Hr) as (h'&->&Hr'); [|done|].
    { destruct (links s' !! a) eqn:E; [|done].
      assert (a ∈ a0 :: []) as Hin by (apply (ring_dom _ _ _ _ Hr); by eexists).
      apply list_elem_of_singleton in Hin. contradiction. }
    simpl. eexists. split; [done|]. split; [|done]. right. simpl. by rewrite Hc'.
  - pose proof (ring_nonnull_head _ _ _ _ Hr) as Hnz. apply Z.eqb_neq in Hnz.
    unfold ensure_ring. rewrite Hnz. simpl.
    destruct (add_before_ring _ _ _ _ a cb Hr) as (h'&->&Hr'); [done..|].
    simpl. eexists. split; [done|]. split; [|done]. by right.
Qed.
Lemma disconnect_represents s l fuel id :
  represents s l → (length (connected l) < fuel)%nat →
  ∃ s', disconnect fuel id s = Def ((spec_disconnect id l).1, s') ∧
    represents s' (spec_disconnect id l).2 ∧ world s' = world s.
Proof.
  intros [(Hc&Hl&->)|Hr] Hf; unfold disconnect.
  - rewrite Hc. simpl. exists s. split_and!; [done| |done]. by left.
  - pose proof (ring_nonnull_head _ _ _ _ Hr) as Hnz. apply Z.eqb_neq in Hnz. rewrite Hnz. simpl.
    destruct (remove_sibling_ring fuel _ _ _ _ id Hr Hf) as (h'&->&Hr').
    simpl. eexists. split; [done|]. split; [|done]. by right.
Qed.
Lemma destroy_represents s l fuel :
  represents s l → (length (connected l) < fuel)%nat → destroy fuel s = Def ∅.
Proof.
  intros [(Hc&Hl&->)|Hr] Hf; unfold destroy; [by rewrite Hc, Hl|].
  pose proof (ring_nonnull_head _ _ _ _ Hr) as Hnz. apply Z.eqb_neq in Hnz. rewrite Hnz. simpl.
  destruct (unlink_all_ring fuel _ _ _ _ Hr Hf) as (h'&->&Hr'). simpl.
  rewrite (ring_head _ _ _ _ Hr'). simpl. by eapply destroy_ring.
Qed.

(** C16: A signal refines a list of handlers: connecting appends a handler under the id
    it returns, disconnecting removes exactly the handler with that id and says whether
    there was one, and the destructor frees every link, without touching a freed link or
    null. *)
Theorem signal_refines_list s l fuel a0 a cb id :
  represents s l → (length (connected l) < fuel)%nat →
  a0 ≠ 0 → a ≠ 0 → a ≠ a0 → links s !! a = None →
  (∃ s', connect a0 a cb s = Def (a, s') ∧ represents s' (spec_connect a cb l) ∧
     world s' = world s) ∧
  (∃ s', disconnect fuel id s = Def ((spec_disconnect id l).1, s') ∧
     represents s' (spec_disconnect id l).2 ∧ world s' = world s) ∧
  destroy fuel s = Def ∅.
Proof. eauto 7 using connect_represents, disconnect_represents, destroy_represents. Qed.

(** ** Emission *)
Definition hold p h : heap := alter (λ n, set_ref_count (ref_count n + 1) n) p h.
Definition counted h : Prop := ∀ p n, h !! p = Some n → 1 ≤ ref_count n ≤ 2.

Lemma ring_counted h p dflt xs : ring h p dflt xs → counted h.
Proof.
  intros Hr b n Hb. assert (b ∈ p :: xs.*1) as Hin by (apply (ring_dom _ _ _ _ Hr); by eexists).
  apply elem_of_cons in Hin as [->|Hin].
  - rewrite (ring_head _ _ _ _ Hr) in Hb. simplify_eq. simpl. lia.
  - apply list_elem_of_fmap in Hin as ([c f]&->&Hin).
    destruct (chain_lookup _ _ _ _ _ _ (ring_chain _ _ _ _ Hr) Hin) as (m&Hm&Hc&_).
    simpl in *. rewrite Hm in Hb. simplify_eq. lia.
Qed.
Lemma incref_hold p h n :
  h !! p = Some n → 0 ≤ ref_count n < 2 ^ 31 - 1 → incref p h = Def (hold p h).
Proof.
  intros Hn Hc. unfold incref, hold. rewrite Hn. simpl. rewrite i32_in by lia. simpl.
  destruct (Z.ltb_spec 0 (ref_count n + 1)); [|lia]. simpl. f_equal.
  apply map_eq. intros b. destruct (decide (b = p)) as [->|].
  - by rewrite lookup_insert_eq, lookup_alter_eq, Hn.
  - by rewrite lookup_insert_ne, lookup_alter_ne.
Qed.
Lemma hold_release p h n : h !! p = Some n → 1 ≤ ref_count n ≤ 3 → decref p (hold p h) = Def h.
Proof.
  intros Hn Hc. unfold decref, hold. rewrite lookup_alter_eq, Hn. simpl.
  rewrite Z.add_simpl_r. rewrite i32_in by lia. simpl.
  destruct (Z.eqb_spec (ref_count n) 0); [lia|]. destruct (Z.ltb_spec 0 (ref_count n)); [|lia].
  simpl. f_equal. apply map_eq. intros b. destruct (decide (b = p)) as [->|].
  - rewrite lookup_insert_eq, Hn. by destruct n.
  - by rewrite lookup_insert_ne, lookup_alter_ne.
Qed.
Lemma hold_comm p q h : hold p (hold q h) = hold q (hold p h).
Proof.
  unfold hold. apply map_eq. intros b.
  destruct (decide (p = q)) as [->|]; [done|].
  destruct (decide (b = p)) as [->|]; [|destruct (decide (b = q)) as [->|]];
    repeat first [rewrite lookup_alter_eq | rewrite lookup_alter_ne by done]; done.
Qed.
(** Going from one link to the next. *)
Lemma hold_step p q h :
  counted h → is_Some (h !! p) → is_Some (h !! q) →
  (h1 ← incref q (hold p h); decref p h1) = Def (hold q h).
Proof.
  intros Hc [n Hn] [m Hm]. pose proof (Hc _ _ Hn). pose proof (Hc _ _ Hm).
  assert (∃ m', hold p h !! q = Some m' ∧ 1 ≤ ref_count m' ≤ 3) as (m'&Hm'&?).
  { unfold hold. destruct (decide (p = q)) as [->|].
    - rewrite lookup_alter_eq, Hm. eexists. split; [done|]. simpl. lia.
    - rewrite lookup_alter_ne, Hm by done. eexists. split; [done|]. lia. }
  rewrite (incref_hold _ _ _ Hm') by lia. simpl. rewrite hold_comm.
  assert (∃ n', hold q h !! p = Some n' ∧ 1 ≤ ref_count n' ≤ 3) as (n'&Hn'&?).
  { unfold hold. destruct (decide (q = p)) as [->|].
    - rewrite lookup_alter_eq, Hn. eexists. split; [done|]. simpl. lia.
    - rewrite lookup_alter_ne, Hn by done. eexists. split; [done|]. lia. }
  eapply hold_release; [done|lia].
Qed.

Section emission.
Context {R C : Type} (run : F → W → W * R) (collect : C → R → C * bool).
(** Handlers that leave the signal alone. *)
Definition call_pure f s : ub (signal * R) :=
  let '(w, r) := run f (world s) in Def (Signal (links s) (callback_ring_ s) w, r).

(** The reference: the handlers in turn, while the collector goes on. *)
Fixpoint emit_ref (fs : list F) (col : C) (w : W) : C * W :=
  match fs with
  | [] => (col, w)
  | f :: fs =>
      let '(w, r) := run f w in
      let '(col, go_on) := collect col r in
      if go_on : bool then emit_ref fs col w else (col, w)
  end.

Lemma emit_step_ring fuel h p dflt xs l (n : link) col w :
  ring h p dflt xs → h !! l = Some n → is_Some (h !! next n) →
  emit_loop call_pure collect (S fuel) l col (Signal (hold l h) p w) =
    (let '(col', w', go_on) :=
       match function n with
       | Some f => let '(w, r) := run f w in let '(col, g) := collect col r in (col, w, g)
       | None => (col, w, true)
       end in
     if negb go_on : bool then Def (col', Signal h p w')
     else if negb (next n =? p)
          then emit_loop call_pure collect fuel (next n) col' (Signal (hold (next n) h) p w')
          else Def (col', Signal h p w')).
Proof.
  intros Hr Hl Hnx. pose proof (ring_counted _ _ _ _ Hr) as Hc.
  assert (hold l h !! l = Some (set_ref_count (ref_count n + 1) n)) as Hhl
    by (unfold hold; by rewrite lookup_alter_eq, Hl).
  assert (decref l (hold l h) = Def h) as Hrel.
  { eapply hold_release; [done|]. pose proof (Hc _ _ Hl). lia. }
  assert (decref (next n) (hold (next n) h) = Def h) as Hreln.
  { destruct Hnx as [m Hm]. eapply hold_release; [done|]. pose proof (Hc _ _ Hm). lia. }
  assert (∀ k : heap → ub (C * signal),
    (h1 ← incref (next n) (hold l h); h2 ← decref l h1; k h2) = k (hold (next n) h)) as Hgo.
  { intros k. pose proof (hold_step l (next n) h Hc ltac:(by eexists) Hnx) as Hs.
    destruct (incref (next n) (hold l h)) as [h1|]; simpl in *; [by rewrite Hs|done]. }
  assert (∀ col' w' go_on,
    (if negb go_on : bool then h0 ← decref l (hold l h); Def (col', Signal h0 p w')
     else n0 ← deref (hold l h !! l);
          h1 ← incref (next n0) (hold l h);
          h2 ← decref l h1;
          if negb (next n0 =? p) then emit_loop call_pure collect fuel (next n0) col' (Signal h2 p w')
          else h3 ← decref (next n0) h2; Def (col', Signal h3 p w')) =
    (if negb go_on : bool then Def (col', Signal h p w')
     else if negb (next n =? p)
          then emit_loop call_pure collect fuel (next n) col' (Signal (hold (next n) h) p w')
          else Def (col', Signal h p w'))) as Htail.
  { intros col' w' []; simpl; [|by rewrite Hrel]. rewrite Hhl. simpl. rewrite Hgo.
    case_match; [done|]. by rewrite Hreln. }
  simpl. rewrite Hhl. simpl. unfold call_pure. simpl.
  destruct (function n) as [f|]; simpl; [|apply (Htail col w true)].
  destruct (run f w) as [w' r]. simpl. destruct (collect col r) as [col' g]. simpl. apply Htail.
Qed.

Lemma emit_loop_siblings fuel h p dflt xs ys col w :
  ring h p dflt (xs ++ ys) → ys ≠ [] → (length ys ≤ fuel)%nat →
  emit_loop call_pure collect fuel (first_of ys p) col (Signal (hold (first_of ys p) h) p w) =
    (let '(col', w') := emit_ref ys.*2 col w in Def (col', Signal h p w')).
Proof.
  revert xs ys col w. induction fuel as [|fuel IH]; intros xs ys col w Hr Hne Hf.
  { destruct ys; simpl in Hf; [done|lia]. }
  destruct ys as [|[a f] ys]; [done|].
  pose proof (ring_split_chain _ _ _ _ _ _ _ Hr) as (_&Ha&_).
  change (first_of ((a, f) :: ys) p) with a.
  rewrite (emit_step_ring fuel h p dflt _ a _ col w Hr Ha).
  2: { simpl. eapply ring_lookup; [done|]. rewrite fmap_app. simpl.
       destruct (first_of_in ys p) as [->|Hin]; [constructor|]. set_solver. }
  simpl. destruct (run f w) as [w' r]. destruct (collect col r) as [col' []]; simpl; [|done].
  destruct ys as [|[b g] ys]; simpl; [by rewrite Z.eqb_refl|].
  assert (b ≠ p) as Hb.
  { rewrite cons_middle, app_assoc in Hr.
    apply (ring_split_chain _ _ _ (xs ++ [(a, f)])) in Hr as (_&_&_&_&_&_&_&_&_&Hb&_). done. }
  apply Z.eqb_neq in Hb. rewrite Hb. simpl.
  apply (IH (xs ++ [(a, f)]) ((b, g) :: ys)); [by rewrite <-app_assoc|done|simpl in *; lia].
Qed.

Lemma emit_represents s l fuel col :
  represents s l → (length (connected l) < fuel)%nat →
  emit call_pure collect fuel col s =
    (let '(col', w') :=
       emit_ref (match default_handler l with Some f => [f] | None => [] end ++ (connected l).*2)
         col (world s) in
     Def (col', Signal (links s) (callback_ring_ s) w')).
Proof.
  intros Hrep Hf. unfold emit. destruct s as [h p w]. simpl in *.
  destruct Hrep as [(Hc&Hl&->)|Hr]; simpl in *.
  { by rewrite Hc. }
  pose proof (ring_nonnull_head _ _ _ _ Hr) as Hp. apply Z.eqb_neq in Hp. rewrite Hp.
  pose proof (ring_head _ _ _ _ Hr) as Hh. rewrite (incref_hold _ _ _ Hh) by (simpl; lia). simpl.
  destruct fuel as [|fuel]; [lia|]. unfold set_links. simpl callback_ring_. simpl world.
  rewrite (emit_step_ring fuel h p _ _ p _ col w Hr Hh).
  2: { simpl. eapply ring_lookup; [done|].
       destruct (first_of_in (connected l) p) as [->|Hin]; by constructor. }
  assert (∀ col w, (if negb (first_of (connected l) p =? p)
     then emit_loop call_pure collect fuel (first_of (connected l) p) col
            (Signal (hold (first_of (connected l) p) h) p w)
     else Def (col, Signal h p w)) =
    (let '(col', w') := emit_ref (connected l).*2 col w in Def (col', Signal h p w'))) as Hrest.
  { intros col1 w1. destruct (connected l) as [|[b g] ys] eqn:Hl; simpl; [by rewrite Z.eqb_refl|].
    pose proof (ring_split_chain h p _ [] b g ys Hr) as (_&_&_&_&_&_&_&_&_&Hb&_).
    apply Z.eqb_neq in Hb. rewrite Hb. simpl.
    apply (emit_loop_siblings fuel h p (default_handler l) [] ((b, g) :: ys) col1 w1);
      [done..|simpl in *; lia]. }
  simpl. destruct (default_handler l) as [f|]; simpl; [|apply Hrest].
  destruct (run f w) as [w' r]. destruct (collect col r) as [col' []]; simpl; [apply Hrest|done].
Qed.

(** C18: Emission calls the default handler and then the connected ones in the order of
    their connection, stops where the collector says so, returns what the collector has
    gathered, and gives back every reference it took: for handlers that leave the signal
    alone, the links are exactly as before. *)
Theorem emit_calls_in_order s l fuel col :
  represents s l → (length (connected l) < fuel)%nat →
  emit call_pure collect fuel col s =
    (let '(col', w') :=
       emit_ref (match default_handler l with Some f => [f] | None => [] end ++ (connected l).*2)
         col (world s) in
     Def (col', Signal (links s) (callback_ring_ s) w')).
Proof. apply emit_represents. Qed.
End emission.
End signal.

(** ** Concrete signals

    Handlers that disconnect: a handler is the list of ids it disconnects. *)
Module SignalSample.
Notation sig := (signal (F:=list Z) (W:=list Z)).
Fixpoint disconnect_ids (ids : list Z) (s : sig) : ub sig :=
  match ids with
  | [] => Def s
  | id :: ids => '(_, s) ← disconnect 10 id s; disconnect_ids ids s
  end.
(** A handler runs: it is logged by the length of its list, and disconnects. *)
Definition call (ids : list Z) (s : sig) : ub (sig * ()) :=
  s ← disconnect_ids ids (Signal (links s) (callback_ring_ s)
                            (world s ++ [Z.of_nat (length ids)]));
  Def (s, ()).
(** Three handlers, with ids 1, 2 and 3; the first is [ids], the others harmless. *)
Definition three (ids : list Z) : ub sig :=
  s ← signal_new 100 None [];
  '(_, s) ← connect 100 1 ids s;
  '(_, s) ← connect 100 2 [] s;
  '(_, s) ← connect 100 3 [] s;
  Def s.
Definition emit_three (ids : list Z) : ub (list Z) :=
  s ← three ids;
  '(_, s) ← emit call collector_void 10 tt s;
  Def (world s).

Example first_runs : emit_three [] = Def [0; 0; 0].
Proof. vm_compute. reflexivity. Qed.
Example next_removed : emit_three [2] = Def [1; 0].
Proof. vm_compute. reflexivity. Qed.
Example self_removed : emit_three [1] = Def [1; 0; 0].
Proof. vm_compute. reflexivity. Qed.
Example next_then_self : emit_three [2; 1] = Def [2; 0].
Proof. vm_compute. reflexivity. Qed.

(** A signal nobody connected to. *)
Definition fresh : sig := Signal ∅ 0 [].
Definition ref_head (s : sig) : option Z := ref_count <$> links s !! callback_ring_ s.
End SignalSample.

(** Defect: Emission is not safe against every removal of handlers: a handler that
    disconnects itself and then the one after it makes the emission follow a freed link,
    although the other removals during an emission are safe; and counting the handlers
    of a signal nobody has connected to dereferences null, while counting those of
    another leaves a reference that is never given back. *)
Theorem emit_follows_freed_link :
  SignalSample.emit_three [1; 2] = Undef ∧
  SignalSample.emit_three [2; 1] = Def [2; 0] ∧
  size_ 10 SignalSample.fresh = Undef ∧ empty_ 10 SignalSample.fresh = Undef ∧
  (∃ s s' n, SignalSample.three [] = Def s ∧ size_ 10 s = Def (n, s') ∧ n = 3 ∧
    SignalSample.ref_head s = Some 2 ∧ SignalSample.ref_head s' = Some 3).
Proof.
  do 4 (split; [vm_compute; reflexivity|]).
  eexists _, _, _. split; [vm_compute; reflexivity|]. split; [vm_compute; reflexivity|].
  split_and!; vm_compute; reflexivity.
Qed.

Lemma three_represents s :
  SignalSample.three [] = Def s → represents s (Handlers None [(1, []); (2, []); (3, [])]).
Proof.
  vm_compute. intros [= <-]. right. split; simpl.
  - vm_compute. reflexivity.
  - split; [vm_compute; reflexivity|]. split; [vm_compute; reflexivity|].
    split; [vm_compute; reflexivity|done].
  - apply (bool_decide_unpack _). vm_compute. exact I.
  - apply (bool_decide_unpack _). vm_compute. exact I.
  - intros a [n Hn%elem_of_map_to_list]. apply (list_elem_of_fmap_2 fst) in Hn. simpl fst in Hn.
    revert a Hn. apply Forall_forall, (bool_decide_unpack _). vm_compute. exact I.
Qed.

Lemma signal_refines_list_witness :
  ∃ s, SignalSample.three [] = Def s ∧
    ∃ s', disconnect 10 2 s = Def (true, s') ∧ world s' = world s.
Proof.
  eexists. split; [vm_compute; reflexivity|].
  match goal with |- ∃ s', disconnect _ _ ?s = _ ∧ _ =>
    destruct (signal_refines_list s (Handlers None [(1, []); (2, []); (3, [])]) 10 100 4 [] 2)
      as (_&(s'&Hs'&_&Hw)&_) end.
  - apply three_represents. vm_compute. reflexivity.
  - simpl. lia.
  - lia.
  - lia.
  - lia.
  - vm_compute. reflexivity.
  - exists s'. exact (conj Hs' Hw).
Defined.

Lemma emit_calls_in_order_witness :
  ∃ s s', SignalSample.three [] = Def s ∧
    emit (call_pure (λ ids w, (w ++ [Z.of_nat (length ids)], 1))) collector_vector 10 [] s =
      Def ([1; 1; 1], s') ∧ links s' = links s ∧ world s' = [0; 0; 0].
Proof.
  eexists _, _. split; [vm_compute; reflexivity|]. split.
  - match goal with |- emit _ _ _ _ ?s = _ =>
      rewrite (emit_calls_in_order _ _ s (Handlers None [(1, []); (2, []); (3, [])])) end.
    + vm_compute. reflexivity.
    + apply three_represents. vm_compute. reflexivity.
    + simpl. lia.
  - split; reflexivity.
Defined.
