(* ===== verification/Event.v ===== *)
(** * Events ([network/msgbus/event.hpp])

    The dispatcher keeps a signal per event family and receivers keep, for each
    family they subscribed to, a weak pointer to its signal and the id of their
    handler.  Signals are shared: they live in a store, and a weak pointer whose
    signal has left the store has expired.  The place of a new signal and of new
    links are inputs.  An event is delivered to handlers that leave the
    dispatcher alone. *)
From stdpp Require Import base option list numbers gmap fin_maps.
From S2P Require Import Prelude Signal.
Local Open Scope Z_scope.

(** ** Definitions *)
(** *** Families: [BaseEvent::get_family_id] and [Event<E>::family] *)
Record families := Families { family_ids : gmap Z nat; family_counter : nat }.
Definition get_family_id (fs : families) : nat * families :=
  (family_counter fs, Families (family_ids fs) (S (family_counter fs))).
(** [E] is known by a number; its id is fixed at the first use. *)
Definition family (E : Z) (fs : families) : nat * families :=
  match family_ids fs !! E with
  | Some id => (id, fs)
  | None =>
      let '(id, fs) := get_family_id fs in
      (id, Families (<[E := id]> (family_ids fs)) (family_counter fs))
  end.

Section event.
Context {F : Type} `{EqDecision F}.
Notation event_signal := (signal (F:=F) (W:=())).
Implicit Types (cb : F) (id : nat).

Record dispatcher := Dispatcher {
  handlers_ : list (option Z);
  signals : gmap Z event_signal
}.
(** [connections_]: the family's signal and the connection. *)
Notation receiver := (gmap nat (Z * Z)).
Implicit Types (d : dispatcher) (r : receiver).

Definition dispatcher_new : dispatcher := Dispatcher [] ∅.
Definition put_signal p (s : event_signal) d : dispatcher :=
  Dispatcher (handlers_ d) (<[p := s]> (signals d)).

(** [signal_for]: [k] is where a new signal would be. *)
Definition signal_for id (k : Z) d : ub (Z * dispatcher) :=
  let hs := if bool_decide (length (handlers_ d) ≤ id)%nat
            then resize (id + 1) None (handlers_ d) else handlers_ d in
  match hs !! id with
  | Some (Some p) => Def (p, Dispatcher hs (signals d))
  | Some None =>
      Def (k, Dispatcher (<[id := Some k]> hs) (<[k := Signal ∅ 0 ()]> (signals d)))
  | None => Undef
  end.

Definition subscribe id (k a0 a : Z) cb d r : ub (dispatcher * receiver) :=
  '(p, d) ← signal_for id k d;
  s ← deref (signals d !! p);
  '(connection, s) ← connect a0 a cb s;
  Def (put_signal p s d,
       match r !! id with Some _ => r | None => <[id := (p, connection)]> r end).

(** [if (!ptr.expired()) ptr.lock()->disconnect(connection)] *)
Definition disconnect_weak (fuel : nat) (c : Z * Z) d : ub dispatcher :=
  match signals d !! c.1 with
  | Some s => '(_, s) ← disconnect fuel c.2 s; Def (put_signal c.1 s d)
  | None => Def d
  end.
Definition unsubscribe (fuel : nat) id d r : ub (dispatcher * receiver) :=
  c ← deref (r !! id);
  d ← disconnect_weak fuel c d;
  Def (d, delete id r).
Fixpoint disconnect_all (fuel : nat) (cs : list (Z * Z)) d : ub dispatcher :=
  match cs with [] => Def d | c :: cs => d ← disconnect_weak fuel c d; disconnect_all fuel cs d end.
Definition unsubscribe_all (fuel : nat) d r : ub (dispatcher * receiver) :=
  _ ← assert_ub (negb (bool_decide (r = ∅)));
  d ← disconnect_all fuel (map_to_list r).*2 d;
  Def (d, ∅).
(** [~BaseReceiver] *)
Definition receiver_destroy (fuel : nat) d r : ub dispatcher :=
  disconnect_all fuel (map_to_list r).*2 d.
Definition connected_signals d r : nat :=
  length (filter (λ c, is_Some (signals d !! c.1)) (map_to_list r).*2).
(** [~msg_dispatcher]: every signal dies, the weak pointers expire. *)
Definition dispatcher_destroy (d : dispatcher) : dispatcher := dispatcher_new.

Section emit.
Context {W : Type} (run : F → W → W).
(** [emit<E>]: the family's signal calls its handlers. *)
Definition emit_event (fuel : nat) id (k : Z) (w : W) d : ub (W * dispatcher) :=
  '(p, d) ← signal_for id k d;
  s ← deref (signals d !! p);
  '(_, s) ← emit (call_pure (λ f w, (run f w, ()))) collector_void fuel ()
              (Signal (links s) (callback_ring_ s) w);
  Def (world s, put_signal p (Signal (links s) (callback_ring_ s) ()) d).
End emit.

Fixpoint sum_sizes (fuel : nat) (hs : list (option Z)) (n : Z) d : ub (Z * dispatcher) :=
  match hs with
  | [] => Def (n, d)
  | None :: hs => sum_sizes fuel hs n d
  | Some p :: hs =>
      s ← deref (signals d !! p);
      '(m, s) ← size_ fuel s;
      sum_sizes fuel hs (n + m) (put_signal p s d)
  end.
Definition connected_receivers (fuel : nat) d : ub (Z * dispatcher) :=
  sum_sizes fuel (handlers_ d) 0 d.
Definition has_subscribed (fuel : nat) id d : ub (bool * dispatcher) :=
  match handlers_ d !! id with
  | Some (Some p) =>
      s ← deref (signals d !! p);
      '(e, s) ← empty_ fuel s;
      Def (negb e, put_signal p s d)
  | _ => Def (false, d)
  end.

(** ** The dispatcher as a map from families to handlers *)
Definition handlers_of d id (xs : list (Z * F)) : Prop :=
  match mjoin (handlers_ d !! id) with
  | Some p => ∃ s, signals d !! p = Some s ∧ represents s (Handlers None xs)
  | None => xs = []
  end.
(** Families do not share signals. *)
Definition separate d : Prop :=
  ∀ i j p, handlers_ d !! i = Some (Some p) → handlers_ d !! j = Some (Some p) → i = j.

Lemma signal_for_spec id k d xs :
  handlers_of d id xs → separate d →
  (∀ i, handlers_ d !! i ≠ Some (Some k)) →
  ∃ p d' s, signal_for id k d = Def (p, d') ∧ handlers_ d' !! id = Some (Some p) ∧
    signals d' !! p = Some s ∧ represents s (Handlers None xs) ∧ separate d' ∧
    (mjoin (handlers_ d !! id) = Some p ∧ signals d !! p = Some s ∨ links s = ∅) ∧
    (∀ j ys, j ≠ id → handlers_of d j ys → handlers_of d' j ys).
Proof.
  intros Hx Hsep Hk. unfold signal_for. set (hs := if bool_decide _ then _ else _).
  assert (id < length hs)%nat as Hlen.
  { unfold hs. case_bool_decide; [rewrite length_resize|]; lia. }
  assert (∀ j, mjoin (hs !! j) = mjoin (handlers_ d !! j)) as Hhs.
  { intros j. unfold hs. case_bool_decide; [|done]. destruct (decide (j < length (handlers_ d))%nat).
    - rewrite lookup_resize by lia. done.
    - rewrite (lookup_ge_None_2 (handlers_ d)) by lia. simpl.
      destruct (decide (j < id + 1)%nat).
      + by rewrite lookup_resize_new by lia.
      + by rewrite lookup_resize_old by lia. }
  assert (∀ j q, hs !! j = Some (Some q) ↔ handlers_ d !! j = Some (Some q)) as Hq.
  { intros j q. specialize (Hhs j). destruct (hs !! j) as [[?|]|], (handlers_ d !! j) as [[?|]|];
      simpl in Hhs; naive_solver. }
  destruct (lookup_lt_is_Some_2 hs id Hlen) as [[p|] Hid].
  - rewrite Hid. pose proof (proj1 (Hq _ _) Hid) as Hdid. unfold handlers_of in Hx.
    rewrite Hdid in Hx. simpl in Hx. destruct Hx as (s&Hs&Hrep).
    exists p, (Dispatcher hs (signals d)), s. simpl. split_and!; try done.
    + intros i j q Hi%Hq Hj%Hq. eauto.
    + left. by rewrite Hdid.
    + intros j ys Hj. unfold handlers_of. simpl. by rewrite Hhs.
  - rewrite Hid. unfold handlers_of in Hx. rewrite <-Hhs, Hid in Hx. simpl in Hx. subst xs.
    eexists k, _, _. split; [done|]. simpl. split_and!.
    + by rewrite list_lookup_insert_eq.
    + by rewrite lookup_insert_eq.
    + left. done.
    + intros i j q Hi Hj.
      apply list_lookup_insert_Some in Hi as [(?&?&_)|(?&Hi%Hq)];
        apply list_lookup_insert_Some in Hj as [(?&?&_)|(?&Hj%Hq)]; simplify_eq; try done;
        [by apply Hk in Hj|by apply Hk in Hi|eauto].
    + by right.
    + intros j ys Hj. unfold handlers_of. simpl. rewrite list_lookup_insert_ne, Hhs by done.
      destruct (handlers_ d !! j) as [[q|]|] eqn:Hdj; simpl; try done.
      intros (s&Hs&Hrep). exists s. rewrite lookup_insert_ne; [done|]. intros ->. by apply Hk in Hdj.
Qed.

Lemma signal_for_old id k d q :
  handlers_ d !! id = Some (Some q) → signal_for id k d = Def (q, d).
Proof.
  intros Hq. pose proof (lookup_lt_Some _ _ _ Hq). unfold signal_for.
  rewrite bool_decide_false by lia. rewrite Hq. by destruct d.
Qed.

(** A dispatcher as a function from families to their handlers, in order. *)
Definition models d (L : nat → list (Z * F)) : Prop :=
  separate d ∧ ∀ id, handlers_of d id (L id).
Definition upd (L : nat → list (Z * F)) id xs : nat → list (Z * F) :=
  λ j, if decide (j = id) then xs else L j.

Lemma models_new : models dispatcher_new (λ _, []).
Proof. split; [|done]. intros i j p Hi. simpl in Hi. by rewrite lookup_nil in Hi. Qed.
Lemma models_ext d L L' : (∀ i, L i = L' i) → models d L → models d L'.
Proof. intros H [Hs HL]. split; [done|]. intros i. by rewrite <-H. Qed.

(** The signal of one family changes, the other families do not. *)
Lemma models_put d L id p (s : event_signal) xs :
  separate d → handlers_ d !! id = Some (Some p) →
  (∀ j, j ≠ id → handlers_of d j (L j)) → represents s (Handlers None xs) →
  models (put_signal p s d) (upd L id xs).
Proof.
  intros Hsep Hid HL Hrep. split; [done|]. intros j. unfold handlers_of, upd. simpl.
  destruct (decide (j = id)) as [->|Hj].
  - rewrite Hid. simpl. exists s. by rewrite lookup_insert_eq.
  - specialize (HL j Hj). unfold handlers_of in HL.
    destruct (handlers_ d !! j) as [[q|]|] eqn:Hdj; simpl in *; try done.
    rewrite lookup_insert_ne; [done|]. intros ->. apply Hj. eauto.
Qed.
Lemma models_put_same d L id p (s : event_signal) :
  separate d → handlers_ d !! id = Some (Some p) → (∀ j, handlers_of d j (L j)) →
  represents s (Handlers None (L id)) → models (put_signal p s d) L.
Proof.
  intros. eapply models_ext; [|by apply (models_put d L id p s (L id))].
  intros i. unfold upd. by case_decide; subst.
Qed.

(** Where a family's signal is, or will be made, and the address of its next link. *)
Definition fresh_for d id (k a0 a : Z) : Prop :=
  (∀ i, handlers_ d !! i ≠ Some (Some k)) ∧ a0 ≠ 0 ∧ a ≠ 0 ∧ a ≠ a0 ∧
  ∀ p s, mjoin (handlers_ d !! id) = Some p → signals d !! p = Some s → links s !! a = None.

Lemma subscribe_models d L id k a0 a cb r :
  models d L → fresh_for d id k a0 a →
  ∃ d' p, subscribe id k a0 a cb d r =
      Def (d', match r !! id with Some _ => r | None => <[id := (p, a)]> r end) ∧
    models d' (upd L id (L id ++ [(a, cb)])) ∧ handlers_ d' !! id = Some (Some p) ∧
    ∀ q, handlers_ d !! id = Some (Some q) → q = p.
Proof.
  intros [Hsep HL] (Hk&Ha0&Ha&Haa&Hfresh). unfold subscribe.
  destruct (signal_for_spec id k d (L id)) as (p&d1&s&Hsig&Hid&Hs&Hrep&Hsep1&Hold&Hoth); [done..|].
  assert (∀ q, handlers_ d !! id = Some (Some q) → q = p) as Hq.
  { intros q Hq. rewrite (signal_for_old _ _ _ q Hq) in Hsig. congruence. }
  rewrite Hsig. simpl. rewrite Hs. simpl.
  destruct (connect_represents s _ a0 a cb Hrep) as (s'&->&Hrep'&_); try done.
  { destruct Hold as [[??]| ->]; eauto. }
  simpl. exists (put_signal p s' d1), p. split_and!; [done| |done|done].
  apply models_put; auto.
Qed.

Lemma disconnect_weak_models fuel d L id p a :
  models d L → handlers_ d !! id = Some (Some p) → (length (L id) < fuel)%nat →
  ∃ d', disconnect_weak fuel (p, a) d = Def d' ∧ models d' (upd L id (without a (L id))).
Proof.
  intros [Hsep HL] Hid Hf. unfold disconnect_weak. simpl. pose proof (HL id) as Hl.
  unfold handlers_of in Hl. rewrite Hid in Hl. simpl in Hl. destruct Hl as (s&Hs&Hrep). rewrite Hs.
  destruct (disconnect_represents s _ fuel a Hrep Hf) as (s'&->&Hrep'&_). simpl.
  eexists. split; [done|]. apply models_put; auto.
Qed.

Section delivery.
Context {W : Type} (run : F → W → W).
Lemma emit_ref_foldl (fs : list F) (w : W) :
  emit_ref (λ f w, (run f w, ())) collector_void fs () w = ((), foldl (λ w f, run f w) w fs).
Proof. revert w. induction fs as [|f fs IH]; intros w; simpl; auto. Qed.
Lemma emit_event_models fuel id k w d L :
  models d L → (∀ i, handlers_ d !! i ≠ Some (Some k)) → (length (L id) < fuel)%nat →
  ∃ d', emit_event run fuel id k w d = Def (foldl (λ w f, run f w) w (L id).*2, d') ∧ models d' L.
Proof.
  intros [Hsep HL] Hk Hf. unfold emit_event.
  destruct (signal_for_spec id k d (L id)) as (p&d1&s&->&Hid&Hs&Hrep&Hsep1&Hold&Hoth); [done..|].
  simpl. rewrite Hs. simpl.
  rewrite (emit_represents _ _ _ (Handlers None (L id))); [|by destruct Hrep as [(?&?&?)|?]; [left|right]|done].
  simpl. rewrite emit_ref_foldl. simpl. eexists. split; [done|].
  apply (models_put_same d1 L id); auto.
  - intros j. destruct (decide (j = id)) as [->|]; [|auto]. unfold handlers_of. rewrite Hid. simpl.
    by exists s.
Qed.

(** What a receiver remembers for a family: the family's signal and a handler of it. *)
Definition remembers d (L : nat → list (Z * F)) id r : Prop :=
  ∀ p b, r !! id = Some (p, b) → handlers_ d !! id = Some (Some p) ∧ b ∈ (L id).*1.
(** The handlers left after a receiver that remembered [c] has subscribed [(a, cb)] and
    unsubscribed. *)
Definition left_over (xs : list (Z * F)) (c : option (Z * Z)) (a : Z) cb : list (Z * F) :=
  match c with None => xs | Some (_, b) => without b xs ++ [(a, cb)] end.
Lemma without_last (b a : Z) cb (xs : list (Z * F)) :
  without b (xs ++ [(a, cb)]) = without b xs ++ (if decide (a = b) then [] else [(a, cb)]).
Proof. unfold without. rewrite filter_app. f_equal. rewrite filter_cons. simpl. by repeat case_decide. Qed.

(** C26: Events reach their subscribers. After a subscription (its new signal and link
    at unused places, by a receiver whose entry for the family, if any, is a handler of
    the family), an event of the family, with handlers that leave the dispatcher alone,
    runs the handlers that were subscribed before, in order, and then the new one; the
    other families keep their handlers. When the receiver then unsubscribes, a receiver
    that had not been subscribed to the family leaves exactly the former handlers, and
    the receiver's connections as they were; a receiver that was subscribed already only
    had its first connection remembered: its first handler is removed and the new one
    stays. *)
Theorem subscribed_events_delivered fuel d L id k a0 a cb r w :
  models d L → fresh_for d id k a0 a → remembers d L id r → a ∉ (L id).*1 →
  (S (length (L id)) < fuel)%nat →
  ∃ d1 r1 d2, subscribe id k a0 a cb d r = Def (d1, r1) ∧
    models d1 (upd L id (L id ++ [(a, cb)])) ∧
    (∀ k', (∀ i, handlers_ d1 !! i ≠ Some (Some k')) →
      ∃ d', emit_event run fuel id k' w d1 =
        Def (run cb (foldl (λ w f, run f w) w (L id).*2), d')) ∧
    unsubscribe fuel id d1 r1 = Def (d2, delete id r) ∧
    models d2 (upd L id (left_over (L id) (r !! id) a cb)).
Proof.
  intros HL Hfresh Hr Ha Hf.
  destruct (subscribe_models d L id k a0 a cb r HL Hfresh) as (d1&p&Hsub&HL1&Hid&Hq).
  assert (upd L id (L id ++ [(a, cb)]) id = L id ++ [(a, cb)]) as Hu by (unfold upd; by rewrite decide_True).
  set (r1 := match r !! id with Some _ => r | None => <[id := (p, a)]> r end) in *.
  set (b := match r !! id with Some (_, b) => b | None => a end).
  assert (r1 !! id = Some (p, b) ∧ delete id r1 = delete id r) as [Hr1 Hdel].
  { subst r1 b. destruct (r !! id) as [[p' b']|] eqn:Hrid.
    - destruct (Hr _ _ Hrid) as [<-%Hq _]. done.
    - by rewrite lookup_insert_eq, delete_insert_eq. }
  destruct (disconnect_weak_models fuel d1 _ id p b HL1 Hid) as (d2&Hdis&HL2).
  { rewrite Hu, length_app. simpl. lia. }
  exists d1, r1, d2. split_and!; [done|done| | |].
  - intros k' Hk'. destruct (emit_event_models fuel id k' w d1 _ HL1 Hk') as (d'&He&_).
    { rewrite Hu, length_app. simpl. lia. }
    exists d'. rewrite He, Hu, fmap_app, foldl_app. done.
  - unfold unsubscribe. rewrite Hr1. simpl. rewrite Hdis. simpl. by rewrite Hdel.
  - eapply models_ext; [|exact HL2]. intros j. unfold upd. case_decide; [subst|done].
    rewrite decide_True by done. rewrite without_last. unfold left_over. subst b.
    destruct (r !! id) as [[p' b']|] eqn:Hrid.
    + case_decide as Hab; [|done]. subst. by destruct (Hr _ _ Hrid).
    + rewrite decide_True by done. by rewrite without_not_in, app_nil_r.
Qed.
End delivery.
End event.

(** ** Families get different ids *)
Definition families_ok (fs : families) : Prop :=
  (∀ E id, family_ids fs !! E = Some id → (id < family_counter fs)%nat) ∧
  (∀ E E' id, family_ids fs !! E = Some id → family_ids fs !! E' = Some id → E = E').
Lemma family_ok E fs id fs' :
  families_ok fs → family E fs = (id, fs') →
  families_ok fs' ∧ family_ids fs' !! E = Some id ∧
  (∀ E' id', family_ids fs !! E' = Some id' → family_ids fs' !! E' = Some id').
Proof.
  intros [Hlt Hinj] H. unfold family, get_family_id in H.
  destruct (family_ids fs !! E) as [i|] eqn:HE; simplify_eq; [done|]. simpl.
  assert (∀ E' i, <[E:=family_counter fs]> (family_ids fs) !! E' = Some i →
    E' = E ∧ i = family_counter fs ∨ family_ids fs !! E' = Some i) as Hins.
  { intros E' i. destruct (decide (E = E')) as [->|].
    - rewrite lookup_insert_eq. naive_solver.
    - rewrite lookup_insert_ne by done. auto. }
  split_and!.
  - split; simpl.
    + intros E' i [[_ ->]|Hi%Hlt]%Hins; lia.
    + intros E1 E2 i [[-> ->]|H1]%Hins [[-> H2]|H2]%Hins; eauto;
        try (apply Hlt in H1); try (apply Hlt in H2); lia.
  - by rewrite lookup_insert_eq.
  - intros E' id' H'. rewrite lookup_insert_ne; [done|]. intros ->. congruence.
Qed.

(** ** Concrete dispatchers: handlers are numbers, and running one logs it *)
Module EventSample.
Notation disp := (dispatcher (F:=Z)).
Definition log (f : Z) (w : list Z) : list Z := w ++ [f].
Definition emit_log (id : nat) (d : disp) : ub (list Z * disp) := emit_event log 10 id 9 [] d.
(** A receiver subscribes twice to family 0, unsubscribes, and an event comes. *)
Definition twice : ub (list Z) :=
  '(d, r) ← subscribe 0 5 100 1 7 dispatcher_new ∅;
  '(d, r) ← subscribe 0 5 100 2 7 d r;
  '(d, r) ← unsubscribe 10 0 d r;
  _ ← assert_ub (bool_decide (r = ∅));
  '(w, _) ← emit_log 0 d; Def w.
(** An event comes before anyone subscribed. *)
Definition emitted_first : ub disp := '(_, d) ← emit_log 0 dispatcher_new; Def d.
End EventSample.

(** Defect: A receiver that subscribes twice to a family keeps only its first
    connection: after it has unsubscribed (and so after its destructor) its second
    handler is still called. And once an event has been emitted in a family nobody
    subscribed to, asking whether the family has subscribers, or how many receivers
    there are, dereferences null. *)
Theorem second_subscription_is_lost :
  EventSample.twice = Def [7] ∧
  ∃ d, EventSample.emitted_first = Def d ∧ has_subscribed 10 0 d = Undef ∧
    connected_receivers 10 d = Undef.
Proof.
  split; [vm_compute; reflexivity|]. eexists. split; [vm_compute; reflexivity|].
  split; vm_compute; reflexivity.
Qed.

Lemma subscribed_events_delivered_witness :
  ∃ d1 r1 d2, subscribe 0 5 100 1 7 dispatcher_new ∅ = Def (d1, r1) ∧
    models d1 (upd (λ _, []) 0 [(1, 7)]) ∧
    (∀ k', (∀ i, handlers_ d1 !! i ≠ Some (Some k')) →
      ∃ d', emit_event EventSample.log 10 0 k' [3] d1 = Def ([3; 7], d')) ∧
    unsubscribe 10 0 d1 r1 = Def (d2, delete 0%nat (∅ : gmap nat (Z * Z))) ∧
    models d2 (upd (λ _, []) 0 (left_over [] ((∅ : gmap nat (Z * Z)) !! 0%nat) 1 7)).
Proof.
  apply (subscribed_events_delivered EventSample.log 10 dispatcher_new (λ _, []) 0 5 100 1 7 ∅ [3]).
  - apply models_new.
  - split_and!; try lia; intros; simpl in *; by try rewrite lookup_nil in *.
  - intros p b H. by rewrite lookup_empty in H.
  - simpl. by apply not_elem_of_nil.
  - simpl. lia.
Defined.
