(* ===== verification/World.v ===== *)
(** * World and type maps ([network/base/world.hpp], [type_map.hpp], [type_id.hpp])

    A world maps names to values of many types.  Strings, basic values, objects
    and functions live in maps of their own; a basic value is a variant, a
    function a [boost::any]: reading one at another type than it was written
    throws.  Enumerations are kept as their underlying type.  The values of a
    basic type are a family of types, so that the variant is well typed by
    construction.  Types and signatures are known by numbers, objects by their
    address (0 is null). *)
From stdpp Require Import base option list numbers gmap strings.
From S2P Require Import Prelude.
Local Open Scope Z_scope.

(** ** Definitions *)
(** *** [TypeId]: ids by first use, from 1 *)
Record type_ids := TypeIds { assigned : gmap Z Z; last_id : Z }.
Definition type_id (T : Z) (ids : type_ids) : Z * type_ids :=
  match assigned ids !! T with
  | Some id => (id, ids)
  | None => let id := last_id ids + 1 in (id, TypeIds (<[T := id]> (assigned ids)) id)
  end.
Definition invalid_id : Z := -1.
Definition is_invalid_id (tid : Z) : bool := tid <=? 0.

(** *** [base_type_map] *)
Record base_type_map (ID : Type) `{Countable ID} := BaseTypeMap {
  id_to_type_map_ : gmap ID Z;
  type_to_id_map_ : gmap Z ID;
  default_id_ : ID
}.
Arguments BaseTypeMap {ID _ _}.
Arguments id_to_type_map_ {ID _ _}.
Arguments type_to_id_map_ {ID _ _}.
Arguments default_id_ {ID _ _}.
Section type_map.
Context {ID : Type} `{Countable ID}.
Implicit Types (m : base_type_map ID).
Definition tm_new (default : ID) : base_type_map ID := BaseTypeMap ∅ ∅ default.
Definition tm_set (tid : Z) (id : ID) m : base_type_map ID :=
  BaseTypeMap (<[id := tid]> (id_to_type_map_ m)) (<[tid := id]> (type_to_id_map_ m)) (default_id_ m).
Definition tm_get_or (tid : Z) (id : ID) m : ID := default id (type_to_id_map_ m !! tid).
Definition tm_get (tid : Z) m : ID := tm_get_or tid (default_id_ m) m.
Definition tm_has (tid : Z) m : bool := bool_decide (is_Some (type_to_id_map_ m !! tid)).
End type_map.

(** *** Worlds *)
Inductive basic_type :=
| BT_bool | BT_int8 | BT_uint8 | BT_int16 | BT_uint16 | BT_int32 | BT_uint32 | BT_int64
| BT_uint64 | BT_float | BT_double.
#[export] Instance basic_type_eq_dec : EqDecision basic_type.
Proof. solve_decision. Defined.

Section world.
(** The floating-point types and functions are the client's. *)
Context {Float Double Func : Type} (float_zero : Float) (double_zero : Double).
Definition basic_value (ty : basic_type) : Type :=
  match ty with BT_bool => bool | BT_float => Float | BT_double => Double | _ => Z end.
(** [T{}] *)
Definition basic_default (ty : basic_type) : basic_value ty :=
  match ty with
  | BT_bool => false
  | BT_float => float_zero
  | BT_double => double_zero
  | _ => 0
  end.
Definition variant : Type := sigT basic_value.

Record world_map := WorldMap {
  type_obj_map_ : gmap Z Z;
  obj_map_ : gmap string Z;
  str_map_ : gmap string string;
  basic_map_ : gmap string variant;
  func_map_ : gmap string (Z * Func)
}.
Implicit Types (w : world_map) (name : string).
Definition world_new : world_map := WorldMap ∅ ∅ ∅ ∅ ∅.

(** What is written: by type of the argument, as the overloads of [set]. *)
Inductive world_value :=
| V_string (s : string)
| V_basic (ty : basic_type) (v : basic_value ty)
| V_enum (under : basic_type) (v : basic_value under)
| V_object (tid obj : Z)
| V_function (signature : Z) (f : Func).

Definition set_string name (s : string) w : world_map :=
  WorldMap (type_obj_map_ w) (obj_map_ w) (<[name := s]> (str_map_ w)) (basic_map_ w) (func_map_ w).
Definition set_basic name ty (v : basic_value ty) w : world_map :=
  WorldMap (type_obj_map_ w) (obj_map_ w) (str_map_ w) (<[name := existT ty v]> (basic_map_ w))
    (func_map_ w).
Definition set_function name (signature : Z) (f : Func) w : world_map :=
  WorldMap (type_obj_map_ w) (obj_map_ w) (str_map_ w) (basic_map_ w)
    (<[name := (signature, f)]> (func_map_ w)).
Definition set_named_object name (obj : Z) w : world_map :=
  WorldMap (type_obj_map_ w) (<[name := obj]> (obj_map_ w)) (str_map_ w) (basic_map_ w) (func_map_ w).
(** [set<T>(obj)]: also by its type; [set_world] is called on it. *)
Definition set_object (tid obj : Z) w : world_map :=
  WorldMap (<[tid := obj]> (type_obj_map_ w)) (obj_map_ w) (str_map_ w) (basic_map_ w) (func_map_ w).
Definition set name (v : world_value) w : world_map :=
  match v with
  | V_string s => set_string name s w
  | V_basic ty v => set_basic name ty v w
  | V_enum under v => set_basic name under v w
  | V_object tid obj => set_object tid obj (set_named_object name obj w)
  | V_function signature f => set_function name signature f w
  end.

(** [boost::get<T>] and [boost::any_cast<T>] throw at another type. *)
Inductive outcome (A : Type) := Returns (a : A) | Throws.
Arguments Returns {A}.
Arguments Throws {A}.
Definition variant_get (ty : basic_type) (v : variant) : outcome (basic_value ty) :=
  match decide (projT1 v = ty) with
  | left e => Returns (eq_rect _ basic_value (projT2 v) _ e)
  | right _ => Throws
  end.

Definition get_object (tid : Z) w : Z := default 0 (type_obj_map_ w !! tid).
Definition get_named_object name w : Z := default 0 (obj_map_ w !! name).
Definition get_string name w : string := default ""%string (str_map_ w !! name).
Definition get_string_or name (or_value : string) w : string := default or_value (str_map_ w !! name).
Definition get_basic_or ty name (or_value : basic_value ty) w : outcome (basic_value ty) :=
  match basic_map_ w !! name with Some v => variant_get ty v | None => Returns or_value end.
Definition get_basic ty name w : outcome (basic_value ty) :=
  get_basic_or ty name (basic_default ty) w.
Definition get_function (signature : Z) name w : outcome (option Func) :=
  match func_map_ w !! name with
  | None => Returns None
  | Some (s, f) => if s =? signature then Returns (Some f) else Throws
  end.

(** What is read: by type, as the overloads of [get]. *)
Inductive request : Type → Type :=
| R_string : request string
| R_basic (ty : basic_type) : request (basic_value ty)
| R_enum (under : basic_type) : request (basic_value under)
| R_object : request Z
| R_function (signature : Z) : request (option Func).
Definition get {A} (r : request A) name w : outcome A :=
  match r in request A return outcome A with
  | R_string => Returns (get_string name w)
  | R_basic ty => get_basic ty name w
  | R_enum under => get_basic under name w
  | R_object => Returns (get_named_object name w)
  | R_function signature => get_function signature name w
  end.

(** ** What a read sees of a write under the same name: nothing, when they
    concern different maps. *)
Definition read_of {A} (r : request A) (v : world_value) : option (outcome A) :=
  match r in request A return option (outcome A) with
  | R_string => match v with V_string s => Some (Returns s) | _ => None end
  | R_basic ty | R_enum ty =>
      match v with
      | V_basic ty' v | V_enum ty' v => Some (variant_get ty (existT ty' v))
      | _ => None
      end
  | R_object => match v with V_object _ obj => Some (Returns obj) | _ => None end
  | R_function signature =>
      match v with
      | V_function s f => Some (if s =? signature then Returns (Some f) else Throws)
      | _ => None
      end
  end.

Lemma variant_get_same ty (v : basic_value ty) : variant_get ty (existT ty v) = Returns v.
Proof.
  unfold variant_get. simpl. destruct (decide (ty = ty)) as [e|]; [|done].
  by rewrite (Eqdep_dec.UIP_dec basic_type_eq_dec e eq_refl).
Qed.
Lemma variant_get_other ty ty' (v : basic_value ty') :
  ty' ≠ ty → variant_get ty (existT ty' v) = Throws.
Proof. intros H. unfold variant_get. simpl. by destruct (decide (ty' = ty)). Qed.

Lemma get_set_same {A} (r : request A) name v w :
  get r name (set name v w) = default (get r name w) (read_of r v).
Proof.
  destruct r, v; simpl; unfold get_string, get_basic, get_basic_or, get_named_object, get_function;
    simpl; rewrite ?lookup_insert_eq; done.
Qed.
Lemma get_set_other {A} (r : request A) name name' v w :
  name ≠ name' → get r name (set name' v w) = get r name w.
Proof.
  intros Hn. destruct r, v; simpl;
    unfold get_string, get_basic, get_basic_or, get_named_object, get_function; simpl;
    rewrite ?lookup_insert_ne by done; done.
Qed.

(** C20: A world is type safe and its kinds of value do not interfere: a read sees
    exactly the last write of its kind under its name (an enumeration counts as its
    underlying type); a basic value is returned unchanged at the type it was written
    with and throws at every other; and a name never written gives the type's default.
    *)
Theorem world_type_safe name name' v w ty (u : basic_value ty) ty' :
  (∀ A (r : request A), get r name (set name' v w) =
     if decide (name = name') then default (get r name w) (read_of r v) else get r name w) ∧
  get (R_basic ty) name (set name (V_basic ty u) w) = Returns u ∧
  get (R_enum ty) name (set name (V_basic ty u) w) = Returns u ∧
  get (R_basic ty) name (set name (V_enum ty u) w) = Returns u ∧
  (ty ≠ ty' → get (R_basic ty') name (set name (V_basic ty u) w) = Throws) ∧
  get (R_basic ty) name world_new = Returns (basic_default ty).
Proof.
  split_and!.
  - intros A r. case_decide as Hn; [subst; apply get_set_same|by apply get_set_other].
  - rewrite get_set_same. apply variant_get_same.
  - rewrite get_set_same. apply variant_get_same.
  - rewrite get_set_same. apply variant_get_same.
  - intros Hne. rewrite get_set_same. by apply variant_get_other.
  - done.
Qed.
End world.

(** ** Types *)
Section type_map_laws.
Context {ID : Type} `{Countable ID}.
Lemma tm_get_set (tid tid' : Z) (id d : ID) (m : base_type_map ID) :
  tm_get_or tid d (tm_set tid' id m) = (if decide (tid = tid') then id else tm_get_or tid d m) ∧
  tm_has tid (tm_set tid' id m) = bool_decide (tid = tid') || tm_has tid m.
Proof.
  unfold tm_get_or, tm_has, tm_set. simpl. case_decide as Ht; [subst|].
  - by rewrite lookup_insert_eq, !bool_decide_true by eauto.
  - rewrite lookup_insert_ne, (bool_decide_false (tid = tid')) by done. done.
Qed.
End type_map_laws.

Definition type_ids_ok (ids : type_ids) : Prop :=
  0 ≤ last_id ids ∧ (∀ T id, assigned ids !! T = Some id → 1 ≤ id ≤ last_id ids) ∧
  (∀ T T' id, assigned ids !! T = Some id → assigned ids !! T' = Some id → T = T').
(** Ids are positive, different for different types, and do not change. *)
Lemma type_id_ok T ids id ids' :
  type_ids_ok ids → type_id T ids = (id, ids') →
  type_ids_ok ids' ∧ assigned ids' !! T = Some id ∧ is_invalid_id id = false ∧
  (∀ T' id', assigned ids !! T' = Some id' → assigned ids' !! T' = Some id').
Proof.
  intros (H0&Hb&Hinj) H. unfold type_id in H.
  destruct (assigned ids !! T) as [i|] eqn:HT; simplify_eq/=.
  { split_and!; try done. apply Hb in HT. apply Z.leb_gt. lia. }
  assert (∀ T' i, <[T:=last_id ids + 1]> (assigned ids) !! T' = Some i →
    T' = T ∧ i = last_id ids + 1 ∨ assigned ids !! T' = Some i) as Hins.
  { intros T' i. destruct (decide (T = T')) as [->|].
    - rewrite lookup_insert_eq. naive_solver.
    - rewrite lookup_insert_ne by done. auto. }
  split_and!.
  - split_and!; simpl; [lia| |].
    + intros T' i [[_ ->]|Hi%Hb]%Hins; lia.
    + intros T1 T2 i [[-> ->]|H1]%Hins [[-> H2]|H2]%Hins; eauto;
        try (apply Hb in H1); try (apply Hb in H2); lia.
  - by rewrite lookup_insert_eq.
  - apply Z.leb_gt. lia.
  - intros T' id' H'. rewrite lookup_insert_ne; [done|]. intros ->. congruence.
Qed.
