(* ===== verification/Service.v ===== *)
(** * Services and modules ([network/service/], [network/module/], [base/instance_factory.hpp])

    The factory owns one object for each service class, wrapped in a helper that
    calls the functions the class has; a manager chooses some of the factory's
    services, runs their life cycle in the order of their type ids and finds them
    by type, by a base they were registered with, or by name.  Classes are known by
    their type ids ([World.type_id], from 1), objects by their address (0 is null);
    the class' functions are the program's that uses the library: whether a class
    has a function, and what it answers after the calls made so far, are parameters. *)
From stdpp Require Import base option list numbers gmap strings sorting.
From S2P Require Import Prelude World.
Local Open Scope Z_scope.

(** ** Definitions *)
(** *** Services *)
Inductive svc_fn := Fn_set_world | Fn_init | Fn_start | Fn_stop | Fn_reset | Fn_reload.
#[export] Instance svc_fn_eq_dec : EqDecision svc_fn.
Proof. solve_decision. Defined.
(** [service_helper<T>] *)
Record iservice := IService { val_ : Z; get_type_id : Z; get_name : string }.
Inductive svc_call := Called (obj : Z) (fn : svc_fn).

(** *** The factory *)
Record service_factory := ServiceFactory {
  service_map_ : gmap Z iservice;
  name_map_ : gmap string Z;
  derived_service_map_ : gmap Z (list Z);
  next_val : Z                            (* where the next object is allocated *)
}.
Definition factory_new : service_factory := ServiceFactory ∅ ∅ ∅ 1.
(** [emplace] keeps what is there. *)
Definition emplace `{Countable K} {A} (k : K) (x : A) (m : gmap K A) : gmap K A :=
  match m !! k with Some _ => m | None => <[k := x]> m end.
Definition register_service (T : Z) (name : string) (f : service_factory) : service_factory :=
  match service_map_ f !! T with
  | Some _ => f
  | None =>
      ServiceFactory (emplace T (IService (next_val f) T name) (service_map_ f))
        (emplace name T (name_map_ f)) (derived_service_map_ f) (next_val f + 1)
  end.
Definition register_derived (T B : Z) (name : string) (f : service_factory) : service_factory :=
  match service_map_ f !! T with
  | Some _ => f
  | None =>
      ServiceFactory (emplace T (IService (next_val f) T name) (service_map_ f))
        (emplace name T (name_map_ f))
        (<[B := default [] (derived_service_map_ f !! B) ++ [T]]> (derived_service_map_ f)) (next_val f + 1)
  end.
Definition reg_inter_service (T : Z) (ptr : Z) (name : string) (f : service_factory)
    : iservice * service_factory :=
  match service_map_ f !! T with
  | Some s => (s, f)
  | None =>
      let s := IService ptr T name in
      (s, ServiceFactory (emplace T s (service_map_ f)) (emplace name T (name_map_ f))
            (derived_service_map_ f) (next_val f))
  end.
Definition get_iservice (T : Z) (f : service_factory) : option iservice := service_map_ f !! T.
Definition get_service_typeid (name : string) (f : service_factory) : Z := default 0 (name_map_ f !! name).
Definition get_service_named (name : string) (f : service_factory) : option iservice :=
  get_iservice (get_service_typeid name f) f.
Definition get_derived_typeid_list (B : Z) (f : service_factory) : list Z :=
  default [] (derived_service_map_ f !! B).
Definition get_derived_services (B : Z) (f : service_factory) : list Z :=
  omap (λ T, val_ <$> get_iservice T f) (get_derived_typeid_list B f).
Definition factory_get_service (T : Z) (f : service_factory) : Z :=
  match service_map_ f !! T with
  | Some s => val_ s
  | None => default 0 (head (get_derived_services T f))
  end.
Definition factory_get_all (T : Z) (f : service_factory) : list Z :=
  match service_map_ f !! T with Some s => [val_ s] | None => [] end ++ get_derived_services T f.
Definition factory_find (T : Z) (f : service_factory) : bool := negb (factory_get_service T f =? 0).
Definition factory_find_named (name : string) (f : service_factory) : bool :=
  bool_decide (is_Some (get_service_named name f)).
(** The destructor deletes the helpers, a helper its object. *)
Definition factory_destroy (f : service_factory) : list Z := val_ ∘ snd <$> in_key_order (service_map_ f).

(** *** A manager: the services chosen *)
Notation service_manager := (gmap Z iservice).
Definition choose (s : option iservice) (m : service_manager) : service_manager :=
  match s with Some s => emplace (get_type_id s) s m | None => m end.
Definition reg_impl (f : service_factory) (T : Z) (m : service_manager) : service_manager :=
  choose (get_iservice T f) m.
Definition mgr_register (f : service_factory) (Ts : list Z) (m : service_manager) : service_manager :=
  foldl (λ m T, reg_impl f T m) m Ts.
Definition mgr_register_named (f : service_factory) (name : string) (m : service_manager) : service_manager :=
  choose (get_service_named name f) m.
Definition mgr_register_names (f : service_factory) (names : list string) (m : service_manager)
    : service_manager :=
  foldl (λ m name, mgr_register_named f name m) m names.
Definition register_all_service (f : service_factory) : service_manager := service_map_ f.
Definition mgr_reg_inter (T ptr : Z) (name : string) (f : service_factory) (m : service_manager)
    : service_factory * service_manager :=
  let '(s, f) := reg_inter_service T ptr name f in (f, choose (Some s) m).

Definition internal_get_service (T : Z) (m : service_manager) : Z :=
  match m !! T with Some s => val_ s | None => 0 end.
Fixpoint first_service (Ts : list Z) (m : service_manager) : Z :=
  match Ts with
  | [] => 0
  | T :: Ts => let p := internal_get_service T m in if negb (p =? 0) then p else first_service Ts m
  end.
Definition mgr_get_service (f : service_factory) (T : Z) (m : service_manager) : Z :=
  if bool_decide (m = ∅) then 0
  else
    let p := internal_get_service T m in
    if negb (p =? 0) then p else first_service (get_derived_typeid_list T f) m.
Definition mgr_get_all (f : service_factory) (T : Z) (m : service_manager) : list Z :=
  if bool_decide (m = ∅) then []
  else
    filter (λ p, p ≠ 0)
      ((λ T, internal_get_service T m) <$> T :: get_derived_typeid_list T f).
Definition mgr_find (f : service_factory) (T : Z) (m : service_manager) : bool :=
  negb (mgr_get_service f T m =? 0).
Definition mgr_find_named (f : service_factory) (name : string) (m : service_manager) : bool :=
  if bool_decide (m = ∅) then false
  else
    match get_service_named name f with
    | None => false
    | Some s => bool_decide (is_Some (m !! get_type_id s))
    end.

(** *** The life cycle *)
Section lifecycle.
(** Whether a class has a function, and what a call answers. *)
Context (has : Z → svc_fn → bool) (answers : list svc_call → Z → svc_fn → bool).
Notation trace := (list svc_call).
(** [SERVICE_FUNC_IMPL], [SERVICE_FUNC_IMPL_BOOL] *)
Definition helper_call (fn : svc_fn) (s : iservice) (tr : trace) : bool * trace :=
  if has (get_type_id s) fn then (answers tr (val_ s) fn, tr ++ [Called (val_ s) fn]) else (true, tr).
Fixpoint all_of (fn : svc_fn) (l : list iservice) (tr : trace) : bool * trace :=
  match l with
  | [] => (true, tr)
  | s :: l => let '(r, tr) := helper_call fn s tr in if r then all_of fn l tr else (false, tr)
  end.
Definition for_all (fn : svc_fn) (l : list iservice) (tr : trace) : trace :=
  foldl (λ tr s, (helper_call fn s tr).2) tr l.
Definition services (m : service_manager) : list iservice := snd <$> in_key_order m.
Definition service_set_world (m : service_manager) : trace → trace := for_all Fn_set_world (services m).
Definition init_service (m : service_manager) : trace → bool * trace := all_of Fn_init (services m).
Definition start_service (m : service_manager) : trace → bool * trace := all_of Fn_start (services m).
Definition reload_service (m : service_manager) : trace → bool * trace := all_of Fn_reload (services m).
Definition stop_service (m : service_manager) : trace → trace := for_all Fn_stop (services m).
Definition reset_service (m : service_manager) : trace → trace := for_all Fn_reset (services m).

(** *** A game server's services ([game_server_base::init], [start], [stop];
    [game_server::init]) *)
(** [world["svc_manager"] = &service_mgr_] hands the world to the manager, as
    [world_map::set] does to what has a [set_world]. *)
Record server_services := ServerServices { sv_factory : service_factory; sv_mgr : service_manager; sv_trace : trace }.
Definition server_init (config_type config : Z) (services : option (list string)) (s : server_services)
    : server_services :=
  let tr := service_set_world (sv_mgr s) (sv_trace s) in
  let '(f, m) := mgr_reg_inter config_type config "config" (sv_factory s) (sv_mgr s) in
  let m := match services with
           | Some names => mgr_register_names f names m
           | None => register_all_service f
           end in
  ServerServices f m (init_service m tr).2.
Definition server_start (s : server_services) : server_services :=
  ServerServices (sv_factory s) (sv_mgr s) (start_service (sv_mgr s) (sv_trace s)).2.
Definition server_stop (s : server_services) : server_services :=
  ServerServices (sv_factory s) (sv_mgr s) (stop_service (sv_mgr s) (sv_trace s)).
Definition server_reset (s : server_services) : server_services :=
  ServerServices (sv_factory s) (sv_mgr s) (reset_service (sv_mgr s) (sv_trace s)).
End lifecycle.

(** *** [base_service::set_world] *)
Record base_service := BaseService { bs_world : bool; bs_service_mgr : Z }.
Definition base_service_new : base_service := BaseService false 0.
Definition base_set_world {Float Double Func} (w : @world_map Float Double Func) (b : base_service) : base_service :=
  BaseService true (get_named_object "service_mgr" w).

(** *** [instance_factory]: one object for each class *)
Record instance_factory := InstanceFactory { type_to_objs_ : gmap Z Z; next_obj : Z }.
Definition instance_get (T : Z) (i : instance_factory) : Z * instance_factory :=
  match type_to_objs_ i !! T with
  | Some o => (o, i)
  | None => (next_obj i, InstanceFactory (<[T := next_obj i]> (type_to_objs_ i)) (next_obj i + 1))
  end.

(** *** Modules *)
(** What [base_module] keeps; a module is known by the class of its only object. *)
Record base_module := BaseModule {
  bm_world : bool;                        (* world_ptr_ is set *)
  bm_service_mgr : service_manager;
  auto_register_all_service_ : bool
}.
Definition base_module_new : base_module := BaseModule false ∅ false.
Section modules.
Context (has : Z → svc_fn → bool) (answers : list svc_call → Z → svc_fn → bool).
Record module_manager := ModuleManager {
  reg_modules_ : gmap string Z;
  modules_ : gmap string Z;
  instances : instance_factory;
  module_objs : gmap Z base_module;
  world_service_mgr : Z;                  (* world["service_mgr"]: the module it is of *)
  mm_trace : list svc_call
}.
Implicit Types s : module_manager.
Definition register_module (name : string) (T : Z) s : module_manager :=
  ModuleManager (<[name := T]> (reg_modules_ s)) (modules_ s) (instances s) (module_objs s)
    (world_service_mgr s) (mm_trace s).
(** [base_module::init] *)
Definition module_init (f : service_factory) (o : Z) s : ub (bool * module_manager) :=
  b ← deref (module_objs s !! o);
  assert_ub (bm_world b);;
  let m := if auto_register_all_service_ b then register_all_service f else bm_service_mgr b in
  let tr := service_set_world has answers m (mm_trace s) in
  let '(r, tr) := init_service has answers m tr in
  Def (r, ModuleManager (reg_modules_ s) (modules_ s) (instances s)
            (<[o := BaseModule true m (auto_register_all_service_ b)]> (module_objs s)) o tr).
Definition init_module (f : service_factory) (name : string) s : ub (bool * module_manager) :=
  match reg_modules_ s !! name with
  | None => Def (false, s)
  | Some T =>
      let '(o, i) := instance_get T (instances s) in
      let b := default base_module_new (module_objs s !! o) in
      let objs := <[o := BaseModule true (bm_service_mgr b) (auto_register_all_service_ b)]> (module_objs s) in
      module_init f o (ModuleManager (reg_modules_ s) (<[name := o]> (modules_ s)) i objs
                         (world_service_mgr s) (mm_trace s))
  end.
(** [base_module::register_service] *)
Definition module_register (f : service_factory) (o : Z) (Ts : list Z) s : ub module_manager :=
  b ← deref (module_objs s !! o);
  Def (ModuleManager (reg_modules_ s) (modules_ s) (instances s)
         (<[o := BaseModule (bm_world b) (mgr_register f Ts (bm_service_mgr b)) (auto_register_all_service_ b)]>
            (module_objs s)) (world_service_mgr s) (mm_trace s)).
(** [start], [reload], [stop] go through a hash map, in an order of its own. *)
Definition module_fn (fn : svc_fn) (o : Z) s : ub (bool * module_manager) :=
  b ← deref (module_objs s !! o);
  let '(r, tr) := match fn with
                  | Fn_stop => (true, stop_service has answers (bm_service_mgr b) (mm_trace s))
                  | fn => all_of has answers fn (services (bm_service_mgr b)) (mm_trace s)
                  end in
  Def (r, ModuleManager (reg_modules_ s) (modules_ s) (instances s) (module_objs s) (world_service_mgr s) tr).
Fixpoint modules_all (fn : svc_fn) (order : list Z) s : ub (bool * module_manager) :=
  match order with
  | [] => Def (true, s)
  | o :: order =>
      '(r, s) ← module_fn fn o s;
      if r : bool then modules_all fn order s else Def (false, s)
  end.
(** [modules_.begin()] *)
Definition get_service_mgr (order : list Z) s : ub service_manager :=
  o ← deref (head order);
  b ← deref (module_objs s !! o);
  Def (bm_service_mgr b).
Definition module_manager_new : module_manager := ModuleManager ∅ ∅ (InstanceFactory ∅ 1) ∅ 0 [].
End modules.

(** ** The life cycle in order *)
(** The calls of [fn] on the services of [l]. *)
Definition calls_of (has : Z → svc_fn → bool) (fn : svc_fn) (l : list iservice) : list svc_call :=
  (λ s, Called (val_ s) fn) <$> filter (λ s, has (get_type_id s) fn = true) l.
Lemma calls_of_cons has fn s l :
  calls_of has fn (s :: l) = (if has (get_type_id s) fn then [Called (val_ s) fn] else []) ++ calls_of has fn l.
Proof. unfold calls_of. rewrite filter_cons. destruct has; by case_decide. Qed.
Section in_order.
Context (has : Z → svc_fn → bool) (answers : list svc_call → Z → svc_fn → bool).
(** What a service that is called after [tr] answers; one without the function
    counts as having answered [true]. *)
Definition answer (fn : svc_fn) (tr : list svc_call) (s : iservice) : bool :=
  negb (has (get_type_id s) fn) || answers tr (val_ s) fn.
Lemma helper_call_spec fn s tr :
  helper_call has answers fn s tr = (answer fn tr s, tr ++ calls_of has fn [s]).
Proof.
  unfold helper_call, answer. rewrite calls_of_cons. destruct has; simpl; [done|].
  by rewrite app_nil_r.
Qed.
(** [all_of] calls a prefix: all, or up to the first that answers [false]. *)
Lemma all_of_prefix fn l tr :
  ∃ l1 l2, l = l1 ++ l2 ∧ (all_of has answers fn l tr).2 = tr ++ calls_of has fn l1 ∧
    (∀ l0 s l3, l1 = l0 ++ s :: l3 →
       answer fn (tr ++ calls_of has fn l0) s = (all_of has answers fn l tr).1 || bool_decide (l3 ≠ [])) ∧
    ((all_of has answers fn l tr).1 = true → l2 = []) ∧ ((all_of has answers fn l tr).1 = false → l1 ≠ []).
Proof.
  revert tr. induction l as [|s l IH]; intros tr; simpl.
  { exists [], []. split_and!; try done; [by rewrite app_nil_r|intros [] ? ? ?; done]. }
  rewrite helper_call_spec. destruct (answer fn tr s) eqn:Ha.
  - destruct (IH (tr ++ calls_of has fn [s])) as (l1 & l2 & -> & Htr & Hans & Hall & Hnil).
    exists (s :: l1), l2. split_and!; [done| | |done|done].
    + rewrite Htr, <- app_assoc. f_equal. rewrite (calls_of_cons _ _ s l1), (calls_of_cons _ _ s []).
      by rewrite app_nil_r.
    + intros [|s' l0] s1 l3 Heq; simplify_eq/=.
      * unfold calls_of at 1. simpl. rewrite app_nil_r, Ha. symmetry.
        destruct (all_of _ _ _ _ _).1 eqn:Hr; [done|]. simpl. apply bool_decide_true. by apply Hnil.
      * rewrite <- (Hans l0 s1 l3 eq_refl), <- app_assoc.
        by rewrite (calls_of_cons _ _ s' l0), (calls_of_cons _ _ s' []), app_nil_r.
  - exists [s], l. split_and!; try done.
    intros [|? []] s1 l3 Heq; simplify_eq/=. unfold calls_of. simpl. by rewrite app_nil_r.
Qed.
Lemma for_all_calls fn l tr : for_all has answers fn l tr = tr ++ calls_of has fn l.
Proof.
  unfold for_all. revert tr. induction l as [|s l IH]; intros tr; simpl; [by rewrite app_nil_r|].
  rewrite helper_call_spec. simpl. rewrite IH, <- app_assoc. f_equal.
  by rewrite (calls_of_cons _ _ s l), (calls_of_cons _ _ s []), app_nil_r.
Qed.
End in_order.

(** ** The registry a factory and a manager implement *)
(** What was registered, in order, the first time each class was; the classes chosen. *)
Record entry := Entry { e_type : Z; e_name : string; e_base : option Z; e_obj : Z }.
Record registry := Registry { entries : list entry; chosen : gset Z; fresh : Z }.
Definition registry_new : registry := Registry [] ∅ 1.
Definition has_class (T : Z) (l : list entry) : bool := existsb (λ e, e_type e =? T) l.
Definition named (name : string) (l : list entry) : option entry :=
  head (filter (λ e, e_name e = name) l).
Definition add_entry (e : entry) (next : Z) (r : registry) : registry :=
  if has_class (e_type e) (entries r) then r else Registry (entries r ++ [e]) (chosen r) next.
Definition choose_class (T : Z) (r : registry) : registry :=
  if has_class T (entries r) then Registry (entries r) ({[T]} ∪ chosen r) (fresh r) else r.
Definition choose_named (name : string) (r : registry) : registry :=
  match named name (entries r) with Some e => choose_class (e_type e) r | None => r end.
(** The chosen services that are of class [T], then those registered with base [T]. *)
Definition spec_get_all (T : Z) (r : registry) : list Z :=
  e_obj <$> filter (λ e, e_type e ∈ chosen r)
    (filter (λ e, e_type e = T) (entries r) ++ filter (λ e, e_base e = Some T) (entries r)).
Definition spec_find_named (name : string) (r : registry) : bool :=
  match named name (entries r) with Some e => bool_decide (e_type e ∈ chosen r) | None => false end.

Inductive svc_op :=
| S_register (T : Z) (name : string) | S_derived (T B : Z) (name : string) | S_inter (T ptr : Z) (name : string)
| S_choose (Ts : list Z) | S_choose_names (names : list string) | S_choose_all.
Definition svc_step (o : svc_op) (s : service_factory * service_manager) : service_factory * service_manager :=
  let '(f, m) := s in
  match o with
  | S_register T name => (register_service T name f, m)
  | S_derived T B name => (register_derived T B name f, m)
  | S_inter T ptr name => mgr_reg_inter T ptr name f m
  | S_choose Ts => (f, mgr_register f Ts m)
  | S_choose_names names => (f, mgr_register_names f names m)
  | S_choose_all => (f, register_all_service f)
  end.
Definition spec_step (o : svc_op) (r : registry) : registry :=
  match o with
  | S_register T name => add_entry (Entry T name None (fresh r)) (fresh r + 1) r
  | S_derived T B name => add_entry (Entry T name (Some B) (fresh r)) (fresh r + 1) r
  | S_inter T ptr name => choose_class T (add_entry (Entry T name None ptr) (fresh r) r)
  | S_choose Ts => foldl (λ r T, choose_class T r) r Ts
  | S_choose_names names => foldl (λ r name, choose_named name r) r names
  | S_choose_all => Registry (entries r) (list_to_set (e_type <$> entries r)) (fresh r)
  end.
(** Type ids are positive; a service of the program's own is not null. *)
Definition op_ok (o : svc_op) : Prop :=
  match o with
  | S_register T _ | S_derived T _ _ => 1 ≤ T
  | S_inter T ptr _ => 1 ≤ T ∧ ptr ≠ 0
  | _ => True
  end.

Definition service_of (e : entry) : iservice := IService (e_obj e) (e_type e) (e_name e).
Record implements (f : service_factory) (m : service_manager) (r : registry) : Prop := {
  im_types : NoDup (e_type <$> entries r);
  im_ok : Forall (λ e, 1 ≤ e_type e ∧ e_obj e ≠ 0) (entries r);
  im_next : next_val f = fresh r ∧ 1 ≤ fresh r;
  im_map : service_map_ f = list_to_map ((λ e, (e_type e, service_of e)) <$> entries r);
  im_names : ∀ name, name_map_ f !! name = e_type <$> named name (entries r);
  im_derived : ∀ B, get_derived_typeid_list B f = e_type <$> filter (λ e, e_base e = Some B) (entries r);
  im_chosen : ∀ T, m !! T = if decide (T ∈ chosen r) then service_map_ f !! T else None;
  im_sub : ∀ T, T ∈ chosen r → has_class T (entries r) = true
}.

Section registry.
Implicit Types (f : service_factory) (m : service_manager) (r : registry).
Lemma has_class_spec T l : has_class T l = true ↔ T ∈ e_type <$> l.
Proof.
  unfold has_class. rewrite existsb_exists, list_elem_of_fmap.
  split; intros (e & He & Ht); exists e; rewrite ?list_elem_of_In, ?Z.eqb_eq in *; naive_solver.
Qed.
Lemma map_has_class f m r T :
  implements f m r → is_Some (service_map_ f !! T) ↔ has_class T (entries r) = true.
Proof.
  intros Him. rewrite (im_map _ _ _ Him), has_class_spec.
  rewrite <- (elem_of_dom (D:=gset Z)), dom_list_to_map, elem_of_list_to_set, <- list_fmap_compose. done.
Qed.
Lemma map_entry f m r e :
  implements f m r → e ∈ entries r → service_map_ f !! e_type e = Some (service_of e).
Proof.
  intros Him He. rewrite (im_map _ _ _ Him). apply elem_of_list_to_map_1.
  - rewrite <- list_fmap_compose. apply (im_types _ _ _ Him).
  - apply list_elem_of_fmap. by exists e.
Qed.
Lemma filter_snoc_head {A} (P : A → Prop) `{∀ x, Decision (P x)} (l : list A) (x : A) :
  head (filter P (l ++ [x])) = match head (filter P l) with Some y => Some y | None => if decide (P x) then Some x else None end.
Proof.
  rewrite filter_app. destruct (filter P l); [|done]. simpl. rewrite filter_cons. by case_decide.
Qed.

Lemma emplace_new `{Countable K} {A} (k : K) (x : A) (m : gmap K A) :
  m !! k = None → emplace k x m = <[k := x]> m.
Proof. intros Hk. unfold emplace. by rewrite Hk. Qed.
Lemma map_no_class f m r T :
  implements f m r → has_class T (entries r) = false → service_map_ f !! T = None.
Proof.
  intros Him Hc. destruct (service_map_ f !! T) eqn:HT; [|done].
  by rewrite (proj1 (map_has_class _ _ _ _ Him) (mk_is_Some _ _ HT)) in Hc.
Qed.
Lemma add_implements f m r e derived next :
  implements f m r → has_class (e_type e) (entries r) = false → 1 ≤ e_type e → e_obj e ≠ 0 → 1 ≤ next →
  (∀ B, default [] (derived !! B) =
     get_derived_typeid_list B f ++ (if decide (e_base e = Some B) then [e_type e] else [])) →
  implements (ServiceFactory (emplace (e_type e) (service_of e) (service_map_ f))
                (emplace (e_name e) (e_type e) (name_map_ f)) derived next) m
    (Registry (entries r ++ [e]) (chosen r) next).
Proof.
  intros Him Hc HT Ho Hn Hd. pose proof (map_no_class _ _ _ _ Him Hc) as Hnew.
  assert (e_type e ∉ e_type <$> entries r) as Hnin by (rewrite <- has_class_spec; by rewrite Hc).
  assert (∀ T, T ∈ chosen r → T ≠ e_type e) as Hch.
  { intros T HTc ->. apply (im_sub _ _ _ Him) in HTc. by rewrite Hc in HTc. }
  split; simpl; rewrite ?(emplace_new (e_type e)) by done.
  - rewrite fmap_app. apply NoDup_app. split_and!; [apply Him| |apply NoDup_singleton].
    simpl. intros T HT' ->%list_elem_of_singleton. done.
  - apply Forall_app. split; [apply Him|]. by constructor.
  - done.
  - rewrite fmap_app, list_to_map_app, <- (im_map _ _ _ Him). simpl.
    rewrite insert_empty, insert_union_singleton_r by done. done.
  - intros name. unfold named. rewrite filter_snoc_head. fold (named name (entries r)). unfold emplace.
    destruct (decide (e_name e = name)) as [<-|Hne].
    + pose proof (im_names _ _ _ Him (e_name e)) as Hnm. destruct (named (e_name e) (entries r)); simpl in *;
        rewrite Hnm; [done|by rewrite lookup_insert_eq].
    + pose proof (im_names _ _ _ Him name) as Hnm.
      destruct (name_map_ f !! e_name e); rewrite ?lookup_insert_ne by done; rewrite Hnm;
        by destruct (named name (entries r)).
  - intros B. unfold get_derived_typeid_list at 1. simpl.
    rewrite Hd, filter_app, fmap_app, <- (im_derived _ _ _ Him). f_equal.
    rewrite filter_cons, filter_nil. by case_decide.
  - intros T. rewrite (im_chosen _ _ _ Him). case_decide as HTc; [|done].
    by rewrite lookup_insert_ne by (symmetry; by apply Hch).
  - intros T HTc. apply (im_sub _ _ _ Him) in HTc. revert HTc. rewrite !has_class_spec, fmap_app. set_solver.
Qed.
Lemma choose_implements f m r T :
  implements f m r → implements f (choose (service_map_ f !! T) m) (choose_class T r).
Proof.
  intros Him. unfold choose_class, choose. destruct (has_class T (entries r)) eqn:Hc.
  - destruct (proj2 (map_has_class _ _ _ _ Him) Hc) as [s Hs]. rewrite Hs.
    assert (get_type_id s = T) as HsT.
    { rewrite (im_map _ _ _ Him) in Hs. apply elem_of_list_to_map_2 in Hs.
      apply list_elem_of_fmap in Hs as (e & Heq & _). by simplify_eq. }
    rewrite HsT. split; try apply Him; simpl.
    + intros T'. unfold emplace. pose proof (im_chosen _ _ _ Him) as Hch.
      destruct (decide (T' = T)) as [->|Hne].
      * rewrite decide_True by set_solver. specialize (Hch T). rewrite Hs in *.
        destruct (decide _); rewrite Hch; [done|apply lookup_insert_eq].
      * rewrite (decide_ext (T' ∈ {[T]} ∪ chosen r) (T' ∈ chosen r)) by set_solver. rewrite <- Hch.
        destruct (m !! T); [done|]. by rewrite lookup_insert_ne.
    + intros T' HT'. destruct (decide (T' = T)) as [->|]; [done|]. apply Him. set_solver.
  - by rewrite (map_no_class _ _ _ _ Him Hc).
Qed.
Lemma choose_named_implements f m r name :
  implements f m r → Forall (λ e, 1 ≤ e_type e ∧ e_obj e ≠ 0) (entries r) →
  implements f (mgr_register_named f name m) (choose_named name r).
Proof.
  intros Him Hok. unfold mgr_register_named, choose_named, get_service_named, get_service_typeid, get_iservice.
  rewrite (im_names _ _ _ Him). destruct (named name (entries r)) as [e|]; simpl.
  - by apply choose_implements.
  - assert (service_map_ f !! 0 = None) as ->; [|done].
    apply (map_no_class _ _ _ _ Him). destruct (has_class 0 (entries r)) eqn:Hc; [|done].
    apply has_class_spec, list_elem_of_fmap in Hc as (e & He & Hin).
    rewrite Forall_forall in Hok. apply Hok in Hin. lia.
Qed.
Lemma step_implements o f m r :
  op_ok o → implements f m r → implements (svc_step o (f, m)).1 (svc_step o (f, m)).2 (spec_step o r).
Proof.
  intros Hop Him. pose proof (im_next _ _ _ Him) as [Hnext Hfresh].
  destruct o as [T name|T B name|T ptr name|Ts|names|]; simpl in *.
  - unfold register_service, add_entry. simpl. destruct (has_class T (entries r)) eqn:Hc.
    + by destruct (proj2 (map_has_class _ _ _ _ Him) Hc) as [s ->].
    + rewrite (map_no_class _ _ _ _ Him Hc), Hnext.
      apply (add_implements f m r (Entry T name None (fresh r))); try done; simpl; try lia.
      intros B. by rewrite app_nil_r.
  - unfold register_derived, add_entry. simpl. destruct (has_class T (entries r)) eqn:Hc.
    + by destruct (proj2 (map_has_class _ _ _ _ Him) Hc) as [s ->].
    + rewrite (map_no_class _ _ _ _ Him Hc), Hnext.
      apply (add_implements f m r (Entry T name (Some B) (fresh r))); try done; simpl; try lia.
      intros B'. unfold get_derived_typeid_list. destruct (decide (Some B = Some B')) as [[= <-]|Hne].
      * by rewrite lookup_insert_eq.
      * rewrite lookup_insert_ne, app_nil_r by congruence. done.
  - unfold mgr_reg_inter, reg_inter_service, add_entry. simpl. destruct (has_class T (entries r)) eqn:Hc.
    + pose proof (choose_implements _ _ _ T Him) as Hch.
      by destruct (proj2 (map_has_class _ _ _ _ Him) Hc) as [s Hs]; rewrite Hs in *.
    + rewrite (map_no_class _ _ _ _ Him Hc). simpl. destruct Hop as [HT Hptr].
      assert (implements (ServiceFactory (emplace T (IService ptr T name) (service_map_ f))
        (emplace name T (name_map_ f)) (derived_service_map_ f) (fresh r)) m
        (Registry (entries r ++ [Entry T name None ptr]) (chosen r) (fresh r))) as Hadd.
      { apply (add_implements f m r (Entry T name None ptr)); try done. intros B. by rewrite app_nil_r. }
      rewrite Hnext. apply (choose_implements _ _ _ T) in Hadd. revert Hadd. simpl.
      rewrite emplace_new by (by apply (map_no_class _ _ _ _ Him)). by rewrite lookup_insert_eq.
  - unfold mgr_register. revert m r Him Hnext Hfresh. induction Ts as [|T Ts IH]; intros m r Him ??; [done|].
    simpl. pose proof (choose_implements _ _ _ T Him) as Him'. by apply IH; [|apply (im_next _ _ _ Him')..].
  - unfold mgr_register_names. revert m r Him Hnext Hfresh. induction names as [|n names IH]; intros m r Him ??; [done|].
    simpl. pose proof (choose_named_implements _ _ _ n Him (im_ok _ _ _ Him)) as Him'.
    by apply IH; [|apply (im_next _ _ _ Him')..].
  - split; try apply Him; simpl.
    + intros T. unfold register_all_service. case_decide as HT; [done|].
      destruct (service_map_ f !! T) eqn:Hs; [|done].
      apply mk_is_Some, (map_has_class _ _ _ _ Him), has_class_spec in Hs. set_solver.
    + intros T HT. apply has_class_spec. set_solver.
Qed.
End registry.

(** *** Lookups *)
Lemma filter_none {A} (P : A → Prop) `{∀ x, Decision (P x)} (l : list A) :
  (∀ x, x ∈ l → ¬ P x) → filter P l = [].
Proof.
  induction l as [|x l IH]; intros Hl; [done|].
  rewrite filter_cons, decide_False by (apply Hl; set_solver). apply IH. set_solver.
Qed.
Notation non_null := (λ p : Z, p ≠ 0).
Lemma first_service_head Ts m :
  first_service Ts m = default 0 (head (filter non_null ((λ T, internal_get_service T m) <$> Ts))).
Proof.
  induction Ts as [|T Ts IH]; [done|]. rewrite fmap_cons, filter_cons. simpl.
  destruct (Z.eqb_spec (internal_get_service T m) 0); case_decide; done.
Qed.
Lemma mgr_get_service_head f T m : mgr_get_service f T m = default 0 (head (mgr_get_all f T m)).
Proof.
  unfold mgr_get_service, mgr_get_all. case_bool_decide; [done|].
  rewrite fmap_cons, filter_cons, first_service_head. simpl.
  destruct (Z.eqb_spec (internal_get_service T m) 0); case_decide; done.
Qed.
Section lookups.
Context (f : service_factory) (m : service_manager) (r : registry) (Him : implements f m r).
Lemma internal_of_entry e :
  e ∈ entries r → internal_get_service (e_type e) m = if decide (e_type e ∈ chosen r) then e_obj e else 0.
Proof.
  intros He. unfold internal_get_service. rewrite (im_chosen _ _ _ Him), (map_entry _ _ _ _ Him He).
  by case_decide.
Qed.
Lemma internal_filter (l : list entry) :
  (∀ e, e ∈ l → e ∈ entries r) →
  filter non_null ((λ T, internal_get_service T m) <$> (e_type <$> l))
  = e_obj <$> filter (λ e, e_type e ∈ chosen r) l.
Proof.
  induction l as [|e l IH]; intros Hl; [done|]. rewrite !fmap_cons, !filter_cons.
  rewrite internal_of_entry by (apply Hl; set_solver).
  pose proof (im_ok _ _ _ Him) as Hok. rewrite Forall_forall in Hok.
  destruct (Hok e) as [_ Ho]; [apply Hl; set_solver|].
  destruct (decide (e_type e ∈ chosen r)).
  - rewrite decide_True by done. simpl. f_equal. apply IH. set_solver.
  - rewrite decide_False by naive_solver. apply IH. set_solver.
Qed.
Lemma direct_entries T :
  filter non_null [internal_get_service T m] =
  e_obj <$> filter (λ e, e_type e ∈ chosen r) (filter (λ e, e_type e = T) (entries r)).
Proof.
  rewrite <- internal_filter by (intros e He; apply list_elem_of_filter in He; naive_solver).
  destruct (has_class T (entries r)) eqn:Hc.
  - apply has_class_spec, list_elem_of_fmap in Hc as (e & -> & He).
    assert (filter (λ e', e_type e' = e_type e) (entries r) = [e]) as ->; [|done].
    apply list_elem_of_split in He as (l1 & l2 & Hl). rewrite Hl. pose proof (im_types _ _ _ Him) as Hnd.
    rewrite Hl, fmap_app in Hnd. apply NoDup_app in Hnd as (_ & H1 & H2). simpl in *. apply NoDup_cons in H2 as [H2 _].
    assert (∀ l, e_type e ∉ e_type <$> l → filter (λ e', e_type e' = e_type e) l = []) as Hnil.
    { intros l Hin. apply filter_none. intros x Hx Heq. apply Hin. rewrite <- Heq.
      by apply list_elem_of_fmap_2. }
    rewrite filter_app, filter_cons, decide_True by done. rewrite !Hnil; [done|done|].
    intros Hin. apply (H1 _ Hin). set_solver.
  - rewrite (filter_none _ (entries r)); simpl.
    + unfold internal_get_service. rewrite (im_chosen _ _ _ Him), (map_no_class _ _ _ _ Him Hc).
      by destruct (decide _).
    + intros e He <-. assert (e_type e ∈ e_type <$> entries r) as Hin by by apply list_elem_of_fmap_2.
      apply has_class_spec in Hin. by rewrite Hc in Hin.
Qed.
Lemma mgr_get_all_spec T : mgr_get_all f T m = spec_get_all T r.
Proof.
  assert (mgr_get_all f T m = filter non_null ((λ T, internal_get_service T m) <$> T :: get_derived_typeid_list T f)) as ->.
  { unfold mgr_get_all. case_bool_decide as Hm; [|done]. symmetry. apply filter_none.
    intros p (T' & -> & _)%list_elem_of_fmap. unfold internal_get_service. rewrite Hm, lookup_empty. auto. }
  change (T :: ?l) with ([T] ++ l). rewrite fmap_app, filter_app. unfold spec_get_all. rewrite filter_app, fmap_app.
  f_equal; [apply direct_entries|]. rewrite (im_derived _ _ _ Him).
  apply internal_filter. intros e He. apply list_elem_of_filter in He. naive_solver.
Qed.
Lemma mgr_find_named_spec name : mgr_find_named f name m = spec_find_named name r.
Proof.
  unfold mgr_find_named, spec_find_named, get_service_named, get_service_typeid, get_iservice.
  rewrite (im_names _ _ _ Him). destruct (named name (entries r)) as [e|] eqn:Hn; simpl.
  - assert (e ∈ entries r) as He.
    { unfold named in Hn. assert (e ∈ filter (λ e, e_name e = name) (entries r)) as Hin
        by (destruct (filter _ _); simplify_eq/=; set_solver). apply list_elem_of_filter in Hin. naive_solver. }
    rewrite (map_entry _ _ _ _ Him He). simpl. pose proof (im_chosen _ _ _ Him (e_type e)) as Hch.
    rewrite (map_entry _ _ _ _ Him He) in Hch.
    destruct (decide (e_type e ∈ chosen r)) as [Hc|Hc].
    + rewrite (bool_decide_true (e_type e ∈ _)) by done. rewrite Hch.
      rewrite bool_decide_false by (intros ->; by rewrite lookup_empty in Hch). by apply bool_decide_true.
    + rewrite (bool_decide_false (e_type e ∈ _)) by done. rewrite Hch.
      case_bool_decide; [done|]. by apply bool_decide_false, is_Some_None.
  - assert (service_map_ f !! 0 = None) as Hz; [|by rewrite Hz; case_bool_decide].
    apply (map_no_class _ _ _ _ Him). destruct (has_class 0 (entries r)) eqn:Hc; [|done].
    apply has_class_spec, list_elem_of_fmap in Hc as (e & He & Hin).
    pose proof (im_ok _ _ _ Him) as Hok. rewrite Forall_forall in Hok. apply Hok in Hin. lia.
Qed.
End lookups.

Lemma in_key_order_sorted {A} (m : gmap Z A) : StronglySorted Z.lt (in_key_order m).*1.
Proof.
  assert (StronglySorted key_le (in_key_order m)) as Hs.
  { apply StronglySorted_merge_sort.
    - intros p q q' H1 H2. unfold key_le in *. lia.
    - intros p q. unfold key_le. lia. }
  assert (NoDup (in_key_order m).*1) as Hnd.
  { rewrite in_key_order_perm. apply NoDup_fst_map_to_list. }
  induction Hs as [|p l _ IH Hp]; [constructor|]. rewrite fmap_cons in *. apply NoDup_cons in Hnd as [Hn Hnd].
  constructor; [by apply IH|]. apply Forall_fmap, Forall_forall. intros q Hq. rewrite Forall_forall in Hp.
  specialize (Hp q Hq). unfold key_le in Hp. simpl.
  assert (p.1 ≠ q.1); [|lia]. intros Heq. apply Hn. rewrite Heq. by apply list_elem_of_fmap_2.
Qed.

Lemma run_implements ops s r :
  Forall op_ok ops → implements s.1 s.2 r →
  implements (foldl (λ s o, svc_step o s) s ops).1 (foldl (λ s o, svc_step o s) s ops).2
    (foldl (λ r o, spec_step o r) r ops).
Proof.
  intros Hops. revert s r. induction Hops as [|o ops Ho _ IH]; intros [f m] r H0; simpl; [done|].
  by apply IH, step_implements.
Qed.

(** ** Theorems *)
Section theorems.
Context (has : Z → svc_fn → bool) (answers : list svc_call → Z → svc_fn → bool).

(** The services of a manager are initialised, started and reloaded one after the
    other in the order of their type ids, each that has the function once: all of them
    and the answer is [true], or up to and with the first that answers [false], which
    makes the answer [false]. Nothing is undone then: the calls made stay. *)
Theorem lifecycle_in_order (fn : svc_fn) (m : service_manager) (tr : list svc_call) :
  StronglySorted Z.lt (in_key_order m).*1 ∧
  ∃ l1 l2 : list iservice, services m = l1 ++ l2 ∧
    (all_of has answers fn (services m) tr).2 = tr ++ calls_of has fn l1 ∧
    (∀ l0 s l3, l1 = l0 ++ s :: l3 →
       answer has answers fn (tr ++ calls_of has fn l0) s =
         (all_of has answers fn (services m) tr).1 || bool_decide (l3 ≠ [])) ∧
    ((all_of has answers fn (services m) tr).1 = true → l2 = []) ∧
    ((all_of has answers fn (services m) tr).1 = false → l1 ≠ []).
Proof. split; [apply in_key_order_sorted|apply all_of_prefix]. Qed.
End theorems.

(** C36: A factory and a manager, whatever is registered and chosen, keep a registry of
    the classes registered, each once: a manager finds by type the chosen services of
    the class itself and then those registered with it as their base, in the order they
    were registered, [get_service] the first of them; by name it finds the first class
    registered with the name, if chosen; and the factory's destructor deletes each
    object once. *)
Theorem services_implement_registry (ops : list svc_op) (f : service_factory) (m : service_manager)
    (r : registry) :
  Forall op_ok ops → foldl (λ s o, svc_step o s) (factory_new, ∅) ops = (f, m) →
  foldl (λ r o, spec_step o r) registry_new ops = r →
  (∀ T, mgr_get_all f T m = spec_get_all T r ∧
        mgr_get_service f T m = default 0 (head (spec_get_all T r)) ∧
        mgr_find f T m = bool_decide (spec_get_all T r ≠ [])) ∧
  (∀ name, mgr_find_named f name m = spec_find_named name r) ∧
  factory_destroy f ≡ₚ e_obj <$> entries r.
Proof.
  intros Hops Hf Hr.
  assert (implements f m r) as Him.
  { subst r. pose proof (run_implements ops (factory_new, ∅) registry_new Hops) as Hrun.
    rewrite Hf in Hrun. apply Hrun. split; simpl; done || constructor || set_solver. }
  split_and!.
  - intros T. pose proof (mgr_get_all_spec f m r Him T) as Ha. unfold mgr_find.
    rewrite mgr_get_service_head, Ha. split_and!; [done|done|].
    destruct (spec_get_all T r) as [|p l] eqn:Hl; [by rewrite bool_decide_false by naive_solver|].
    rewrite bool_decide_true by done. simpl. apply negb_true_iff, Z.eqb_neq.
    assert (p ∈ spec_get_all T r) as Hp by (rewrite Hl; set_solver). unfold spec_get_all in Hp.
    apply list_elem_of_fmap in Hp as (e & -> & He). apply list_elem_of_filter in He as [_ He].
    pose proof (im_ok _ _ _ Him) as Hok. rewrite Forall_forall in Hok. apply Hok.
    apply elem_of_app in He as [He|He]; apply list_elem_of_filter in He; naive_solver.
  - intros name. by apply mgr_find_named_spec.
  - unfold factory_destroy. rewrite in_key_order_perm, (im_map _ _ _ Him), map_to_list_to_map.
    + by rewrite <- list_fmap_compose.
    + rewrite <- list_fmap_compose. apply (im_types _ _ _ Him).
Qed.

(** ** What a game server makes of its services *)
Section server.
Context (has : Z → svc_fn → bool) (answers : list svc_call → Z → svc_fn → bool).
Inductive server_op := Sv_start | Sv_stop | Sv_reset.
Definition server_step (s : server_services) (o : server_op) : server_services :=
  match o with
  | Sv_start => server_start has answers s
  | Sv_stop => server_stop has answers s
  | Sv_reset => server_reset has answers s
  end.
Lemma calls_of_fn (fn fn' : svc_fn) (obj : Z) (l : list iservice) :
  Called obj fn ∈ calls_of has fn' l → fn = fn'.
Proof. unfold calls_of. intros (s & Heq & _)%list_elem_of_fmap. by simplify_eq. Qed.
Lemma all_of_fn (fn fn' : svc_fn) (obj : Z) (l : list iservice) (tr : list svc_call) :
  Called obj fn ∈ (all_of has answers fn' l tr).2 → Called obj fn ∈ tr ∨ fn = fn'.
Proof.
  destruct (all_of_prefix has answers fn' l tr) as (l1 & l2 & _ & -> & _).
  intros [Htr|Hl]%elem_of_app; [by left|]. right. by eapply calls_of_fn.
Qed.
Lemma for_all_fn (fn fn' : svc_fn) (obj : Z) (l : list iservice) (tr : list svc_call) :
  Called obj fn ∈ for_all has answers fn' l tr → Called obj fn ∈ tr ∨ fn = fn'.
Proof. rewrite for_all_calls. intros [Htr|Hl]%elem_of_app; [by left|]. right. by eapply calls_of_fn. Qed.

(** No service of a game server is ever given the world: the manager hands it on when
    it has none yet. *)
Theorem services_never_see_world (config_type config : Z) (names : option (list string)) (f : service_factory)
    (ops : list server_op) (obj : Z) :
  Called obj Fn_set_world ∉
    sv_trace (foldl server_step (server_init has answers config_type config names (ServerServices f ∅ [])) ops).
Proof.
  assert (∀ s, Called obj Fn_set_world ∉ sv_trace s → Called obj Fn_set_world ∉ sv_trace (foldl server_step s ops)) as Hrun.
  { induction ops as [|o ops IH]; intros s Hs; [done|]. apply IH. intros Hin. apply Hs.
    destruct o; [apply all_of_fn in Hin|apply for_all_fn in Hin..]; naive_solver. }
  apply Hrun. unfold server_init. destruct (mgr_reg_inter _ _ _ _ _) as [f' m']. simpl.
  unfold init_service. intros [Hin|Hin]%all_of_fn; [|done].
  unfold service_set_world in Hin. rewrite for_all_calls in Hin. by apply elem_of_nil in Hin.
Qed.
(** What it would find there: the manager is put under another name. *)
Theorem base_service_finds_no_manager {Float Double Func : Type} (server mgr : Z) (b : base_service) :
  bs_service_mgr (base_set_world (set_named_object "svc_manager" mgr (set_named_object "game_server" server
    (@world_new Float Double Func))) b) = 0.
Proof. reflexivity. Qed.
(** A second server of the process gets the configuration service of the first. *)
Theorem second_config_is_ignored (T ptr ptr' : Z) (name name' : string) (f : service_factory) :
  service_map_ f !! T = None →
  val_ (reg_inter_service T ptr' name' (reg_inter_service T ptr name f).2).1 = ptr.
Proof.
  intros Hf. unfold reg_inter_service. rewrite Hf. simpl. rewrite emplace_new by done.
  by rewrite lookup_insert_eq.
Qed.
End server.

(** A module that was registered is created at most once, given the world, and becomes
    the one whose services the world shows. *)
Lemma init_module_defined (has : Z → svc_fn → bool) (answers : list svc_call → Z → svc_fn → bool)
    (f : service_factory) (name : string) (T : Z) (s : module_manager) :
  reg_modules_ s !! name = Some T →
  ∃ r s', init_module has answers f name s = Def (r, s') ∧
    modules_ s' !! name = Some (instance_get T (instances s)).1 ∧
    world_service_mgr s' = (instance_get T (instances s)).1 ∧
    instance_get T (instances s') = ((instance_get T (instances s)).1, instances s').
Proof.
  intros Hr. unfold init_module. rewrite Hr. unfold instance_get.
  destruct (type_to_objs_ (instances s) !! T) as [o|] eqn:HT; unfold module_init; simpl;
    rewrite lookup_insert_eq; simpl; destruct (init_service _ _ _ _) as [r tr]; simpl;
    eexists _, _; split_and!; try done; simpl; rewrite ?lookup_insert_eq, ?HT; done.
Qed.

(** *** Runs *)
Definition sample_ops : list svc_op :=
  [S_register 3 "room"; S_derived 7 4 "player"; S_derived 6 4 "npc"; S_register 8 "room"; S_derived 3 4 "late";
   S_inter 9 100 "config"; S_choose [6; 12]; S_choose_names ["room"; "nobody"; "player"]].
Lemma services_implement_registry_witness :
  mgr_get_all (foldl (λ s o, svc_step o s) (factory_new, ∅) sample_ops).1 4
    (foldl (λ s o, svc_step o s) (factory_new, ∅) sample_ops).2 = [2; 3] ∧
  spec_get_all 4 (foldl (λ r o, spec_step o r) registry_new sample_ops) = [2; 3] ∧
  mgr_find_named (foldl (λ s o, svc_step o s) (factory_new, ∅) sample_ops).1 "config"
    (foldl (λ s o, svc_step o s) (factory_new, ∅) sample_ops).2 = true.
Proof.
  destruct (services_implement_registry sample_ops (foldl (λ s o, svc_step o s) (factory_new, ∅) sample_ops).1
    (foldl (λ s o, svc_step o s) (factory_new, ∅) sample_ops).2
    (foldl (λ r o, spec_step o r) registry_new sample_ops)) as (Hall & Hnamed & _);
    [|by destruct (foldl _ _ _)|done|].
  - unfold sample_ops. repeat constructor; simpl; lia.
  - split_and!; [rewrite (proj1 (Hall 4)); vm_compute; reflexivity|vm_compute; reflexivity|].
    rewrite Hnamed. vm_compute. reflexivity.
Defined.
(** A game server goes on when a service fails to initialise: the services behind it
    are never initialised, and all are started and stopped. *)
Example failed_init_is_ignored :
  let f := register_derived 6 4 "npc" (register_derived 7 4 "player" (register_service 3 "room" factory_new)) in
  sv_trace (foldl (server_step (λ T _, negb (T =? 5)) (λ _ obj _, negb (obj =? 1)))
    (server_init (λ T _, negb (T =? 5)) (λ _ obj _, negb (obj =? 1)) 5 100 None (ServerServices f ∅ [])) [Sv_start; Sv_stop])
  = [Called 1 Fn_init; Called 1 Fn_start; Called 1 Fn_stop; Called 3 Fn_stop; Called 2 Fn_stop].
Proof. vm_compute. reflexivity. Qed.
(** A class registered without its base is never found by the base. *)
Example base_of_second_registration_is_lost :
  get_derived_typeid_list 4 (register_derived 3 4 "room" (register_service 3 "room" factory_new)) = [].
Proof. vm_compute. reflexivity. Qed.
