(* ===== verification/Cmder.v ===== *)
(** * Commands and command scripts ([network/cmder/], [base/waitable_object.hpp])

    A command manager looks a line's first word up among the aliases and the
    commands and runs the command, repeating and retrying it if it is of that kind;
    an executor runs the nodes of a script, each a text of several lines, and goes
    to the node a success or a failure names.  Splitting a line into words, trimming
    and searching are Boost's, parsing the options and what a command does are the
    command's: parameters here.  A function reads the events so far and adds its
    own; [None] is an exception. *)
From stdpp Require Import base option list numbers gmap strings sorting.
From S2P Require Import Prelude.
Local Open Scope Z_scope.

(** ** Definitions *)
Inductive cmd_event :=
| Ev_process (cmd : string) (args : list string)
| Ev_help (cmd : string)
| Ev_invalid
| Ev_sleep (milliseconds : Z).
#[export] Instance cmd_event_eq_dec : EqDecision cmd_event.
Proof. solve_decision. Defined.
Notation cmd_trace := (list cmd_event).
Definition cmd (A : Type) : Type := cmd_trace → cmd_trace * option A.
#[export] Instance cmd_ret : MRet cmd := λ A a tr, (tr, Some a).
#[export] Instance cmd_bind : MBind cmd := λ A B f m tr,
  match m tr with (tr, Some a) => f a tr | (tr, None) => (tr, None) end.
Definition log_event (e : cmd_event) : cmd unit := λ tr, (tr ++ [e], Some tt).
Definition throw {A} : cmd A := λ tr, (tr, None).
Definition sleep (milliseconds : Z) : cmd unit := log_event (Ev_sleep milliseconds).

(** [base_repeat_cmder]'s options, after [reset_value]. *)
Record repeat_options := RepeatOptions {
  delay : Z; interval : Z; times : Z;
  retryWhenFailed : bool; retryInterval : Z; retryTimes : Z
}.
Definition reset_value : repeat_options := RepeatOptions 0 0 1 false 1000 1.

(** [cmd_node] *)
Record cmd_node := CmdNode {
  cmdStr : string;
  node_delay : Z; node_interval : Z; node_times : Z;
  node_retryWhenFailed : bool; node_retryInterval : Z; node_retryTimes : Z;
  node_name : string;
  nextCmdWhenFailed : string;
  nextCmd : string
}.

Section cmder.
(** Boost. *)
Context (trim : string → string) (find_first : string → string → option nat)
        (split_any_of : string → string → list string) (split_unix : string → list string).
(** The commands: whether a command repeats, the options it finds in its arguments
    ([None]: the parser throws; with [help] among them or not), what it does. *)
Context (repeats : string → bool) (parse : string → list string → option (bool * repeat_options))
        (process : cmd_trace → string → list string → option Z).

(** *** Repeating and retrying *)
Definition run_process (name : string) (args : list string) : cmd Z := λ tr,
  (tr ++ [Ev_process name args], process tr name args).
(** The loop has made [current_times] attempts, the last with result [ret]; [fuel]
    is what [retryTimes] leaves. *)
Fixpoint retry_loop (fuel : nat) (name : string) (args : list string) (o : repeat_options)
    (current_times ret : Z) : cmd Z :=
  match fuel with
  | O => mret ret
  | S fuel =>
      if retryWhenFailed o && negb (ret =? 0) && (current_times <? retryTimes o) then
        _ ← (if 0 <? retryInterval o then sleep (retryInterval o) else mret tt);
        ret ← run_process name args;
        retry_loop fuel name args o (current_times + 1) ret
      else mret ret
  end.
Definition retry_execute (name : string) (args : list string) (o : repeat_options) : cmd Z :=
  ret ← run_process name args;
  retry_loop (Z.to_nat (retryTimes o)) name args o 1 ret.
(** [n] more of [total] times. *)
Fixpoint repeat_loop (n : nat) (body : cmd Z) (interval : Z) : cmd Z :=
  match n with
  | O => mret 0
  | S n =>
      ret ← body;
      if negb (ret =? 0) then mret ret
      else
        _ ← (match n with S _ => if 0 <? interval then sleep interval else mret tt | O => mret tt end);
        repeat_loop n body interval
  end.
Definition repeat_execute (name : string) (args : list string) (o : repeat_options) : cmd Z :=
  _ ← (if 0 <? delay o then sleep (delay o) else mret tt);
  repeat_loop (Z.to_nat (times o)) (retry_execute name args o) (interval o).
(** [base_cmder::handle_input] and [execute] *)
Definition cmder_handle_input (name : string) (args : list string) : cmd Z :=
  match parse name args with
  | None => throw
  | Some (true, _) => _ ← log_event (Ev_help name); mret 0
  | Some (false, o) => if repeats name then repeat_execute name args o else run_process name args
  end.

(** *** [icmder_manager] *)
Record icmder_manager := ICmderManager {
  cmders_ : gset string;
  alias_ : gmap string string
}.
Definition register_cmder (name : string) (m : icmder_manager) : icmder_manager :=
  ICmderManager ({[name]} ∪ cmders_ m) (alias_ m).
Definition register_alias (alias : gmap string string) (m : icmder_manager) : icmder_manager :=
  ICmderManager (cmders_ m) alias.
(** [string_util::trim_first] *)
Definition trim_first (str first_str : string) : string :=
  match find_first str first_str with Some i => String.substring 0 i str | None => str end.
Definition process_alias (m : icmder_manager) (args : list string) : list string :=
  match args with
  | [] => []
  | a :: rest =>
      match alias_ m !! a with
      | None => args
      | Some alias_str => split_unix (trim_first alias_str "#") ++ rest
      end
  end.
(** The message for an unknown command is formatted without its argument, which
    throws. *)
Definition internal_handle_input (m : icmder_manager) (args : list string) : cmd Z :=
  match args with
  | [] => _ ← log_event Ev_invalid; mret 1
  | name :: args => if decide (name ∈ cmders_ m) then cmder_handle_input name args else throw
  end.
Definition handle_args (m : icmder_manager) (args : list string) : cmd Z :=
  internal_handle_input m (process_alias m args).
Definition handle_input (m : icmder_manager) (input : string) : cmd Z :=
  let strs := split_unix input in
  if bool_decide (strs = []) || bool_decide (strs = [""%string]) then mret 1
  else handle_args m strs.

(** *** [execute_cmder_service] *)
Definition is_empty_or_white_spate (str : string) : bool :=
  bool_decide (str = ""%string) || bool_decide (trim str = ""%string).
Definition execute_cmd_one_line (m : icmder_manager) (cmd_str : string) : cmd Z :=
  let cmd_str := trim (trim_first cmd_str "#") in
  if bool_decide (cmd_str = ""%string) then mret 0
  else if String.prefix "#" cmd_str then mret 0
  else handle_input m cmd_str.
Fixpoint execute_lines (m : icmder_manager) (strs : list string) : cmd Z :=
  match strs with
  | [] => mret 0
  | str :: strs =>
      ret ← execute_cmd_one_line m str;
      if negb (ret =? 0) then mret ret else execute_lines m strs
  end.
Definition crlf : string := String (Ascii.ascii_of_nat 13) (String (Ascii.ascii_of_nat 10) EmptyString).
Definition execute_cmd_string (m : icmder_manager) (cmd_str : string) : cmd Z :=
  execute_lines m (split_any_of (trim cmd_str) crlf).
Definition repeat_execute_cmd_node (m : icmder_manager) (node : cmd_node) : cmd Z :=
  _ ← (if 0 <? node_delay node then sleep (node_delay node) else mret tt);
  repeat_loop (Z.to_nat (node_times node)) (execute_cmd_string m (cmdStr node)) (node_interval node).

Record executor := Executor { cmds : list cmd_node; cmd_map_ : gmap string Z; cur_cmd_index_ : Z }.
(** [init]: of two nodes with a name, the later. *)
Fixpoint index_nodes (i : Z) (nodes : list cmd_node) (m : gmap string Z) : gmap string Z :=
  match nodes with
  | [] => m
  | n :: nodes =>
      index_nodes (i + 1) nodes (if bool_decide (node_name n = ""%string) then m else <[node_name n := i]> m)
  end.
Definition executor_init (nodes : list cmd_node) : executor := Executor nodes (index_nodes 0 nodes ∅) 0.
Definition get_next_cmd_node_index (node : cmd_node) (is_success : bool) (x : executor) : Z :=
  let next := if is_success then nextCmd node else nextCmdWhenFailed node in
  if bool_decide (next = ""%string) && is_success then cur_cmd_index_ x + 1
  else if negb (bool_decide (next = ""%string)) then default (-1) (cmd_map_ x !! next)
  else -1.
Definition node_result (m : icmder_manager) (node : cmd_node) : cmd Z :=
  if negb (is_empty_or_white_spate (cmdStr node)) && (0 <? node_times node)
  then repeat_execute_cmd_node m node else mret 0.
Definition execute_node (m : icmder_manager) (node : cmd_node) (x : executor) : cmd (Z * executor) :=
  ret ← node_result m node;
  mret (ret, Executor (cmds x) (cmd_map_ x) (get_next_cmd_node_index node (ret =? 0) x)).
(** The node the index is at, if any. *)
Definition node_at (x : executor) : option cmd_node :=
  if 0 <=? cur_cmd_index_ x then cmds x !! Z.to_nat (cur_cmd_index_ x) else None.
(** [execute], which has run a node with result [ret]; the outer [None] is a loop
    that has not ended within the fuel. *)
Fixpoint execute (fuel : nat) (m : icmder_manager) (ret : Z) (x : executor) (tr : cmd_trace)
    : option (cmd_trace * option (Z * executor)) :=
  match node_at x with
  | None => Some (tr, Some (ret, x))
  | Some node =>
      match fuel with
      | O => None
      | S fuel =>
          match execute_node m node x tr with
          | (tr, None) => Some (tr, None)
          | (tr, Some (ret, x)) => execute fuel m ret x tr
          end
      end
  end.

(** ** What a script runs *)
(** [runs m ret x tr path tr' r]: with [ret] the last result, the executor goes
    through the nodes of [path] and ends with [r]. *)
Inductive runs (m : icmder_manager)
    : Z → executor → cmd_trace → list Z → cmd_trace → option (Z * executor) → Prop :=
| runs_stop ret x tr : node_at x = None → runs m ret x tr [] tr (Some (ret, x))
| runs_throw ret x tr node tr' :
    node_at x = Some node → execute_node m node x tr = (tr', None) →
    runs m ret x tr [cur_cmd_index_ x] tr' None
| runs_node ret x tr node ret1 x1 tr1 path tr' r :
    node_at x = Some node → execute_node m node x tr = (tr1, Some (ret1, x1)) →
    runs m ret1 x1 tr1 path tr' r → runs m ret x tr (cur_cmd_index_ x :: path) tr' r.
Lemma execute_runs fuel m ret x tr tr' r :
  execute fuel m ret x tr = Some (tr', r) →
  ∃ path, runs m ret x tr path tr' r ∧ (length path ≤ fuel)%nat.
Proof.
  revert ret x tr. induction fuel as [|fuel IH]; intros ret x tr; simpl.
  - destruct (node_at x) eqn:Hn; [done|]. intros [= <- <-]. exists []. split; [by constructor|simpl; lia].
  - destruct (node_at x) as [node|] eqn:Hn; [|intros [= <- <-]; exists []; split; [by constructor|simpl; lia]].
    destruct (execute_node m node x tr) as [tr1 [[ret1 x1]|]] eqn:He.
    + intros (path & Hp & Hl)%IH. exists (cur_cmd_index_ x :: path). split; [by eapply runs_node|simpl; lia].
    + intros [= <- <-]. exists [cur_cmd_index_ x]. split; [by eapply runs_throw|simpl; lia].
Qed.
Lemma execute_node_keeps m node x tr tr' ret x' :
  execute_node m node x tr = (tr', Some (ret, x')) →
  cmds x' = cmds x ∧ cmd_map_ x' = cmd_map_ x ∧ cur_cmd_index_ x' = get_next_cmd_node_index node (ret =? 0) x.
Proof.
  unfold execute_node, mbind, cmd_bind, mret, cmd_ret. intros He.
  destruct (node_result m node tr) as [? []]; simplify_eq; done.
Qed.

(** A node goes forward: the nodes it names come after it. *)
Definition forward (x : executor) : Prop :=
  ∀ (i : nat) node next j, cmds x !! i = Some node → (next = nextCmd node ∨ next = nextCmdWhenFailed node) →
    next ≠ ""%string → cmd_map_ x !! next = Some j → Z.of_nat i < j.
Lemma node_at_Some x node :
  node_at x = Some node → 0 <= cur_cmd_index_ x ∧ cmds x !! Z.to_nat (cur_cmd_index_ x) = Some node.
Proof. unfold node_at. destruct (Z.leb_spec 0 (cur_cmd_index_ x)); [done|done]. Qed.
Lemma forward_next x node success :
  forward x → node_at x = Some node →
  get_next_cmd_node_index node success x < 0 ∨ cur_cmd_index_ x < get_next_cmd_node_index node success x.
Proof.
  intros Hf [H0 Hn]%node_at_Some. unfold get_next_cmd_node_index.
  set (next := if success then nextCmd node else nextCmdWhenFailed node).
  destruct (decide (next = ""%string)) as [He|He].
  - rewrite bool_decide_true by done. destruct success; simpl; lia.
  - rewrite bool_decide_false by done. simpl. destruct (cmd_map_ x !! next) as [j|] eqn:Hj; simpl; [|lia].
    right. assert (Z.of_nat (Z.to_nat (cur_cmd_index_ x)) < j); [|lia].
    eapply Hf; [exact Hn| |exact He|exact Hj]. subst next. destruct success; auto.
Qed.
Lemma forward_ends m fuel ret x tr :
  forward x → (length (cmds x) ≤ fuel + Z.to_nat (cur_cmd_index_ x))%nat ∨ cur_cmd_index_ x < 0 →
  is_Some (execute fuel m ret x tr).
Proof.
  revert ret x tr. induction fuel as [|fuel IH]; intros ret x tr Hf Hl; simpl; destruct (node_at x) as [node|] eqn:Hn; eauto.
  - apply node_at_Some in Hn as [H0 Hn%lookup_lt_Some]. lia.
  - destruct (execute_node m node x tr) as [tr1 [[ret1 x1]|]] eqn:He; eauto.
    pose proof (forward_next x node (ret1 =? 0) Hf Hn) as Hnext.
    apply execute_node_keeps in He as (Hc & Hm & Hi). apply node_at_Some in Hn as [H0 Hn%lookup_lt_Some].
    apply IH; [unfold forward in *; rewrite Hc, Hm; exact Hf|]. rewrite Hc, Hi. lia.
Qed.
Lemma runs_sorted m ret x tr path tr' r :
  runs m ret x tr path tr' r → forward x →
  StronglySorted Z.lt path ∧ Forall (λ i, cur_cmd_index_ x <= i ∧ 0 <= i < Z.of_nat (length (cmds x))) path.
Proof.
  intros Hr Hf. assert (∀ x node, node_at x = Some node → 0 <= cur_cmd_index_ x < Z.of_nat (length (cmds x))) as Hin.
  { intros y node [H0 Hn%lookup_lt_Some]%node_at_Some. lia. }
  induction Hr as [ret x tr _|ret x tr node tr' Hn _|ret x tr node ret1 x1 tr1 path tr' r Hn He Hr IH].
  - split; constructor.
  - apply Hin in Hn. split; [repeat constructor|constructor; [lia|constructor]].
  - pose proof (forward_next x node (ret1 =? 0) Hf Hn) as Hnext. pose proof (Hin _ _ Hn) as H0.
    apply execute_node_keeps in He as (Hc & Hm & Hi).
    destruct IH as [Hs Ha]; [unfold forward in *; rewrite Hc, Hm; exact Hf|]. rewrite Hc, Hi in Ha.
    assert (path = [] ∨ cur_cmd_index_ x < cur_cmd_index_ x1) as [->|Hlt].
    { rewrite Hi. destruct Hnext as [Hneg|]; [left|by right].
      inversion Hr as [|? ? ? n' ? Hn'|? ? ? n' ? ? ? ? ? ? Hn']; subst; [done|..];
        apply node_at_Some in Hn' as [Hn' _]; lia. }
    + split; [repeat constructor|constructor; [lia|constructor]].
    + rewrite <- Hi in Ha. split; constructor; [done| |lia|].
      * eapply Forall_impl; [exact Ha|]. simpl. intros i. rewrite Hi. lia.
      * eapply Forall_impl; [exact Ha|]. simpl. intros i. rewrite Hi. lia.
Qed.

(** ** Scripts without jumps *)
Definition plain (node : cmd_node) : Prop := nextCmd node = ""%string ∧ nextCmdWhenFailed node = ""%string.
(** One node after the other until one fails. *)
Fixpoint run_nodes (m : icmder_manager) (ret : Z) (nodes : list cmd_node) : cmd Z :=
  match nodes with
  | [] => mret ret
  | n :: nodes => ret ← node_result m n; if ret =? 0 then run_nodes m ret nodes else mret ret
  end.
Lemma execute_stopped fuel m ret x tr :
  node_at x = None → execute fuel m ret x tr = Some (tr, Some (ret, x)).
Proof. intros Hn. destruct fuel; simpl; by rewrite Hn. Qed.
Lemma execute_plain m nodes pre post names ret tr :
  nodes = pre ++ post → Forall plain post →
  ∃ k, execute (length post) m ret (Executor nodes names (Z.of_nat (length pre))) tr =
    Some ((run_nodes m ret post tr).1, (λ ret, (ret, Executor nodes names k)) <$> (run_nodes m ret post tr).2).
Proof.
  intros -> Hp. revert pre ret tr. induction Hp as [|n post [Hn Hf] Hp IH]; intros pre ret tr.
  - exists (Z.of_nat (length pre)). rewrite execute_stopped; [done|].
    unfold node_at. simpl. rewrite (proj2 (Z.leb_le _ _)), Nat2Z.id, app_nil_r by lia.
    by apply lookup_ge_None_2.
  - simpl length. simpl execute.
    assert (node_at (Executor (pre ++ n :: post) names (Z.of_nat (length pre))) = Some n) as ->.
    { unfold node_at. simpl. rewrite (proj2 (Z.leb_le _ _)), Nat2Z.id by lia. by apply list_lookup_middle. }
    unfold execute_node. simpl run_nodes. unfold mbind, cmd_bind, mret, cmd_ret.
    destruct (node_result m n tr) as [tr1 [ret1|]]; [|by exists 0]. simpl cmds. simpl cmd_map_.
    unfold get_next_cmd_node_index. rewrite Hn, Hf. simpl cur_cmd_index_.
    destruct (ret1 =? 0); simpl.
    + destruct (IH (pre ++ [n]) ret1 tr1) as [k Hk]. exists k. rewrite <- app_assoc in Hk.
      replace (Z.of_nat (length pre) + 1) with (Z.of_nat (length (pre ++ [n]))) by (rewrite length_app; simpl; lia).
      exact Hk.
    + exists (-1). by rewrite execute_stopped.
Qed.

(** ** Attempts *)
Definition is_attempt (e : cmd_event) : bool := match e with Ev_process _ _ => true | _ => false end.
Definition attempts (evs : cmd_trace) : Z := Z.of_nat (sum_list_with (λ e, Nat.b2n (is_attempt e)) evs).
Lemma attempts_app evs evs' : attempts (evs ++ evs') = attempts evs + attempts evs'.
Proof. unfold attempts. rewrite sum_list_with_app. lia. Qed.
Lemma retry_loop_attempts fuel name args o current_times ret tr tr' r :
  retryTimes o - current_times <= Z.of_nat fuel → 
  retry_loop fuel name args o current_times ret tr = (tr', r) →
  ∃ evs, tr' = tr ++ evs ∧ attempts evs <= 0 `max` (retryTimes o - current_times) ∧
    (retryWhenFailed o = false ∨ ret = 0 → evs = [] ∧ r = Some ret) ∧
    (∀ v, r = Some v → v = 0 ∨ retryWhenFailed o = false ∨ attempts evs = 0 `max` (retryTimes o - current_times)).
Proof.
  revert current_times ret tr. induction fuel as [|fuel IH]; intros n ret tr Hfuel.
  { intros [= <- <-]. exists []. rewrite app_nil_r. unfold attempts. simpl. split_and!; try done; [lia|].
    intros v _. right. right. lia. }
  simpl. destruct (retryWhenFailed o && negb (ret =? 0) && (n <? retryTimes o)) eqn:Hc.
  - apply andb_true_iff in Hc as [[Hw Hr]%andb_true_iff Hn%Z.ltb_lt].
    unfold mbind, cmd_bind, run_process. intros Hl.
    set (tr1 := if 0 <? retryInterval o then tr ++ [Ev_sleep (retryInterval o)] else tr).
    assert (((if 0 <? retryInterval o then sleep (retryInterval o) else mret tt) : cmd unit) tr = (tr1, Some tt)) as Hs
      by (subst tr1; by destruct (0 <? retryInterval o)).
    rewrite Hs in Hl. clear Hs. assert (∃ sl, tr1 = tr ++ sl ∧ attempts sl = 0) as (sl & -> & Hsl).
    { subst tr1. destruct (0 <? retryInterval o); [by exists [Ev_sleep (retryInterval o)]|exists []; by rewrite app_nil_r]. }
    destruct (process (tr ++ sl) name args) as [ret1|].
    + apply IH in Hl as (evs & -> & Ha & _ & Hv); [|lia].
      exists (sl ++ [Ev_process name args] ++ evs).
      split; [by rewrite <- !app_assoc|]. rewrite !attempts_app, Hsl.
      change (attempts [Ev_process name args]) with 1. split_and!; [lia| |].
      * intros [Hw'|Hr']; [congruence|]. subst. done.
      * intros v Hv'. destruct (Hv v Hv') as [?|[?|Heq]]; [by left|by right; left|right; right; lia].
    + injection Hl as <- <-. exists (sl ++ [Ev_process name args]). rewrite <- app_assoc. split; [done|].
      rewrite attempts_app, Hsl. change (attempts [Ev_process name args]) with 1. split_and!; [lia| |done].
      intros [Hw'|Hr']; [congruence|]. subst. done.
  - intros [= <- <-]. exists []. rewrite app_nil_r. unfold attempts. simpl. split_and!; try done; [lia|].
    intros v [= <-]. destruct (retryWhenFailed o); simpl in *; [|auto]. destruct (Z.eqb_spec ret 0); [auto|].
    simpl in Hc. apply Z.ltb_ge in Hc. right. right. lia.
Qed.

(** ** Theorems *)
(** C39: A script whose nodes name only nodes behind them ends, after at most one run of
    each node: the executor goes through the nodes of a strictly increasing path and
    stops at the end, at a name that is unknown, at a failure without a node for it, or
    at an exception. *)
Theorem forward_script_terminates m nodes tr :
  forward (executor_init nodes) →
  ∃ tr' r path, execute (length nodes) m 0 (executor_init nodes) tr = Some (tr', r) ∧
    runs m 0 (executor_init nodes) tr path tr' r ∧
    StronglySorted Z.lt path ∧ Forall (λ i, 0 <= i < Z.of_nat (length nodes)) path.
Proof.
  intros Hf. destruct (forward_ends m (length nodes) 0 (executor_init nodes) tr Hf) as [[tr' r] He]; [left; simpl; lia|].
  destruct (execute_runs _ _ _ _ _ _ _ He) as (path & Hp & _).
  destruct (runs_sorted _ _ _ _ _ _ _ Hp Hf) as [Hs Ha].
  exists tr', r, path. split_and!; [done|done|done|]. eapply Forall_impl; [exact Ha|]. simpl. lia.
Qed.

(** C40: A script whose nodes name no others is run as a sequence: node after node until
    one fails or throws, with its result. *)
Theorem plain_script_in_order m nodes tr :
  Forall plain nodes →
  ∃ k, execute (length nodes) m 0 (executor_init nodes) tr =
    Some ((run_nodes m 0 nodes tr).1,
          (λ ret, (ret, Executor nodes (cmd_map_ (executor_init nodes)) k)) <$> (run_nodes m 0 nodes tr).2).
Proof. intros Hp. by apply (execute_plain m nodes [] nodes). Qed.

(** C0. A command that is retried is attempted at least once and at most [retryTimes]
    times, once if it is not to be retried; it fails only with the result of a last
    attempt: of the only one, or of the last one allowed. *)
Theorem retry_attempts_bounded name args o tr tr' r :
  retry_execute name args o tr = (tr', r) →
  ∃ evs, tr' = tr ++ evs ∧ 1 <= attempts evs <= 1 `max` retryTimes o ∧
    (retryWhenFailed o = false → attempts evs = 1) ∧
    (∀ ret, r = Some ret → ret ≠ 0 → retryWhenFailed o = true → attempts evs = 1 `max` retryTimes o).
Proof.
  unfold retry_execute, mbind, cmd_bind, run_process. destruct (process tr name args) as [ret|].
  - intros (evs & -> & Ha & Hn & Hv)%retry_loop_attempts; [|lia].
    exists (Ev_process name args :: evs). rewrite <- app_assoc. split; [done|].
    change (Ev_process name args :: evs) with ([Ev_process name args] ++ evs).
    rewrite attempts_app. change (attempts [Ev_process name args]) with 1. split_and!.
    + unfold attempts. lia.
    + lia.
    + intros Hw. destruct Hn as [-> _]; [by left|]. done.
    + intros v Hr Hv0 Hw. destruct (Hv v Hr) as [?|[?|Heq]]; [done|congruence|lia].
  - intros [= <- <-]. exists [Ev_process name args]. split_and!; done || (change (attempts [_]) with 1; lia).
Qed.

(** An input without words is answered with 1, a failure, although the code returns [true]. *)
Theorem empty_input_fails m input tr : split_unix input = [] → handle_input m input tr = (tr, Some 1).
Proof. intros Hi. unfold handle_input. by rewrite Hi. Qed.
Theorem unknown_command_throws m name args tr :
  name ∉ cmders_ m → internal_handle_input m (name :: args) tr = (tr, None).
Proof. intros Hn. unfold internal_handle_input. by rewrite decide_False. Qed.
(** The retry fields of a node change nothing. *)
Theorem node_retry_is_ignored m s d i t w ri rt w' ri' rt' n f nx x :
  execute_node m (CmdNode s d i t w ri rt n f nx) x = execute_node m (CmdNode s d i t w' ri' rt' n f nx) x.
Proof. done. Qed.
End cmder.

(** *** Runs *)
(** Words and lines of one item; the command "no" fails, "again" fails twice. *)
Definition sample_find (str first_str : string) : option nat := String.index 0 first_str str.
Definition sample_process (tr : cmd_trace) (name : string) (args : list string) : option Z :=
  Some (if bool_decide (name = "no"%string) then 2
        else if bool_decide (name = "again"%string) then if (length tr <? 5)%nat then 1 else 0 else 0).
Definition sample_parse (name : string) (args : list string) : option (bool * repeat_options) :=
  Some (false, RepeatOptions 0 0 1 true 10 3).
Definition sample_manager : icmder_manager := ICmderManager {["ok"; "no"; "again"]} {["o" := "ok#comment"]}.
Definition sample_node (str name failed next : string) (times : Z) : cmd_node :=
  CmdNode str 0 7 times false 0 0 name failed next.
Definition sample_execute (nodes : list cmd_node) : option (cmd_trace * option (Z * executor)) :=
  execute id sample_find (λ s _, [s]) (λ s, [s]) (λ name, bool_decide (name = "again"%string)) sample_parse
    sample_process (length nodes) sample_manager 0 (executor_init nodes) [].
Definition jumping : list cmd_node :=
  [sample_node "o" "" "" "" 2; sample_node "no" "" "end" "" 1; sample_node "ok" "skipped" "" "" 1;
   sample_node "again" "end" "" "" 1; sample_node "# nothing" "" "" "nowhere" 1].
Definition result_of (r : option (cmd_trace * option (Z * executor))) : option (cmd_trace * option Z) :=
  match r with Some (tr, v) => Some (tr, option_map fst v) | None => None end.
Example jumping_runs :
  result_of (sample_execute jumping) =
  Some ([Ev_process "ok" []; Ev_sleep 7; Ev_process "ok" []; Ev_process "no" [];
         Ev_process "again" []; Ev_sleep 10; Ev_process "again" []], Some 0).
Proof. vm_compute. reflexivity. Qed.
Lemma forward_script_terminates_witness : is_Some (sample_execute jumping).
Proof.
  destruct (forward_script_terminates id sample_find (λ s _, [s]) (λ s, [s]) (λ name, bool_decide (name = "again"%string))
    sample_parse sample_process sample_manager jumping []) as (tr' & r & path & He & _).
  - intros i node next j Hi Hnext Hne Hj. unfold jumping in Hi.
    do 5 (destruct i as [|i]; [simplify_eq/=; destruct Hnext as [->| ->]; vm_compute in Hj; simplify_eq/=; lia|]).
    done.
  - exists (tr', r). exact He.
Defined.
Lemma plain_script_in_order_witness :
  result_of (sample_execute [sample_node "ok" "" "" "" 1; sample_node "no" "" "" "" 1; sample_node "ok" "" "" "" 1])
  = Some ([Ev_process "ok" []; Ev_process "no" []], Some 2).
Proof.
  destruct (plain_script_in_order id sample_find (λ s _, [s]) (λ s, [s]) (λ name, bool_decide (name = "again"%string))
    sample_parse sample_process sample_manager
    [sample_node "ok" "" "" "" 1; sample_node "no" "" "" "" 1; sample_node "ok" "" "" "" 1] []) as [k Hk];
    [repeat constructor|].
  unfold sample_execute. rewrite Hk. vm_compute. reflexivity.
Defined.
Lemma retry_attempts_bounded_witness :
  ∃ evs, (retry_execute sample_process "no" [] (RepeatOptions 0 0 1 true 10 3) []).1 = [] ++ evs ∧ attempts evs = 3.
Proof.
  destruct (retry_attempts_bounded sample_process "no" [] (RepeatOptions 0 0 1 true 10 3) []
    (retry_execute sample_process "no" [] (RepeatOptions 0 0 1 true 10 3) []).1
    (retry_execute sample_process "no" [] (RepeatOptions 0 0 1 true 10 3) []).2) as (evs & He & _ & _ & Hr);
    [vm_compute; reflexivity|].
  exists evs. split; [exact He|]. apply (Hr 2); [vm_compute; reflexivity|done|done].
Defined.
