(* ===== verification/EnumMeta.v ===== *)
(** * Enumerations by name ([network/meta/enum_meta.hpp], [util/string.hpp])

    The factory keeps, for each enumeration registered, its name and its fields in
    order, and groups those that share an alias; enumerators are turned into names
    and back by type or, into names, by the enumeration's name.  A type is known by
    its [TypeId]; an enumerator is kept as a [uint32_t].  The groups are shared by
    pointer, here by their index. *)
From stdpp Require Import base option list numbers gmap strings.
From S2P Require Import Prelude.
Local Open Scope Z_scope.

(** ** Definitions *)
(** [string_util::split_by_string] *)
Definition split_by_string (str split_field : string) : option (string * string) :=
  match String.index 0 split_field str with
  | None => None
  | Some pos =>
      let next := (pos + String.length split_field)%nat in
      Some (String.substring 0 pos str, String.substring next (String.length str - next) str)
  end.

(** *** One enumeration *)
Notation fields := (list (string * Z)).
Record enum_helper := EnumHelper { name_ : string; vec_ : fields; map_ : gmap string Z }.
Definition insert_new (m : gmap string Z) (p : string * Z) : gmap string Z :=
  match m !! p.1 with Some _ => m | None => <[p.1 := p.2]> m end.
(** [get_vec] has cast the enumerators. *)
Definition get_vec (fs : fields) : fields := (λ p, (p.1, u32 p.2)) <$> fs.
Definition helper_init (name : string) (vec : fields) : enum_helper :=
  EnumHelper name vec (foldl insert_new ∅ vec).
Fixpoint find_value (t : Z) (vec : fields) : option string :=
  match vec with
  | [] => None
  | p :: vec => if u32 t =? p.2 then Some p.1 else find_value t vec
  end.
Definition helper_to_string (t : Z) (has_enum_name : bool) (h : enum_helper) : option string :=
  match find_value t (vec_ h) with
  | None => None
  | Some s => Some (if has_enum_name then (name_ h +:+ "::" +:+ s)%string else s)
  end.
Definition to_enum_value (str : string) (h : enum_helper) : option Z := map_ h !! str.
Definition helper_to_enum (str : string) (has_enum_name : bool) (h : enum_helper) : option Z :=
  match to_enum_value str h with
  | Some r => Some r
  | None =>
      if has_enum_name then
        match split_by_string str "::" with
        | Some (a, _) => if bool_decide (a = name_ h) then to_enum_value str h else None
        | None => None
        end
      else None
  end.

(** *** The factory *)
Record enum_factory := EnumFactory {
  groups : list (list enum_helper);
  enums_ : gmap string nat;
  typeid_enums_ : gmap Z nat
}.
Definition factory_new : enum_factory := EnumFactory [] ∅ ∅.
Definition emplace_name (k : string) (g : nat) (m : gmap string nat) : gmap string nat :=
  match m !! k with Some _ => m | None => <[k := g]> m end.
Definition inter_reg (tid : Z) (enum_name : string) (alias_name : option string) (vec : fields) (f : enum_factory)
    : enum_factory :=
  let h := helper_init enum_name vec in
  let '(g, gs) := match (match alias_name with Some a => enums_ f !! a | None => None end) with
                  | Some g => (g, alter (λ hs, hs ++ [h]) g (groups f))
                  | None => (length (groups f), groups f ++ [[h]])
                  end in
  let names := emplace_name enum_name g (enums_ f) in
  EnumFactory gs
    (match alias_name with Some a => emplace_name a g names | None => names end)
    (match typeid_enums_ f !! tid with Some _ => typeid_enums_ f | None => <[tid := g]> (typeid_enums_ f) end).
Definition reg (tid : Z) (enum_name : string) (alias_name : option string) (fs : fields) (f : enum_factory)
    : enum_factory :=
  match typeid_enums_ f !! tid with
  | Some _ => f
  | None => inter_reg tid enum_name alias_name (get_vec fs) f
  end.
Fixpoint first_of {A} (q : enum_helper → option A) (hs : list enum_helper) : option A :=
  match hs with
  | [] => None
  | h :: hs => match q h with Some r => Some r | None => first_of q hs end
  end.
Definition group_of (f : enum_factory) (g : option nat) : list enum_helper :=
  match g with Some g => default [] (groups f !! g) | None => [] end.
Definition to_string (tid t : Z) (has_enum_name : bool) (f : enum_factory) : option string :=
  first_of (helper_to_string t has_enum_name) (group_of f (typeid_enums_ f !! tid)).
Definition to_string_named (t : Z) (enum_name : string) (has_enum_name : bool) (f : enum_factory) : option string :=
  first_of (helper_to_string t has_enum_name) (group_of f (enums_ f !! enum_name)).
Definition to_enum (tid : Z) (str : string) (has_enum_name : bool) (f : enum_factory) : option Z :=
  first_of (helper_to_enum str has_enum_name) (group_of f (typeid_enums_ f !! tid)).
Definition get_enum_info_list (tid : Z) (f : enum_factory) : fields :=
  match group_of f (typeid_enums_ f !! tid) with h :: _ => vec_ h | [] => [] end.

(** *** Registrations *)
Record registration := Registration { r_tid : Z; r_name : string; r_alias : option string; r_fields : fields }.
Definition reg_all (rs : list registration) (f : enum_factory) : enum_factory :=
  foldl (λ f r, reg (r_tid r) (r_name r) (r_alias r) (r_fields r) f) f rs.
(** [r] has no alias, and its name is not the alias of another. *)
Definition own_group (r : registration) (rs : list registration) : Prop :=
  r_alias r = None ∧ ∀ r', r' ∈ rs → r_alias r' ≠ Some (r_name r).
Definition helper_of (r : registration) : enum_helper := helper_init (r_name r) (get_vec (r_fields r)).

(** ** One enumeration *)
Fixpoint first_named (s : string) (vec : fields) : option Z :=
  match vec with
  | [] => None
  | p :: vec => if decide (p.1 = s) then Some p.2 else first_named s vec
  end.
Lemma insert_new_lookup vec m s :
  foldl insert_new m vec !! s = match m !! s with Some v => Some v | None => first_named s vec end.
Proof.
  revert m. induction vec as [|p vec IH]; intros m; simpl; [by destruct (m !! s)|].
  rewrite IH. unfold insert_new. destruct (m !! p.1) eqn:Hp.
  - destruct (m !! s) eqn:Hs; [done|]. rewrite decide_False; [done|]. intros <-. congruence.
  - destruct (decide (p.1 = s)) as [<-|Hne]; [by rewrite lookup_insert_eq, Hp|by rewrite lookup_insert_ne].
Qed.
Lemma helper_map name vec s : map_ (helper_init name vec) !! s = first_named s vec.
Proof. simpl. by rewrite insert_new_lookup, lookup_empty. Qed.
Lemma first_named_in s v vec : NoDup vec.*1 → (s, v) ∈ vec → first_named s vec = Some v.
Proof.
  induction vec as [|p vec IH]; intros Hnd Hin; [by apply elem_of_nil in Hin|].
  rewrite fmap_cons in Hnd. apply NoDup_cons in Hnd as [Hn Hnd]. simpl.
  apply elem_of_cons in Hin as [<-|Hin]; [by rewrite decide_True|].
  rewrite decide_False; [by apply IH|]. intros <-. by apply Hn, (list_elem_of_fmap_2 fst _ _ Hin).
Qed.
Lemma first_named_out s vec : s ∉ vec.*1 → first_named s vec = None.
Proof.
  induction vec as [|p vec IH]; intros Hn; [done|]. rewrite fmap_cons, not_elem_of_cons in Hn. simpl.
  rewrite decide_False by naive_solver. apply IH. naive_solver.
Qed.
Lemma first_named_found s v vec : first_named s vec = Some v → (s, v) ∈ vec.
Proof.
  induction vec as [|p vec IH]; simpl; [done|]. case_decide as Hp; [|intros; right; by apply IH].
  intros [= <-]. destruct p as [a b]. simpl in *. subst. left.
Qed.
Lemma find_value_found t s vec : find_value t vec = Some s → (s, u32 t) ∈ vec.
Proof.
  induction vec as [|p vec IH]; simpl; [done|]. destruct (Z.eqb_spec (u32 t) p.2) as [Ht|]; [|intros; right; by apply IH].
  intros [= <-]. destruct p as [a b]. simpl in *. subst. left.
Qed.
Lemma find_value_in t s vec : NoDup vec.*2 → (s, u32 t) ∈ vec → find_value t vec = Some s.
Proof.
  induction vec as [|p vec IH]; intros Hnd Hin; [by apply elem_of_nil in Hin|].
  rewrite fmap_cons in Hnd. apply NoDup_cons in Hnd as [Hn Hnd]. simpl.
  apply elem_of_cons in Hin as [<-|Hin]; [simpl; by rewrite Z.eqb_refl|].
  destruct (Z.eqb_spec (u32 t) p.2) as [Ht|]; [|by apply IH].
  exfalso. apply Hn. rewrite <- Ht. apply (list_elem_of_fmap_2 snd _ _ Hin).
Qed.
Lemma get_vec_names fs : (get_vec fs).*1 = fs.*1.
Proof. unfold get_vec. rewrite <- list_fmap_compose. by apply list_fmap_ext. Qed.

(** ** Registrations *)
Definition alone (tid : Z) (name : string) (h : enum_helper) (f : enum_factory) : Prop :=
  ∃ g, typeid_enums_ f !! tid = Some g ∧ groups f !! g = Some [h] ∧ ∀ k, enums_ f !! k = Some g → k = name.
Definition bounded (f : enum_factory) : Prop :=
  (∀ k g, enums_ f !! k = Some g → (g < length (groups f))%nat) ∧
  (∀ k g, typeid_enums_ f !! k = Some g → (g < length (groups f))%nat).
Lemma emplace_name_lookup k g m k' g' :
  emplace_name k g m !! k' = Some g' → m !! k' = Some g' ∨ k' = k ∧ g' = g.
Proof.
  unfold emplace_name. destruct (m !! k) eqn:Hk; [auto|]. destruct (decide (k = k')) as [<-|Hne].
  - rewrite lookup_insert_eq. naive_solver.
  - rewrite lookup_insert_ne by done. auto.
Qed.
Lemma reg_bounded tid name alias fs f : bounded f → bounded (reg tid name alias fs f).
Proof.
  intros [He Ht]. unfold reg, inter_reg. destruct (typeid_enums_ f !! tid) eqn:Htid; [done|].
  destruct (match alias with Some a => enums_ f !! a | None => None end) as [g|] eqn:Hg.
  - assert (g < length (groups f))%nat as Hlt by (destruct alias; [by eapply He|done]).
    split; simpl; rewrite length_alter; intros k g' Hk.
    + destruct alias as [a|]; [apply emplace_name_lookup in Hk as [Hk|[-> ->]]; [|done]|];
        apply emplace_name_lookup in Hk as [Hk|[-> ->]]; eauto.
    + destruct (decide (tid = k)) as [<-|Hne]; [rewrite lookup_insert_eq in Hk; by simplify_eq|].
      rewrite lookup_insert_ne in Hk by done. eauto.
  - split; simpl; rewrite length_app; simpl; intros k g' Hk.
    + assert (g' < length (groups f) ∨ g' = length (groups f))%nat as [?|?]; [|lia|lia].
      destruct alias as [a|]; [apply emplace_name_lookup in Hk as [Hk|[-> ->]]; [|auto]|];
        apply emplace_name_lookup in Hk as [Hk|[-> ->]]; eauto.
    + destruct (decide (tid = k)) as [<-|Hne]; [rewrite lookup_insert_eq in Hk; simplify_eq; lia|].
      rewrite lookup_insert_ne in Hk by done. apply Ht in Hk. lia.
Qed.
Lemma reg_alone_new tid name fs f :
  bounded f → typeid_enums_ f !! tid = None →
  alone tid name (helper_init name (get_vec fs)) (reg tid name None fs f).
Proof.
  intros [He Ht] Hn. unfold reg, inter_reg. rewrite Hn. exists (length (groups f)). simpl. split_and!.
  - by rewrite ?Hn, lookup_insert_eq.
  - by rewrite lookup_app_r, Nat.sub_diag.
  - intros k [Hk|[-> _]]%emplace_name_lookup; [|done]. apply He in Hk. lia.
Qed.
Lemma reg_alone tid name h tid' name' alias fs f :
  bounded f → tid' ≠ tid → alias ≠ Some name → alone tid name h f → alone tid name h (reg tid' name' alias fs f).
Proof.
  intros [He Ht] Hne Ha (g & Htid & Hg & Hk). unfold reg. destruct (typeid_enums_ f !! tid') eqn:Htid'; [by exists g|].
  assert (g < length (groups f))%nat as Hlt by (by eapply lookup_lt_Some).
  unfold inter_reg. destruct (match alias with Some a => enums_ f !! a | None => None end) as [g'|] eqn:Hg'.
  - assert (g' ≠ g) as Hgg.
    { intros ->. destruct alias as [a|]; [|done]. apply Hk in Hg'. by subst. }
    exists g. simpl. split_and!; [by rewrite ?Htid', lookup_insert_ne|by rewrite list_lookup_alter_ne|].
    intros k Hk'. destruct alias as [a|]; [apply emplace_name_lookup in Hk' as [Hk'|[-> ->]]; [|done]|];
      (apply emplace_name_lookup in Hk' as [Hk'|[-> ->]]; [by apply Hk|done]).
  - exists g. simpl. split_and!; [by rewrite ?Htid', lookup_insert_ne|by rewrite lookup_app_l|].
    intros k Hk'. destruct alias as [a|]; [apply emplace_name_lookup in Hk' as [Hk'|[_ ->]]; [|lia]|];
      (apply emplace_name_lookup in Hk' as [Hk'|[_ ->]]; [by apply Hk|lia]).
Qed.
Lemma reg_all_group rs r :
  NoDup (r_tid <$> rs) → r ∈ rs → own_group r rs →
  group_of (reg_all rs factory_new) (typeid_enums_ (reg_all rs factory_new) !! r_tid r) = [helper_of r].
Proof.
  intros Hnd Hr [Hal Hown]. assert (∀ rs f, bounded f → bounded (reg_all rs f)) as Hb.
  { clear. induction rs as [|r rs IH]; intros f Hf; [done|]. by apply IH, reg_bounded. }
  assert (bounded factory_new) as H0 by (split; intros k g Hk; simpl in Hk; by rewrite lookup_empty in Hk).
  assert (alone (r_tid r) (r_name r) (helper_of r) (reg_all rs factory_new)) as (g & -> & Hg & _);
    [|unfold group_of; by rewrite Hg].
  apply list_elem_of_split in Hr as (rs1 & rs2 & ->). rewrite fmap_app, fmap_cons in Hnd.
  apply NoDup_app in Hnd as (_ & H1 & [H2 _]%NoDup_cons). unfold reg_all. rewrite foldl_app. simpl.
  assert (typeid_enums_ (reg_all rs1 factory_new) !! r_tid r = None) as Hnone.
  { assert (r_tid r ∉ r_tid <$> rs1) as Hn by (intros Hin; apply (H1 _ Hin); set_solver).
    assert (∀ f, typeid_enums_ f !! r_tid r = None → typeid_enums_ (reg_all rs1 f) !! r_tid r = None) as Hf; [|by apply Hf].
    clear -Hn. induction rs1 as [|x rs1 IH]; intros f Hf; [done|]. rewrite fmap_cons, not_elem_of_cons in Hn.
    simpl. apply IH; [naive_solver|]. unfold reg. destruct (typeid_enums_ f !! r_tid x) eqn:Hx; [done|].
    unfold inter_reg. destruct (match r_alias x with Some a => _ | None => _ end); simpl; rewrite Hx;
      rewrite lookup_insert_ne; naive_solver. }
  pose proof (reg_alone_new (r_tid r) (r_name r) (r_fields r) _ (Hb rs1 _ H0) Hnone) as Hal'.
  rewrite <- Hal in Hal' at 1.
  pose proof (reg_bounded (r_tid r) (r_name r) (r_alias r) (r_fields r) _ (Hb rs1 _ H0)) as Hb'. fold (reg_all rs1 factory_new).
  revert Hal' Hb'. generalize (reg (r_tid r) (r_name r) (r_alias r) (r_fields r) (reg_all rs1 factory_new)).
  assert (∀ x, x ∈ rs2 → r_tid x ≠ r_tid r ∧ r_alias x ≠ Some (r_name r)) as Hrs2.
  { intros x Hx. split; [|apply Hown; set_solver]. intros Heq. apply H2. rewrite <- Heq. by apply list_elem_of_fmap_2. }
  clear -Hrs2. induction rs2 as [|x rs2 IH]; intros f Hf Hbf; [done|]. simpl.
  destruct (Hrs2 x) as [Hx1 Hx2]; [set_solver|].
  apply IH; [intros y Hy; apply Hrs2; set_solver|by apply reg_alone|by apply reg_bounded].
Qed.

(** ** Names and values *)
Section Registered.
Context (rs : list registration) (r : registration).
Hypothesis distinct_types : NoDup (r_tid <$> rs).
Hypothesis registered : r ∈ rs.
Hypothesis grouped_alone : own_group r rs.
Let f := reg_all rs factory_new.
Lemma to_enum_registered s : to_enum (r_tid r) s false f = first_named s (get_vec (r_fields r)).
Proof.
  unfold to_enum, f. rewrite (reg_all_group rs r) by done. simpl. unfold helper_to_enum, to_enum_value.
  unfold helper_of. rewrite helper_map. by destruct (first_named _ _).
Qed.
Lemma to_string_registered t : to_string (r_tid r) t false f = find_value t (get_vec (r_fields r)).
Proof.
  unfold to_string, f. rewrite (reg_all_group rs r) by done. simpl. unfold helper_to_string. simpl.
  by destruct (find_value _ _).
Qed.
End Registered.
Lemma get_vec_in s v fs : (s, v) ∈ fs → (s, u32 v) ∈ get_vec fs.
Proof. intros Hin. apply (list_elem_of_fmap_2 (λ p : string * Z, (p.1, u32 p.2)) _ _ Hin). Qed.
Lemma get_vec_u32 s v fs : (s, v) ∈ get_vec fs → u32 v = v.
Proof. intros ([s' v'] & [= -> ->] & _)%list_elem_of_fmap. unfold u32. by rewrite Zmod_mod. Qed.

(** Among enumerations registered in any order, one with no alias whose name no
    other takes as its alias keeps its own names: a registered enumerator's name is read
    as its value (as [uint32_t]); the name an enumerator is written with is read back as
    that enumerator; where no two enumerators have one value the name read is the name
    written; and what is not a name is not read. *)
Theorem enum_roundtrip rs r :
  NoDup (r_tid <$> rs) → r ∈ rs → own_group r rs → NoDup (r_fields r).*1 →
  let f := reg_all rs factory_new in
  (∀ s v, (s, v) ∈ r_fields r → to_enum (r_tid r) s false f = Some (u32 v)) ∧
  (∀ t s, to_string (r_tid r) t false f = Some s → to_enum (r_tid r) s false f = Some (u32 t)) ∧
  (NoDup (get_vec (r_fields r)).*2 → ∀ s v, to_enum (r_tid r) s false f = Some v →
     to_string (r_tid r) v false f = Some s) ∧
  (∀ s, s ∉ (r_fields r).*1 → to_enum (r_tid r) s false f = None).
Proof.
  intros Htid Hr Hown Hnd f. rewrite <- get_vec_names in Hnd. unfold f.
  split_and!; intros; rewrite ?to_enum_registered, ?to_string_registered in *; try done.
  - by apply first_named_in, get_vec_in.
  - apply first_named_in; [done|]. by apply find_value_found.
  - apply find_value_in; [done|]. apply first_named_found in H0.
    by rewrite (get_vec_u32 _ _ _ H0).
  - apply first_named_out. by rewrite get_vec_names.
Qed.
Definition colors : registration := Registration 1 "Color" None [("red", 0); ("green", 1); ("none", -1)].
Definition shades : registration := Registration 2 "Shade" (Some "Colors") [("red", 7)].
Lemma enum_roundtrip_witness :
  to_enum 1 "none" false (reg_all [shades; colors] factory_new) = Some 4294967295 ∧
  to_enum 1 "blue" false (reg_all [shades; colors] factory_new) = None.
Proof.
  assert (own_group colors [shades; colors]) as Hown.
  { split; [done|]. intros x Hx. apply elem_of_cons in Hx as [->|Hx]; [done|].
    apply list_elem_of_singleton in Hx as ->. done. }
  destruct (enum_roundtrip [shades; colors] colors ltac:(apply (bool_decide_unpack _); vm_compute; exact I)
    ltac:(set_solver) Hown ltac:(apply (bool_decide_unpack _); vm_compute; exact I)) as (H1 & _ & _ & H4).
  split; [apply (H1 "none" (-1)); right; right; left|apply (H4 "blue"); apply (bool_decide_unpack _); vm_compute; exact I].
Defined.

(** [to_enum] looks the whole string up again where it has split it: what [to_string] writes with the
    enumeration's name is read only if the qualified name is itself an enumerator's. *)
Theorem qualified_name_is_not_read s h : helper_to_enum s true h = helper_to_enum s false h.
Proof.
  unfold helper_to_enum. destruct (to_enum_value s h) eqn:Hs; [done|].
  destruct (split_by_string s "::") as [[a b]|]; [|done]. by case_bool_decide.
Qed.
Lemma qualified_name_example :
  let f := reg_all [colors] factory_new in
  to_string 1 1 true f = Some "Color::green"%string ∧ to_enum 1 "Color::green" true f = None ∧
  to_enum 1 "green" true f = Some 1.
Proof. vm_compute. done. Qed.

(** Registrations of one alias share a group: the second type's enumerators are also written with the first's
    names. *)
Lemma alias_shares_names :
  let f := reg_all [Registration 1 "A" (Some "Err") [("ok", 0)]; Registration 2 "B" (Some "Err") [("fail", 0); ("late", 1)]]
    factory_new in
  to_string 2 0 false f = Some "ok"%string ∧ to_string 2 1 false f = Some "late"%string ∧
  to_enum 1 "late" false f = Some 1 ∧ to_string_named 1 "Err" false f = Some "late"%string.
Proof. vm_compute. done. Qed.
