(* ===== verification/CsvAdapter.v ===== *)
(** * Typed tables from CSV files ([network/serialize/csv_adapter.hpp], [network/util/cast.hpp])

    The adapter reads each row of a parsed table into a struct and keeps the
    structs in a map under the rows' ids.  A member of a basic type, a vector or
    an array is read from the cell of its column; a member that is a struct, or
    a vector of structs, from a group of columns between ["name("] and [")"].
    Exceptions end the reading with the position where it was: line, id and key.
    [boost::lexical_cast], [boost::split] and [boost::trim] are parameters;
    members of type [date_time] are left out. *)
From stdpp Require Import base option list numbers strings gmap.
From Stdlib Require Import Ascii.
From S2P Require Import Prelude MemoryStream Csv EnumMeta.
Local Open Scope Z_scope.

(** ** Definitions *)
(** *** Types and values *)
Inductive basic := B_num (s : scalar) | B_string.
Inductive cell :=
| C_basic (b : basic)
| C_bool
| C_enum (tid : Z) (under : scalar)
| C_chars (n : nat)
| C_optional (c : cell)
| C_vector (c : cell)
| C_array (n : nat) (c : cell).
Inductive member :=
| M_cell (c : cell)
| M_struct (fs : list (str * cell))
| M_structs (fs : list (str * cell)).
Inductive cval :=
| Num (z : Z)
| Text (s : str)
| Null
| Just (v : cval)
| Items (l : list cval).

(** [T{}] *)
Fixpoint default_cell (c : cell) : cval :=
  match c with
  | C_basic (B_num _) | C_bool | C_enum _ _ => Num 0
  | C_basic B_string | C_chars _ => Text []
  | C_optional _ => Null
  | C_vector _ => Items []
  | C_array n c => Items (replicate n (default_cell c))
  end.
Definition default_fields (fs : list (str * cell)) : list cval := (λ f, default_cell f.2) <$> fs.
Definition default_member (m : member) : cval :=
  match m with
  | M_cell c => default_cell c
  | M_struct fs => Items (default_fields fs)
  | M_structs _ => Items []
  end.

(** *** Casts *)
Definition cast_bool (s : str) : bool :=
  negb (bool_decide (s = [] ∨ s = chars "false" ∨ s = chars "FALSE" ∨ s = chars "0" ∨
    s = chars "off" ∨ s = chars "OFF")).
(** [(enum_t)v] *)
Definition to_under (s : scalar) (z : Z) : Z :=
  if scalar_signed s then to_signed (8 * scalar_size s) z else z `mod` 2 ^ (8 * scalar_size s).

(** *** Columns *)
Definition open_cell : str := chars "(".
Definition close_cell : str := chars ")".
Definition paren (s : str) : bool := bool_decide (s = open_cell ∨ s = close_cell).
Definition group_name (key_name : str) : str := key_name ++ open_cell.
(** The indices where a group of columns starts and ends; before there is a
    start, comparing with it as a [size_t] fails. *)
Fixpoint find_group (key : str) (headers : list str) (i : nat) (start_index : option nat)
    : option nat * option nat :=
  match headers with
  | [] => (start_index, None)
  | h :: headers =>
      let start_index := if bool_decide (h = key) then Some i else start_index in
      if match start_index with Some s => (s <? i)%nat | None => false end && bool_decide (h = close_cell)
      then (start_index, Some i)
      else find_group key headers (S i) start_index
  end.
(** [name_map]: the last column of a name. *)
Fixpoint name_columns (names : list str) (i : nat) (m : gmap str nat) : gmap str nat :=
  match names with
  | [] => m
  | name :: names => name_columns names (S i) (<[name := i]> m)
  end.
Definition has_field (header : list str) (key : str) : bool :=
  existsb (λ h, bool_decide (h = key)) header.
(** The cells up to the next ["("]. *)
Fixpoint next_group (fuel : nat) (val : list str) (val_index : nat) : nat :=
  match fuel with
  | O => val_index
  | S fuel =>
      if (S val_index <? length val)%nat then
        if bool_decide (val !! S val_index = Some open_cell) then S val_index
        else next_group fuel val (S val_index)
      else val_index
  end.

(** Where an exception leaves the reader. *)
Record position := Position { current_line_ : Z; current_id_ : Z; current_key_name_ : str }.
Notation table := (gmap Z (list cval)).

Section adapter.
Context (lexical_cast : basic → str → option cval) (split : str → list str) (trim : str → str)
  (enums : enum_factory) (enum_with_str_ : bool).

(** *** Cells: [None] is an exception *)
Definition cast_enum (tid : Z) (under : scalar) (s : str) : option cval :=
  match to_enum tid (Stdlib.Strings.String.string_of_list_ascii s) true enums with
  | Some z => Some (Num (to_under under z))
  | None => lexical_cast (B_num under) s
  end.
Definition process_array (val : str) : list str :=
  trim <$> (if bool_decide (val = []) then [] else split val).
Fixpoint read_fixed (f : cval → str → option cval) (v : list cval) (vals : list str) : option (list cval) :=
  match v, vals with
  | t :: v, s :: vals => t ← f t s; v ← read_fixed f v vals; Some (t :: v)
  | v, _ => Some v
  end.
(** [ReadBase(t, val)]; a value that is not of the type does not occur. *)
Fixpoint ReadBase (c : cell) (t : cval) (val : str) {struct c} : option cval :=
  match c, t with
  | C_basic b, _ => lexical_cast b val
  | C_bool, _ => Some (Num (Z.b2z (cast_bool val)))
  | C_enum tid under, _ =>
      if enum_with_str_ then cast_enum tid under val else lexical_cast (B_num under) val
  | C_chars n, _ => Some (Text (take (n - 1) val))
  | C_optional c, t =>
      if bool_decide (val = chars "null") then Some t else Just <$> ReadBase c (default_cell c) val
  | C_vector c, Items l =>
      (λ vs, Items (l ++ vs)) <$> mapM (ReadBase c (default_cell c)) (process_array val)
  | C_array _ c, Items v => Items <$> read_fixed (ReadBase c) v (process_array val)
  | _, t => Some t
  end.

(** *** Groups of columns *)
(** The fields of a struct whose first cell is at [val_index]. *)
Fixpoint read_fields (names : gmap str nat) (val : list str) (val_index : nat)
    (fs : list (str * cell)) (ts : list cval) : option (list cval) :=
  match fs, ts with
  | (name, c) :: fs, t :: ts =>
      t ← match names !! name with
          | None => Some t
          | Some index => s ← val !! (index + val_index)%nat; ReadBase c t s
          end;
      ts ← read_fields names val val_index fs ts;
      Some (t :: ts)
  | _, _ => Some []
  end.
(** Reads every group it meets into the same struct. *)
Fixpoint struct_loop (fuel : nat) (names : gmap str nat) (field_count : nat) (val : list str)
    (val_index : nat) (fs : list (str * cell)) (ts : list cval) : option (list cval) :=
  match fuel with
  | O => Some ts
  | S fuel =>
      if (S val_index <? length val)%nat then
        if paren (val !!! S val_index) then struct_loop fuel names field_count val (S val_index) fs ts
        else
          ts ← read_fields names val val_index fs ts;
          struct_loop fuel names field_count val
            (next_group (length val) val (val_index + field_count)) fs ts
      else Some ts
  end.
(** Appends a struct for every group. *)
Fixpoint structs_loop (fuel : nat) (names : gmap str nat) (field_count : nat) (val : list str)
    (val_index : nat) (fs : list (str * cell)) (t : list cval) : option (list cval) :=
  match fuel with
  | O => Some t
  | S fuel =>
      if (S val_index <? length val)%nat then
        if paren (val !!! val_index) then structs_loop fuel names field_count val (S val_index) fs t
        else
          tt ← read_fields names val val_index fs (default_fields fs);
          structs_loop fuel names field_count val
            (next_group (length val) val (val_index + field_count)) fs (t ++ [Items tt])
      else Some t
  end.
(** The columns of a group: the index behind its start, and the names. *)
Definition group_columns (headers : list str) (key_name : str) : option (nat * list str) :=
  match find_group (group_name key_name) headers 0 None with
  | (Some start_index, Some end_index) =>
      if (S start_index =? end_index)%nat then None
      else Some (S start_index, take (end_index - S start_index) (drop (S start_index) headers))
  | _ => None
  end.

(** *** Members, rows and tables *)
(** [ReadObject(t, val, key_name)] *)
Definition ReadObject (headers : list str) (val : csv_row) (key_name : str) (m : member) (t : cval)
    : ub (option cval) :=
  match m, t with
  | M_cell c, t =>
      if has_field headers key_name then
        e ← row_at_key headers val key_name;
        Def (match e with Ret val_str => ReadBase c t val_str | Throw _ => None end)
      else Def (Some t)
  | M_struct fs, Items ts =>
      match group_columns headers key_name with
      | None => Def (Some t)
      | Some (val_index, names) =>
          Def (Items <$> struct_loop (length (row_values val)) (name_columns names 0 ∅) (length names)
                 (row_values val) val_index fs ts)
      end
  | M_structs fs, Items ts =>
      match group_columns headers key_name with
      | None => Def (Some t)
      | Some (val_index, names) =>
          Def (Items <$> structs_loop (length (row_values val)) (name_columns names 0 ∅) (length names)
                 (row_values val) val_index fs ts)
      end
  | _, t => Def (Some t)
  end.
(** [ReadTuple], with the key it was at. *)
Fixpoint ReadTuple (headers : list str) (val : csv_row) (ms : list (str * member)) (ts : list cval)
    (key : str) : ub (str * option (list cval)) :=
  match ms, ts with
  | (key_name, m) :: ms, t :: ts =>
      if row_size val <=? 0 then Def (key, Some (t :: ts))
      else
        r ← ReadObject headers val key_name m t;
        match r with
        | None => Def (key_name, None)
        | Some t =>
            '(key, r) ← ReadTuple headers val ms ts key_name;
            Def (key, fmap (M := option) (cons t) r)
        end
  | _, _ => Def (key, Some [])
  end.
Definition row_id (headers : list str) (row : csv_row) : ub (option Z) :=
  e ← row_at_key headers row (chars "id");
  Def (match e with
       | Ret s => match lexical_cast (B_num S_int) s with Some (Num z) => Some z | _ => None end
       | Throw _ => None
       end).
Definition set_line (l : Z) (p : position) : position := Position l (current_id_ p) (current_key_name_ p).
Definition set_id (i : Z) (p : position) : position := Position (current_line_ p) i (current_key_name_ p).
Definition set_key (k : str) (p : position) : position := Position (current_line_ p) (current_id_ p) k.
(** [ReadMap]: the map so far, and whether an exception ended it. *)
Fixpoint read_rows (headers : list str) (ms : list (str * member)) (rows : list csv_row)
    (p : position) (t : table) : ub (bool * position * table) :=
  match rows with
  | [] => Def (true, p, t)
  | val :: rows =>
      let p := set_line (current_line_ p + 1) p in
      i ← row_id headers val;
      match i with
      | None => Def (false, p, t)
      | Some val_id =>
          let p := set_id val_id p in
          '(key, s) ← ReadTuple headers val ms ((λ m, default_member m.2) <$> ms) (current_key_name_ p);
          let p := set_key key p in
          match s with
          | None => Def (false, p, t)
          | Some s => read_rows headers ms rows p (<[val_id := s]> t)
          end
      end
  end.
(** [DeSerialize(t)]: the lines before the content are counted first, with two
    flags nobody sets. *)
Definition DeSerialize (ms : list (str * member)) (c : csv) (p : position) (t : table)
    : ub (bool * position * table) :=
  lines ← header_lines c;
  read_rows (csv_header_ c) ms (content_ c) (set_line lines p) t.
End adapter.

(** ** What a table says *)
(** The cells of the groups of a row, from behind the first ["("]: [n] cells,
    of which the first is no parenthesis, a cell that closes them, and others
    up to the next ["("]. *)
Inductive groups_text (n : nat) : list str → list (list str) → Prop :=
| groups_none l : Forall paren l → groups_text n l []
| groups_last cells close filler :
    length cells = n → ¬ paren (cells !!! 0%nat) → open_cell ∉ filler →
    groups_text n (cells ++ close :: filler) [cells]
| groups_more cells close filler rest gs :
    length cells = n → ¬ paren (cells !!! 0%nat) → open_cell ∉ filler →
    groups_text n rest gs →
    groups_text n (cells ++ close :: filler ++ open_cell :: rest) (cells :: gs).

Section says.
Context (lexical_cast : basic → str → option cval) (split : str → list str) (trim : str → str)
  (enums : enum_factory) (enum_with_str_ : bool).
Notation ReadBase := (ReadBase lexical_cast split trim enums enum_with_str_).
Notation read_fields := (read_fields lexical_cast split trim enums enum_with_str_).

(** The cells of one group, read into a struct. *)
Definition group_reads (names : list str) (fs : list (str * cell)) (cells : list str) (v : cval) : Prop :=
  ∃ l, read_fields (name_columns names 0 ∅) cells 0 fs (default_fields fs) = Some l ∧ v = Items l.
(** The member [name] of a row. *)
Definition member_says (headers cells : list str) (f : str * member) (v : cval) : Prop :=
  match f.2 with
  | M_cell c =>
      if has_field headers f.1 then
        ∃ k s, find_key headers f.1 = Some k ∧ cells !! k = Some s ∧ ReadBase c (default_cell c) s = Some v
      else v = default_cell c
  | M_structs fs =>
      match group_columns headers f.1 with
      | None => v = Items []
      | Some (i, names) => ∃ gs vs, groups_text (length names) (drop i cells) gs ∧
          Forall2 (group_reads names fs) gs vs ∧ v = Items vs
      end
  | M_struct fs =>
      match group_columns headers f.1 with
      | None => v = Items (default_fields fs)
      | Some (i, names) => ∃ g close filler, drop i cells = g ++ close :: filler ∧
          length g = length names ∧ (2 ≤ length g)%nat ∧ ¬ paren (g !!! 1%nat) ∧ open_cell ∉ filler ∧
          group_reads names fs g v
      end
  end.
(** A row's id and the members of its struct. *)
Definition row_says (headers : list str) (ms : list (str * member)) (cells : list str)
    (r : Z * list cval) : Prop :=
  (∃ k s, find_key headers (chars "id") = Some k ∧ cells !! k = Some s ∧
     lexical_cast (B_num S_int) s = Some (Num r.1)) ∧
  Forall2 (member_says headers cells) ms r.2.
End says.

#[local] Arguments chars : simpl never.
(** ** Groups of columns *)
Lemma next_group_none fuel val i :
  (i < length val)%nat → (length val ≤ fuel + S i)%nat → open_cell ∉ drop (S i) val →
  S (next_group fuel val i) = length val.
Proof.
  revert i. induction fuel as [|fuel IH]; intros i Hi Hf Ho; simpl; [lia|].
  destruct (Nat.ltb_spec (S i) (length val)) as [Hl|?]; [|lia].
  destruct (lookup_lt_is_Some_2 val (S i) Hl) as [x Hx].
  rewrite (drop_S _ _ _ Hx), not_elem_of_cons in Ho. destruct Ho as [Hne Ho].
  rewrite bool_decide_eq_false_2 by (rewrite Hx; congruence). apply IH; [done|lia|done].
Qed.
Lemma next_group_some fuel val i filler rest :
  drop (S i) val = filler ++ open_cell :: rest → open_cell ∉ filler → (length filler < fuel)%nat →
  next_group fuel val i = (S i + length filler)%nat.
Proof.
  revert i filler. induction fuel as [|fuel IH]; intros i filler Hd Ho Hf; simpl; [lia|].
  assert (length (drop (S i) val) = length filler + S (length rest))%nat as Hlen
    by (rewrite Hd, length_app; done).
  rewrite length_drop in Hlen.
  destruct (Nat.ltb_spec (S i) (length val)) as [Hl|?]; [|lia].
  destruct filler as [|x filler]; simpl in *.
  - assert (val !! S i = Some open_cell) as Hx.
    { rewrite <-(Nat.add_0_r (S i)), <-lookup_drop, Hd. done. }
    rewrite bool_decide_eq_true_2 by done. lia.
  - apply not_elem_of_cons in Ho as [Hne Ho].
    assert (val !! S i = Some x) as Hx.
    { rewrite <-(Nat.add_0_r (S i)), <-lookup_drop, Hd. done. }
    rewrite bool_decide_eq_false_2 by (rewrite Hx; congruence).
    rewrite (drop_S _ _ _ Hx) in Hd. injection Hd as Hd.
    rewrite (IH (S i) filler Hd Ho) by lia. lia.
Qed.
Lemma name_columns_lookup names i m name k :
  name_columns names i m !! name = Some k → m !! name = Some k ∨ (i ≤ k < i + length names)%nat.
Proof.
  revert i m. induction names as [|x names IH]; intros i m; simpl; [by left|].
  intros [H|H]%IH; [|right; lia].
  destruct (decide (x = name)) as [->|Hne].
  - rewrite lookup_insert in H. rewrite decide_True in H by done. injection H as <-. right; lia.
  - rewrite lookup_insert_ne in H by done. by left.
Qed.
Lemma find_group_spec key headers i start s e :
  find_group key headers i start = (Some s, Some e) → (∀ s', start = Some s' → (s' < i)%nat) →
  (s < e < i + length headers)%nat.
Proof.
  revert i start. induction headers as [|h hs IH]; intros i start; simpl; [done|].
  set (start' := if bool_decide (h = key) then Some i else start). intros Hf Hs.
  assert (∀ s', start' = Some s' → (s' ≤ i)%nat) as Hs'.
  { intros s' Hq. unfold start' in Hq. case_bool_decide; [injection Hq as <-; lia|]. apply Hs in Hq. lia. }
  destruct (_ && _) eqn:Hc.
  - injection Hf as Hs1 He. subst e. change (start' = Some s) in Hs1. rewrite Hs1 in Hc. apply andb_true_iff in Hc as [?%Nat.ltb_lt _]. lia.
  - apply IH in Hf; [lia|]. intros s' ?%Hs'. lia.
Qed.

Section lemmas.
Context (lexical_cast : basic → str → option cval) (split : str → list str) (trim : str → str)
  (enums : enum_factory) (enum_with_str_ : bool).
Notation read_fields := (read_fields lexical_cast split trim enums enum_with_str_).
Notation struct_loop := (struct_loop lexical_cast split trim enums enum_with_str_).
Notation structs_loop := (structs_loop lexical_cast split trim enums enum_with_str_).
Notation group_reads := (group_reads lexical_cast split trim enums enum_with_str_).
Notation member_says := (member_says lexical_cast split trim enums enum_with_str_).
Notation row_says := (row_says lexical_cast split trim enums enum_with_str_).

(** The fields of a group are those of its own cells. *)
Lemma read_fields_group names val i g rest fs ts :
  (∀ name k, names !! name = Some k → (k < length g)%nat) → drop i val = g ++ rest →
  read_fields names val i fs ts = read_fields names g 0 fs ts.
Proof.
  intros Hn Hd. revert ts. induction fs as [|[name c] fs IH]; intros [|t ts]; simpl; try done.
  destruct (names !! name) as [k|] eqn:Hk; simpl; [|by rewrite IH].
  assert (val !! (k + i)%nat = g !! (k + 0)%nat) as ->.
  { rewrite (Nat.add_comm k i), <-lookup_drop, Hd, Nat.add_0_r. apply lookup_app_l. eauto. }
  destruct (g !! _); simpl; [|done]. destruct (ReadBase _ _ _ _ _ _ _ _); simpl; [|done]. by rewrite IH.
Qed.
Lemma columns_below names name k : name_columns names 0 ∅ !! name = Some k → (k < length names)%nat.
Proof. intros [H|H]%name_columns_lookup; [by rewrite lookup_empty in H|lia]. Qed.

Lemma at_cell {i} {val : list str} {x rest} : drop i val = x :: rest → (i < length val)%nat ∧ val !!! i = x.
Proof.
  intros Hd. assert (val !! i = Some x) as Hx by (by rewrite <-(Nat.add_0_r i), <-lookup_drop, Hd).
  split; [by eapply lookup_lt_Some|by apply list_lookup_total_correct].
Qed.
Lemma drop_past {i} {val a : list str} {x rest} : drop i val = a ++ x :: rest → drop (S (i + length a)) val = rest.
Proof.
  intros Hd. replace (S (i + length a)) with (i + S (length a))%nat by lia.
  rewrite <-drop_drop, Hd. replace (S (length a)) with (length a + 1)%nat by lia.
  by rewrite <-drop_drop, drop_app_length.
Qed.
Lemma drop_length_app {i} {val a : list str} : drop i val = a → (i ≤ length val)%nat → length val = (i + length a)%nat.
Proof. intros <- ?. rewrite length_drop. lia. Qed.

Lemma structs_loop_ends fuel names n val i fs t :
  Forall paren (drop i val) → structs_loop fuel names n val i fs t = Some t.
Proof.
  revert i. induction fuel as [|fuel IH]; intros i Hp; simpl; [done|].
  case_match eqn:Hi; [|done]. apply Nat.ltb_lt in Hi.
  destruct (drop i val) as [|x rest] eqn:Hd.
  { apply (f_equal length) in Hd. rewrite length_drop in Hd. simpl in Hd. lia. }
  destruct (at_cell Hd) as [_ ->]. apply Forall_cons in Hp as [Hx Hp].
  destruct (paren x); [|done]. apply IH.
  pose proof (drop_past (a := []) Hd) as Hd'. simpl in Hd'. rewrite Nat.add_0_r in Hd'. by rewrite Hd'.
Qed.
Lemma structs_loop_group fuel names val i fs t g close tail l :
  drop i val = g ++ close :: tail → length g = length names → names ≠ [] → ¬ paren (g !!! 0%nat) →
  read_fields (name_columns names 0 ∅) g 0 fs (default_fields fs) = Some l →
  structs_loop (S fuel) (name_columns names 0 ∅) (length names) val i fs t =
    structs_loop fuel (name_columns names 0 ∅) (length names) val
      (next_group (length val) val (i + length names)) fs (t ++ [Items l]).
Proof.
  intros Hd Hl Hne Hp Hr. simpl.
  destruct g as [|x g]; [by destruct names|]. simpl in Hp.
  destruct (at_cell (x := x) Hd) as [Hi ->].
  assert (length val = i + length ((x :: g) ++ close :: tail))%nat as Hlen by (apply drop_length_app; [done|lia]).
  rewrite length_app in Hlen. simpl in Hlen.
  rewrite (proj2 (Nat.ltb_lt _ _)) by lia.
  destruct (paren x); [by destruct Hp|].
  rewrite (read_fields_group _ val i (x :: g) _ _ _) by (rewrite ?Hl; eauto using columns_below).
  by rewrite Hr.
Qed.
(** Every group becomes a struct, in order. *)
Lemma structs_loop_reads names fs cells gs vs : names ≠ [] →
  groups_text (length names) cells gs → Forall2 (group_reads names fs) gs vs →
  ∀ fuel val i t, drop i val = cells → (length val ≤ fuel + i)%nat →
  structs_loop fuel (name_columns names 0 ∅) (length names) val i fs t = Some (t ++ vs).
Proof.
  intros Hne Hg. revert vs.
  induction Hg as [l Hp|g close filler Hl Hp Ho|g close filler rest gs Hl Hp Ho Hg IH];
    intros vs Hvs fuel val i t Hd Hf.
  - inversion Hvs; subst. rewrite app_nil_r. by apply structs_loop_ends.
  - inversion Hvs as [|?? ? ? (l&Hr&->) Hnil]; subst. inversion Hnil; subst.
    assert (i < length val)%nat as Hi.
    { destruct (decide (i < length val)%nat); [done|]. rewrite drop_ge in Hd by lia. by destruct g. }
    assert (length val = i + length (g ++ close :: filler))%nat as Hlen by (apply drop_length_app; [done|lia]).
    rewrite length_app in Hlen. simpl in Hlen.
    destruct fuel as [|fuel]; [lia|]. erewrite structs_loop_group by done.
    assert (S (next_group (length val) val (i + length names)) = length val) as He.
    { apply next_group_none; [lia|lia|]. rewrite <-Hl. by rewrite (drop_past Hd). }
    destruct fuel; simpl; [done|]. by rewrite He, Nat.ltb_irrefl.
  - inversion Hvs as [|?? ? vs' (l&Hr&->) Hvs']; subst.
    assert (i < length val)%nat as Hi.
    { destruct (decide (i < length val)%nat); [done|]. rewrite drop_ge in Hd by lia. by destruct g. }
    assert (length val = i + length (g ++ close :: filler ++ open_cell :: rest))%nat as Hlen
      by (apply drop_length_app; [done|lia]).
    repeat (rewrite length_app in Hlen; simpl in Hlen).
    assert (0 < length names)%nat by (destruct names; simpl; [done|lia]).
    destruct fuel as [|fuel]; [lia|]. erewrite structs_loop_group by done.
    pose proof (drop_past Hd) as Hd'. rewrite Hl in Hd'.
    rewrite (next_group_some _ _ _ filler rest) by (done || lia).
    destruct fuel as [|fuel]; [lia|]. simpl.
    pose proof (drop_past Hd') as Hd2.
    assert (val !!! (S (i + length names + length filler)) = open_cell) as Hat.
    { apply list_lookup_total_correct.
      replace (S (i + length names + length filler)) with (S (i + length names) + length filler)%nat by lia.
      rewrite <-lookup_drop, Hd'. by apply list_lookup_middle. }
    rewrite Hat. case_match eqn:Hlt.
    + rewrite IH with (vs := vs'); [by rewrite <-app_assoc|done|exact Hd2|lia].
    + apply Nat.ltb_ge in Hlt.
      assert (rest = []) as ->.
      { destruct rest; [done|]. simpl in Hlen. lia. }
      inversion Hg as [l' Hl'| |]; subst; [|by destruct cells..]. by inversion Hvs'.
Qed.
Lemma struct_loop_reads names fs g close filler l val i fuel :
  drop i val = g ++ close :: filler → length g = length names → (2 ≤ length g)%nat →
  ¬ paren (g !!! 1%nat) → open_cell ∉ filler →
  read_fields (name_columns names 0 ∅) g 0 fs (default_fields fs) = Some l → (0 < fuel)%nat →
  struct_loop fuel (name_columns names 0 ∅) (length names) val i fs (default_fields fs) = Some l.
Proof.
  intros Hd Hl H2 Hp Ho Hr Hf. destruct fuel as [|fuel]; [lia|]. simpl.
  destruct g as [|x [|y g]]; simpl in H2; try lia. simpl in Hp.
  assert (drop (S i) val = y :: g ++ close :: filler) as Hd1.
  { pose proof (drop_past (a := []) Hd) as Hd1. simpl in Hd1. by rewrite Nat.add_0_r in Hd1. }
  destruct (at_cell Hd1) as [Hi ->].
  assert (length val = i + length ((x :: y :: g) ++ close :: filler))%nat as Hlen by (apply drop_length_app; [done|lia]).
  rewrite length_app in Hlen. simpl in Hlen.
  rewrite (proj2 (Nat.ltb_lt _ _)) by lia. destruct (paren y); [by destruct Hp|].
  rewrite (read_fields_group _ val i (x :: y :: g) _ _ _) by (rewrite ?Hl; eauto using columns_below).
  rewrite Hr. cbn [mbind option_bind].
  assert (S (next_group (length val) val (i + length names)) = length val) as He.
  { pose proof (drop_past Hd) as Hd2. rewrite Hl in Hd2.
    simpl in Hl. apply next_group_none; [lia|lia|]. by rewrite Hd2. }
  destruct fuel; simpl; [done|]. by rewrite He, Nat.ltb_irrefl.
Qed.

(** *** Members, rows and tables *)
Lemma ReadObject_says headers cells f v :
  member_says headers cells f v →
  ReadObject lexical_cast split trim enums enum_with_str_ headers (CsvRow cells true) f.1 f.2
    (default_member f.2) = Def (Some v).
Proof.
  destruct f as [name [c|fs|fs]]; unfold member_says; simpl.
  - destruct (has_field headers name); [|by intros ->].
    intros (k&s&Hk&Hs&Hr). unfold row_at_key. simpl. rewrite Hk, Hs. simpl. by rewrite Hr.
  - destruct (group_columns headers name) as [[i names]|]; [|by intros ->].
    intros (g&close&filler&Hd&Hl&H2&Hp&Ho&l&Hr&->).
    rewrite (struct_loop_reads names fs g close filler l) by (done ||
      (apply (f_equal length) in Hd; rewrite length_drop, length_app in Hd; simpl in Hd; lia)).
    done.
  - destruct (group_columns headers name) as [[i names]|] eqn:Hg; [|by intros ->].
    intros (gs&vs&Hgs&Hvs&->).
    assert (names ≠ []) as Hne.
    { unfold group_columns in Hg. destruct (find_group _ _ _ _) as [[s|] [e|]] eqn:Hf; try done.
      destruct (Nat.eqb_spec (S s) e) as [|Hse]; [done|]. injection Hg as <- <-.
      apply find_group_spec in Hf as [? ?]; [|done].
      intros Hn. apply (f_equal length) in Hn. rewrite length_take, length_drop in Hn. simpl in Hn. lia. }
    rewrite (structs_loop_reads names fs _ gs vs Hne Hgs Hvs) by (done || lia). done.
Qed.
Lemma ReadTuple_says headers cells ms vs key : cells ≠ [] →
  Forall2 (member_says headers cells) ms vs →
  ∃ key', ReadTuple lexical_cast split trim enums enum_with_str_ headers (CsvRow cells true) ms
    ((λ m, default_member m.2) <$> ms) key = Def (key', Some vs).
Proof.
  intros Hne H. revert key. induction H as [|[name m] v ms vs Hm H IH]; intros key; csimpl; [by eexists|].
  unfold row_size. simpl row_values. rewrite (proj2 (Z.leb_gt _ _)) by (destruct cells; simpl; [done|lia]).
  pose proof (ReadObject_says headers cells (name, m) v Hm) as Hr. simpl in Hr. rewrite Hr. csimpl.
  destruct (IH name) as [key' ->]. by eexists.
Qed.
Lemma read_rows_says headers ms rows recs p t :
  Forall2 (row_says headers ms) rows recs →
  ∃ p', read_rows lexical_cast split trim enums enum_with_str_ headers ms
    ((λ r, CsvRow r true) <$> rows) p t =
    Def (true, p', foldl (λ t r, <[r.1 := r.2]> t) t recs) ∧
    current_line_ p' = current_line_ p + Z.of_nat (length rows).
Proof.
  intros H. revert p t. induction H as [|cells r rows recs [(k&s&Hk&Hs&Hid) Hm] H IH]; intros p t.
  { exists p. split; [done|]. simpl. lia. }
  cbn [fmap list_fmap read_rows foldl].
  unfold row_id, row_at_key. simpl. rewrite Hk, Hs. simpl. rewrite Hid. simpl.
  destruct (ReadTuple_says headers cells ms r.2 (current_key_name_ p)) as [key' Hr]; [by intros ->|done|].
  rewrite Hr. cbn [mbind ub_bind].
  match goal with |- context [read_rows _ _ _ _ _ _ _ _ ?q ?t'] => destruct (IH q t') as (p'&Hp&Hl) end.
  exists p'. split; [exact Hp|]. rewrite Hl. simpl. lia.
Qed.
End lemmas.

(** ** Properties *)
(** C37: A typed table says what its text says. Take a text that writes a table of
    trimmed fields whose first three rows are names, types and descriptions, and a
    reader in static storage, so that the flags counted by header_lines hold something.
    If each other row's id is a number and each of its members can be read (a cell in
    the member's first column, or the default when the table has no such column; for a
    vector of structs, the groups of cells from its column to the end of the row, each
    as many as the columns of its names, the first of them no parenthesis, and a closing
    cell; for a struct, of at least two columns, one such group, its second cell no
    parenthesis and with no group after it in the row), the text is parsed and read
    without an exception and without undefined behaviour, and the map gets the struct of
    each row under its id, later rows over earlier ones, and keeps what it had under
    others. The columns may come in any order. A reader elsewhere parses the same text,
    but reading the structs is undefined: it starts by counting the header's lines, with
    flags that nobody initialises. *)
Theorem table_reads_structs lexical_cast split trim enums enum_with_str_ names types desc data text ms recs
    storage has_type has_desc p t :
  table_text (names :: types :: desc :: data) text → trimmed trim (names :: types :: desc :: data) →
  Forall2 (row_says lexical_cast split trim enums enum_with_str_ names ms) data recs →
  ∃ c, parse_string trim text (csv_new storage true has_type has_desc false) = (None, c) ∧
    match storage with
    | (Some b1, Some b2) =>
        ∃ p', DeSerialize lexical_cast split trim enums enum_with_str_ ms c p t =
          Def (true, p', foldl (λ t r, <[r.1 := r.2]> t) t recs) ∧
          current_line_ p' = 1 + Z.b2z b1 + Z.b2z b2 + Z.of_nat (length data)
    | _ => DeSerialize lexical_cast split trim enums enum_with_str_ ms c p t = Undef
    end.
Proof.
  intros Htext Htrim Hrows.
  destruct (parse_header_table trim _ _ _ _ _ storage has_type has_desc Htext Htrim)
    as (c&Hp&Hn&_&_&Hc&Hf&H1&H2).
  exists c. split; [done|]. unfold DeSerialize, header_lines. rewrite Hn, Hc, Hf, H1, H2.
  destruct storage as [[b1|] [b2|]]; simpl; [|done..].
  edestruct (read_rows_says lexical_cast split trim enums enum_with_str_ names ms data recs)
    as (p'&Hr&Hl); [done|]. exists p'. split; [exact Hr|]. rewrite Hl. simpl. lia.
Qed.

(** ** Tables without quotes *)
Definition plain_cell (s : str) : bool :=
  forallb (λ c, negb (Ascii.eqb c comma || Ascii.eqb c cr || Ascii.eqb c nl)) s &&
  bool_decide (head s ≠ Some quote).
Fixpoint fields_of (row : list str) : str :=
  match row with
  | [] => []
  | [s] => s
  | s :: row => s ++ comma :: fields_of row
  end.
Definition plain_row (row : list str) : bool :=
  forallb plain_cell row && bool_decide (row ≠ []) && bool_decide (fields_of row ≠ []).
Definition lines_of (rows : list (list str)) : str := rows ≫= λ row, fields_of row ++ [nl].
Lemma plain_fields row : row ≠ [] → forallb plain_cell row = true → fields_text row (fields_of row).
Proof.
  induction row as [|s row IH]; [done|]. intros _ [Hs Hr]%andb_true_iff.
  apply andb_true_iff in Hs as [Hs Hq%bool_decide_eq_true_1].
  pose proof (plain_field s Hs Hq). destruct row; [by constructor|]. constructor; [done|by apply IH].
Qed.
Lemma plain_table rows : forallb plain_row rows = true → table_text rows (lines_of rows).
Proof.
  induction rows as [|row rows IH]; [constructor|]. intros [Hr Hrs]%andb_true_iff.
  apply andb_true_iff in Hr as [[Hp Hn%bool_decide_eq_true_1]%andb_true_iff Ht%bool_decide_eq_true_1].
  unfold lines_of. csimpl. rewrite <-app_assoc. constructor; [|by left|by apply IH].
  split; [by apply plain_fields|done].
Qed.

(** ** Witnesses: numbers in digits *)
Definition digit (a : option Z) (c : ascii) : option Z :=
  a ← a;
  let d := Z.of_nat (nat_of_ascii c) - 48 in
  if (0 <=? d) && (d <=? 9) then Some (10 * a + d) else None.
Definition lexical_digits (b : basic) (s : str) : option cval :=
  match b, s with
  | B_string, _ => Some (Text s)
  | B_num _, [] => None
  | B_num _, _ => Num <$> foldl digit (Some 0) s
  end.
Notation read_text names rows ms :=
  (match parse_string trim_blanks (lines_of (names :: [chars "-"] :: [chars "-"] :: rows))
           (csv_new zeroed true true true false) with
   | (None, c) => DeSerialize lexical_digits (λ s, [s]) trim_blanks factory_new false ms c (Position 0 0 []) ∅
   | (Some _, _) => Undef
   end).
Definition int_cell : cell := C_basic (B_num S_int).
Definition points : list (str * cell) := [(chars "x", int_cell); (chars "y", int_cell)].
Definition sample_types : list (str * member) :=
  [(chars "id", M_cell int_cell); (chars "name", M_cell (C_basic B_string));
   (chars "way", M_structs points); (chars "note", M_cell (C_optional C_bool))].
Definition sample_names : list str :=
  [chars "name"; chars "id"; chars "way("; chars "y"; chars "x"; chars ")"].
Definition sample_data : list (list str) :=
  [[chars "a"; chars "1"; chars "("; chars "3"; chars "4"; chars ")"; chars "("; chars "5"; chars "6"; chars ")"];
   [chars "b"; chars "2"; chars "("; chars ")"]].
Lemma table_reads_structs_witness : ∃ c,
  parse_string trim_blanks (lines_of (sample_names :: [chars "-"] :: [chars "-"] :: sample_data))
    (csv_new zeroed true true true false) = (None, c) ∧
  ∃ p', DeSerialize lexical_digits (λ s, [s]) trim_blanks factory_new false sample_types c (Position 0 0 []) ∅ =
    Def (true, p', <[2 := [Num 2; Text (chars "b"); Items []; Null]]>
      (<[1 := [Num 1; Text (chars "a"); Items [Items [Num 4; Num 3]; Items [Num 6; Num 5]]; Null]]> ∅)) ∧
    current_line_ p' = 3.
Proof.
  apply (table_reads_structs lexical_digits (λ s, [s]) trim_blanks factory_new false sample_names
    [chars "-"] [chars "-"] sample_data _ sample_types
    [(1, [Num 1; Text (chars "a"); Items [Items [Num 4; Num 3]; Items [Num 6; Num 5]]; Null]);
     (2, [Num 2; Text (chars "b"); Items []; Null])] zeroed true true).
  - apply plain_table. by vm_compute.
  - by apply (bool_decide_eq_true_1 _).
  - repeat constructor; simpl.
    + by exists 1%nat, (chars "1").
    + by exists 1%nat, (chars "1").
    + by exists 0%nat, (chars "a").
    + exists [[chars "3"; chars "4"]; [chars "5"; chars "6"]], [Items [Num 4; Num 3]; Items [Num 6; Num 5]].
      split_and!; [|repeat constructor; eexists; (split; [by vm_compute|done])|done].
      apply (groups_more 2 [chars "3"; chars "4"] (chars ")") []); [done|by vm_compute|set_solver|].
      apply (groups_last 2 [chars "5"; chars "6"] (chars ")") []); [done|by vm_compute|set_solver].
    + by exists 1%nat, (chars "2").
    + by exists 1%nat, (chars "2").
    + by exists 0%nat, (chars "b").
    + exists [], []. split_and!; [|constructor|done]. apply groups_none. by repeat constructor.
Defined.

(** A struct of one field is not read: the reader looks at the cell behind the
    one it is at, which is the closing one. *)
Lemma one_field_struct_is_not_read :
  ∃ p', read_text [chars "id"; chars "p("; chars "x"; chars ")"]
    [[chars "1"; chars "("; chars "3"; chars ")"]]
    [(chars "id", M_cell int_cell); (chars "p", M_struct [(chars "x", int_cell)])] =
  Def (true, p', <[1 := [Num 1; Items [Num 0]]]> ∅).
Proof. eexists. by vm_compute. Qed.
(** Two structs in a row are not read: the first goes on into the group of the
    second, one cell too early. *)
Lemma second_struct_throws :
  ∃ p', read_text [chars "id"; chars "p("; chars "x"; chars "y"; chars ")"; chars "q("; chars "x"; chars "y"; chars ")"]
    [[chars "1"; chars "("; chars "3"; chars "4"; chars ")"; chars "("; chars "5"; chars "6"; chars ")"]]
    [(chars "id", M_cell int_cell); (chars "p", M_struct points); (chars "q", M_struct points)] =
  Def (false, p', ∅).
Proof. eexists. by vm_compute. Qed.
(** A vector takes the groups of the struct behind it for its own. *)
Lemma vector_swallows_struct :
  ∃ p', read_text [chars "id"; chars "p("; chars "x"; chars "y"; chars ")"; chars "q("; chars "x"; chars "y"; chars ")"]
    [[chars "1"; chars "("; chars "3"; chars "4"; chars ")"; chars "("; chars "5"; chars "6"; chars ")"]]
    [(chars "id", M_cell int_cell); (chars "p", M_structs points); (chars "q", M_struct points)] =
  Def (true, p', <[1 := [Num 1; Items [Items [Num 3; Num 4]; Items [Num 5; Num 6]]; Items [Num 5; Num 6]]]> ∅).
Proof. eexists. by vm_compute. Qed.
(** A row shorter than its header reads past its cells. *)
Lemma short_row_is_undefined :
  read_text [chars "id"; chars "a"; chars "b"] [[chars "1"; chars "2"]]
    [(chars "id", M_cell int_cell); (chars "b", M_cell int_cell)] = Undef.
Proof. by vm_compute. Qed.
(** An exception when the id is read reports the id and the key before it. *)
Lemma bad_id_reports_row_before :
  read_text [chars "id"; chars "a"] [[chars "7"; chars "2"]; [chars "x"; chars "3"]]
    [(chars "a", M_cell int_cell)] =
  Def (false, Position 3 7 (chars "a"), <[7 := [Num 2]]> ∅).
Proof. by vm_compute. Qed.
