(* ===== verification/SqlExpr.v ===== *)
(** * SQL text ([network/orm/expr.hpp], [smart_db.hpp])

    The conditions, assignments and statements of the orm are texts put together from
    the names of tables and columns and the texts of values.  A value is an integer, a
    string, a date (by its text) or an optional value; floating point numbers are left
    out.  A text that is written as a format string is run through [fmt]'s formatter
    without arguments, which throws ([None]) at a brace that is not doubled.  The
    reading of conditions at the end of the definitions is the reference the texts are
    compared with. *)
From Stdlib Require Import Ascii.
From stdpp Require Import base option list numbers strings pretty.
From S2P Require Import Prelude.
Local Open Scope Z_scope.
Local Open Scope string_scope.

(** ** Definitions *)
(** *** Values *)
Inductive value := VInt (n : Z) | VStr (s : string) | VTime (text : string) | VOpt (o : option value).
Fixpoint cast_string (v : value) : string :=
  match v with
  | VInt n => pretty n
  | VStr s => "'" +:+ s +:+ "'"
  | VTime s => "'" +:+ s +:+ "'"
  | VOpt (Some v) => cast_string v
  | VOpt None => "null"
  end.
(** The formatter without arguments: it ends at a NUL. *)
Fixpoint fmt_write (s : string) : option string :=
  match s with
  | EmptyString => Some ""
  | String "000"%char _ => Some ""
  | String "{"%char (String "{"%char s) => String "{"%char <$> fmt_write s
  | String "}"%char (String "}"%char s) => String "}"%char <$> fmt_write s
  | String "{"%char _ | String "}"%char _ => None
  | String c s => String c <$> fmt_write s
  end.

(** *** What can be selected *)
Record select_able := SelectAble { field_name_ : string; table_name_ : option string }.
Definition column (table name : string) : select_able := SelectAble name (Some table).
Definition aggregate (str_func table name : string) : select_able :=
  SelectAble (str_func +:+ "(" +:+ table +:+ "." +:+ name +:+ ")") None.
Definition count_all : select_able := SelectAble "count (*)" None.

(** *** Conditions *)
Notation expr := (list (string * option string)).
Definition expr_text (field : select_able) (op_val : string) : expr :=
  [(field_name_ field +:+ op_val, table_name_ field)].
Definition expr_value (field : select_able) (op : string) (v : value) : expr :=
  [(field_name_ field +:+ op +:+ cast_string v, table_name_ field)].
Definition expr_fields (field1 : select_able) (op : string) (field2 : select_able) : expr :=
  [(field_name_ field1, table_name_ field1); (op, None); (field_name_ field2, table_name_ field2)].
Definition and_or (e right : expr) (log_op : string) : expr := ("(", None) :: e ++ [(log_op, None)] ++ right ++ [(")", None)].
Definition expr_and (e right : expr) : expr := and_or e right " and ".
Definition expr_or (e right : expr) : expr := and_or e right " or ".
Fixpoint expr_str (with_table_name : bool) (e : expr) : option string :=
  match e with
  | [] => Some ""
  | (text, table) :: e =>
      t ← fmt_write text;
      rest ← expr_str with_table_name e;
      Some (match table with
            | Some table => if with_table_name then table +:+ "." +:+ t +:+ rest else t +:+ rest
            | None => t +:+ rest
            end)
  end.

(** *** Assignments *)
Record field_proxy := FieldProxy { f_table : string; f_name : string; val_ : value; is_init_ : bool; expr_ : string }.
Definition field_new (table name : string) : field_proxy := FieldProxy table name (VOpt None) false "".
Definition field_select (f : field_proxy) : select_able := column (f_table f) (f_name f).
Definition qualified (f : field_proxy) : string := f_table f +:+ "." +:+ f_name f.
Definition assign (v : value) (f : field_proxy) : field_proxy :=
  FieldProxy (f_table f) (f_name f) v true (qualified f +:+ "=" +:+ cast_string v).
Definition assign_expr (e : string) (f : field_proxy) : field_proxy :=
  FieldProxy (f_table f) (f_name f) (val_ f) (is_init_ f) (qualified f +:+ "=" +:+ e).
(** [operator=] of another proxy of the type. *)
Definition assign_field (o f : field_proxy) : field_proxy :=
  FieldProxy (f_table f) (f_name f) (val_ o) (is_init_ o) (expr_ f).
Definition add_operator (op : string) (v : value) (f : field_proxy) : string := qualified f +:+ op +:+ cast_string v.
Definition add_oper_with_equal (op : string) (v : value) (f : field_proxy) : field_proxy :=
  FieldProxy (f_table f) (f_name f) (val_ f) (is_init_ f) (qualified f +:+ "=" +:+ qualified f +:+ op +:+ cast_string v).

(** *** Statements *)
Fixpoint write_set (is_first : bool) (item : field_proxy → string) (fs : list field_proxy) : string :=
  match fs with
  | [] => ""
  | f :: fs =>
      if is_init_ f then (if is_first then "" else ",") +:+ item f +:+ write_set false item fs
      else write_set is_first item fs
  end.
Fixpoint write_all (is_first : bool) (fs : list field_proxy) : string :=
  match fs with
  | [] => ""
  | f :: fs => (if is_first then "" else ",") +:+ expr_ f +:+ write_all false fs
  end.
Definition insert (table : string) (fs : list field_proxy) : string :=
  "INSERT INTO `" +:+ table +:+ "`(" +:+ write_set true f_name fs +:+ ") values("
  +:+ write_set true (λ f, cast_string (val_ f)) fs +:+ ")".
Record db_proxy := DbProxy { sql_ : string; db_where : string }.
Definition update (table : string) (fs : list field_proxy) : db_proxy :=
  DbProxy ("UPDATE `" +:+ table +:+ "` SET "
           +:+ write_set true (λ f, f_name f +:+ "=" +:+ cast_string (val_ f)) fs) "".
Definition update_fields (table : string) (fs : list field_proxy) : db_proxy :=
  DbProxy ("UPDATE `" +:+ table +:+ "` SET " +:+ write_all true fs) "".
Definition delete_item (table : string) : db_proxy := DbProxy ("DELETE FROM `" +:+ table +:+ "`") "".
Definition add_where (sql_where : string) (e : expr) : option string :=
  s ← expr_str true e;
  Some (if String.eqb sql_where "" then "WHERE (" +:+ s +:+ ")" else sql_where +:+ " or (" +:+ s +:+ ")").
Definition db_where_expr (e : expr) (d : db_proxy) : option db_proxy := DbProxy (sql_ d) <$> add_where (db_where d) e.
Definition to_value (d : db_proxy) : string := sql_ d +:+ " " +:+ db_where d.

(** *** Queries *)
Record query_proxy := QueryProxy {
  sql_from_ : string; sql_select_ : string; sql_target_ : string; sql_where_ : string; sql_groupby_ : string;
  sql_having_ : string; sql_orderby_ : string; sql_limit_ : string; sql_offset_ : string
}.
Definition query (table : string) : query_proxy :=
  QueryProxy (" from " +:+ table +:+ " ") "SELECT " "*" "" "" "" "" "" "".
Definition distinct (q : query_proxy) : query_proxy :=
  QueryProxy (sql_from_ q) "SELECT DISTINCT" (sql_target_ q) (sql_where_ q) (sql_groupby_ q) (sql_having_ q)
    (sql_orderby_ q) (sql_limit_ q) (sql_offset_ q).
Definition query_where (e : expr) (q : query_proxy) : option query_proxy :=
  w ← add_where (sql_where_ q) e;
  Some (QueryProxy (sql_from_ q) (sql_select_ q) (sql_target_ q) w (sql_groupby_ q) (sql_having_ q)
          (sql_orderby_ q) (sql_limit_ q) (sql_offset_ q)).
Definition groupby (f : field_proxy) (q : query_proxy) : query_proxy :=
  QueryProxy (sql_from_ q) (sql_select_ q) (sql_target_ q) (sql_where_ q) (" group by " +:+ qualified f) (sql_having_ q)
    (sql_orderby_ q) (sql_limit_ q) (sql_offset_ q).
Definition having (e : expr) (q : query_proxy) : option query_proxy :=
  s ← expr_str true e;
  Some (QueryProxy (sql_from_ q) (sql_select_ q) (sql_target_ q) (sql_where_ q) (sql_groupby_ q) (" having " +:+ s)
          (sql_orderby_ q) (sql_limit_ q) (sql_offset_ q)).
Definition take (count : Z) (q : query_proxy) : query_proxy :=
  QueryProxy (sql_from_ q) (sql_select_ q) (sql_target_ q) (sql_where_ q) (sql_groupby_ q) (sql_having_ q)
    (sql_orderby_ q) (" limit " +:+ pretty count) (sql_offset_ q).
Definition skip (count : Z) (q : query_proxy) : query_proxy :=
  QueryProxy (sql_from_ q) (sql_select_ q) (sql_target_ q) (sql_where_ q) (sql_groupby_ q) (sql_having_ q)
    (sql_orderby_ q) (if String.eqb (sql_limit_ q) "" then " limit ~0" else sql_limit_ q) (" offset " +:+ pretty count).
Definition orderby_text (f : field_proxy) (desc : string) (q : query_proxy) : query_proxy :=
  QueryProxy (sql_from_ q) (sql_select_ q) (sql_target_ q) (sql_where_ q) (sql_groupby_ q) (sql_having_ q)
    (if String.eqb (sql_orderby_ q) "" then " order by " +:+ qualified f +:+ desc
     else sql_orderby_ q +:+ ", " +:+ qualified f +:+ desc)
    (sql_limit_ q) (sql_offset_ q).
Definition orderby (f : field_proxy) : query_proxy → query_proxy := orderby_text f "".
Definition orderby_desc (f : field_proxy) : query_proxy → query_proxy := orderby_text f " desc".
Definition get_from_sql (q : query_proxy) : string := sql_from_ q +:+ sql_where_ q +:+ sql_groupby_ q +:+ sql_having_ q.
Definition get_limit (q : query_proxy) : string := sql_orderby_ q +:+ sql_limit_ q +:+ sql_offset_ q.
Definition query_sql (q : query_proxy) : string :=
  sql_select_ q +:+ sql_target_ q +:+ get_from_sql q +:+ get_limit q +:+ ";".

(** *** Reading a condition
    An expression is a comparison, or one or two expressions in parentheses; a comparison reaches to the parenthesis
    that is not its own or to the next connective, outside the strings. *)
Inductive sql_tree := Leaf (text : string) | Node (log_op : string) (l r : sql_tree).
Inductive quoting := Bare | Quoted | Escaped.
Definition cons_fst (c : ascii) (p : string * string) : string * string := (String c p.1, p.2).
Fixpoint scan (q : quoting) (depth : nat) (s : string) : string * string :=
  match s with
  | EmptyString => ("", "")
  | String c s' =>
      match q with
      | Escaped => cons_fst c (scan Quoted depth s')
      | Quoted => cons_fst c (scan (if Ascii.eqb c "'"%char then Bare else if Ascii.eqb c "\"%char then Escaped else Quoted) depth s')
      | Bare =>
          if Ascii.eqb c "'"%char then cons_fst c (scan Quoted depth s')
          else if Ascii.eqb c "("%char then cons_fst c (scan Bare (S depth) s')
          else if Ascii.eqb c ")"%char then
            match depth with O => ("", s) | S depth => cons_fst c (scan Bare depth s') end
          else if (String.prefix " and " s || String.prefix " or " s) && Nat.eqb depth 0 then ("", s)
          else cons_fst c (scan Bare depth s')
      end
  end.
Fixpoint drop_string (n : nat) (s : string) : string :=
  match n, s with S n, String _ s => drop_string n s | _, _ => s end.
Fixpoint read_expr (fuel : nat) (s : string) : option (sql_tree * string) :=
  match fuel with
  | O => None
  | S fuel =>
      match s with
      | String "("%char s =>
          '(l, s) ← read_expr fuel s;
          let close (log_op : string) (s : string) :=
            '(r, s) ← read_expr fuel s;
            match s with String ")"%char s => Some (Node log_op l r, s) | _ => None end in
          if String.prefix " and " s then close " and " (drop_string 5 s)
          else if String.prefix " or " s then close " or " (drop_string 4 s)
          else match s with String ")"%char s => Some (l, s) | _ => None end
      | _ =>
          match scan Bare 0 s with
          | (EmptyString, _) => None
          | (text, s) => Some (Leaf text, s)
          end
      end
  end.
Definition read_sql (s : string) : option sql_tree :=
  match read_expr (String.length s) s with Some (t, EmptyString) => Some t | _ => None end.

(** *** The conditions a program writes *)
Inductive selected := Column (table name : string) | Aggregate (f table name : string) | Count.
Definition select_of (x : selected) : select_able :=
  match x with Column t n => column t n | Aggregate f t n => aggregate f t n | Count => count_all end.
Inductive cond :=
  | Compare (x : selected) (op : string) (v : value)
  | Is_null (x : selected) (negated : bool)
  | Like (x : selected) (negated : bool) (pattern : string)
  | Compare_fields (t1 n1 : string) (op : string) (t2 n2 : string)
  | And (c1 c2 : cond)
  | Or (c1 c2 : cond).
Fixpoint build (c : cond) : expr :=
  match c with
  | Compare x op v => expr_value (select_of x) op v
  | Is_null x negated => expr_text (select_of x) (if negated then " is not null" else " is null")
  | Like x negated p => expr_value (select_of x) (if negated then " not like " else " like ") (VStr p)
  | Compare_fields t1 n1 op t2 n2 => expr_fields (column t1 n1) op (column t2 n2)
  | And c1 c2 => expr_and (build c1) (build c2)
  | Or c1 c2 => expr_or (build c1) (build c2)
  end.
Definition selected_text (x : selected) : string :=
  match x with
  | Column t n => t +:+ "." +:+ n
  | Aggregate f t n => f +:+ "(" +:+ t +:+ "." +:+ n +:+ ")"
  | Count => "count (*)"
  end.
Fixpoint tree (c : cond) : sql_tree :=
  match c with
  | Compare x op v => Leaf (selected_text x +:+ op +:+ cast_string v)
  | Is_null x negated => Leaf (selected_text x +:+ if negated then " is not null" else " is null")
  | Like x negated p => Leaf (selected_text x +:+ (if negated then " not like " else " like ") +:+ "'" +:+ p +:+ "'")
  | Compare_fields t1 n1 op t2 n2 => Leaf (t1 +:+ "." +:+ n1 +:+ op +:+ t2 +:+ "." +:+ n2)
  | And c1 c2 => Node " and " (tree c1) (tree c2)
  | Or c1 c2 => Node " or " (tree c1) (tree c2)
  end.
(** The characters a name or an operator may have, and those a string value may. *)
Fixpoint all_chars (p : ascii → bool) (s : string) : bool :=
  match s with EmptyString => true | String c s => p c && all_chars p s end.
Definition value_char (c : ascii) : bool :=
  negb (existsb (Ascii.eqb c) ["'"; "\"; "{"; "}"; "000"]%char).
Definition name_char (c : ascii) : bool := value_char c && negb (existsb (Ascii.eqb c) [" "; "("; ")"]%char).
Definition name (s : string) : bool := negb (String.eqb s "") && all_chars name_char s.
Fixpoint plain_value (v : value) : bool :=
  match v with
  | VInt _ | VOpt None => true
  | VStr s | VTime s => all_chars value_char s
  | VOpt (Some v) => plain_value v
  end.
Definition plain_selected (x : selected) : bool :=
  match x with Column t n => name t && name n | Aggregate f t n => name f && name t && name n | Count => true end.
Fixpoint plain (c : cond) : bool :=
  match c with
  | Compare x op v => plain_selected x && name op && plain_value v
  | Is_null x _ => plain_selected x
  | Like x _ p => plain_selected x && all_chars value_char p
  | Compare_fields t1 n1 op t2 n2 => name t1 && name n1 && name op && name t2 && name n2
  | And c1 c2 | Or c1 c2 => plain c1 && plain c2
  end.

(** ** Texts *)
#[local] Arguments String.append !_ _ / : simpl nomatch.
Lemma string_app_assoc (s t u : string) : (s +:+ t) +:+ u = s +:+ (t +:+ u).
Proof. induction s as [|c s IH]; simpl; [done|]. by rewrite IH. Qed.
Lemma string_app_nil_r (s : string) : s +:+ "" = s.
Proof. induction s as [|c s IH]; simpl; [done|]. by rewrite IH. Qed.
Lemma string_length_app (s t : string) : String.length (s +:+ t) = (String.length s + String.length t)%nat.
Proof. induction s; simpl; lia. Qed.
Lemma all_chars_app p s t : all_chars p (s +:+ t) = all_chars p s && all_chars p t.
Proof. induction s; simpl; [done|]. by rewrite IHs, andb_assoc. Qed.
Lemma all_chars_impl (p q : ascii → bool) s : (∀ c, p c → q c) → all_chars p s → all_chars q s.
Proof. intros Hpq. induction s; simpl; [done|]. intros [? ?]%andb_prop_elim. apply andb_prop_intro; auto. Qed.
Lemma pretty_N_go_chars (p : ascii → bool) x s :
  (∀ n, p (pretty_N_char n)) → all_chars p s → all_chars p (pretty_N_go x s).
Proof.
  intros Hp. revert s. induction (N.lt_wf_0 x) as [x _ IH]. intros s Hs.
  destruct (decide (0 < x)%N) as [Hx|Hx].
  - rewrite pretty_N_go_step by done. apply IH; [by apply N.div_lt|]. simpl. by rewrite (Is_true_eq_true _ (Hp _)).
  - assert (x = 0%N) as -> by lia. by rewrite pretty_N_go_0.
Qed.
Lemma pretty_N_chars (n : N) : all_chars name_char (pretty n).
Proof.
  unfold pretty, pretty_N. case_decide; [done|]. apply pretty_N_go_chars; [|done].
  intros k. unfold pretty_N_char. by repeat case_match.
Qed.
Lemma pretty_Z_chars (n : Z) : all_chars name_char (pretty n).
Proof. destruct n; simpl; [done|apply pretty_N_chars|apply pretty_N_chars]. Qed.
Lemma name_char_value c : name_char c → value_char c.
Proof. by intros [? _]%andb_prop_elim. Qed.

Ltac norm_text := repeat (progress (simpl; rewrite ?string_app_assoc, ?string_app_nil_r)).

(** ** Writing *)
Definition fmt_char (c : ascii) : bool := negb (existsb (Ascii.eqb c) ["{"; "}"; "000"]%char).
Lemma fmt_write_plain s : all_chars fmt_char s → fmt_write s = Some s.
Proof.
  induction s as [|c s IH]; [done|]. simpl. intros [Hc Hs]%andb_prop_elim. rewrite (IH Hs).
  destruct c as [[] [] [] [] [] [] [] []]; done.
Qed.
Lemma value_char_fmt c : value_char c → fmt_char c.
Proof. unfold value_char, fmt_char. simpl. rewrite !negb_orb. intros. naive_solver. Qed.
Lemma value_fmt s : all_chars value_char s → all_chars fmt_char s.
Proof. apply all_chars_impl, value_char_fmt. Qed.
Lemma name_fmt s : name s → all_chars fmt_char s.
Proof. intros [_ Hs]%andb_prop_elim. eapply all_chars_impl; [|done]. intros c Hc. by apply value_char_fmt, name_char_value. Qed.
Lemma all_chars_app_intro p s t : all_chars p s → all_chars p t → all_chars p (s +:+ t).
Proof. rewrite all_chars_app. intros. by apply andb_prop_intro. Qed.
Lemma quoted_fmt s : all_chars value_char s → all_chars fmt_char ("'" +:+ s +:+ "'").
Proof. intros Hs. repeat apply all_chars_app_intro; [done|by apply value_fmt|done]. Qed.
Lemma cast_string_fmt v : plain_value v → all_chars fmt_char (cast_string v).
Proof.
  revert v. fix IH 1. intros [n|s|s|[v|]]; simpl; intros Hv.
  - eapply all_chars_impl; [|apply pretty_Z_chars]. intros c Hc. by apply value_char_fmt, name_char_value.
  - by apply quoted_fmt.
  - by apply quoted_fmt.
  - by apply IH.
  - done.
Qed.
Lemma expr_str_app w e1 e2 :
  expr_str w (e1 ++ e2) = (s1 ← expr_str w e1; s2 ← expr_str w e2; Some (s1 +:+ s2)).
Proof.
  induction e1 as [|[text table] e1 IH]; simpl; [by destruct (expr_str w e2)|]. rewrite IH.
  destruct (fmt_write text); simpl; [|done]. destruct (expr_str w e1); simpl; [|done].
  destruct (expr_str w e2); simpl; [|done]. destruct table, w; by norm_text.
Qed.
Lemma expr_str_piece text table e :
  all_chars fmt_char text →
  expr_str true ((text, table) :: e) =
    String.append (match table with Some t => t +:+ "." +:+ text | None => text end) <$> expr_str true e.
Proof.
  intros Ht. simpl. rewrite fmt_write_plain by done. simpl.
  destruct (expr_str true e); simpl; [|done]. destruct table; by norm_text.
Qed.
Lemma expr_str_nil w : expr_str w [] = Some "".
Proof. done. Qed.
#[local] Arguments expr_str : simpl never.
Fixpoint tree_text (t : sql_tree) : string :=
  match t with Leaf s => s | Node op l r => "(" +:+ tree_text l +:+ op +:+ tree_text r +:+ ")" end.
Lemma name_nonempty s : name s → s ≠ "".
Proof. intros [Hs _]%andb_prop_elim ->. done. Qed.
Lemma select_written x s :
  plain_selected x → all_chars fmt_char s →
  expr_str true (expr_text (select_of x) s) = Some (selected_text x +:+ s).
Proof.
  intros Hx Hs. unfold expr_text. rewrite expr_str_piece, expr_str_nil; simpl; [destruct x; by norm_text|].
  apply all_chars_app_intro; [|done]. destruct x; simpl in *;
    repeat match goal with H : Is_true (_ && _) |- _ => apply andb_prop_elim in H as [? ?] end;
    repeat apply all_chars_app_intro; auto using name_fmt; done.
Qed.
Lemma and_or_written e1 e2 s1 s2 op :
  expr_str true e1 = Some s1 → expr_str true e2 = Some s2 → all_chars fmt_char op →
  expr_str true (and_or e1 e2 op) = Some ("(" +:+ s1 +:+ op +:+ s2 +:+ ")").
Proof.
  intros H1 H2 Hop. unfold and_or.
  rewrite expr_str_piece, !expr_str_app, H1, H2, !expr_str_piece, !expr_str_nil by done. by norm_text.
Qed.
Lemma build_written c : plain c → expr_str true (build c) = Some (tree_text (tree c)).
Proof.
  induction c; simpl; intros Hc;
    repeat match goal with H : Is_true (_ && _) |- _ => apply andb_prop_elim in H as [? ?] end.
  - rewrite <- select_written; [done|done|]. apply all_chars_app_intro; [by apply name_fmt|by apply cast_string_fmt].
  - rewrite <- select_written; [done|done|by destruct negated].
  - rewrite <- select_written; [done|done|]. apply all_chars_app_intro; [by destruct negated|by apply quoted_fmt].
  - unfold expr_fields. rewrite !expr_str_piece, expr_str_nil by auto using name_fmt. by norm_text.
  - by apply (and_or_written _ _ _ _ " and "); [apply IHc1|apply IHc2|].
  - by apply (and_or_written _ _ _ _ " or "); [apply IHc1|apply IHc2|].
Qed.

(** ** Reading *)
(** The scanner goes over [x] from one state to another, whatever follows. *)
Definition pass (q : quoting) (d : nat) (x : string) (q' : quoting) (d' : nat) : Prop :=
  ∀ rest, scan q d (x +:+ rest) = (x +:+ (scan q' d' rest).1, (scan q' d' rest).2).
Lemma pass_app q1 d1 x q2 d2 y q3 d3 : pass q1 d1 x q2 d2 → pass q2 d2 y q3 d3 → pass q1 d1 (x +:+ y) q3 d3.
Proof. intros Hx Hy rest. rewrite string_app_assoc, Hx, Hy. simpl. by rewrite string_app_assoc. Qed.
Lemma char_not c l d : negb (existsb (Ascii.eqb c) l) → existsb (Ascii.eqb d) l = true → Ascii.eqb c d = false.
Proof.
  intros Hc Hd. destruct (Ascii.eqb_spec c d) as [->|]; [|done]. by rewrite Hd in Hc.
Qed.
#[local] Arguments String.prefix : simpl never.
Lemma no_connective c s : " "%char ≠ c → String.prefix " and " (String c s) || String.prefix " or " (String c s) = false.
Proof. by destruct c as [[] [] [] [] [] [] [] []]. Qed.
Lemma pass_name d s : all_chars name_char s → pass Bare d s Bare d.
Proof.
  induction s as [|c s IH]; intros Hs rest; [simpl; by destruct (scan Bare d rest)|]. simpl in Hs.
  apply andb_prop_elim in Hs as [Hc Hs]. specialize (IH Hs rest). simpl.
  apply andb_prop_elim in Hc as [Hc1 Hc2].
  rewrite (char_not c _ "'"%char Hc1), (char_not c _ "("%char Hc2), (char_not c _ ")"%char Hc2) by done.
  destruct (Ascii.ascii_dec " "%char c) as [<-|Hne]; [destruct Hc2|]. rewrite no_connective by done.
  simpl. by rewrite IH.
Qed.
Lemma pass_value d s : all_chars value_char s → pass Quoted d s Quoted d.
Proof.
  induction s as [|c s IH]; intros Hs rest; [simpl; by destruct (scan Quoted d rest)|]. simpl in Hs.
  apply andb_prop_elim in Hs as [Hc Hs]. specialize (IH Hs rest). simpl.
  rewrite (char_not c _ "'"%char Hc), (char_not c _ "\"%char Hc) by done. by rewrite IH.
Qed.
Lemma pass_quoted d s : all_chars value_char s → pass Bare d ("'" +:+ s +:+ "'") Bare d.
Proof.
  intros Hs. apply (pass_app _ _ _ Quoted d); [by intros rest|].
  apply (pass_app _ _ _ Quoted d); [by apply pass_value|by intros rest].
Qed.
Lemma pass_cast d v : plain_value v → pass Bare d (cast_string v) Bare d.
Proof.
  revert v. fix IH 1. intros [n|s|s|[v|]]; simpl; intros Hv.
  - apply pass_name, pretty_Z_chars.
  - by apply pass_quoted.
  - by apply pass_quoted.
  - by apply IH.
  - by apply pass_name.
Qed.
Lemma name_chars s : name s → all_chars name_char s.
Proof. by intros [_ ?]%andb_prop_elim. Qed.
Ltac split_plain := repeat match goal with H : Is_true (_ && _) |- _ => apply andb_prop_elim in H as [? ?] end.
Lemma pass_column d t n : name t → name n → pass Bare d (t +:+ "." +:+ n) Bare d.
Proof.
  intros Ht Hn. apply (pass_app _ _ _ Bare d); [by apply pass_name, name_chars|].
  apply (pass_app _ _ _ Bare d); [by apply pass_name|by apply pass_name, name_chars].
Qed.
Lemma pass_selected x : plain_selected x → pass Bare 0 (selected_text x) Bare 0.
Proof.
  destruct x as [t n|f t n|]; simpl; intros Hx; split_plain; [by apply pass_column| |by intros rest].
  apply (pass_app _ _ _ Bare 0); [by apply pass_name, name_chars|].
  apply (pass_app _ _ "(" Bare 1); [by intros rest|].
  replace (t +:+ String "." (n +:+ ")")) with ((t +:+ "." +:+ n) +:+ ")") by (by norm_text).
  apply (pass_app _ _ _ Bare 1); [by apply pass_column|by intros rest].
Qed.
Definition starts (s : string) : Prop := match s with String "("%char _ | EmptyString => False | _ => True end.
Lemma starts_name s t : name s → starts (s +:+ t).
Proof.
  intros Hs. destruct s as [|c s]; [done|]. apply name_chars in Hs as [Hc _]%andb_prop_elim.
  apply andb_prop_elim in Hc as [_ Hc]. by destruct c as [[] [] [] [] [] [] [] []].
Qed.
Lemma starts_selected x t : plain_selected x → starts (selected_text x +:+ t).
Proof. destruct x; simpl; intros Hx; split_plain; rewrite ?string_app_assoc; [by apply starts_name|by apply starts_name|done]. Qed.
Fixpoint tree_ok (t : sql_tree) : Prop :=
  match t with
  | Leaf a => pass Bare 0 a Bare 0 ∧ starts a
  | Node op l r => (op = " and " ∨ op = " or ") ∧ tree_ok l ∧ tree_ok r
  end.
Lemma tree_ok_cond c : plain c → tree_ok (tree c).
Proof.
  induction c; simpl; intros Hc; split_plain.
  - split; [|by apply starts_selected]. apply (pass_app _ _ _ Bare 0); [by apply pass_selected|].
    apply (pass_app _ _ _ Bare 0); [by apply pass_name, name_chars|by apply pass_cast].
  - split; [|by apply starts_selected]. apply (pass_app _ _ _ Bare 0); [by apply pass_selected|].
    destruct negated; by intros rest.
  - split; [|by apply starts_selected]. apply (pass_app _ _ _ Bare 0); [by apply pass_selected|].
    change (pass Bare 0 ((if negated then " not like " else " like ") +:+ "'" +:+ pattern +:+ "'") Bare 0).
    rewrite <- string_app_assoc. apply (pass_app _ _ _ Quoted 0); [destruct negated; by intros rest|].
    apply (pass_app _ _ _ Quoted 0); [by apply pass_value|by intros rest].
  - split; [|by apply starts_name]. 
    replace (t1 +:+ String "." (n1 +:+ op +:+ t2 +:+ String "." n2))
      with ((t1 +:+ "." +:+ n1) +:+ op +:+ t2 +:+ "." +:+ n2) by (by norm_text).
    apply (pass_app _ _ _ Bare 0); [by apply pass_column|].
    apply (pass_app _ _ _ Bare 0); [by apply pass_name, name_chars|by apply pass_column].
  - auto.
  - auto.
Qed.
Fixpoint height (t : sql_tree) : nat :=
  match t with Leaf _ => 0 | Node _ l r => S (Nat.max (height l) (height r)) end.
Definition stop (s : string) : Prop := scan Bare 0 s = ("", s).
Lemma prefix_and s : String.prefix " and " (" and " +:+ s) = true.
Proof. by destruct s. Qed.
Lemma prefix_or s : String.prefix " or " (" or " +:+ s) = true.
Proof. by destruct s. Qed.
Lemma stop_and s : stop (" and " +:+ s).
Proof. by destruct s. Qed.
Lemma stop_or s : stop (" or " +:+ s).
Proof. by destruct s. Qed.
Lemma read_leaf n a rest : pass Bare 0 a Bare 0 → starts a → stop rest → read_expr (S n) (a +:+ rest) = Some (Leaf a, rest).
Proof.
  intros Ha Hs Hstop. specialize (Ha rest). rewrite Hstop in Ha. simpl in Ha. rewrite string_app_nil_r in Ha.
  destruct a as [|c a]; [done|]. simpl in *. rewrite Ha.
  by destruct c as [[] [] [] [] [] [] [] []].
Qed.
Lemma read_tree t n rest :
  tree_ok t → (height t < n)%nat → stop rest → read_expr n (tree_text t +:+ rest) = Some (t, rest).
Proof.
  revert n rest. induction t as [a|op l IHl r IHr]; intros n rest Hok Hn Hstop; (destruct n as [|n]; [lia|]).
  - destruct Hok. by apply read_leaf.
  - destruct Hok as (Hop & Hl & Hr). simpl in Hn. change (tree_text (Node op l r)) with ("(" +:+ tree_text l +:+ op +:+ tree_text r +:+ ")").
    destruct Hop as [->| ->]; norm_text; (rewrite IHl; [|done|lia|by (apply stop_and || apply stop_or)]); simpl.
    + pose proof (prefix_and (tree_text r +:+ String ")" rest)) as Hp. simpl in Hp. rewrite Hp. rewrite IHr; [done|done|lia|by unfold stop].
    + change (String.prefix " and " _) with false. 
      pose proof (prefix_or (tree_text r +:+ String ")" rest)) as Hp. simpl in Hp. rewrite Hp.
      rewrite IHr; [done|done|lia|by unfold stop].
Qed.
Lemma height_length t : tree_ok t → (height t < String.length (tree_text t))%nat.
Proof.
  induction t as [a|op l IHl r IHr]; simpl; [intros [_ Ha]; destruct a; [done|simpl; lia]|].
  intros (_ & Hl & Hr). specialize (IHl Hl). specialize (IHr Hr). rewrite !string_length_app. simpl. lia.
Qed.

(** C38: What a condition's text says is the condition: for every condition built by
    [==], [<], [&], [|], [&&] and [||] from columns and aggregates whose names,
    operators and string values have no quotes, backslashes, braces or NULs (nor, in
    names, blanks and parentheses), the text is written without an error, and reading it
    back by the rules of SQL for parentheses, strings and connectives gives the
    comparisons of the condition in their places, joined as the program joined them. *)
Theorem condition_reads_back c :
  plain c → ∃ s, expr_str true (build c) = Some s ∧ read_sql s = Some (tree c).
Proof.
  intros Hc. exists (tree_text (tree c)). split; [by apply build_written|]. unfold read_sql.
  pose proof (tree_ok_cond c Hc) as Hok.
  rewrite <- (string_app_nil_r (tree_text (tree c))) at 2.
  rewrite read_tree; [done|done|by apply height_length|by unfold stop].
Qed.
Lemma condition_reads_back_witness :
  let c := And (Or (Compare (Column "st" "id") "=" (VInt (-12))) (Is_null (Column "st" "n") true))
             (And (Like (Column "st" "n") false "a (b and c) %") (Compare Count ">" (VInt 3))) in
  ∃ s, expr_str true (build c) = Some s ∧ read_sql s = Some (tree c).
Proof. intros c. apply (condition_reads_back c). vm_compute. exact I. Defined.

(** ** Statements *)
Definition commas (l : list string) : string := String.concat "," l.
Lemma concat_cons x l : String.concat "" (x :: l) = x +:+ String.concat "" l.
Proof. destruct l; by norm_text. Qed.
Lemma commas_cons x l : commas (x :: l) = x +:+ String.concat "" ((λ y, "," +:+ y) <$> l).
Proof.
  revert x. induction l as [|y l IH]; intros x; [simpl; by norm_text|].
  change (commas (x :: y :: l)) with (x +:+ "," +:+ commas (y :: l)). rewrite IH, fmap_cons, concat_cons.
  by norm_text.
Qed.
Lemma write_set_commas item fs :
  write_set false item fs = String.concat "" ((λ f, "," +:+ item f) <$> filter (λ f, is_init_ f) fs) ∧
  write_set true item fs = commas (item <$> filter (λ f, is_init_ f) fs).
Proof.
  induction fs as [|f fs [IHf IHt]]; [done|]. simpl. rewrite filter_cons. destruct (is_init_ f); [|done].
  rewrite decide_True, !fmap_cons, concat_cons, commas_cons, <- list_fmap_compose, IHf by done.
  split; by norm_text.
Qed.

(** An inserted row names the columns that were given a value and has their values in the same places; an update
    from a row sets these columns. *)
Theorem statements_name_set_fields table fs :
  let set := filter (λ f, is_init_ f) fs in
  insert table fs = "INSERT INTO `" +:+ table +:+ "`(" +:+ commas (f_name <$> set) +:+ ") values("
    +:+ commas ((λ f, cast_string (val_ f)) <$> set) +:+ ")" ∧
  to_value (update table fs) = "UPDATE `" +:+ table +:+ "` SET "
    +:+ commas ((λ f, f_name f +:+ "=" +:+ cast_string (val_ f)) <$> set) +:+ " ".
Proof.
  unfold insert, update, to_value. simpl. rewrite !(proj2 (write_set_commas _ _)). split; [done|]. by norm_text.
Qed.

(** Every [where] after the first widens the statement: its conditions are joined by [or], each in its own
    parentheses, and each is read back as written. *)
Theorem wheres_are_alternatives sql c cs :
  plain c → (∀ c, c ∈ cs → plain c) →
  ∃ d, foldl (λ d c, d ≫= db_where_expr (build c)) (db_where_expr (build c) (DbProxy sql "")) cs = Some d ∧
    to_value d = sql +:+ " WHERE (" +:+ tree_text (tree c) +:+ ")"
      +:+ String.concat "" ((λ c, " or (" +:+ tree_text (tree c) +:+ ")") <$> cs) ∧
    ∀ c', c' ∈ c :: cs → read_sql ("(" +:+ tree_text (tree c') +:+ ")") = Some (tree c').
Proof.
  intros Hc Hcs. eexists. split; [|split].
  - unfold db_where_expr at 2, add_where. rewrite build_written by done. simpl.
    assert (∀ w, w ≠ "" → foldl (λ d c, d ≫= db_where_expr (build c)) (Some (DbProxy sql w)) cs =
      Some (DbProxy sql (w +:+ String.concat "" ((λ c, " or (" +:+ tree_text (tree c) +:+ ")") <$> cs)))) as ->; [|done|done].
    clear c Hc. induction cs as [|c cs IH]; intros w Hw; [simpl; by norm_text|].
    rewrite fmap_cons, concat_cons. simpl. unfold db_where_expr at 2, add_where. simpl. rewrite build_written by (apply Hcs; left). simpl.
    rewrite (proj2 (String.eqb_neq w "")) by done.
    rewrite IH; [|intros; apply Hcs; by right|by destruct w]. by norm_text.
  - unfold to_value. simpl. by norm_text.
  - intros c' Hc'. assert (plain c') as Hp by (apply elem_of_cons in Hc' as [->|]; auto).
    pose proof (tree_ok_cond c' Hp) as Hok. pose proof (height_length _ Hok). unfold read_sql. simpl.
    rewrite read_tree; [done|done|rewrite string_length_app; lia|by unfold stop].
Qed.
Lemma wheres_are_alternatives_witness :
  ∃ d, foldl (λ d c, d ≫= db_where_expr (build c)) (db_where_expr (build (Compare (Column "t" "id") "=" (VInt 9)))
         (update_fields "t" [assign (VStr "x") (field_new "t" "name")])) [Compare (Column "t" "id") "=" (VInt 1)] = Some d ∧
    to_value d = "UPDATE `t` SET t.name='x' WHERE (t.id=9) or (t.id=1)".
Proof.
  destruct (wheres_are_alternatives "UPDATE `t` SET t.name='x'" (Compare (Column "t" "id") "=" (VInt 9))
    [Compare (Column "t" "id") "=" (VInt 1)] ltac:(vm_compute; exact I)) as (d & H1 & H2 & _).
  - intros c ->%list_elem_of_singleton. vm_compute. exact I.
  - exists d. split; [exact H1|]. rewrite H2. vm_compute. done.
Defined.
(** [take] and [skip] can be given in either order. *)
Lemma take_skip n m q : query_sql (take m (skip n q)) = query_sql (skip n (take m q)).
Proof. done. Qed.

(** ** Values that are not what they say *)
(** The text of a condition is a format string: a brace in a string value throws where the text is written (a doubled
    one is written once). *)
Theorem brace_in_value_throws x op s c t :
  plain_selected x → name op → all_chars value_char s → c ≠ "{"%char →
  expr_str true (build (Compare x op (VStr (s +:+ "{" +:+ String c t)))) = None.
Proof.
  intros Hx Hop Hs Hc. simpl. unfold expr_value, expr_str.
  assert (∀ p q, all_chars fmt_char p → fmt_write q = None → fmt_write (p +:+ q) = None) as Hw.
  { clear. intros p q. induction p as [|c p IH]; [done|]. simpl. intros [Hc Hp]%andb_prop_elim Hq. rewrite (IH Hp Hq).
    destruct c as [[] [] [] [] [] [] [] []]; try done; simpl; destruct p; simpl; try done. }
  rewrite Hw; [done| |].
  - destruct x; simpl in *; split_plain; repeat apply all_chars_app_intro; auto using name_fmt; done.
  - apply Hw; [by apply name_fmt|]. simpl. rewrite string_app_assoc.
    apply (Hw "'"); [done|]. apply Hw; [by apply value_fmt|]. simpl.
    destruct c as [[] [] [] [] [] [] [] []]; done.
Qed.
Lemma brace_in_value_throws_witness : expr_str true (build (Compare (Column "t" "doc") "=" (VStr "{}"))) = None.
Proof. apply (brace_in_value_throws (Column "t" "doc") "=" "" "}"%char ""); vm_compute; done. Defined.
(** Strings are not escaped: a value can close its quotes and widen the condition. *)
Lemma string_value_widens_condition :
  let c := And (Compare (Column "t" "valid") "=" (VInt 1)) (Compare (Column "t" "name") "=" (VStr "x') or ('a'='a")) in
  ∃ s, expr_str true (build c) = Some s ∧
    read_sql ("(" +:+ s +:+ ")") = Some (Node " or " (Node " and " (Leaf "t.valid=1") (Leaf "t.name='x'")) (Leaf "'a'='a'")).
Proof. eexists. split; vm_compute; done. Qed.
(** A column set to another one is not set at all. *)
Lemma assigned_field_is_not_updated o :
  to_value (update_fields "t" [assign_field o (field_new "t" "n")]) = "UPDATE `t` SET  ".
Proof. done. Qed.
