(* ===== verification/MysqlDb.v ===== *)
(** * The MySQL connection ([network/orm/mysql_db.hpp], [db_common.hpp])

    The MySQL client is a parameter: what it answers to a call, 0 or an error number,
    is a function of the call and of all calls and answers before it.  Handles are
    numbered in the order in which [mysql_init] makes them.  A handle that has been
    closed may not be used: a call on it is undefined behaviour ([None]), and so is
    asking it for its error.  Of [mysql_result] the error number is kept. *)
From stdpp Require Import base option list numbers gmap strings.
From S2P Require Import Prelude.
Local Open Scope Z_scope.

(** ** Definitions *)
Inductive call := Connect | Select_db (db : string) | Query (q : string) | Close.
#[global] Instance call_eq_dec : EqDecision call.
Proof. solve_decision. Defined.
Notation history := (list (nat * call * Z)).
Definition CR_SERVER_GONE_ERROR : Z := 2006.
Definition CR_SERVER_LOST : Z := 2013.

Record mysql_db := MysqlDb {
  conn_ : nat; is_connected_ : bool; query_id_ : Z; db_name_ : string; log_ : bool;
  handles : nat; calls : history
}.
Definition set_connected (b : bool) (d : mysql_db) : mysql_db :=
  MysqlDb (conn_ d) b (query_id_ d) (db_name_ d) (log_ d) (handles d) (calls d).
Definition set_db_name (n : string) (d : mysql_db) : mysql_db :=
  MysqlDb (conn_ d) (is_connected_ d) (query_id_ d) n (log_ d) (handles d) (calls d).
Definition next_query_id (d : mysql_db) : mysql_db :=
  MysqlDb (conn_ d) (is_connected_ d) (query_id_ d + 1) (db_name_ d) (log_ d) (handles d) (calls d).
Definition record (h : nat) (c : call) (r : Z) (d : mysql_db) : mysql_db :=
  MysqlDb (conn_ d) (is_connected_ d) (query_id_ d) (db_name_ d) (log_ d) (handles d) (calls d ++ [(h, c, r)]).
(** [conn_ = mysql_init(...)] *)
Definition mysql_init (d : mysql_db) : mysql_db :=
  MysqlDb (handles d) (is_connected_ d) (query_id_ d) (db_name_ d) (log_ d) (S (handles d)) (calls d).
Definition closed (h : nat) (d : mysql_db) : Prop := (h, Close, 0) ∈ calls d.
#[global] Instance closed_dec h d : Decision (closed h d).
Proof. unfold closed. apply _. Defined.
Definition db_new (db_name : string) (log : bool) : mysql_db :=
  mysql_init (MysqlDb 0 false 0 db_name log 0 []).
(** The error of the last call on a handle. *)
Definition last_error (h : nat) (cs : history) : Z :=
  foldl (λ e c, if decide (c.1.1 = h) then c.2 else e) 0 cs.
Definition mysql_errno (h : nat) (d : mysql_db) : option Z :=
  if decide (closed h d) then None else Some (last_error h (calls d)).
Definition mysql_close (h : nat) (d : mysql_db) : option mysql_db :=
  if decide (closed h d) then None else Some (record h Close 0 d).

Section Client.
Variable server : history → nat → call → Z.
Variable split : string → string → list string.
Definition mysql_call (h : nat) (c : call) (d : mysql_db) : option (Z * mysql_db) :=
  if decide (closed h d) then None else let r := server (calls d) h c in Some (r, record h c r d).

Definition select_db (db_name : string) (d : mysql_db) : option (Z * mysql_db) :=
  let d := set_db_name db_name d in
  '(r, d) ← mysql_call (conn_ d) (Select_db db_name) d;
  if r =? 0 then Some (0, d) else e ← mysql_errno (conn_ d) d; Some (e, d).
Definition connect (d : mysql_db) : option (Z * mysql_db) :=
  if is_connected_ d then Some (0, d)
  else
    '(r, d) ← mysql_call (conn_ d) Connect d;
    if r =? 0 then
      let d := set_connected true d in
      if String.eqb (db_name_ d) "" then Some (0, d) else select_db (db_name_ d) d
    else e ← mysql_errno (conn_ d) d; Some (e, d).
(** What the log asks the handle for. *)
Definition log_error (mysql : nat) (d : mysql_db) : option unit :=
  if log_ d then mysql_errno mysql d ≫= λ _, Some tt else Some tt.
Definition inter_query (mysql : nat) (q : string) (d : mysql_db) : option (Z * mysql_db) :=
  let d := next_query_id d in
  '(r, d) ← mysql_call mysql (Query q) d;
  if r =? 0 then Some (0, d)
  else
    err ← mysql_errno mysql d;
    _ ← log_error mysql d;
    if (err =? CR_SERVER_GONE_ERROR) || (err =? CR_SERVER_LOST) then
      let d := set_connected false d in
      d ← mysql_close (conn_ d) d;
      let d := mysql_init d in
      '(mr, d) ← connect d;
      if negb (mr =? 0) then _ ← log_error mysql d; Some (mr, d)
      else
        '(second_query, d) ← mysql_call mysql (Query q) d;
        _ ← (if second_query =? 0 then if log_ d then Some tt else None else log_error mysql d);
        Some (second_query, d)
    else Some (err, d).
Definition execute (sql_str : string) (d : mysql_db) : option (Z * mysql_db) :=
  '(r, d) ← inter_query (conn_ d) sql_str d;
  if r =? 0 then Some (0, d) else e ← mysql_errno (conn_ d) d; Some (e, d).
Definition create_db (db_name : string) (use_new_db : bool) (d : mysql_db) : option (Z * mysql_db) :=
  '(mr, d) ← execute ("CREATE DATABASE IF NOT EXISTS " +:+ db_name
                      +:+ " DEFAULT CHARSET utf8 COLLATE utf8_general_ci;") d;
  if negb (mr =? 0) then Some (mr, d) else if use_new_db then select_db db_name d else Some (0, d).
(** [execute_batch]: an error is thrown at the statement that failed, and the rest is not run. *)
Fixpoint execute_all (sqls : list string) (d : mysql_db) : option (Z * mysql_db) :=
  match sqls with
  | [] => Some (0, d)
  | s :: sqls =>
      if String.eqb s "" then execute_all sqls d
      else '(mr, d) ← execute s d; if negb (mr =? 0) then Some (mr, d) else execute_all sqls d
  end.
Definition execute_batch (sql_str : string) (d : mysql_db) : option (Z * mysql_db) := execute_all (split sql_str ";") d.
Definition drop_table (name : string) : mysql_db → option (Z * mysql_db) := execute ("DROP TABLE IF EXISTS " +:+ name).
(** [execute_general]: the error, or the rows affected as the client tells. *)
Definition execute_general (affected : Z) (sql_str : string) (d : mysql_db) : option ((Z + Z) * mysql_db) :=
  '(r, d) ← inter_query (conn_ d) sql_str d;
  if r =? 0 then Some (inr affected, d) else e ← mysql_errno (conn_ d) d; Some (inl e, d).
(** [execute_scalar] of a query: the first row's first field is cast without a look at whether there is one. *)
Definition execute_scalar (lexical_cast : string → option Z) (rows : list (list (option string))) (sql_str : string)
    (d : mysql_db) : option ((Z + Z) * mysql_db) :=
  '(r, d) ← inter_query (conn_ d) sql_str d;
  if r =? 0 then
    row ← head rows; field ← head row; text ← field;
    Some (inr (default 0 (lexical_cast text)), d)
  else e ← mysql_errno (conn_ d) d; Some (inl e, d).

(** *** Results *)
(** The columns by name: a later column of a name takes the place of an earlier one. *)
Definition fields_map (names : list string) : gmap string nat :=
  foldl (λ m p, <[p.2 := p.1]> m) ∅ (zip (seq 0 (length names)) names).
Definition row_get (names : list string) (row : list (option string)) (key : string) : option (option string) :=
  index ← fields_map names !! key; row !! index.
End Client.

(** *** The connection string *)
Definition split_to_map (split : string → string → list string) (input : string) : gmap string string :=
  foldl (λ m str, match split str "=" with [k; v] => <[k := v]> m | _ => m end) ∅ (split input ";|").
Record address := Address { ip_ : string; port_ : Z; user_ : string; pwd_ : string; db_ : option string; unix_socket_ : option string }.
(** [None]: the port is not a number and the constructor throws. *)
Definition parse_connect_str (split : string → string → list string) (cast : string → option Z) (s : string) : option address :=
  let args := split_to_map split s in
  port ← cast (default "" (args !! "port"));
  Some (Address (default "" (args !! "ip")) port (default "" (args !! "user")) (default "" (args !! "pwd"))
          (args !! "db") (args !! "unix_socket")).

(** ** Calls *)
Section Laws.
Variable server : history → nat → call → Z.
Variable split : string → string → list string.

Lemma last_error_snoc h c r cs : last_error h (cs ++ [(h, c, r)]) = r.
Proof. unfold last_error. rewrite foldl_app. simpl. by rewrite decide_True. Qed.
Lemma open_after_call h c r d : c ≠ Close → ¬ closed h d → ¬ closed h (record h c r d).
Proof. unfold closed. simpl. rewrite elem_of_app, list_elem_of_singleton. naive_solver. Qed.
Lemma mysql_call_open h c d : ¬ closed h d →
  mysql_call server h c d = Some (server (calls d) h c, record h c (server (calls d) h c) d).
Proof. intros Hd. unfold mysql_call. by rewrite decide_False. Qed.
Lemma errno_after_call h c r d : c ≠ Close → ¬ closed h d → mysql_errno h (record h c r d) = Some r.
Proof. intros Hc Hd. unfold mysql_errno. rewrite decide_False by by apply open_after_call. simpl. by rewrite last_error_snoc. Qed.
Definition lost (r : Z) : Prop := r = CR_SERVER_GONE_ERROR ∨ r = CR_SERVER_LOST.
#[local] Instance lost_dec r : Decision (lost r).
Proof. unfold lost. apply _. Defined.
Lemma lost_bool r : ((r =? CR_SERVER_GONE_ERROR) || (r =? CR_SERVER_LOST)) = bool_decide (lost r).
Proof. apply eq_true_iff_eq. by rewrite orb_true_iff, !Z.eqb_eq, bool_decide_eq_true. Qed.
Lemma query_kept mysql q d :
  ¬ closed mysql d → let r := server (calls d) mysql (Query q) in ¬ lost r →
  inter_query server mysql q d = Some (r, record mysql (Query q) r (next_query_id d)).
Proof.
  intros Hd r Hr. unfold inter_query. rewrite mysql_call_open by done. simpl. fold r.
  destruct (Z.eqb_spec r 0) as [->|Hne]; [done|]. rewrite errno_after_call by done. simpl.
  assert (log_error mysql (record mysql (Query q) r (next_query_id d)) = Some tt) as ->.
  { unfold log_error. destruct (log_ _); [|done]. by rewrite errno_after_call. }
  simpl. rewrite lost_bool, bool_decide_eq_false_2 by done. done.
Qed.
Lemma execute_kept q d :
  ¬ closed (conn_ d) d → let r := server (calls d) (conn_ d) (Query q) in ¬ lost r →
  execute server q d = Some (r, record (conn_ d) (Query q) r (next_query_id d)).
Proof.
  intros Hd r Hr. unfold execute. rewrite query_kept by done. fold r. simpl.
  destruct (Z.eqb_spec r 0) as [->|Hne]; [done|]. simpl. by rewrite errno_after_call.
Qed.

(** As long as the server does not drop the connection: the statements of a batch are sent in order, once each, on
    the connection, the empty ones left out, up to the first the server refuses, whose error the batch returns; every
    statement takes a query number. *)
Fixpoint batch_answers (cs : history) (h : nat) (sqls : list string) : list (string * Z) :=
  match sqls with
  | [] => []
  | s :: sqls =>
      let r := server cs h (Query s) in
      (s, r) :: (if r =? 0 then batch_answers (cs ++ [(h, Query s, r)]) h sqls else [])
  end.
Theorem batch_runs_in_order sql_str d :
  ¬ closed (conn_ d) d → (∀ cs q, ¬ lost (server cs (conn_ d) (Query q))) →
  let sent := batch_answers (calls d) (conn_ d) (filter (λ s, s ≠ "") (split sql_str ";")) in
  ∃ d', execute_batch server split sql_str d = Some (default 0 (snd <$> last sent), d') ∧
    calls d' = calls d ++ ((λ a, (conn_ d, Query a.1, a.2)) <$> sent) ∧
    query_id_ d' = query_id_ d + Z.of_nat (length sent) ∧ is_connected_ d' = is_connected_ d ∧ conn_ d' = conn_ d.
Proof.
  intros Hd Hs. unfold execute_batch. generalize (split sql_str ";") as sqls. intros sqls. revert d Hd Hs.
  induction sqls as [|s sqls IH]; intros d Hd Hs; simpl.
  - exists d. rewrite app_nil_r. split_and!; try done. lia.
  - rewrite filter_cons. destruct (String.eqb_spec s "") as [->|Hne].
    + rewrite decide_False by naive_solver. by apply IH.
    + rewrite decide_True by done. simpl. rewrite execute_kept by done. simpl.
      set (r := server (calls d) (conn_ d) (Query s)). set (d1 := record (conn_ d) (Query s) r (next_query_id d)).
      destruct (Z.eqb_spec r 0) as [Hr|Hr]; simpl.
      * destruct (IH d1) as (d' & Hrun & Hc & Hq & Hconn & Hh); [by apply open_after_call|done|].
        change (conn_ d1) with (conn_ d) in *. change (calls d1) with (calls d ++ [(conn_ d, Query s, r)]) in *.
        exists d'. rewrite Hrun, Hc, Hq, Hconn, Hh. simpl. rewrite <- app_assoc.
        split_and!; try done; [destruct (batch_answers _ _ _); simpl; by rewrite ?Hr|lia].
      * exists d1. simpl. by split_and!.
Qed.

(** A lost connection ends in undefined behaviour, or in an error: where the connection is made again, the statement is
    sent again on the handle that was closed; where it is not and there is a log, the log asks this handle for its
    error. *)
Theorem lost_connection_never_recovers q d r d' :
  lost (server (calls d) (conn_ d) (Query q)) → inter_query server (conn_ d) q d = Some (r, d') →
  r ≠ 0 ∧ log_ d = false.
Proof.
  intros Hl. unfold inter_query. destruct (decide (closed (conn_ d) d)) as [Hd|Hd].
  { unfold mysql_call. by rewrite decide_True. }
  rewrite mysql_call_open by done. set (e := server (calls d) (conn_ d) (Query q)) in *. simpl. fold e.
  destruct (Z.eqb_spec e 0) as [He|He]; [destruct Hl as [Hl|Hl]; rewrite He in Hl; discriminate Hl|].
  rewrite errno_after_call by done. simpl.
  assert (log_error (conn_ d) (record (conn_ d) (Query q) e (next_query_id d)) = Some tt) as ->.
  { unfold log_error. destruct (log_ _); [|done]. by rewrite errno_after_call. }
  simpl. rewrite lost_bool, bool_decide_eq_true_2 by done. unfold mysql_close.
  case_decide as Hc; [done|]. simpl.
  set (d1 := mysql_init _). assert (closed (conn_ d) d1) as Hc1.
  { unfold closed. simpl. apply elem_of_app. right. by left. }
  assert (∀ x d2, connect server d1 = Some (x, d2) → closed (conn_ d) d2 ∧ log_ d2 = log_ d) as Hconn.
  { assert (∀ h c d2 x d3, closed (conn_ d) d2 → log_ d2 = log_ d → mysql_call server h c d2 = Some (x, d3) →
              closed (conn_ d) d3 ∧ log_ d3 = log_ d) as Hk.
    { unfold mysql_call. intros h c d2 x d3 H2 Hlog H3. case_decide; [done|]. simplify_eq. split; [|done].
      unfold closed. simpl. apply elem_of_app. by left. }
    intros x d2. unfold connect, select_db. simpl. intros H. simplify_option_eq.
    repeat match goal with
    | H : mysql_call _ _ _ d1 = Some (_, _) |- _ => apply Hk in H as [? ?]; [|done|done]
    | H : (let '(_, _) := ?p in _) = _ |- _ => destruct p; simplify_option_eq
    | H : context [if ?b then _ else _] |- _ => destruct b eqn:?; simplify_option_eq
    | H : mysql_call _ _ _ _ = Some (_, _) |- _ => apply Hk in H as [? ?]; [|done|done]
    | _ => by split
    end. }
  destruct (connect server d1) as [[mr d2]|] eqn:Hd2; simpl; [|done]. destruct (Hconn _ _ eq_refl) as [Hc2 Hlog].
  destruct (Z.eqb_spec mr 0) as [->|Hmr]; simpl.
  - unfold mysql_call. by rewrite decide_True.
  - unfold log_error. rewrite Hlog. unfold mysql_errno. rewrite decide_True by done.
    destruct (log_ d); simpl; [done|]. by intros [= <- <-].
Qed.

(** A database that cannot be selected leaves the connection counted as made: the first [connect] reports the error,
    and every further one reports success, with no database selected. *)
Theorem failed_select_counts_as_connected d e :
  ¬ closed (conn_ d) d → is_connected_ d = false → db_name_ d ≠ "" →
  server (calls d) (conn_ d) Connect = 0 →
  server (calls d ++ [(conn_ d, Connect, 0)]) (conn_ d) (Select_db (db_name_ d)) = e → e ≠ 0 →
  ∃ d', connect server d = Some (e, d') ∧ connect server d' = Some (0, d').
Proof.
  intros Hd Hc Hn Hconn Hsel He. unfold connect at 1. rewrite Hc, mysql_call_open, Hconn by done. simpl.
  rewrite (proj2 (String.eqb_neq _ _)) by done. unfold select_db.
  rewrite mysql_call_open; [|unfold closed; simpl; rewrite elem_of_app, list_elem_of_singleton; naive_solver].
  simpl. rewrite Hsel. rewrite (proj2 (Z.eqb_neq e 0)) by done.
  rewrite errno_after_call; [|done|unfold closed; simpl; rewrite elem_of_app, list_elem_of_singleton; naive_solver].
  simpl. eexists. split; [done|]. done.
Qed.
(** A scalar query that has no rows dereferences a null row. *)
Theorem scalar_of_no_rows_is_undefined lexical_cast q d :
  ¬ closed (conn_ d) d → server (calls d) (conn_ d) (Query q) = 0 →
  execute_scalar server lexical_cast [] q d = None.
Proof.
  intros Hd Hq. unfold execute_scalar. rewrite query_kept; [|done|rewrite Hq; by intros [?|?]].
  rewrite Hq. done.
Qed.
End Laws.

(** *** Columns *)
Lemma fields_map_from k names (m : gmap string nat) i key :
  foldl (λ m p, <[p.2 := p.1]> m) m (zip (seq k (length names)) names) !! key = Some i →
  m !! key = Some i ∧ key ∉ names ∨ (k ≤ i)%nat ∧ names !! (i - k)%nat = Some key ∧
    ∀ j, (i - k < j)%nat → names !! j ≠ Some key.
Proof.
  revert k m. induction names as [|n names IH]; intros k m; simpl.
  { intros H. left. split; [done|apply not_elem_of_nil]. }
  intros [[H Hk]|(Hle & Hi & Hj)]%IH.
  - destruct (decide (n = key)) as [->|Hne].
    + rewrite lookup_insert_eq in H. simplify_eq. right. rewrite Nat.sub_diag. split_and!; [done|done|].
      intros [|j] Hj Hn; [lia|]. simpl in Hn. by apply list_elem_of_lookup_2 in Hn.
    + rewrite lookup_insert_ne in H by done. left. split; [done|]. by apply not_elem_of_cons.
  - right. split_and!; [lia| |].
    + by replace (i - k)%nat with (S (i - S k)) by lia.
    + intros [|j] Hlt; [lia|]. simpl. apply Hj. lia.
Qed.
(** A field is looked up by its column's name: the row's value in the last column of that name. *)
Theorem row_get_last names row key v :
  row_get names row key = Some v →
  ∃ i, names !! i = Some key ∧ row !! i = Some v ∧ ∀ j, (i < j)%nat → names !! j ≠ Some key.
Proof.
  unfold row_get. intros (i & Hi & Hv)%bind_Some. apply fields_map_from in Hi as [[Hi _]|(_ & Hi & Hj)].
  - by rewrite lookup_empty in Hi.
  - rewrite Nat.sub_0_r in *. by exists i.
Qed.

(** *** Examples *)
Definition split_by (c : Ascii.ascii) : string → list string :=
  fix go s := match s with
    | EmptyString => [""]
    | String d s => match go s with
        | [] => []
        | w :: ws => if Ascii.eqb c d then "" :: w :: ws else String d w :: ws
        end
    end.
Definition split_first (s seps : string) : list string :=
  match seps with EmptyString => [s] | String c _ => split_by c s end.
Definition refuse (word : string) (cs : history) (h : nat) (c : call) : Z :=
  match c with Query q => if String.eqb q word then 1064 else 0 | _ => 0 end.
Lemma batch_runs_in_order_witness :
  execute_batch (refuse "b") split_first "a;;b;c" (db_new "" false) =
    Some (1064, MysqlDb 0 false 2 "" false 1 [(0%nat, Query "a", 0); (0%nat, Query "b", 1064)]).
Proof.
  destruct (batch_runs_in_order (refuse "b") split_first "a;;b;c" (db_new "" false)) as (d' & H & _).
  - unfold closed. apply (bool_decide_unpack _). vm_compute. exact I.
  - intros cs q. unfold refuse. destruct (String.eqb q "b"); by intros [?|?].
  - vm_compute. done.
Defined.
Definition drop_connection (cs : history) (h : nat) (c : call) : Z := match c with Query _ => 2013 | _ => 2003 end.
Definition after_drop : mysql_db :=
  MysqlDb 1 false 1 "" false 2 [(0%nat, Query "q", 2013); (0%nat, Close, 0); (1%nat, Connect, 2003)].
Lemma lost_connection_never_recovers_witness :
  inter_query drop_connection 0 "q" (db_new "" false) = Some (2003, after_drop) ∧ 2003 ≠ 0.
Proof.
  split; [vm_compute; reflexivity|].
  apply (lost_connection_never_recovers drop_connection "q" (db_new "" false) 2003 after_drop); [right; done|].
  vm_compute. reflexivity.
Defined.
Definition no_database (cs : history) (h : nat) (c : call) : Z := match c with Select_db _ => 1049 | _ => 0 end.
Lemma failed_select_counts_as_connected_witness :
  ∃ d', connect no_database (db_new "game" false) = Some (1049, d') ∧ connect no_database d' = Some (0, d').
Proof.
  apply (failed_select_counts_as_connected no_database (db_new "game" false) 1049); try done.
  unfold closed. apply (bool_decide_unpack _). vm_compute. exact I.
Defined.
Lemma scalar_of_no_rows_is_undefined_witness :
  execute_scalar no_database (λ _, None) [] "select id from t" (db_new "" false) = None.
Proof.
  apply (scalar_of_no_rows_is_undefined no_database); [|done].
  unfold closed. apply (bool_decide_unpack _). vm_compute. exact I.
Defined.
Lemma row_get_last_witness : ∃ i, ["id"; "n"; "id"] !! i = Some "id" ∧ [Some "1"; None; Some "2"] !! i = Some (Some "2").
Proof.
  destruct (row_get_last ["id"; "n"; "id"] [Some "1"; None; Some "2"] "id" (Some "2")) as (i & H1 & H2 & _);
    [vm_compute; done|by exists i].
Defined.
(** A connection string is read by its keys, whatever their order. *)
Lemma connect_str_example :
  (λ a, (ip_ a, port_ a, db_ a)) <$> parse_connect_str split_first (λ s, if String.eqb s "3306" then Some 3306 else None)
    "port=3306;ip=localhost;user=root;pwd=123456" = Some ("localhost", 3306, None).
Proof. vm_compute. done. Qed.
