(* ===== verification/DateTime.v ===== *)
(** * Dates and times ([network/base/date_time.hpp])

    A time is a [ptime] of boost, which is a parameter: its distance in microseconds
    from the start of 1970 ([since]), the time at a distance from another ([plus]),
    its date and time of day ([parts]), the numbers [to_tm] fills in.  [mktime] of the
    C library is a parameter of the operations that use it, and so is the time zone.
    [int] is kept at its width, with overflow undefined. *)
From Stdlib Require Import Ascii.
From stdpp Require Import base option list numbers strings pretty.
From S2P Require Import Prelude SqlExpr.
Local Open Scope string_scope.
Local Open Scope Z_scope.

(** ** Definitions *)
Record tm := Tm { year : Z; month : Z; day : Z; hour : Z; minute : Z; second : Z; ms : Z }.

(** *** The text of a time *)
Definition zeros (n : nat) : string := Nat.iter n (String "0"%char) "".
(** [fmt::pad((uint32_t)x, width, '0')] *)
Definition pad (x : Z) (width : nat) : string :=
  let s := pretty (u32 x) in zeros (width - String.length s)%nat +:+ s.
(** [{:+03}] *)
Definition signed_pad (x : Z) : string :=
  (if x <? 0 then "-" else "+") +:+ (let s := pretty (Z.abs x) in zeros (2 - String.length s)%nat +:+ s).
Definition to_string (t : tm) : string :=
  pretty (u32 (year t)) +:+ "-" +:+ pad (month t) 2 +:+ "-" +:+ pad (day t) 2 +:+ " " +:+ pad (hour t) 2
  +:+ ":" +:+ pad (minute t) 2 +:+ ":" +:+ pad (second t) 2.
Definition format_char (zone_hours : Z) (t : tm) (c : ascii) : string :=
  if Ascii.eqb c "Y" then pad (year t) 4
  else if Ascii.eqb c "y" then pad (Z.rem (year t) 100) 4
  else if Ascii.eqb c "m" then pad (month t) 2
  else if Ascii.eqb c "d" || Ascii.eqb c "D" then pad (day t) 2
  else if Ascii.eqb c "h" then pad (if 12 <? hour t then hour t - 12 else hour t) 2
  else if Ascii.eqb c "H" then pad (hour t) 2
  else if Ascii.eqb c "M" then pad (minute t) 2
  else if Ascii.eqb c "s" || Ascii.eqb c "S" then pad (second t) 2
  else if Ascii.eqb c "z" || Ascii.eqb c "Z" then signed_pad zone_hours
  else String c "".
(** The loop of [format]: the text written and what is left of the format. *)
Definition write_before (w : string) (r : string * string) : string * string := (w +:+ r.1, r.2).
Fixpoint format_loop (zone_hours : Z) (t : tm) (s : string) : string * string :=
  match s with
  | EmptyString => ("", "")
  | String c s' =>
      if Ascii.eqb c "}" || Ascii.eqb c "000" then ("", s)
      else
        match s' with
        | String "s"%char s'' =>
            if Ascii.eqb c "m" then write_before (pad (ms t) 3) (format_loop zone_hours t s'')
            else write_before (format_char zone_hours t c) (format_loop zone_hours t s')
        | _ => write_before (format_char zone_hours t c) (format_loop zone_hours t s')
        end
  end.
Definition format (zone_hours : Z) (t : tm) (self_to_string : bool) (s : string) : string * string :=
  let '(colon, rest) := match s with String ":"%char rest => (true, rest) | _ => (false, s) end in
  if colon || self_to_string then
    let '(text, rest) := format_loop zone_hours t rest in
    (text, match rest with String "}"%char rest => rest | _ => rest end)
  else (to_string t, s).
Definition to_string_as (zone_hours : Z) (t : tm) (format_str : string) : string := (format zone_hours t true format_str).1.

(** *** The calendar *)
Definition day_of_month : list Z := [31; 31; 28; 31; 30; 31; 30; 31; 31; 30; 31; 30; 31].
Definition leap (y : Z) : bool :=
  ((Z.rem y 4 =? 0) && negb (Z.rem y 100 =? 0)) || (Z.rem y 400 =? 0).
Definition day_in_month (year month : Z) : Z :=
  let m := if (month <? 1) || (12 <? month) then 0 else month in
  if (m =? 2) && leap year then 29 else nth (Z.to_nat m) day_of_month 0.

(** *** Points in time *)
Section Clock.
Context {ptime : Type} (epoch : ptime) (plus : ptime → Z → ptime) (since : ptime → Z).
(** Seconds of the zone at a time: [total_seconds] less [mktime] of its fields. *)
Variable mktime : ptime → Z.
Definition micro (seconds ms : Z) : Z := seconds * 1000000 + ms * 1000.
(** The private constructor; [from_utc] starts from [localtime]. *)
Definition date_time_of (second ms : Z) (local : Z → ptime) : ptime :=
  let neg_val := if second <? 0 then -1 else 0 in
  let second := if second <? 0 then 0 else second in
  plus (plus (local second) (micro 0 ms)) (micro neg_val 0).
Definition from_time_t (second : Z) : ptime := plus epoch (micro second 0).
Definition from_local (second ms : Z) : ptime := date_time_of second ms from_time_t.
Definition from_local_milliseconds (milliseconds : Z) : ptime :=
  from_local (Z.quot milliseconds 1000) (Z.rem milliseconds 1000).
Definition from_utc_milliseconds (localtime : Z → ptime) (milliseconds : Z) : ptime :=
  date_time_of (Z.quot milliseconds 1000) (Z.rem milliseconds 1000) localtime.
Definition add_ms (t : ptime) (ms : Z) : ptime := plus t (micro 0 ms).
Definition add_seconds (t : ptime) (s : Z) : ptime := plus t (micro s 0).
Definition add_minutes (t : ptime) (m : Z) : ptime := plus t (micro (m * 60) 0).
Definition add_hours (t : ptime) (h : Z) : ptime := plus t (micro (h * 3600) 0).
Definition compare_to (t u : ptime) : Z := if since u <? since t then 1 else if since t =? since u then 0 else -1.
Definition total_seconds (t : ptime) : Z := s32 (Z.quot (since t) 1000000).
Definition total_milliseconds (t : ptime) : Z := Z.quot (since t) 1000.
Definition total_microseconds (t : ptime) : Z := since t.
Definition total_nanoseconds (t : ptime) : Z := since t * 1000.
Definition inter_zone_seconds (t : ptime) : ub Z := i32 (total_seconds t - s32 (mktime t)).
Definition utc_seconds (t : ptime) : ub Z := z ← inter_zone_seconds t; i32 (total_seconds t - z).
Definition utc_milliseconds (t : ptime) : ub Z :=
  z ← inter_zone_seconds t; z ← i32 (z * 1000); Def (total_milliseconds t - z).
Definition utc_nanoseconds (t : ptime) : ub Z :=
  z ← inter_zone_seconds t; z ← i32 (z * 1000); z ← i32 (z * 1000); Def (total_nanoseconds t - z).
Definition zone_hours (now : ptime) : ub Z := z ← inter_zone_seconds now; Def (Z.quot z 3600).
Definition to_utc (now t : ptime) : ub ptime := z ← inter_zone_seconds now; Def (plus t (micro (- z) 0)).
End Clock.

(** ** Texts *)
#[local] Arguments String.append !_ _ / : simpl nomatch.
Definition valid (t : tm) : Prop :=
  1400 ≤ year t ≤ 9999 ∧ 1 ≤ month t ≤ 12 ∧ 1 ≤ day t ≤ 31 ∧ 0 ≤ hour t < 24 ∧ 0 ≤ minute t < 60 ∧ 0 ≤ second t < 60.
Lemma check_range (p : Z → bool) lo n x :
  forallb (λ k, p (lo + Z.of_nat k)) (seq 0 n) = true → lo ≤ x < lo + Z.of_nat n → p x = true.
Proof.
  intros Hp Hx. rewrite forallb_forall in Hp. specialize (Hp (Z.to_nat (x - lo))).
  replace (lo + Z.of_nat (Z.to_nat (x - lo))) with x in Hp by lia. apply Hp, in_seq. lia.
Qed.
Lemma pad2_length x : 0 ≤ x < 100 → String.length (pad x 2) = 2%nat.
Proof.
  intros Hx. apply Nat.eqb_eq. apply (check_range (λ x, Nat.eqb (String.length (pad x 2)) 2) 0 100); [|lia].
  vm_compute. done.
Qed.
Lemma year_length y : 1000 ≤ y ≤ 9999 → String.length (pretty (u32 y)) = 4%nat.
Proof.
  intros Hy. apply Nat.eqb_eq. apply (check_range (λ y, Nat.eqb (String.length (pretty (u32 y))) 4) 1000 (Z.to_nat 9000)); [|lia].
  vm_compute. done.
Qed.
(** The digits of a text, read as a number. *)
Definition digit (c : ascii) : Z := Z.of_nat (nat_of_ascii c) - 48.
Fixpoint read_number (acc : Z) (s : string) : Z :=
  match s with EmptyString => acc | String c s => read_number (10 * acc + digit c) s end.
Lemma read_pad2 x : 0 ≤ x < 100 → read_number 0 (pad x 2) = x.
Proof.
  intros Hx. apply Z.eqb_eq. apply (check_range (λ x, Z.eqb (read_number 0 (pad x 2)) x) 0 100); [|lia].
  vm_compute. done.
Qed.
Lemma read_year y : 1000 ≤ y ≤ 9999 → read_number 0 (pretty (u32 y)) = y.
Proof.
  intros Hy. apply Z.eqb_eq. apply (check_range (λ y, Z.eqb (read_number 0 (pretty (u32 y))) y) 1000 (Z.to_nat 9000)); [|lia].
  vm_compute. done.
Qed.
(** The text is in fixed columns. *)
Definition read_fields (s : string) : Z * Z * Z * Z * Z * Z :=
  let at_ n k := read_number 0 (String.substring n k s) in (at_ 0 4, at_ 5 2, at_ 8 2, at_ 11 2, at_ 14 2, at_ 17 2)%nat.
Definition fields (t : tm) : Z * Z * Z * Z * Z * Z := (year t, month t, day t, hour t, minute t, second t).

Ltac columns := repeat match goal with
  | H : String.length ?s = S _ |- _ => destruct s; [discriminate H|]; apply (f_equal Nat.pred) in H; simpl in H
  | H : String.length ?s = O |- _ => destruct s; [clear H|discriminate H]
  end.
Lemma read_columns y m d h mi s :
  String.length y = 4%nat → String.length m = 2%nat → String.length d = 2%nat → String.length h = 2%nat →
  String.length mi = 2%nat → String.length s = 2%nat →
  read_fields (y +:+ "-" +:+ m +:+ "-" +:+ d +:+ " " +:+ h +:+ ":" +:+ mi +:+ ":" +:+ s) =
    (read_number 0 y, read_number 0 m, read_number 0 d, read_number 0 h, read_number 0 mi, read_number 0 s).
Proof. intros. columns. done. Qed.

(** The text of a time tells the time to the second: its columns read as numbers are its fields (so that two times
    with one text agree to the second), and it is what [to_string] gives for the format ["Y-m-d H:M:S"]. *)
Theorem text_tells_time z t :
  valid t → read_fields (to_string t) = fields t ∧ to_string_as z t "Y-m-d H:M:S" = to_string t.
Proof.
  intros (Hy & Hm & Hd & Hh & Hmi & Hs). split.
  - unfold fields. rewrite <- (read_year (year t)), <- (read_pad2 (month t)), <- (read_pad2 (day t)),
      <- (read_pad2 (hour t)), <- (read_pad2 (minute t)), <- (read_pad2 (second t)) by lia.
    apply read_columns; (apply year_length || apply pad2_length); lia.
  - unfold to_string_as, to_string. simpl. rewrite string_app_nil_r.
    change (format_char z t "Y") with (zeros (4 - String.length (pretty (u32 (year t)))) +:+ pretty (u32 (year t))).
    rewrite year_length by lia. done.
Qed.
Definition epoch_day : tm := Tm 1970 1 2 3 4 5 6.
Lemma text_tells_time_witness :
  read_fields (to_string epoch_day) = (1970, 1, 2, 3, 4, 5) ∧ to_string_as 8 epoch_day "Y-m-d H:M:S" = to_string epoch_day.
Proof. apply (text_tells_time 8 epoch_day). unfold valid. simpl. lia. Defined.
(** The short year has four columns, the hour of midnight is not that of a twelve-hour clock, and a month that is
    followed by an [s] is read as milliseconds. *)
Lemma format_examples :
  to_string_as 8 epoch_day "y|hz|ms|ms}|" = "0070|03+08|006|006" ∧
  to_string_as (-3) (Tm 1970 1 2 0 4 5 6) ":h:s" = "00:05" ∧
  format 8 epoch_day false "} rest" = (to_string epoch_day, "} rest").
Proof. vm_compute. done. Qed.

(** ** The calendar *)
(** The days before the first of a month, counted from the first of March of the year 0. *)
Definition days_before (y m : Z) : Z :=
  let y := if m <=? 2 then y - 1 else y in
  365 * y + y / 4 - y / 100 + y / 400 + (153 * ((m + 9) `mod` 12) + 2) / 5.
Lemma leap_spec y :
  leap y = true ↔ y `mod` 4 = 0 ∧ y `mod` 100 ≠ 0 ∨ y `mod` 400 = 0.
Proof.
  unfold leap. rewrite orb_true_iff, andb_true_iff, negb_true_iff, Z.eqb_neq, !Z.eqb_eq.
  rewrite !Z.rem_mod_eq_0 by lia. split; intros [[? H]|?]; auto; left; (split; [done|]); intros Hr; apply H;
    by apply Z.rem_mod_eq_0.
Qed.
Lemma div_pred y k : 0 < k → (y - 1) / k = y / k - (if bool_decide (y `mod` k = 0) then 1 else 0).
Proof.
  intros Hk. pose proof (Z.div_mod y k ltac:(lia)). pose proof (Z.mod_pos_bound y k Hk). case_bool_decide as Hm.
  - symmetry. apply (Z.div_unique_pos _ _ _ (k - 1)); lia.
  - rewrite Z.sub_0_r. symmetry. apply (Z.div_unique_pos _ _ _ (y `mod` k - 1)); lia.
Qed.
(** The days of the months before [m] in the year that starts in March. *)
Definition march_days (m : Z) : Z := (153 * ((m + 9) `mod` 12) + 2) / 5.
Lemma year_days y : 365 * y + y / 4 - y / 100 + y / 400 -
  (365 * (y - 1) + (y - 1) / 4 - (y - 1) / 100 + (y - 1) / 400) = if leap y then 366 else 365.
Proof.
  rewrite !div_pred by lia. destruct (leap y) eqn:Hl.
  - apply leap_spec in Hl. repeat case_bool_decide; Z.to_euclidean_division_equations; lia.
  - assert (¬ leap y = true) as Hn by congruence. rewrite leap_spec in Hn.
    repeat case_bool_decide; Z.to_euclidean_division_equations; lia.
Qed.
Ltac constants := repeat match goal with
  | |- context [march_days ?k] => let v := eval vm_compute in (march_days k) in change (march_days k) with v
  | |- context [nth ?k day_of_month 0] =>
      let v := eval vm_compute in (nth k day_of_month 0) in change (nth k day_of_month 0) with v
  | |- context [?a <=? 2] => let v := eval vm_compute in (a <=? 2) in change (a <=? 2) with v
  end.
(** A month has the days between its first and the first of the next month by the Gregorian calendar. *)
Theorem day_in_month_calendar y m :
  1 ≤ m ≤ 12 →
  day_in_month y m = (if m =? 12 then days_before (y + 1) 1 else days_before y (m + 1)) - days_before y m.
Proof.
  intros Hm. pose proof (year_days y) as Hy.
  assert (m = 1 ∨ m = 2 ∨ m = 3 ∨ m = 4 ∨ m = 5 ∨ m = 6 ∨ m = 7 ∨ m = 8 ∨ m = 9 ∨ m = 10 ∨ m = 11 ∨ m = 12) as Hcases by lia.
  unfold day_in_month, days_before. fold (march_days m) (march_days (m + 1)) (march_days 1).
  repeat destruct Hcases as [->|Hcases]; try subst m; constants; simpl; rewrite ?Z.add_simpl_r; try lia.
  destruct (leap y); lia.
Qed.
Lemma day_in_month_calendar_witness :
  day_in_month 2000 2 = days_before 2000 3 - days_before 2000 2 ∧ day_in_month 1900 12 = 31.
Proof. split; [apply (day_in_month_calendar 2000 2); lia|done]. Defined.

(** ** Points in time *)
Section Times.
Context {ptime : Type} (epoch : ptime) (plus : ptime → Z → ptime) (since : ptime → Z) (mktime : ptime → Z).
Hypothesis since_epoch : since epoch = 0.
Hypothesis since_plus : ∀ t d, since (plus t d) = since t + d.

(** Milliseconds since 1970 come back from the local time made of them, back to the last second of 1969; all earlier
    times fall into the second before that. *)
Theorem milliseconds_roundtrip x :
  total_milliseconds since (from_local_milliseconds epoch plus x) =
    if bool_decide (-1000 < x) then x else -1000 + Z.rem x 1000.
Proof.
  unfold total_milliseconds, from_local_milliseconds, from_local, date_time_of, from_time_t, micro.
  rewrite !since_plus, since_epoch. pose proof (Z.quot_rem' x 1000) as Hx.
  pose proof (Z.rem_bound_abs x 1000 ltac:(lia)) as Hr.
  case_bool_decide as Hlt.
  - rewrite (proj2 (Z.ltb_ge _ _)) by (clear -Hlt; Z.to_euclidean_division_equations; lia).
    replace (0 + _ + _ + _) with (x * 1000) by lia. by apply Z.quot_mul.
  - assert (Z.quot x 1000 < 0) as Hq by (clear -Hlt; Z.to_euclidean_division_equations; lia). rewrite (proj2 (Z.ltb_lt _ _)) by done.
    replace (0 + _ + _ + _) with ((-1000 + Z.rem x 1000) * 1000) by lia. by apply Z.quot_mul.
Qed.
(** The seconds of a time in universal time are what [mktime] says. *)
Theorem utc_seconds_mktime t z :
  inter_zone_seconds since mktime t = Def z → utc_seconds since mktime t = Def (s32 (mktime t)).
Proof.
  intros Hz. unfold utc_seconds. rewrite Hz. simpl. unfold inter_zone_seconds in Hz. apply i32_Def in Hz as [-> _].
  replace (_ - (_ - _)) with (s32 (mktime t)) by lia. apply i32_in. by apply (to_signed_range 32).
Qed.
(** The nanoseconds in universal time overflow [int] in every zone more than 35 minutes from Greenwich (and elsewhere
    the zone is subtracted in microseconds). *)
Theorem utc_nanoseconds_overflow t z :
  inter_zone_seconds since mktime t = Def z → 2147 < Z.abs z → utc_nanoseconds since mktime t = Undef.
Proof.
  intros Hz Hfar. unfold utc_nanoseconds. rewrite Hz. simpl. unfold i32. destruct (int_range (z * 1000)); [|done]. simpl.
  destruct (int_range (z * 1000 * 1000)) eqn:Hr; [|done]. apply int_range_spec in Hr. lia.
Qed.
Lemma compare_to_spec t u : compare_to since t u = match since t ?= since u with Gt => 1 | Eq => 0 | Lt => -1 end.
Proof.
  unfold compare_to. destruct (Z.compare_spec (since t) (since u)) as [H|H|H].
  - rewrite (proj2 (Z.ltb_ge _ _)) by lia. by rewrite (proj2 (Z.eqb_eq _ _)).
  - rewrite (proj2 (Z.ltb_ge _ _)) by lia. by rewrite (proj2 (Z.eqb_neq _ _)) by lia.
  - by rewrite (proj2 (Z.ltb_lt _ _)).
Qed.
End Times.
(** Times as microseconds, eight hours east of Greenwich. *)
Definition east (t : Z) : Z := Z.quot t 1000000 - 28800.
Lemma milliseconds_roundtrip_witness :
  total_milliseconds id (from_local_milliseconds 0 Z.add (-5500)) = -1500.
Proof. apply (milliseconds_roundtrip 0 Z.add id eq_refl (λ _ _, eq_refl) (-5500)). Defined.
Lemma utc_seconds_mktime_witness : utc_seconds id east 90000000000 = Def 61200.
Proof. apply (utc_seconds_mktime id east 90000000000 28800). vm_compute. done. Defined.
Lemma utc_nanoseconds_overflow_witness : utc_nanoseconds id east 90000000000 = Undef.
Proof. apply (utc_nanoseconds_overflow id east 90000000000 28800); [vm_compute; done|lia]. Defined.
