(* ===== verification/Waitable.v ===== *)
(** * Waitable objects ([network/base/waitable_object.hpp]) and the commands that wait
    ([network/cmder/base_waitable_cmder.hpp])

    A command waits for a result that [icmder_manager::notify_waiting_cmder] hands
    over from other threads: the command registers itself, waits for its waitable
    with or without a timeout, resets it and unregisters.  A machine whose steps are
    the pieces the threads run without interruption; a notification is taken from the
    manager and given to the command in two steps, as the code does outside its lock. *)
From stdpp Require Import base option list numbers.
From S2P Require Import Prelude.
Local Open Scope Z_scope.

(** ** Definitions *)
(** *** [waitable<int>]; its object keeps whether it is over *)
Record waitable := Waitable { result_ : option Z; is_over_ : bool }.
Definition waitable_new : waitable := Waitable None false.
Definition set (v : Z) (w : waitable) : waitable := Waitable (Some v) true.
Definition reset (w : waitable) : waitable := if is_over_ w then Waitable None false else w.
(** What the predicate of the condition variable lets through. *)
Definition wait_over (w : waitable) : bool := is_over_ w.
(** [get(..).get_value_or(-1)] *)
Definition get_value_or (w : waitable) : Z := default (-1) (result_ w).

(** *** The command's thread, and the notifiers *)
Inductive wait_phase :=
| Ph_idle
| Ph_waiting                              (* registered, in [get] *)
| Ph_got (r : Z)
| Ph_reset (r : Z).                       (* to unregister and return *)
Record wait_state := WaitState {
  phase : wait_phase;
  wait_result_ : waitable;
  waiting_cmder_ : bool;                  (* the manager knows the command *)
  taken : list Z;                         (* results taken by notifiers, not given yet *)
  notified : list Z;                      (* results for which a waiting command was found *)
  returned : list Z                       (* what [wait] returned *)
}.
Definition wait_new : wait_state := WaitState Ph_idle waitable_new false [] [] [].
Inductive wlabel :=
| WL_wait                                 (* set_waiting_cmder, into [get] *)
| WL_over                                 (* the condition holds *)
| WL_timeout                              (* [wait_for] gives up *)
| WL_reset
| WL_clear                                (* clear_waiting_cmder, and [wait] returns *)
| WL_take (result : Z)                    (* notify_waiting_cmder, under the lock *)
| WL_notify (i : nat).                    (* its [notify_waiting_result] *)
Definition wstep (timed : bool) (l : wlabel) (s : wait_state) : wait_state :=
  match l, phase s with
  | WL_wait, Ph_idle =>
      WaitState Ph_waiting (wait_result_ s) true (taken s) (notified s) (returned s)
  | WL_over, Ph_waiting =>
      if wait_over (wait_result_ s)
      then WaitState (Ph_got (get_value_or (wait_result_ s))) (wait_result_ s) (waiting_cmder_ s)
             (taken s) (notified s) (returned s)
      else s
  | WL_timeout, Ph_waiting =>
      if timed
      then WaitState (Ph_got (get_value_or (wait_result_ s))) (wait_result_ s) (waiting_cmder_ s)
             (taken s) (notified s) (returned s)
      else s
  | WL_reset, Ph_got r =>
      WaitState (Ph_reset r) (reset (wait_result_ s)) (waiting_cmder_ s) (taken s) (notified s) (returned s)
  | WL_clear, Ph_reset r =>
      WaitState Ph_idle (wait_result_ s) false (taken s) (notified s) (returned s ++ [r])
  | WL_take v, _ =>
      if waiting_cmder_ s
      then WaitState (phase s) (wait_result_ s) false (taken s ++ [v]) (notified s ++ [v]) (returned s)
      else s
  | WL_notify i, _ =>
      match taken s !! i with
      | Some v => WaitState (phase s) (set v (wait_result_ s)) (waiting_cmder_ s) (delete i (taken s))
                    (notified s) (returned s)
      | None => s
      end
  | _, _ => s
  end.
Definition wrun (timed : bool) (ls : list wlabel) (s : wait_state) : wait_state :=
  foldl (λ s l, wstep timed l s) s ls.

(** ** Waits without a timeout get their own notification *)
(** Where the notification of the wait in progress is. *)
Definition untimed_ok (s : wait_state) : Prop :=
  match phase s with
  | Ph_idle => waiting_cmder_ s = false ∧ taken s = [] ∧ is_over_ (wait_result_ s) = false ∧
               notified s = returned s
  | Ph_waiting =>
      (waiting_cmder_ s = true ∧ taken s = [] ∧ is_over_ (wait_result_ s) = false ∧ notified s = returned s) ∨
      ∃ v, waiting_cmder_ s = false ∧ notified s = returned s ++ [v] ∧
        (taken s = [v] ∧ is_over_ (wait_result_ s) = false ∨ taken s = [] ∧ wait_result_ s = Waitable (Some v) true)
  | Ph_got r => waiting_cmder_ s = false ∧ taken s = [] ∧ wait_result_ s = Waitable (Some r) true ∧
                notified s = returned s ++ [r]
  | Ph_reset r => waiting_cmder_ s = false ∧ taken s = [] ∧ is_over_ (wait_result_ s) = false ∧
                  notified s = returned s ++ [r]
  end.
Lemma wstep_untimed l s : untimed_ok s → untimed_ok (wstep false l s).
Proof.
  destruct s as [ph w wc tk nt rt]. unfold untimed_ok, wstep.
  destruct l as [| | | | |v|i], ph as [| |r|r]; simpl; try done; intros Hs;
    repeat match goal with
    | H : _ ∧ _ |- _ => destruct H
    | H : _ ∨ _ |- _ => destruct H
    | H : ∃ _, _ |- _ => destruct H
    end; subst; unfold wait_over, get_value_or, reset; simpl;
    repeat match goal with H : is_over_ w = _ |- _ => rewrite ?H; revert H end; intros; simpl;
    try destruct i as [|i]; simpl;
    first [done | solve [split_and!; done] | solve [left; split_and!; done]
          | right; eexists; split_and!; [done..|]; first [left; split_and!; done | right; split_and!; done]].
Qed.

(** ** Theorems *)
(** When waits have no timeout, they return the notifications that found the
    command waiting, each its own and in their order: what was returned so far is what
    was notified, less at most the one that the wait in progress is about to return. In
    particular none is lost and none is seen twice. *)
Theorem untimed_waits_get_notifications (ls : list wlabel) (s : wait_state) :
  wrun false ls wait_new = s →
  ∃ rest, notified s = returned s ++ rest ∧ (length rest ≤ 1)%nat ∧ (phase s = Ph_idle → rest = []).
Proof.
  intros <-. assert (untimed_ok (wrun false ls wait_new)) as Hs.
  { unfold wrun. assert (untimed_ok wait_new) as H0 by done. revert H0. generalize wait_new.
    induction ls as [|l ls IH]; intros s Hs; simpl; [done|]. by apply IH, wstep_untimed. }
  unfold untimed_ok in Hs. destruct (phase _) as [| |r|r].
  - destruct Hs as (_ & _ & _ & ->). exists []. rewrite app_nil_r. by split_and!; [|simpl; lia|].
  - destruct Hs as [(_ & _ & _ & ->)|(v & _ & -> & _)].
    + exists []. rewrite app_nil_r. by split_and!; [|simpl; lia|].
    + exists [v]. by split_and!; [|simpl; lia|].
  - destruct Hs as (_ & _ & _ & ->). exists [r]. by split_and!; [|simpl; lia|].
  - destruct Hs as (_ & _ & _ & ->). exists [r]. by split_and!; [|simpl; lia|].
Qed.
Lemma untimed_waits_get_notifications_witness :
  ∃ rest, [5; 6] = [5] ++ rest ∧ (length rest ≤ 1)%nat.
Proof.
  destruct (untimed_waits_get_notifications
    [WL_take 4; WL_wait; WL_timeout; WL_take 5; WL_notify 0; WL_over; WL_reset; WL_clear; WL_wait; WL_take 6]
    _ eq_refl) as (rest & Hn & Hl & _).
  exists rest. split; [exact Hn|exact Hl].
Defined.
(** With a timeout, a notification that comes too late answers the next wait. *)
Example late_notification_answers_next_wait :
  let s := wrun true [WL_wait; WL_take 5; WL_timeout; WL_reset; WL_clear; WL_notify 0;
                      WL_wait; WL_over; WL_reset; WL_clear] wait_new in
  (notified s, returned s) = ([5], [-1; 5]).
Proof. vm_compute. reflexivity. Qed.
