(* ===== verification/ThreadPool.v ===== *)
(** * The thread pool ([network/thread/thread_pool.hpp])

    Worker threads take tasks from a queue under a mutex and wait for a condition
    variable while there is none; [close] lets them finish what is queued and joins
    them.  A machine of interleaved steps, each the part of a thread between two
    points where another may run: the critical sections, the notifications after
    them, a task.  The owner calls [init] and [close] one after the other; any thread
    enqueues.  Tasks are known by numbers. *)
From stdpp Require Import base option list numbers.
From S2P Require Import Prelude.

(** ** Definitions *)
Inductive worker :=
| W_check                                 (* about to take the mutex and test the condition *)
| W_sleeping                              (* in [condition.wait] *)
| W_running (task : nat)
| W_exited.
Inductive owner := O_free | O_notify | O_join.
Record thread_pool := ThreadPool {
  workers : list worker;
  tasks : list nat;
  stop : bool;
  the_owner : owner;
  notifying : nat;                        (* callers between [emplace] and [notify_one] *)
  accepted : list nat;                    (* tasks enqueued, taken and done so far *)
  taken : list nat;
  done_ : list nat
}.
(** [thread_pool()]; [init] starts the workers of a pool that is stopped. *)
Definition pool_new : thread_pool := ThreadPool [] [] true O_free 0 [] [] [].
Definition init (threads : nat) (p : thread_pool) : thread_pool :=
  if negb (stop p) then p
  else ThreadPool (workers p ++ replicate threads W_check) (tasks p) false (the_owner p) (notifying p)
         (accepted p) (taken p) (done_ p).
(** [enqueue] up to its notification; it throws at a stopped pool or one without
    workers. *)
Definition enqueue (task : nat) (p : thread_pool) : option thread_pool :=
  if stop p then None
  else match workers p with
       | [] => None
       | _ => Some (ThreadPool (workers p) (tasks p ++ [task]) (stop p) (the_owner p) (S (notifying p))
                      (accepted p ++ [task]) (taken p) (done_ p))
       end.
Definition set_worker (i : nat) (w : worker) (p : thread_pool) : thread_pool :=
  ThreadPool (<[i := w]> (workers p)) (tasks p) (stop p) (the_owner p) (notifying p) (accepted p) (taken p) (done_ p).
Definition wait_tasks_size (p : thread_pool) : nat := length (tasks p).

(** A worker's next step: the test of the condition, which takes a task, goes to sleep
    or leaves; or the task it has. *)
Definition worker_step (i : nat) (p : thread_pool) : thread_pool :=
  match workers p !! i with
  | Some W_check =>
      match tasks p with
      | [] => set_worker i (if stop p then W_exited else W_sleeping) p
      | t :: ts =>
          ThreadPool (<[i := W_running t]> (workers p)) ts (stop p) (the_owner p) (notifying p)
            (accepted p) (taken p ++ [t]) (done_ p)
      end
  | Some (W_running t) =>
      ThreadPool (<[i := W_check]> (workers p)) (tasks p) (stop p) (the_owner p) (notifying p)
        (accepted p) (taken p) (done_ p ++ [t])
  | _ => p
  end.
Definition wake (w : worker) : worker := match w with W_sleeping => W_check | w => w end.
Definition is_exited (w : worker) : bool := match w with W_exited => true | _ => false end.

Inductive label :=
| T_init (threads : nat)
| T_enqueue (task : nat)
| T_notify_one (i : nat)                  (* wakes worker [i], if any sleeps one that does *)
| T_wake (i : nat)                        (* spuriously *)
| T_worker (i : nat)
| T_close                                 (* sets [stop] *)
| T_notify_all
| T_join.                                 (* all workers have left *)
Definition sleeps (w : worker) : bool := match w with W_sleeping => true | _ => false end.
Definition step (l : label) (p : thread_pool) : thread_pool :=
  match l with
  | T_init n => match the_owner p with O_free => init n p | _ => p end
  | T_enqueue t => default p (enqueue t p)
  | T_notify_one i =>
      match notifying p with
      | O => p
      | S n =>
          let q ws := ThreadPool ws (tasks p) (stop p) (the_owner p) n (accepted p) (taken p) (done_ p) in
          match workers p !! i with
          | Some W_sleeping => q (<[i := W_check]> (workers p))
          | _ => if existsb sleeps (workers p) then p else q (workers p)
          end
      end
  | T_wake i => match workers p !! i with Some W_sleeping => set_worker i W_check p | _ => p end
  | T_worker i => worker_step i p
  | T_close =>
      match the_owner p with
      | O_free =>
          if stop p then p
          else ThreadPool (workers p) (tasks p) true O_notify (notifying p) (accepted p) (taken p) (done_ p)
      | _ => p
      end
  | T_notify_all =>
      match the_owner p with
      | O_notify => ThreadPool (wake <$> workers p) (tasks p) (stop p) O_join (notifying p)
                      (accepted p) (taken p) (done_ p)
      | _ => p
      end
  | T_join =>
      match the_owner p with
      | O_join =>
          if forallb is_exited (workers p)
          then ThreadPool [] (tasks p) (stop p) O_free (notifying p) (accepted p) (taken p) (done_ p)
          else p
      | _ => p
      end
  end.
Definition run (ls : list label) (p : thread_pool) : thread_pool := foldl (λ p l, step l p) p ls.

(** ** What every step keeps *)
Definition awake (w : worker) : bool := match w with W_check | W_running _ => true | _ => false end.
Definition running (w : worker) : list nat := match w with W_running t => [t] | _ => [] end.
Definition all_running (l : list worker) : list nat := l ≫= running.
Record pool_ok (p : thread_pool) : Prop := {
  ok_queue : accepted p = taken p ++ tasks p;
  ok_taken : taken p ≡ₚ done_ p ++ all_running (workers p);
  ok_exited : 0 < count is_exited (workers p) → stop p = true ∧ tasks p = [];
  ok_empty : workers p = [] → tasks p = [];
  ok_owner : match the_owner p with
             | O_free => stop p = true → workers p = []
             | O_notify => stop p = true
             | O_join => stop p = true ∧ count sleeps (workers p) = 0
             end;
  ok_awake : length (tasks p) <= notifying p + count awake (workers p) ∨ count sleeps (workers p) = 0
}.

Lemma running_insert (l : list worker) i w v :
  l !! i = Some w → all_running (<[i := v]> l) ++ running w ≡ₚ all_running l ++ running v.
Proof.
  intros Hi. rewrite <- (take_drop_middle l i w Hi) at 2.
  rewrite (insert_take_drop l i v) by (by eapply lookup_lt_Some).
  unfold all_running. rewrite !bind_app, !bind_cons. solve_Permutation.
Qed.
Lemma insert_nil (l : list worker) i w : <[i := w]> l = [] → l = [].
Proof. intros Hl. apply nil_length_inv. by rewrite <- (length_insert l i w), Hl. Qed.

(** Moving one worker between phases. *)
Lemma move_ok (p : thread_pool) i w v (n : nat) ts tk dn :
  pool_ok p → workers p !! i = Some w →
  accepted p = tk ++ ts →
  tk ++ running w ≡ₚ dn ++ all_running (workers p) ++ running v →
  (is_exited w = false) → (is_exited v = true → stop p = true ∧ ts = []) → (ts = [] ∨ ts = tasks p ∨ count is_exited (workers p) = 0) →
  (the_owner p = O_join → sleeps v = false) →
  (length ts <= n + count awake (<[i := v]> (workers p)) ∨ count sleeps (<[i := v]> (workers p)) = 0) →
  pool_ok (ThreadPool (<[i := v]> (workers p)) ts (stop p) (the_owner p) n (accepted p) tk dn).
Proof.
  intros Hp Hi Hq Ht Hw Hv Hts Hs Ha. split; simpl; try done.
  - apply (Permutation_app_inv_r (running w)). rewrite Ht, <- app_assoc. f_equiv. symmetry. by apply running_insert.
  - intros Hc. destruct (is_exited v) eqn:He; [by apply Hv|].
    pose proof (count_insert is_exited _ _ _ v Hi) as Hi'. rewrite Hw, He in Hi'.
    assert (0 < count is_exited (workers p)) as Hx by (simpl in *; lia).
    destruct (ok_exited p Hp Hx) as [Hst Htk]. split; [done|]. destruct Hts as [?|[->|?]]; done || lia.
  - intros Hn%insert_nil. by rewrite Hn in Hi.
  - pose proof (ok_owner p Hp) as Ho. destruct (the_owner p); [|done|].
    + intros Hst. apply Ho in Hst. by rewrite Hst in Hi.
    + destruct Ho as [Hst Hz]. split; [done|]. specialize (Hs eq_refl).
      pose proof (count_insert sleeps _ _ _ v Hi) as Hi'. rewrite Hs in Hi'. simpl in *. lia.
Qed.

Lemma pool_new_ok : pool_ok pool_new.
Proof. split; simpl; try done. by right. Qed.
Lemma all_running_replicate n : all_running (replicate n W_check) = [].
Proof. induction n as [|n IH]; [done|]. unfold all_running in *. simpl. done. Qed.
Lemma init_keeps n p : pool_ok p → the_owner p = O_free → pool_ok (init n p).
Proof.
  intros Hp Ho. unfold init. destruct (stop p) eqn:Hst; simpl; [|done].
  pose proof (ok_owner p Hp) as Hw. rewrite Ho in Hw. specialize (Hw Hst).
  pose proof (ok_empty p Hp Hw) as Ht. pose proof (ok_taken p Hp) as Htk. rewrite Hw in Htk.
  split; simpl; rewrite ?Hw, ?Ht, ?Ho; simpl; try done.
  - rewrite (ok_queue p Hp), Ht. done.
  - by rewrite all_running_replicate.
  - rewrite count_replicate. simpl. lia.
  - left. lia.
Qed.
Lemma enqueue_ok t p q : pool_ok p → enqueue t p = Some q → pool_ok q.
Proof.
  intros Hp. unfold enqueue. destruct (stop p) eqn:Hst; [done|]. destruct (workers p) as [|w ws] eqn:Hw; [done|].
  intros [= <-]. destruct Hp as [Hq Htk Hex Hem Hown Haw]. rewrite Hw, Hst in *. split; simpl in *; try done.
  - by rewrite Hq, app_assoc.
  - intros Hc%Hex. naive_solver.
  - rewrite length_app. simpl. destruct Haw as [Ha|Ha]; [left; lia|by right].
Qed.
Lemma worker_step_ok i p : pool_ok p → pool_ok (worker_step i p).
Proof.
  intros Hp. unfold worker_step. destruct (workers p !! i) as [w|] eqn:Hi; [|done].
  pose proof (ok_awake p Hp) as Ha. pose proof (ok_owner p Hp) as Ho.
  destruct w as [| |t|]; try done.
  - destruct (tasks p) as [|t ts] eqn:Ht.
    + unfold set_worker. rewrite Ht. pose proof (ok_queue p Hp) as Hq. rewrite Ht in Hq.
      apply (move_ok p i W_check); try done.
      * simpl. rewrite app_nil_r. pose proof (ok_taken p Hp) as Htk. by destruct (stop p); simpl; rewrite app_nil_r.
      * by destruct (stop p).
      * by left.
      * intros Hj. rewrite Hj in Ho. destruct Ho as [-> _]. done.
      * left. simpl. lia.
    + pose proof (ok_queue p Hp) as Hq. rewrite Ht in Hq.
      assert (count is_exited (workers p) = 0) as Hx.
      { destruct (Nat.eq_dec (count is_exited (workers p)) 0) as [|Hx%Nat.neq_0_lt_0]; [done|].
        destruct (ok_exited p Hp Hx) as [_ Hx']. by rewrite Hx' in Ht. }
      apply (move_ok p i W_check); try done.
      * by rewrite <- app_assoc.
      * simpl. rewrite app_nil_r, (ok_taken p Hp), <- app_assoc. done.
      * auto.
      * pose proof (count_insert awake _ _ _ (W_running t) Hi) as H1.
        pose proof (count_insert sleeps _ _ _ (W_running t) Hi) as H2. simpl in *. lia.
  - apply (move_ok p i (W_running t)); try done.
    + apply (ok_queue p Hp).
    + simpl. rewrite (ok_taken p Hp). solve_Permutation.
    + auto.
    + pose proof (count_insert awake _ _ _ W_check Hi) as H1.
      pose proof (count_insert sleeps _ _ _ W_check Hi) as H2. simpl in *. lia.
Qed.
Lemma wake_ok i p n :
  pool_ok p → workers p !! i = Some W_sleeping → (n <= notifying p <= S n) →
  pool_ok (ThreadPool (<[i := W_check]> (workers p)) (tasks p) (stop p) (the_owner p) n
             (accepted p) (taken p) (done_ p)).
Proof.
  intros Hp Hi Hn. pose proof (ok_awake p Hp) as Ha.
  pose proof (count_insert awake _ _ _ W_check Hi) as H1. pose proof (count_insert sleeps _ _ _ W_check Hi) as H2.
  apply (move_ok p i W_sleeping); try done.
  - apply (ok_queue p Hp).
  - simpl. rewrite !app_nil_r. apply (ok_taken p Hp).
  - auto.
  - simpl in *. lia.
Qed.

Lemma sleeps_exists l : existsb sleeps l = false → count sleeps l = 0.
Proof.
  intros He. destruct (Nat.eq_dec (count sleeps l) 0) as [|Hc]; [done|]. exfalso.
  destruct (count_exists sleeps l) as (i & w & Hi & Hw); [lia|]. apply list_elem_of_lookup_2 in Hi.
  assert (existsb sleeps l = true) as Ht; [|congruence]. apply existsb_exists. exists w. by rewrite <- list_elem_of_In.
Qed.
Lemma wake_counts l :
  count is_exited (wake <$> l) = count is_exited l ∧ count sleeps (wake <$> l) = 0 ∧
  all_running (wake <$> l) = all_running l.
Proof.
  induction l as [|w l (H1 & H2 & H3)]; [done|]. rewrite fmap_cons. unfold all_running in *.
  cbn [count]. rewrite !bind_cons, H1, H2, H3. by destruct w.
Qed.
Lemma exited_all l : forallb is_exited l = true → all_running l = [] ∧ (l ≠ [] → 0 < count is_exited l).
Proof.
  induction l as [|w l IH]; [done|]. simpl. intros [Hw Hl]%andb_true_iff. destruct w; try done.
  destruct (IH Hl) as [Hr _]. unfold all_running in *. simpl. rewrite Hr. split; [done|lia].
Qed.
Lemma pool_step_ok l p : pool_ok p → pool_ok (step l p).
Proof.
  intros Hp. destruct l as [n|t|i|i|i| | |]; simpl.
  - destruct (the_owner p) eqn:Ho; [by apply init_keeps|done|done].
  - destruct (enqueue t p) as [q|] eqn:He; [by eapply enqueue_ok|done].
  - destruct (notifying p) as [|n] eqn:Hn; [done|].
    destruct (workers p !! i) as [w|] eqn:Hi; [destruct w|];
      try (destruct (existsb sleeps (workers p)) eqn:He; [done|]; apply sleeps_exists in He;
           destruct Hp; split; simpl; auto; done).
    by apply wake_ok; [|done|lia].
  - destruct (workers p !! i) as [[]|] eqn:Hi; try done.
    apply (wake_ok i p (notifying p)); [done|done|lia].
  - by apply worker_step_ok.
  - destruct (the_owner p) eqn:Ho; try done. destruct (stop p) eqn:Hst; [done|].
    destruct Hp as [Hq Ht Hx He Hown Ha]. split; simpl; auto. intros Hc. destruct (Hx Hc). congruence.
  - destruct (the_owner p) eqn:Ho; try done. destruct (wake_counts (workers p)) as (H1 & H2 & H3).
    pose proof (ok_owner p Hp) as Hown. rewrite Ho in Hown.
    destruct Hp as [Hq Ht Hx He _ Ha]. split; simpl; rewrite ?H1, ?H3; auto.
    intros Hw. apply He. by destruct (workers p).
  - destruct (the_owner p) eqn:Ho; try done. destruct (forallb is_exited (workers p)) eqn:Hall; [|done].
    destruct (exited_all _ Hall) as [Hr Hx].
    assert (tasks p = []) as Htk.
    { destruct (workers p) as [|w ws] eqn:Hw; [by apply (ok_empty p Hp)|].
      apply (ok_exited p Hp). rewrite Hw. by apply Hx. }
    pose proof (ok_taken p Hp) as Ht. rewrite Hr in Ht.
    split; simpl; auto; first [intros; lia | apply Hp].
Qed.
Lemma pool_run_ok ls p : pool_ok p → pool_ok (run ls p).
Proof. revert p. induction ls as [|l ls IH]; intros p Hp; [done|]. by apply IH, pool_step_ok. Qed.

(** A pool that is closed has done all it accepted. *)
Lemma closed_done p : pool_ok p → the_owner p = O_free → stop p = true → done_ p ≡ₚ accepted p.
Proof.
  intros Hp Ho Hst. pose proof (ok_owner p Hp) as Hw. rewrite Ho in Hw. specialize (Hw Hst).
  pose proof (ok_taken p Hp) as Ht. rewrite Hw in Ht. rewrite (ok_queue p Hp), (ok_empty p Hp Hw), app_nil_r, Ht.
  by rewrite app_nil_r.
Qed.

(** ** Theorems *)
(** C30: Whatever the threads do, tasks are taken in the order in which they were
    enqueued, none twice and none that was not, and those taken are done but for one at
    each worker; once [close] has returned (or before [init]) all that were accepted are
    done. *)
Theorem pool_runs_each_task_once (ls : list label) (p : thread_pool) :
  run ls pool_new = p →
  accepted p = taken p ++ tasks p ∧ taken p ≡ₚ done_ p ++ all_running (workers p) ∧
  length (all_running (workers p)) <= length (workers p) ∧
  (the_owner p = O_free → stop p = true → done_ p ≡ₚ accepted p).
Proof.
  intros <-. pose proof (pool_run_ok ls pool_new pool_new_ok) as Hp. set (p := run ls pool_new) in *.
  split_and!; [apply Hp|apply Hp| |].
  - generalize (workers p). intros l. induction l as [|w l IH]; [done|]. unfold all_running in *.
    rewrite bind_cons, length_app. destruct w; simpl in *; lia.
  - by apply closed_done.
Qed.

(** No wake-up is lost: while a task is queued, a worker is awake, or one sleeps
    and a notification for it is under way. *)
Theorem queued_task_wakes_worker (ls : list label) (p : thread_pool) :
  run ls pool_new = p → tasks p ≠ [] →
  ∃ i w, workers p !! i = Some w ∧ (awake w = true ∨ sleeps w = true ∧ notifying p ≠ 0).
Proof.
  intros <- Ht. pose proof (pool_run_ok ls pool_new pool_new_ok) as Hp. set (p := run ls pool_new) in *.
  assert (length (tasks p) ≠ 0) as Hl by (by destruct (tasks p)).
  destruct (Nat.eq_dec (count awake (workers p)) 0) as [Haw|(i & w & Hi & Hw)%Nat.neq_0_lt_0%count_exists]; [|by eauto].
  destruct (Nat.eq_dec (count sleeps (workers p)) 0) as [Hsl|(i & w & Hi & Hw)%Nat.neq_0_lt_0%count_exists].
  - exfalso. destruct (workers p) as [|w ws] eqn:Hws; [by apply Ht, (ok_empty p Hp)|].
    assert (w = W_exited) as Hw.
    { destruct w; done. }
    apply Ht, (ok_exited p Hp). rewrite Hws, Hw. simpl. lia.
  - exists i, w. split; [done|]. right. split; [done|].
    destruct (ok_awake p Hp) as [Ha|Ha]; [lia|]. apply (count_pos sleeps _ _ _ Hi) in Hw. lia.
Qed.

(** What the workers have left to do. *)
Definition work_of (w : worker) : nat := match w with W_running _ => 2 | W_check => 1 | _ => 0 end.
Definition work (p : thread_pool) : nat := 2 * length (tasks p) + sum_list_with work_of (workers p).
Lemma worker_step_works i w p :
  workers p !! i = Some w → awake w = true → work (worker_step i p) < work p.
Proof.
  intros Hi Hw. unfold worker_step, work. rewrite Hi.
  destruct w as [| |t|]; try done; [destruct (tasks p) as [|t ts] eqn:Ht|]; simpl.
  - pose proof (sum_list_insert work_of _ _ _ (if stop p then W_exited else W_sleeping) Hi) as H1.
    rewrite Ht. simpl. destruct (stop p); simpl in *; lia.
  - pose proof (sum_list_insert work_of _ _ _ (W_running t) Hi) as H1. simpl in *. lia.
  - pose proof (sum_list_insert work_of _ _ _ W_check Hi) as H1. simpl in *. lia.
Qed.
Lemma worker_step_owner i p :
  the_owner (worker_step i p) = the_owner p ∧ stop (worker_step i p) = stop p ∧ accepted (worker_step i p) = accepted p.
Proof. unfold worker_step, set_worker. destruct (workers p !! i) as [[]|]; try done. by destruct (tasks p). Qed.
Lemma not_exited_awake p :
  pool_ok p → the_owner p = O_join → forallb is_exited (workers p) = false →
  ∃ i w, workers p !! i = Some w ∧ awake w = true.
Proof.
  intros Hp Ho Hall. pose proof (ok_owner p Hp) as Hown. rewrite Ho in Hown. destruct Hown as [_ Hs].
  revert Hall Hs. generalize (workers p). intros l. induction l as [|w l IH]; [done|]. simpl.
  destruct w; simpl; try (by intros; exists 0; eauto).
  intros Hall Hs. destruct IH as (i & v & Hi & Hv); [done|done|]. by exists (S i), v.
Qed.
Lemma close_drains n p :
  pool_ok p → the_owner p = O_join → work p <= n →
  ∃ sched : list nat, length sched <= n ∧
    let q := step T_join (run (T_worker <$> sched) p) in
    the_owner q = O_free ∧ stop q = true ∧ workers q = [] ∧ accepted q = accepted p.
Proof.
  revert p. induction n as [|n IH]; intros p Hp Ho Hn.
  all: destruct (forallb is_exited (workers p)) eqn:Hall;
    [exists []; split; [simpl; lia|]; simpl; rewrite Ho, Hall; simpl; split_and!; try done;
     pose proof (ok_owner p Hp) as Hown; rewrite Ho in Hown; apply Hown|].
  all: destruct (not_exited_awake p Hp Ho Hall) as (i & w & Hi & Hw);
    pose proof (worker_step_works i w p Hi Hw) as Hlt; try lia.
  destruct (worker_step_owner i p) as (Ho' & Hs' & Ha').
  destruct (IH (worker_step i p)) as (sched & Hl & Hq); [by apply worker_step_ok|by rewrite Ho'|lia|].
  exists (i :: sched). split; [simpl; lia|]. rewrite fmap_cons. simpl in *. rewrite Ha' in Hq. exact Hq.
Qed.

(** [close] returns: once it has told the workers, each step of a worker that can
    run makes the work left smaller, and some worker can run until all have left; so
    after at most that many steps the join succeeds, with every accepted task done. *)
Theorem close_terminates (ls : list label) (p : thread_pool) :
  run ls pool_new = p → the_owner p = O_join →
  (∀ i w, workers p !! i = Some w → awake w = true → work (worker_step i p) < work p) ∧
  ∃ sched : list nat, length sched <= work p ∧
    let q := step T_join (run (T_worker <$> sched) p) in
    the_owner q = O_free ∧ workers q = [] ∧ done_ q ≡ₚ accepted p.
Proof.
  intros <- Ho. pose proof (pool_run_ok ls pool_new pool_new_ok) as Hp. set (p := run ls pool_new) in *.
  split; [intros i w; apply worker_step_works|].
  destruct (close_drains (work p) p Hp Ho) as (sched & Hl & Hf & Hs & Hw & Ha); [lia|].
  exists sched. split; [done|]. split; [done|]. split; [done|].
  rewrite <- Ha. apply closed_done; [|done|done]. by apply pool_step_ok, pool_run_ok.
Qed.

(** *** A run of two workers *)
Definition sample_run : list label :=
  [T_init 2; T_worker 0; T_enqueue 7; T_enqueue 8; T_worker 1; T_notify_one 0; T_worker 0; T_worker 1; T_worker 1;
   T_notify_one 0; T_enqueue 9; T_close].
Lemma pool_runs_each_task_once_witness :
  accepted (run sample_run pool_new) = [7; 8; 9] ∧
  done_ (run (sample_run ++ [T_worker 0; T_worker 0; T_notify_all; T_worker 0; T_worker 0; T_worker 1; T_join]) pool_new) ≡ₚ [7; 8; 9].
Proof.
  split; [vm_compute; reflexivity|].
  destruct (pool_runs_each_task_once
    (sample_run ++ [T_worker 0; T_worker 0; T_notify_all; T_worker 0; T_worker 0; T_worker 1; T_join]) _ eq_refl)
    as (_ & _ & _ & Hd).
  etransitivity; [apply Hd; vm_compute; reflexivity|]. vm_compute. reflexivity.
Defined.
Lemma queued_task_wakes_worker_witness :
  ∃ i w, workers (run [T_init 1; T_worker 0; T_enqueue 7] pool_new) !! i = Some w ∧
    (awake w = true ∨ sleeps w = true ∧ notifying (run [T_init 1; T_worker 0; T_enqueue 7] pool_new) ≠ 0).
Proof. apply (queued_task_wakes_worker [T_init 1; T_worker 0; T_enqueue 7] _ eq_refl). discriminate. Defined.
Lemma close_terminates_witness :
  ∃ sched : list nat, length sched <= 5 ∧
    done_ (step T_join (run (T_worker <$> sched) (run (sample_run ++ [T_notify_all]) pool_new))) ≡ₚ [7; 8; 9].
Proof.
  destruct (close_terminates (sample_run ++ [T_notify_all]) _ eq_refl) as (_ & sched & Hl & _ & _ & Hd);
    [vm_compute; reflexivity|].
  exists sched. split; [exact Hl|]. etransitivity; [exact Hd|]. vm_compute. reflexivity.
Defined.
