(* ===== verification/TcpServer.v ===== *)
(** * The tcp server and its io services ([network/net/tcp_server.hpp], [ios_pool.hpp],
    [ios_wrapper.hpp], [network/thread/executor_pool.hpp])

    A pool hands its io services out in turn; the server gives each connection it
    creates, whether to be accepted or to connect, the next number and the next
    service, and keeps one accept in flight.  Boost's services are known by their
    index (the main one is -1); of a service that runs only what its [run] waits for
    is kept. *)
From stdpp Require Import base option list numbers sorting.
From S2P Require Import Prelude.
Local Open Scope Z_scope.

(** ** Definitions *)
(** *** [ios_pool], [executor_pool] *)
Record ios_pool := IosPool { ios_count : Z; cur_ios_index_ : Z; started : bool; stopped : list Z }.
Definition main_ios : Z := -1.
Definition pool_new (io_service_count : Z) : ios_pool := IosPool (u32 io_service_count) 0 false [].
Definition get_io_service (p : ios_pool) : Z * ios_pool :=
  if ios_count p =? 0 then (main_ios, p)
  else (cur_ios_index_ p,
        IosPool (ios_count p) (Z.rem (cur_ios_index_ p + 1) (ios_count p)) (started p) (stopped p)).
Definition get_io_service_of (id : Z) (p : ios_pool) : Z :=
  if (ios_count p =? 0) || (id <? 0) then main_ios else Z.rem id (ios_count p).
Definition get_cur_ios_index (p : ios_pool) : Z := if ios_count p =? 0 then -1 else cur_ios_index_ p.
(** The services of the pool first, the main one last. *)
Definition indices (n : Z) : list Z := Z.of_nat <$> seq 0 (Z.to_nat n).
Definition pool_start (p : ios_pool) : ios_pool := IosPool (ios_count p) (cur_ios_index_ p) true (stopped p).
Definition pool_stop (p : ios_pool) : ios_pool :=
  IosPool (ios_count p) (cur_ios_index_ p) (started p) (stopped p ++ indices (ios_count p) ++ [main_ios]).

(** An executor pool hands out executors alike; there is no main one.  Its threads
    are joinable until they are joined; [join] throws for one that is not. *)
Record executor_pool := ExecutorPool { executors : Z; cur_executor_index_ : Z; threads_ : list bool }.
Definition executor_pool_new : executor_pool := ExecutorPool 0 0 [].
Definition executors_init (thread_count : Z) (p : executor_pool) : executor_pool :=
  ExecutorPool thread_count (cur_executor_index_ p) (threads_ p).
Definition executors_start (p : executor_pool) : executor_pool :=
  match threads_ p with
  | [] => ExecutorPool (executors p) (cur_executor_index_ p) (replicate (Z.to_nat (executors p)) true)
  | _ => p
  end.
Definition executors_stop (p : executor_pool) : option executor_pool :=
  if forallb id (threads_ p)
  then Some (ExecutorPool (executors p) (cur_executor_index_ p) ((λ _, false) <$> threads_ p)) else None.
Definition get_executor (p : executor_pool) : option Z * executor_pool :=
  if executors p =? 0 then (None, p)
  else (Some (cur_executor_index_ p),
        ExecutorPool (executors p) (Z.rem (cur_executor_index_ p + 1) (executors p)) (threads_ p)).
Definition get_executor_of (id : Z) (p : executor_pool) : option Z :=
  if (executors p =? 0) || (id <? 0) then None else Some (Z.rem id (executors p)).

(** *** [tcp_server] *)
Inductive server_thread_mode := no_io_thread | one_io_thread | more_io_thread.
Definition get_thread_count (hardware_concurrency : Z) (mode : server_thread_mode) : Z :=
  match mode with no_io_thread => 0 | one_io_thread => 1 | more_io_thread => hardware_concurrency end.
Record connection := Connection { conn_id : Z; conn_ios : Z }.
Inductive server_event :=
| Ev_on_connect (id : Z)
| Ev_start (id : Z)
| Ev_accept_error (id : Z).
Record tcp_server := TcpServer {
  pool : ios_pool;
  cur_conn_id_ : Z;
  router_ptr_ : bool;
  accepting : list connection;            (* of the accepts in flight *)
  created : list connection;              (* all so far *)
  server_events : list server_event
}.
Definition server_new (thread_count : Z) (router : bool) : tcp_server :=
  TcpServer (pool_new thread_count) 0 router [] [] [].
(** Counting past [INT_MAX] is undefined. *)
Definition create_connection (s : tcp_server) : ub (connection * tcp_server) :=
  id ← i32 (cur_conn_id_ s + 1);
  let '(ios, p) := get_io_service (pool s) in
  let c := Connection id ios in
  Def (c, TcpServer p id (router_ptr_ s) (accepting s) (created s ++ [c]) (server_events s)).
Definition do_accept (s : tcp_server) : ub tcp_server :=
  '(c, s) ← create_connection s;
  Def (TcpServer (pool s) (cur_conn_id_ s) (router_ptr_ s) (accepting s ++ [c]) (created s) (server_events s)).
Definition emit_server (es : list server_event) (s : tcp_server) : tcp_server :=
  TcpServer (pool s) (cur_conn_id_ s) (router_ptr_ s) (accepting s) (created s) (server_events s ++ es).
Definition handle_accept (error : bool) (c : connection) (s : tcp_server) : ub tcp_server :=
  do_accept (emit_server (if error then [Ev_accept_error (conn_id c)]
                          else (if router_ptr_ s then [Ev_on_connect (conn_id c)] else []) ++ [Ev_start (conn_id c)]) s).
Definition server_start (s : tcp_server) : ub tcp_server :=
  s ← do_accept s;
  Def (TcpServer (pool_start (pool s)) (cur_conn_id_ s) (router_ptr_ s) (accepting s) (created s) (server_events s)).
Definition server_stop (s : tcp_server) : tcp_server :=
  TcpServer (pool_stop (pool s)) (cur_conn_id_ s) (router_ptr_ s) (accepting s) (created s) (server_events s).

Inductive server_label :=
| S_start | S_stop
| S_create                                (* by a client of the server *)
| S_accepted (error : bool).              (* handlers run until the main service is stopped *)
Definition server_step (l : server_label) (s : tcp_server) : ub tcp_server :=
  match l with
  | S_start => if started (pool s) then Def s else server_start s
  | S_stop => Def (server_stop s)
  | S_create => '(_, s) ← create_connection s; Def s
  | S_accepted error =>
      match accepting s with
      | [] => Def s
      | c :: cs =>
          if bool_decide (main_ios ∈ stopped (pool s)) then Def s
          else handle_accept error c
                 (TcpServer (pool s) (cur_conn_id_ s) (router_ptr_ s) cs (created s) (server_events s))
      end
  end.
Fixpoint server_run (ls : list server_label) (s : tcp_server) : ub tcp_server :=
  match ls with [] => Def s | l :: ls => s ← server_step l s; server_run ls s end.

(** *** [ios_wrapper] *)
(** An io service: whether it was stopped, whether the wrapper's work object keeps it
    busy, the operations in flight.  [run] returns when it is stopped or has nothing
    to wait for. *)
Record ios_wrapper := IosWrapper { is_owner_ : bool; ios_stopped : bool; ios_work_ : bool; in_flight : nat; joinable : bool }.
Definition wrapper_new (owner : bool) : ios_wrapper := IosWrapper owner false true 0 false.
Definition wrapper_start (w : ios_wrapper) : ios_wrapper :=
  if is_owner_ w then IosWrapper true (ios_stopped w) (ios_work_ w) (in_flight w) true else w.
Definition run_returns (w : ios_wrapper) : bool :=
  ios_stopped w || (negb (ios_work_ w) && (in_flight w =? 0)%nat).
(** [stop] up to the join, and whether the join can return. *)
Definition wrapper_stop (w : ios_wrapper) : ios_wrapper :=
  if is_owner_ w
  then let w := IosWrapper true (ios_stopped w) false (in_flight w) (joinable w) in
       if ios_stopped w then IosWrapper true true false (in_flight w) (joinable w) else w
  else w.
Definition join_returns (w : ios_wrapper) : bool := negb (is_owner_ w && joinable w) || run_returns w.

(** ** What the server keeps *)
(** The service of the [k]th connection. *)
Definition turn (n : Z) (k : nat) : Z := if n =? 0 then main_ios else Z.of_nat k `mod` n.
Definition events_of (router : bool) (h : bool * Z) : list server_event :=
  if h.1 then [Ev_accept_error h.2] else (if router then [Ev_on_connect h.2] else []) ++ [Ev_start h.2].
Record server_ok (n : Z) (router : bool) (hs : list (bool * Z)) (s : tcp_server) : Prop := {
  so_pool : ios_count (pool s) = n ∧ (n ≠ 0 → cur_ios_index_ (pool s) = turn n (length (created s)));
  so_router : router_ptr_ s = router;
  so_id : cur_conn_id_ s = Z.of_nat (length (created s));
  so_created : ∀ k c, created s !! k = Some c → c = Connection (Z.of_nat k + 1) (turn n k);
  so_accepting : accepting s = [] ∧ started (pool s) = false ∧ hs = [] ∨
    ∃ c, accepting s = [c] ∧ started (pool s) = true ∧ conn_id c <= cur_conn_id_ s ∧
      Forall (λ h, h.2 < conn_id c) hs;
  so_sorted : StronglySorted Z.lt (snd <$> hs);
  so_events : server_events s = hs ≫= events_of router
}.
Lemma turn_next n k : 0 < n → Z.rem (turn n k + 1) n = turn n (S k).
Proof.
  intros Hn. unfold turn. rewrite (proj2 (Z.eqb_neq n 0)) by lia.
  pose proof (Z.mod_pos_bound (Z.of_nat k) n). rewrite Z.rem_mod_nonneg by lia.
  rewrite Zplus_mod_idemp_l. f_equal. lia.
Qed.
Lemma create_ok n router hs s :
  0 <= n → server_ok n router hs s → Z.of_nat (length (created s)) + 1 < 2 ^ 31 →
  ∃ c s', create_connection s = Def (c, s') ∧ server_ok n router hs s' ∧ conn_id c = cur_conn_id_ s' ∧
    cur_conn_id_ s' = cur_conn_id_ s + 1 ∧ accepting s' = accepting s ∧ started (pool s') = started (pool s) ∧
    stopped (pool s') = stopped (pool s) ∧
    length (created s') = S (length (created s)).
Proof.
  intros Hn Hs Hl. destruct (so_pool _ _ _ _ Hs) as [Hc Hcur]. pose proof (so_id _ _ _ _ Hs) as Hid.
  unfold create_connection. rewrite i32_in by (rewrite Hid; lia). simpl.
  unfold get_io_service. rewrite Hc.
  assert (∀ p ios, ios = turn n (length (created s)) → ios_count p = n →
    (n ≠ 0 → cur_ios_index_ p = turn n (S (length (created s)))) → started p = started (pool s) →
    server_ok n router hs (TcpServer p (cur_conn_id_ s + 1) (router_ptr_ s) (accepting s)
      (created s ++ [Connection (cur_conn_id_ s + 1) ios]) (server_events s))) as Hok.
  { intros p ios -> Hp Hpc Hst. split; simpl; try apply Hs; rewrite ?length_app; simpl.
    - split; [done|]. intros H0. rewrite Hpc by done. f_equal. lia.
    - lia.
    - intros k c [Hk|[Hk Hk']]%lookup_app_Some; [by apply (so_created _ _ _ _ Hs)|].
      apply list_lookup_singleton_Some in Hk' as [Hz <-]. f_equal; [lia|]. f_equal. lia.
    - rewrite Hst. destruct (so_accepting _ _ _ _ Hs) as [?|(c & Ha & Hs' & Hi & Hf)]; [by left|].
      right. exists c. split_and!; [done..|lia|done]. }
  destruct (Z.eqb_spec n 0) as [->|H0].
  - eexists _, _. split; [done|]. simpl. rewrite length_app. simpl. split_and!; try done; [|lia].
    by apply Hok.
  - eexists _, _. split; [done|]. simpl. rewrite length_app. simpl. split_and!; try done; [|lia].
    rewrite Hcur by done. apply Hok; try done. simpl. intros _. apply turn_next. lia.
Qed.
Lemma accept_ok n router hs c s error :
  0 <= n → server_ok n router hs s → accepting s = [c] → Z.of_nat (length (created s)) + 1 < 2 ^ 31 →
  ∃ s', handle_accept error c (TcpServer (pool s) (cur_conn_id_ s) (router_ptr_ s) [] (created s) (server_events s)) = Def s' ∧
    server_ok n router (hs ++ [(error, conn_id c)]) s' ∧ (length (created s') ≤ S (length (created s)))%nat.
Proof.
  intros Hn Hs Ha Hl.
  destruct (so_accepting _ _ _ _ Hs) as [(Ha' & _)|(c' & Ha' & Hst & Hi & Hf)]; [congruence|].
  rewrite Ha in Ha'. injection Ha' as <-.
  destruct (create_ok n router hs s Hn Hs Hl) as (d & s' & Hc & Hs' & Hd & Hid & Hacc & Hst' & _ & Hlen).
  assert (∀ es a, create_connection (TcpServer (pool s) (cur_conn_id_ s) (router_ptr_ s) a (created s) es) =
    Def (d, TcpServer (pool s') (cur_conn_id_ s') (router_ptr_ s') a (created s') es)) as Hc'.
  { intros es a. unfold create_connection in *. simpl. inv_def. simpl. destruct (get_io_service (pool s)) as [ios p].
    inv_def. rewrite Ha0. done. }
  unfold handle_accept, do_accept, emit_server. simpl. rewrite Hc'. simpl. eexists. split; [done|]. simpl.
  split; [|simpl; lia]. split; simpl; try apply Hs'.
  - right. exists d. split_and!; [done|by rewrite Hst'|lia|]. apply Forall_app. split.
    + eapply Forall_impl; [exact Hf|]. simpl. lia.
    + constructor; [|constructor]. simpl. lia.
  - rewrite fmap_app. simpl. apply StronglySorted_app. split_and!; [|apply Hs|repeat constructor].
    intros x y Hx ->%list_elem_of_singleton. apply list_elem_of_fmap in Hx as (h & -> & Hh).
    rewrite Forall_forall in Hf. by apply Hf.
  - rewrite (so_events _ _ _ _ Hs), bind_app. f_equal. simpl. rewrite app_nil_r, (so_router _ _ _ _ Hs).
    unfold events_of. by destruct error.
Qed.
Lemma server_step_ok n router hs l s :
  0 <= n → server_ok n router hs s → Z.of_nat (length (created s)) + 1 < 2 ^ 31 →
  ∃ hs' s', server_step l s = Def s' ∧ server_ok n router hs' s' ∧ (length (created s') ≤ S (length (created s)))%nat.
Proof.
  intros Hn Hs Hl. destruct l as [| | |error]; simpl.
  - destruct (started (pool s)) eqn:Hst; [exists hs, s; split_and!; [done|done|lia]|].
    destruct (so_accepting _ _ _ _ Hs) as [(Ha & _ & Hh)|(c & _ & Hst' & _)]; [|congruence].
    destruct (create_ok n router hs s Hn Hs Hl) as (d & s' & Hc & Hs' & Hd & Hid & Hacc & _ & _ & Hlen).
    unfold server_start, do_accept. rewrite Hc. simpl. exists hs. eexists. split; [done|]. simpl. split; [|lia].
    split; simpl; try apply Hs'. right. exists d. rewrite Hacc, Ha, Hh. split_and!; [done|done|lia|constructor].
  - exists hs. eexists. split; [done|]. split; [|simpl; lia]. split; simpl; try apply Hs.
  - destruct (create_ok n router hs s Hn Hs Hl) as (d & s' & -> & Hs' & _ & _ & _ & _ & _ & Hlen).
    exists hs, s'. split_and!; [done|done|lia].
  - destruct (accepting s) as [|c cs] eqn:Ha; [exists hs, s; split_and!; [done|done|lia]|].
    case_bool_decide; [exists hs, s; split_and!; [done|done|lia]|].
    assert (cs = []) as ->.
    { destruct (so_accepting _ _ _ _ Hs) as [(Ha' & _)|(c' & Ha' & _)]; rewrite Ha in Ha'; by simplify_eq. }
    destruct (accept_ok n router hs c s error Hn Hs Ha Hl) as (s' & -> & Hs' & Hlen). by eauto.
Qed.
Lemma server_run_ok n router ls hs s :
  0 <= n → server_ok n router hs s → Z.of_nat (length (created s)) + Z.of_nat (length ls) < 2 ^ 31 →
  ∃ hs' s', server_run ls s = Def s' ∧ server_ok n router hs' s'.
Proof.
  intros Hn. revert hs s. induction ls as [|l ls IH]; intros hs s Hs Hl; simpl in *; [by eauto|].
  destruct (server_step_ok n router hs l s Hn Hs) as (hs' & s' & -> & Hs' & Hlen); [lia|].
  apply (IH hs'); [done|lia].
Qed.

(** ** Theorems *)
(** As long as connection numbers do not run out, the server never fails: the
    connections it creates, to accept with or to connect with, are numbered from 1 and
    given the io services of the pool in turn (the main one if there are no others); at
    most one accept is in flight; and each connection accepted is announced to the
    router, if there is one, and started, once and in the order of the numbers. *)
Theorem server_connections_take_turns (n : Z) (router : bool) (ls : list server_label) :
  0 <= n < 2 ^ 32 → Z.of_nat (length ls) < 2 ^ 31 →
  ∃ s hs, server_run ls (server_new n router) = Def s ∧
    (∀ k c, created s !! k = Some c → c = Connection (Z.of_nat k + 1) (turn n k)) ∧
    (length (accepting s) <= 1)%nat ∧
    server_events s = hs ≫= events_of router ∧ StronglySorted Z.lt (snd <$> hs).
Proof.
  intros Hn Hl. destruct (server_run_ok n router ls [] (server_new n router)) as (hs & s & Hr & Hs).
  - lia.
  - split; simpl; try done; [|by left|constructor].
    split; [unfold u32; by apply Z.mod_small|]. intros H0. unfold turn.
    by rewrite (proj2 (Z.eqb_neq n 0)), Z.mod_0_l by done.
  - simpl. lia.
  - exists s, hs. split_and!; [done|apply Hs| |apply Hs|apply Hs].
    destruct (so_accepting _ _ _ _ Hs) as [[-> _]|(c & -> & _)]; simpl; lia.
Qed.

(** [stop] of an owned service that was started joins its thread without stopping the
    service: it waits for the operations in flight, for ever if one never ends. *)
Theorem wrapper_stop_waits_for_operations (w : ios_wrapper) :
  is_owner_ w = true → joinable w = true → ios_stopped w = false → in_flight w ≠ 0%nat →
  join_returns (wrapper_stop w) = false.
Proof.
  intros Ho Hj Hs Hf. unfold wrapper_stop, join_returns, run_returns. rewrite Ho, Hs. simpl.
  rewrite Hj, ?Hs. simpl. by apply Nat.eqb_neq.
Qed.

(** The destructor of an executor pool stops it again: after a [stop] it throws. *)
Theorem executors_stop_twice_throws (n : Z) (p q : executor_pool) :
  0 < n → executors_stop (executors_start (executors_init n executor_pool_new)) = Some q → executors_stop q = None.
Proof.
  intros Hn. unfold executors_stop, executors_start. simpl. destruct (Z.to_nat n) as [|k] eqn:Hk; [lia|]. simpl.
  destruct (forallb id (replicate k true)); [|done]. intros [= <-]. done.
Qed.

(** *** A run *)
Lemma server_connections_take_turns_witness :
  ∃ s, server_run [S_create; S_start; S_accepted false; S_create; S_accepted true; S_accepted false; S_stop; S_accepted false]
         (server_new 2 true) = Def s ∧
    length (created s) = 6%nat ∧ (∀ c, created s !! 4%nat = Some c → c = Connection 5 0).
Proof.
  destruct (server_connections_take_turns 2 true
    [S_create; S_start; S_accepted false; S_create; S_accepted true; S_accepted false; S_stop; S_accepted false])
    as (s & hs & Hr & Hc & _); [split; [done|reflexivity]|reflexivity|].
  exists s. split; [exact Hr|]. split; [|intros c H; apply Hc in H; exact H].
  vm_compute in Hr. injection Hr as <-. vm_compute. reflexivity.
Defined.
