(* ===== verification/GameServer.v ===== *)
(** * Game servers ([network/gameserver/game_server_base.hpp], [server_manager.hpp],
      [game_server.hpp], [protocol.hpp])

    A cluster of game servers around a center: [server_manager] keeps the
    registered servers and forwards messages between them, [game_server] is a
    client of the center and of the database server and reconnects to both.
    Connections are known by number; a connection is running or not and carries
    the id its peer has registered with in its world (0 when none).  What is
    written to connections and asked of timers and sockets is a list of events.
    The bodies of messages are packed and unpacked by a codec, an interface. *)
From stdpp Require Import base option list numbers gmap strings.
From S2P Require Import Prelude RawMsg.
Local Open Scope Z_scope.

(** ** Definitions *)
(** *** Ids ([common.hpp], [protocol.hpp]) *)
Definition none_server : Z := 0.
Definition db_server : Z := 4.
Definition gateway_server : Z := 10.
Definition center_server : Z := 17.
Definition SimpleRegisterServer : Z := 0x40a0009.
Definition BroadcastMsg : Z := 0x60a001a.
Definition BroadcastServerMsg : Z := 170000.
Definition CS_RegisterServer : Z := 170001.
Definition SC_RegisterServer : Z := 170002.
Definition CS_GetServerInfo : Z := 170003.
Definition SC_GetServerInfo : Z := 170004.
Definition SC_ServerEvent : Z := 170006.

(** *** Messages *)
Record ServerInfo := ServerInfo_ {
  si_unique_id : Z; si_ip : string; si_port : Z; si_connect_interval : Z
}.
Record register_data := RegisterData { rd_unique_id : Z; rd_ip : string; rd_port : Z }.
Inductive EServerEvent := EServerConnected | EServerDisconnected.
#[export] Instance EServerEvent_eq_dec : EqDecision EServerEvent.
Proof. solve_decision. Defined.
Record server_event := ServerEvent { se_event : EServerEvent; se_info : ServerInfo }.
(** [ServerInfo{}] with an id set. *)
Definition info_of_id (uid : Z) : ServerInfo := ServerInfo_ uid "" 0 0.

(** What a body is packed from. *)
Inductive payload :=
| P_simple_register (uid : Z)
| P_register (d : register_data)
| P_registered (server_uid : Z)
| P_get_info (servers : list Z)
| P_info (servers : list (Z * ServerInfo))
| P_event (e : server_event)
| P_broadcast (msg_id : Z) (servers : list Z) (data : list Z).

(** The codecs: what is unpacked at the type it was packed with is what was
    packed, if it is a value of its type.  What unpacking makes of other bytes is
    left open. *)
Class Codec := {
  packable : payload → Prop;
  pack : payload → list Z;
  unpack_simple_register : list Z → Z;
  unpack_register : list Z → register_data;
  unpack_get_info : list Z → list Z;
  unpack_info : list Z → list (Z * ServerInfo);
  unpack_event : list Z → server_event;
  unpack_broadcast : list Z → Z * list Z;
  unpack_simple_register_pack uid : packable (P_simple_register uid) →
    unpack_simple_register (pack (P_simple_register uid)) = uid;
  unpack_register_pack d : packable (P_register d) → unpack_register (pack (P_register d)) = d;
  unpack_get_info_pack l : packable (P_get_info l) → unpack_get_info (pack (P_get_info l)) = l;
  unpack_info_pack l : packable (P_info l) → unpack_info (pack (P_info l)) = l;
  unpack_event_pack e : packable (P_event e) → unpack_event (pack (P_event e)) = e;
  unpack_broadcast_pack m l d : packable (P_broadcast m l d) →
    unpack_broadcast (pack (P_broadcast m l d)) = (m, l)
}.

Record msg := Msg { m_head : msg_header; m_data : list Z }.
Definition protocol_of (m : msg) : Z := mh_protocol_id (m_head m).

Record conn_state := ConnState { is_running : bool; world_unique_id : Z }.
Inductive timer_name := T_connect_center | T_connect_db | T_get_db_info.
#[export] Instance timer_name_eq_dec : EqDecision timer_name.
Proof. solve_decision. Defined.
Inductive event :=
| Ev_before_send (k : nat) (h : msg_header)
| Ev_before_invoke (k : nat) (h : msg_header)
| Ev_write (conn : Z) (m : msg)
| Ev_async_connect (conn : Z) (ip : string) (port : Z)
| Ev_conn_start (conn : Z).

Section game.
Context `{CODEC : Codec}.
Implicit Types (c uid : Z) (m : msg).

(** ** [game_server_base] *)
Record game_server_base := GameServerBase {
  unique_id_ : Z;
  gate_conn_ptr_ : option Z;
  conns : gmap Z conn_state;
  before_invoke_funcs_ : nat;
  before_send_funcs_ : nat;
  events : list event
}.
Implicit Types b : game_server_base.
Definition emit (evs : list event) b : game_server_base :=
  GameServerBase (unique_id_ b) (gate_conn_ptr_ b) (conns b) (before_invoke_funcs_ b)
    (before_send_funcs_ b) (events b ++ evs).
Definition set_gate (g : option Z) b : game_server_base :=
  GameServerBase (unique_id_ b) g (conns b) (before_invoke_funcs_ b) (before_send_funcs_ b) (events b).
Definition set_conns (cs : gmap Z conn_state) b : game_server_base :=
  GameServerBase (unique_id_ b) (gate_conn_ptr_ b) cs (before_invoke_funcs_ b)
    (before_send_funcs_ b) (events b).
(** [conn_ptr->world()["unique_id"] = uid] and the transport's changes. *)
Definition set_world_uid c uid b : game_server_base :=
  set_conns (alter (λ s, ConnState (is_running s) uid) c (conns b)) b.
Definition set_running c (r : bool) b : game_server_base :=
  set_conns (alter (λ s, ConnState r (world_unique_id s)) c (conns b)) b.
Definition running c b : bool :=
  match conns b !! c with Some s => is_running s | None => false end.
Definition world_uid c b : Z := default 0 (world_unique_id <$> conns b !! c).

Definition get_running_conn (c : option Z) b : option Z :=
  match c with Some c => if running c b then Some c else None | None => None end.
Definition base_get_connection_ptr uid b : option Z :=
  if uid =? gateway_server then get_running_conn (gate_conn_ptr_ b) b else None.

Definition add_before_invoke_func b : game_server_base :=
  GameServerBase (unique_id_ b) (gate_conn_ptr_ b) (conns b) (S (before_invoke_funcs_ b))
    (before_send_funcs_ b) (events b).
Definition add_before_send_func b : game_server_base :=
  GameServerBase (unique_id_ b) (gate_conn_ptr_ b) (conns b) (before_invoke_funcs_ b)
    (S (before_send_funcs_ b)) (events b).

Definition send_raw_msg c m b : game_server_base :=
  emit (map (λ k, Ev_before_send k (m_head m)) (seq 0 (before_send_funcs_ b)) ++ [Ev_write c m]) b.

(** [pack_msg]: a fresh message, its header zero but for the length. *)
Definition pack_msg (p : payload) : msg :=
  Msg (MsgHeader 0 0 0 0 0 0 0 (u32 (Z.of_nat (length (pack p))))) (pack p).
Definition server_pack_msg (msg_id to_unique_id : Z) (p : payload) b : msg :=
  let m := pack_msg p in let h := m_head m in
  Msg (MsgHeader (u16 (unique_id_ b)) (u16 to_unique_id) (mh_conn_id h) (mh_call_id h)
         (mh_result h) (mh_reserve_bytes h) (u32 msg_id) (mh_length h)) (m_data m).
Definition set_call_id (request : option msg) m : msg :=
  match request with
  | Some r =>
      let h := m_head m in
      Msg (MsgHeader (mh_from_unique_id h) (mh_to_unique_id h) (mh_conn_id h)
             (mh_call_id (m_head r)) (mh_result h) (mh_reserve_bytes h) (mh_protocol_id h)
             (mh_length h)) (m_data m)
  | None => m
  end.
Definition set_user_id (user_id : Z) m : msg :=
  let h := m_head m in
  Msg (MsgHeader (mh_from_unique_id h) (mh_to_unique_id h) (u32 user_id) (mh_call_id h)
         (mh_result h) (mh_reserve_bytes h) (mh_protocol_id h) (mh_length h)) (m_data m).
Definition set_from_to (from to : Z) m : msg :=
  let h := m_head m in
  Msg (MsgHeader (u16 from) (u16 to) (mh_conn_id h) (mh_call_id h) (mh_result h)
         (mh_reserve_bytes h) (mh_protocol_id h) (mh_length h)) (m_data m).
Definition total_length m : Z := header_size + mh_length (m_head m).

(** The public senders; [get] is the virtual [get_connection_ptr]. *)
Section senders.
Context (get : Z → game_server_base → option Z).
Definition send_server_msg uid (msg_id : Z) (p : payload) (request : option msg) b
    : Z * game_server_base :=
  match get uid b with
  | None => (0, b)
  | Some c =>
      let m := set_call_id request (server_pack_msg msg_id uid p b) in
      (total_length m, send_raw_msg c m b)
  end.
Definition send_server_raw uid m (request : option msg) b : Z * game_server_base :=
  match get uid b with
  | None => (0, b)
  | Some c =>
      let m := set_call_id request (set_from_to (unique_id_ b) uid m) in
      (total_length m, send_raw_msg c m b)
  end.
Definition send_client_msg (user_id : Z) (msg_id : Z) (p : payload) b : Z * game_server_base :=
  match get gateway_server b with
  | None => (0, b)
  | Some c =>
      let m := set_user_id user_id (server_pack_msg msg_id gateway_server p b) in
      (total_length m, send_raw_msg c m b)
  end.
Definition broadcast_client_msg (users : list Z) (msg_id : Z) (data : list Z) b
    : Z * game_server_base :=
  match get gateway_server b with
  | None => (0, b)
  | Some c =>
      let m := server_pack_msg BroadcastMsg gateway_server (P_broadcast msg_id users data) b in
      (total_length m, send_raw_msg c m b)
  end.
End senders.
(** The protected sender, to a connection: its peer's id is in its world. *)
Definition send_conn_msg c (msg_id : Z) (p : payload) (request : option msg) b
    : Z * game_server_base :=
  match get_running_conn (Some c) b with
  | None => (0, b)
  | Some c =>
      let m := set_call_id request (server_pack_msg msg_id (world_uid c b) p b) in
      (total_length m, send_raw_msg c m b)
  end.

Definition base_on_disconnect c b : game_server_base :=
  if bool_decide (gate_conn_ptr_ b = Some c) then set_gate None b else b.
Definition base_on_receive c m b : game_server_base :=
  if (protocol_of m =? SimpleRegisterServer) && bool_decide (gate_conn_ptr_ b = None) then
    let uid := unpack_simple_register (m_data m) in
    if uid =? gateway_server then set_world_uid c uid (set_gate (Some c) b) else b
  else b.
(** [on_receive_msgs] over a virtual [on_receive]. *)
Definition before_invoke m b : game_server_base :=
  emit (map (λ k, Ev_before_invoke k (m_head m)) (seq 0 (before_invoke_funcs_ b))) b.

(** ** [server_manager] *)
Record manage_server_info := ManageServerInfo { ms_conn : Z; ms_info : ServerInfo }.
Record server_manager := ServerManager {
  mgr_base : game_server_base;
  servers_ : gmap Z (list manage_server_info)
}.
Implicit Types s : server_manager.
Definition on_base (f : game_server_base → game_server_base) s : server_manager :=
  ServerManager (f (mgr_base s)) (servers_ s).
Definition set_servers (ss : gmap Z (list manage_server_info)) s : server_manager :=
  ServerManager (mgr_base s) ss.

Definition broadcast_msg (exclude : Z) (msg_id : Z) (p : payload) s : server_manager :=
  on_base (λ b, foldl (λ b '(uid, infos),
    if uid =? exclude then b
    else foldl (λ b i, (send_conn_msg (ms_conn i) msg_id p None b).2) b infos)
    b (in_key_order (servers_ s))) s.
Definition forward_msg (to_unique_id : Z) m s : server_manager :=
  match servers_ s !! to_unique_id with
  | None => s
  | Some infos =>
      on_base (λ b, foldl (λ b i,
        match get_running_conn (Some (ms_conn i)) b with
        | Some c => send_raw_msg c m b
        | None => b
        end) b infos) s
  end.
Definition broadcast_server_msg (servers : list Z) m s : server_manager :=
  foldl (λ s uid, forward_msg uid m s) s servers.
Definition broadcast_server_packed (servers : list Z) (msg_id : Z) (p : payload) s : server_manager :=
  broadcast_server_msg servers (server_pack_msg msg_id (unique_id_ (mgr_base s)) p (mgr_base s)) s.

Definition on_cs_register_server c m s : server_manager :=
  let data := unpack_register (m_data m) in
  let uid := rd_unique_id data in
  let info := ServerInfo_ uid (rd_ip data) (rd_port data) 5000 in
  let s := set_servers (<[uid := default [] (servers_ s !! uid) ++ [ManageServerInfo c info]]>
                          (servers_ s)) s in
  let s := on_base (set_world_uid c uid) s in
  let s := on_base (λ b, (send_conn_msg c SC_RegisterServer (P_registered (u16 uid)) None b).2) s in
  broadcast_msg uid SC_ServerEvent (P_event (ServerEvent EServerConnected info)) s.

(** The replies are [emplace]d into a map: the first of an id stays. *)
Fixpoint emplace_all (l : list (Z * ServerInfo)) (m : gmap Z ServerInfo) : gmap Z ServerInfo :=
  match l with
  | [] => m
  | (uid, i) :: l => emplace_all l (match m !! uid with Some _ => m | None => <[uid := i]> m end)
  end.
Definition server_infos (uids : list Z) s : list (Z * ServerInfo) :=
  omap (λ uid, match servers_ s !! uid with
               | Some (i :: _) => Some (si_unique_id (ms_info i), ms_info i)
               | _ => None
               end) uids.
Definition on_cs_get_server_info c m s : server_manager :=
  let uids := unpack_get_info (m_data m) in
  let reply := P_info (in_key_order (emplace_all (server_infos uids s) ∅)) in
  on_base (λ b, (send_conn_msg c SC_GetServerInfo reply None b).2) s.
Definition on_broadcast_server_msg m s : server_manager :=
  let servers := (unpack_broadcast (m_data m)).2 in
  if bool_decide (servers = []) then s else broadcast_server_msg servers m s.
Definition on_forward_msg m s : server_manager :=
  forward_msg (mh_to_unique_id (m_head m)) m s.

(** The first entry of the connection leaves its list. *)
Fixpoint erase_conn c (l : list manage_server_info) : list manage_server_info :=
  match l with
  | [] => []
  | i :: l => if ms_conn i =? c then l else i :: erase_conn c l
  end.
Definition mgr_on_disconnect c s : server_manager :=
  let uid := world_uid c (mgr_base s) in
  match servers_ s !! uid with
  | None | Some [] => on_base (base_on_disconnect c) s
  | Some l =>
      let s := set_servers (<[uid := erase_conn c l]> (servers_ s)) s in
      broadcast_msg uid SC_ServerEvent (P_event (ServerEvent EServerDisconnected (info_of_id uid))) s
  end.
Definition mgr_on_receive c m s : server_manager :=
  let id := protocol_of m in
  if id =? CS_RegisterServer then on_cs_register_server c m s
  else if id =? CS_GetServerInfo then on_cs_get_server_info c m s
  else if id =? BroadcastServerMsg then on_broadcast_server_msg m s
  else if negb (id =? SimpleRegisterServer) then on_forward_msg m s
  else on_base (base_on_receive c m) s.
Definition mgr_on_receive_msgs c (ms : list msg) s : server_manager :=
  foldl (λ s m, mgr_on_receive c m (on_base (before_invoke m) s)) s ms.

(** *** What happens to a manager *)
Inductive mgr_label :=
| ML_connected (c : Z)        (* a new connection, running *)
| ML_receive (c : Z) (m : msg)
| ML_disconnected (c : Z).    (* it stops, then the manager is told *)
Definition mgr_step (l : mgr_label) s : server_manager :=
  match l with
  | ML_connected c => on_base (λ b, set_conns (<[c := ConnState true 0]> (conns b)) b) s
  | ML_receive c m => mgr_on_receive_msgs c [m] s
  | ML_disconnected c => mgr_on_disconnect c (on_base (set_running c false) s)
  end.
Definition mgr_run (ls : list mgr_label) s : server_manager := foldl (λ s l, mgr_step l s) s ls.
Definition mgr_new (uid : Z) (hooks : nat) : server_manager :=
  ServerManager (GameServerBase uid None ∅ hooks hooks []) ∅.

(** *** The contract: a registry of the servers that live *)
Record registry := Registry { live : gset Z; registered : list (Z * manage_server_info) }.
Implicit Types R : registry.
Definition is_registered c R : bool :=
  bool_decide (c ∈ (λ x : Z * manage_server_info, ms_conn x.2) <$> registered R).
Definition servers_of uid R : list manage_server_info :=
  (filter (λ x, x.1 = uid) (registered R)).*2.
(** A connection says who it is at most once in its life. *)
Definition reg_step (l : mgr_label) R : option registry :=
  match l with
  | ML_connected c =>
      if bool_decide (c ∈ live R) then None
      else Some (Registry ({[c]} ∪ live R) (registered R))
  | ML_receive c m =>
      let id := protocol_of m in
      if negb (bool_decide (c ∈ live R)) then None
      else if ((id =? CS_RegisterServer) || (id =? SimpleRegisterServer)) && is_registered c R
      then None
      else if id =? CS_RegisterServer then
        let d := unpack_register (m_data m) in
        Some (Registry (live R) (registered R ++
          [(rd_unique_id d, ManageServerInfo c (ServerInfo_ (rd_unique_id d) (rd_ip d) (rd_port d) 5000))]))
      else Some R
  | ML_disconnected c =>
      if negb (bool_decide (c ∈ live R)) then None
      else Some (Registry (live R ∖ {[c]}) (filter (λ x, ms_conn x.2 ≠ c) (registered R)))
  end.
Fixpoint reg_run (ls : list mgr_label) R : option registry :=
  match ls with [] => Some R | l :: ls => R ← reg_step l R; reg_run ls R end.
Definition registry_new : registry := Registry ∅ [].

(** What was written, without the hooks. *)
Definition writes (evs : list event) : list (Z * msg) :=
  omap (λ e, match e with Ev_write c m => Some (c, m) | _ => None end) evs.

(** ** Sending changes nothing but the events *)
Definition same_conns b b' : Prop :=
  conns b' = conns b ∧ gate_conn_ptr_ b' = gate_conn_ptr_ b ∧ unique_id_ b' = unique_id_ b ∧
  before_send_funcs_ b' = before_send_funcs_ b ∧ before_invoke_funcs_ b' = before_invoke_funcs_ b.
Lemma same_conns_refl b : same_conns b b.
Proof. done. Qed.
Lemma same_conns_trans b1 b2 b3 : same_conns b1 b2 → same_conns b2 b3 → same_conns b1 b3.
Proof. intros (?&?&?&?&?) (?&?&?&?&?). split_and!; congruence. Qed.
Lemma send_conn_msg_same c id p r b : same_conns b (send_conn_msg c id p r b).2.
Proof. unfold send_conn_msg. simpl. by destruct (running c b). Qed.
Lemma foldl_same {A} (f : game_server_base → A → game_server_base) l b :
  (∀ b x, same_conns b (f b x)) → same_conns b (foldl f b l).
Proof.
  intros Hf. revert b. induction l as [|x l IH]; intros b; simpl; [apply same_conns_refl|].
  eapply same_conns_trans; [apply Hf|apply IH].
Qed.
Lemma broadcast_msg_same ex id p s :
  same_conns (mgr_base s) (mgr_base (broadcast_msg ex id p s)) ∧
  servers_ (broadcast_msg ex id p s) = servers_ s.
Proof.
  split; [|done]. apply foldl_same. intros b [uid infos]. case_match; [apply same_conns_refl|].
  apply foldl_same. intros. apply send_conn_msg_same.
Qed.
Lemma forward_msg_same uid m s :
  same_conns (mgr_base s) (mgr_base (forward_msg uid m s)) ∧ servers_ (forward_msg uid m s) = servers_ s.
Proof.
  unfold forward_msg. destruct (servers_ s !! uid); [|done]. split; [|done].
  apply foldl_same. intros b i. simpl. by destruct (running (ms_conn i) b).
Qed.
Lemma broadcast_server_msg_same uids m s :
  same_conns (mgr_base s) (mgr_base (broadcast_server_msg uids m s)) ∧
  servers_ (broadcast_server_msg uids m s) = servers_ s.
Proof.
  unfold broadcast_server_msg. revert s. induction uids as [|u uids IH]; intros s; simpl; [done|].
  destruct (IH (forward_msg u m s)) as [H1 H2], (forward_msg_same u m s) as [H3 H4].
  split; [by eapply same_conns_trans|congruence].
Qed.

(** ** The manager implements the registry *)
Record implements R s : Prop := {
  impl_servers : ∀ uid, default [] (servers_ s !! uid) = servers_of uid R;
  impl_world : ∀ uid i, (uid, i) ∈ registered R →
    ms_conn i ∈ live R ∧ world_uid (ms_conn i) (mgr_base s) = uid;
  impl_nodup : NoDup ((λ x : Z * manage_server_info, ms_conn x.2) <$> registered R);
  impl_running : ∀ c, running c (mgr_base s) = bool_decide (c ∈ live R)
}.
Lemma implements_same R s s' :
  implements R s → same_conns (mgr_base s) (mgr_base s') → servers_ s' = servers_ s → implements R s'.
Proof.
  intros [H1 H2 H3 H4] (Hc&_) Hs. split; [by rewrite Hs| |done|].
  - intros uid i Hi. destruct (H2 uid i Hi). unfold world_uid in *. by rewrite Hc.
  - intros c. unfold running in *. by rewrite Hc.
Qed.
Lemma mgr_new_implements uid hooks : implements registry_new (mgr_new uid hooks).
Proof.
  split; simpl.
  - intros u. by rewrite lookup_empty.
  - intros u i Hi. by apply elem_of_nil in Hi.
  - constructor.
  - intros c. unfold running. simpl. rewrite lookup_empty. symmetry. by apply bool_decide_false.
Qed.
Lemma erase_conn_filter c (l : list manage_server_info) :
  NoDup (ms_conn <$> l) → erase_conn c l = filter (λ i, ms_conn i ≠ c) l.
Proof.
  induction l as [|i l IH]; [done|]. rewrite fmap_cons, NoDup_cons. intros [Hi Hl]. simpl.
  rewrite filter_cons. destruct (Z.eqb_spec (ms_conn i) c) as [Hc|Hc]; case_decide as Hd; try done.
  - clear IH. rewrite Hc in Hi. clear Hc Hd i Hl. induction l as [|j l IH]; [done|].
    rewrite fmap_cons, not_elem_of_cons in Hi. destruct Hi as [Hj Hl].
    rewrite filter_cons, decide_True by done. f_equal. auto.
  - f_equal. auto.
Qed.
Lemma filter_conn_registered uid c (rs : list (Z * manage_server_info)) :
  (filter (λ x, x.1 = uid) (filter (λ x, ms_conn x.2 ≠ c) rs)).*2 =
  filter (λ i, ms_conn i ≠ c) (filter (λ x, x.1 = uid) rs).*2.
Proof.
  induction rs as [|[u i] rs IH]; [done|].
  destruct (decide (u = uid)), (decide (ms_conn i ≠ c));
    repeat first [rewrite filter_cons_True by done | rewrite filter_cons_False by done
                 | rewrite fmap_cons]; congruence.
Qed.
Lemma servers_of_elem uid i R : i ∈ servers_of uid R ↔ (uid, i) ∈ registered R.
Proof.
  unfold servers_of. rewrite list_elem_of_fmap. split.
  - intros ([u j]&->&[Hu Hj]%list_elem_of_filter). simpl in *. by subst.
  - intros Hi. exists (uid, i). split; [done|]. by apply list_elem_of_filter.
Qed.
Lemma servers_of_nodup uid R :
  NoDup ((λ x : Z * manage_server_info, ms_conn x.2) <$> registered R) →
  NoDup (ms_conn <$> servers_of uid R).
Proof.
  unfold servers_of. destruct R as [l rs]. simpl. rewrite <-list_fmap_compose.
  intros H. eapply sublist_NoDup; [exact H|]. apply fmap_sublist, sublist_filter.
Qed.

Lemma set_running_spec c c' r b :
  running c' (set_running c r b) = (if decide (c = c') then bool_decide (is_Some (conns b !! c')) && r
                                    else running c' b) ∧
  world_uid c' (set_running c r b) = world_uid c' b.
Proof.
  unfold running, world_uid, set_running. simpl. case_decide as Hc; [subst c'|].
  - rewrite lookup_alter_eq. by destruct (conns b !! c).
  - by rewrite lookup_alter_ne.
Qed.
Lemma set_world_uid_spec c c' uid b :
  running c' (set_world_uid c uid b) = running c' b ∧
  (c ≠ c' → world_uid c' (set_world_uid c uid b) = world_uid c' b) ∧
  (running c b = true → world_uid c (set_world_uid c uid b) = uid).
Proof.
  unfold running, world_uid, set_world_uid. simpl. split_and!.
  - destruct (decide (c = c')) as [->|]; [rewrite lookup_alter_eq|by rewrite lookup_alter_ne].
    by destruct (conns b !! c').
  - intros. by rewrite lookup_alter_ne.
  - rewrite lookup_alter_eq. by destruct (conns b !! c).
Qed.
Lemma is_registered_false c R :
  is_registered c R = false ↔ ∀ u i, (u, i) ∈ registered R → ms_conn i ≠ c.
Proof.
  unfold is_registered. rewrite bool_decide_eq_false, list_elem_of_fmap. split.
  - intros H u i Hi Hc. apply H. by exists (u, i).
  - intros H ([u i]&Hc&Hi). by apply (H u i Hi).
Qed.

Lemma implements_connected c R s :
  implements R s → c ∉ live R →
  implements (Registry ({[c]} ∪ live R) (registered R)) (mgr_step (ML_connected c) s).
Proof.
  intros [H1 H2 H3 H4] Hc. split; [done| |done|]; simpl.
  - intros u i Hi. destruct (H2 u i Hi) as [Hl Hw]. split; [set_solver|].
    unfold world_uid in *. simpl. by rewrite lookup_insert_ne by set_solver.
  - intros c'. unfold running in *. simpl. destruct (decide (c = c')) as [->|].
    + rewrite lookup_insert_eq, bool_decide_true; [done|set_solver].
    + rewrite lookup_insert_ne by done. rewrite H4. apply bool_decide_ext. set_solver.
Qed.
Lemma implements_register c m R s :
  implements R s → c ∈ live R → is_registered c R = false →
  let d := unpack_register (m_data m) in
  implements (Registry (live R) (registered R ++ [(rd_unique_id d,
    ManageServerInfo c (ServerInfo_ (rd_unique_id d) (rd_ip d) (rd_port d) 5000))]))
    (on_cs_register_server c m s).
Proof.
  intros [H1 H2 H3 H4] Hc Hr d. rewrite is_registered_false in Hr. unfold on_cs_register_server.
  fold d. set (info := ServerInfo_ _ _ _ _).
  set (s1 := on_base (set_world_uid c (rd_unique_id d)) (set_servers _ s)).
  apply (implements_same _ s1);
    [|eapply same_conns_trans; [|apply broadcast_msg_same]; apply send_conn_msg_same|done].
  split; simpl.
  - intros u. unfold servers_of. simpl. rewrite filter_app, fmap_app.
    destruct (decide (rd_unique_id d = u)) as [<-|Hu].
    + rewrite lookup_insert_eq, filter_cons_True by done. simpl. by rewrite H1.
    + rewrite lookup_insert_ne, filter_cons_False by done. simpl. rewrite app_nil_r. apply H1.
  - intros u i [Hi|Hi%list_elem_of_singleton]%elem_of_app.
    + destruct (H2 u i Hi) as [Hl Hw]. split; [done|].
      rewrite (proj1 (proj2 (set_world_uid_spec c (ms_conn i) _ _))); [done|].
      intros ->. by apply (Hr u i).
    + simplify_eq. simpl. split; [done|]. 
      apply (proj2 (proj2 (set_world_uid_spec c c _ _))).
      etrans; [apply H4|by apply bool_decide_true].
  - rewrite fmap_app. apply NoDup_app. split_and!; [done| |apply NoDup_singleton].
    intros c' ([u i]&->&Hi)%list_elem_of_fmap. simpl. rewrite list_elem_of_singleton. by apply (Hr u i).
  - intros c'. rewrite (proj1 (set_world_uid_spec c c' _ _)). apply H4.
Qed.
Lemma filter_not_conn c (l : list manage_server_info) :
  (∀ i, i ∈ l → ms_conn i ≠ c) → filter (λ i, ms_conn i ≠ c) l = l.
Proof.
  induction l as [|i l IH]; intros Hl; [done|]. rewrite filter_cons_True by set_solver.
  f_equal. apply IH. set_solver.
Qed.
Lemma implements_removed c R s s' :
  implements R s → conns (mgr_base s') = conns (set_running c false (mgr_base s)) →
  (∀ u, default [] (servers_ s' !! u) = filter (λ i, ms_conn i ≠ c) (servers_of u R)) →
  implements (Registry (live R ∖ {[c]}) (filter (λ x, ms_conn x.2 ≠ c) (registered R))) s'.
Proof.
  intros [H1 H2 H3 H4] Hc Hs. split; simpl.
  - intros u. rewrite Hs. symmetry. apply filter_conn_registered.
  - intros u i [Hne Hi]%list_elem_of_filter. simpl in Hne. destruct (H2 u i Hi) as [Hl Hw].
    split; [set_solver|]. rewrite <-Hw. unfold world_uid. rewrite Hc.
    apply (set_running_spec c (ms_conn i) false (mgr_base s)).
  - eapply sublist_NoDup; [exact H3|]. apply fmap_sublist, sublist_filter.
  - intros c'. unfold running. rewrite Hc.
    change (running c' (set_running c false (mgr_base s)) = bool_decide (c' ∈ live R ∖ {[c]})).
    rewrite (proj1 (set_running_spec c c' false (mgr_base s))), H4. case_decide as Hcc.
    + rewrite andb_false_r. symmetry. apply bool_decide_false. set_solver.
    + apply bool_decide_ext. set_solver.
Qed.
Lemma implements_disconnected c R s :
  implements R s →
  implements (Registry (live R ∖ {[c]}) (filter (λ x, ms_conn x.2 ≠ c) (registered R)))
    (mgr_step (ML_disconnected c) s).
Proof.
  intros HR. pose proof HR as [H1 H2 H3 _]. simpl. unfold mgr_on_disconnect.
  set (w := world_uid c (mgr_base (on_base (set_running c false) s))).
  assert (w = world_uid c (mgr_base s)) as Hw by apply (set_running_spec c c false).
  assert (∀ u, u ≠ w → filter (λ i, ms_conn i ≠ c) (servers_of u R) = servers_of u R) as Hid.
  { intros u Hu. apply filter_not_conn. intros i Hi%servers_of_elem Hc. subst c.
    apply Hu. rewrite Hw. symmetry. by apply (H2 u i). }
  assert (∀ l, servers_ s !! w = Some l → erase_conn c l = filter (λ i, ms_conn i ≠ c) (servers_of w R)) as He.
  { intros l Hl. rewrite <-(H1 w), Hl. simpl. apply erase_conn_filter.
    generalize (servers_of_nodup w R H3). by rewrite <-(H1 w), Hl. }
  assert (servers_of w R = [] → ∀ u, default [] (servers_ s !! u) =
    filter (λ i, ms_conn i ≠ c) (servers_of u R)) as Hnil.
  { intros Hl u. rewrite H1. destruct (decide (u = w)) as [->|]; [by rewrite Hl|by rewrite Hid]. }
  assert (∀ s2, servers_ s2 = servers_ s → default [] (servers_ s !! w) = [] →
    conns (mgr_base s2) = conns (set_running c false (mgr_base s)) →
    implements (Registry (live R ∖ {[c]}) (filter (λ x, ms_conn x.2 ≠ c) (registered R))) s2) as Hun.
  { intros s2 Hs Hl Hc. eapply implements_removed; [exact HR|done|]. rewrite Hs. apply Hnil.
    by rewrite <-H1. }
  assert (∀ b, conns (base_on_disconnect c b) = conns b) as Hb.
  { intros b. unfold base_on_disconnect. by case_bool_decide. }
  simpl. destruct (servers_ s !! w) as [[|i l]|] eqn:Hl; [by apply Hun; [..|apply Hb]| |by apply Hun; [..|apply Hb]].
  eapply implements_removed; [exact HR| |].
  { apply broadcast_msg_same. }
  intros u. destruct (broadcast_msg_same w SC_ServerEvent (P_event (ServerEvent EServerDisconnected
    (info_of_id w))) (set_servers (<[w := erase_conn c (i :: l)]> (servers_ s)) (on_base (set_running c false) s)))
    as [_ ->]. simpl.
  destruct (decide (u = w)) as [->|Hu].
  - rewrite lookup_insert_eq. apply (He (i :: l) eq_refl).
  - rewrite lookup_insert_ne by done. by rewrite H1, Hid.
Qed.
Lemma implements_receive c m R R' s :
  implements R s → reg_step (ML_receive c m) R = Some R' → implements R' (mgr_step (ML_receive c m) s).
Proof.
  intros HR. simpl. unfold mgr_on_receive_msgs. simpl.
  assert (implements R (on_base (before_invoke m) s)) as HR1 by by eapply implements_same.
  revert HR1. generalize (on_base (before_invoke m) s) as s1. clear s HR. intros s HR.
  case_bool_decide as Hc; [|done]. simpl. unfold mgr_on_receive.
  destruct (Z.eqb_spec (protocol_of m) CS_RegisterServer) as [Hid|Hid]; simpl.
  { destruct (is_registered c R) eqn:Hr; [done|]. intros [= <-]. by apply implements_register. }
  destruct (protocol_of m =? SimpleRegisterServer) eqn:Hsid; simpl.
  - destruct (is_registered c R) eqn:Hr; [done|]. intros [= <-].
    apply Z.eqb_eq in Hsid. rewrite Hsid. simpl. unfold base_on_receive, on_base. rewrite Hsid.
    destruct HR as [H1 H2 H3 H4]. simpl. rewrite is_registered_false in Hr.
    case_bool_decide as Hg; [|done]. case_match; [|done]. split; simpl; [done| |done|].
    + intros u i Hi. destruct (H2 u i Hi) as [Hl Hw]. split; [done|].
      rewrite (proj1 (proj2 (set_world_uid_spec c (ms_conn i) _ _))); [done|].
      intros ->. by apply (Hr u i).
    + intros c'. rewrite (proj1 (set_world_uid_spec c c' _ _)). apply H4.
  - intros [= <-]. case_match.
    { eapply implements_same; [exact HR|apply send_conn_msg_same|done]. }
    case_match.
    { unfold on_broadcast_server_msg. case_bool_decide; [done|].
      eapply implements_same; [exact HR|apply broadcast_server_msg_same..]. }
    eapply implements_same; [exact HR|apply forward_msg_same..].
Qed.
Lemma mgr_step_implements l R R' s :
  implements R s → reg_step l R = Some R' → implements R' (mgr_step l s).
Proof.
  intros HR. destruct l as [c|c m|c].
  - simpl. case_bool_decide; [done|]. intros [= <-]. by apply implements_connected.
  - by apply implements_receive.
  - simpl. case_bool_decide; [|done]. intros [= <-]. by apply implements_disconnected.
Qed.
Lemma mgr_run_implements ls R R' s :
  implements R s → reg_run ls R = Some R' → implements R' (mgr_run ls s).
Proof.
  revert R s. induction ls as [|l ls IH]; intros R s HR; simpl; [by intros [= <-]|].
  destruct (reg_step l R) as [R1|] eqn:H1; [|done]. simpl. intros H2.
  eapply IH; [|exact H2]. by eapply mgr_step_implements.
Qed.

(** ** What is sent *)
Lemma writes_app e1 e2 : writes (e1 ++ e2) = writes e1 ++ writes e2.
Proof. apply omap_app. Qed.
Lemma send_raw_msg_writes c m b : writes (events (send_raw_msg c m b)) = writes (events b) ++ [(c, m)].
Proof.
  unfold send_raw_msg. simpl. rewrite !writes_app, app_assoc. f_equal.
  assert (∀ l, writes (map (λ k, Ev_before_send k (m_head m)) l) = []) as ->; [|by rewrite app_nil_r].
  intros l. by induction l.
Qed.
Lemma before_invoke_writes m b : writes (events (before_invoke m b)) = writes (events b).
Proof.
  unfold before_invoke. simpl. rewrite writes_app.
  assert (∀ l, writes (map (λ k, Ev_before_invoke k (m_head m)) l) = []) as ->; [|by rewrite app_nil_r].
  intros l. by induction l.
Qed.
Lemma send_raw_msg_same c m b : same_conns b (send_raw_msg c m b).
Proof. done. Qed.
Lemma running_same c b b' : same_conns b b' → running c b' = running c b.
Proof. intros (H&_). unfold running. by rewrite H. Qed.
Lemma forward_msg_writes uid m R s :
  implements R s →
  writes (events (mgr_base (forward_msg uid m s))) =
  writes (events (mgr_base s)) ++ ((λ i, (ms_conn i, m)) <$> servers_of uid R).
Proof.
  intros [H1 H2 _ H4]. unfold forward_msg. rewrite <-H1.
  assert (∀ i, i ∈ default [] (servers_ s !! uid) → running (ms_conn i) (mgr_base s) = true) as Hrun.
  { intros i Hi. rewrite H4. rewrite H1, servers_of_elem in Hi. apply bool_decide_true. by apply (H2 uid). }
  destruct (servers_ s !! uid) as [l|]; simpl in *; [|by rewrite app_nil_r].
  revert Hrun. generalize (mgr_base s) as b. induction l as [|i l IH]; intros b Hrun; simpl.
  - by rewrite app_nil_r.
  - rewrite (Hrun i) by left. rewrite IH.
    + rewrite send_raw_msg_writes, <-app_assoc. done.
    + intros j Hj. rewrite (running_same _ b); [|done]. apply Hrun. by right.
Qed.
Lemma broadcast_server_msg_writes uids m R s :
  implements R s →
  writes (events (mgr_base (broadcast_server_msg uids m s))) =
  writes (events (mgr_base s)) ++ (uid ← uids; (λ i, (ms_conn i, m)) <$> servers_of uid R).
Proof.
  unfold broadcast_server_msg. revert s. induction uids as [|u uids IH]; intros s HR; simpl.
  - by rewrite app_nil_r.
  - rewrite IH.
    + rewrite (forward_msg_writes u m R s HR), <-app_assoc. done.
    + eapply implements_same; [exact HR|apply forward_msg_same..].
Qed.
Lemma registry_infos ls R R' :
  reg_run ls R = Some R' → (∀ u i, (u, i) ∈ registered R → si_unique_id (ms_info i) = u) →
  ∀ u i, (u, i) ∈ registered R' → si_unique_id (ms_info i) = u.
Proof.
  revert R. induction ls as [|l ls IH]; intros R; simpl; [by intros [= <-]|].
  destruct (reg_step l R) as [R1|] eqn:H1; [|done]. simpl. intros H2 HR. apply (IH R1 H2).
  destruct l as [c|c m|c]; simpl in H1.
  - case_bool_decide; [done|]. by simplify_eq/=.
  - repeat (case_match; try done); simplify_eq/=; try done.
    intros u i [Hi|Hi%list_elem_of_singleton]%elem_of_app; [by apply HR|by simplify_eq].
  - case_bool_decide; [|done]. simplify_eq/=. intros u i [_ Hi]%list_elem_of_filter. by apply HR.
Qed.
Lemma emplace_all_lookup l (m0 : gmap Z ServerInfo) u :
  emplace_all l m0 !! u =
  match m0 !! u with
  | Some i => Some i
  | None => snd <$> head (filter (λ x, x.1 = u) l)
  end.
Proof.
  revert m0. induction l as [|[v i] l IH]; intros m0; simpl; [by destruct (m0 !! u)|].
  rewrite IH. destruct (decide (v = u)) as [->|Hv].
  - rewrite filter_cons_True by done. simpl. destruct (m0 !! u) eqn:H0; [by rewrite H0|].
    by rewrite lookup_insert_eq.
  - rewrite filter_cons_False by done. destruct (m0 !! v); [done|]. by rewrite lookup_insert_ne.
Qed.
(** What the registry knows of some ids. *)
Definition known_infos (uids : list Z) R (u : Z) : option ServerInfo :=
  if bool_decide (u ∈ uids) then ms_info <$> head (servers_of u R) else None.
Lemma server_infos_known uids R s u :
  implements R s → (∀ u i, (u, i) ∈ registered R → si_unique_id (ms_info i) = u) →
  emplace_all (server_infos uids s) ∅ !! u = known_infos uids R u.
Proof.
  intros [H1 _ _ _] Hinfo. rewrite emplace_all_lookup, lookup_empty. unfold known_infos, server_infos.
  induction uids as [|v uids IH]; [done|]. simpl.
  assert (∀ i l, servers_ s !! v = Some (i :: l) → si_unique_id (ms_info i) = v) as Hv.
  { intros i l Hl. apply Hinfo, servers_of_elem. rewrite <-H1, Hl. left. }
  destruct (decide (u = v)) as [->|Hu].
  - rewrite bool_decide_true by left. rewrite <-H1.
    destruct (servers_ s !! v) as [[|i l]|] eqn:Hl; simpl.
    + etrans; [exact IH|]. rewrite <-H1, Hl. by case_bool_decide.
    + rewrite filter_cons_True; [done|]. simpl. by eapply Hv.
    + etrans; [exact IH|]. rewrite <-H1, Hl. by case_bool_decide.
  - rewrite (bool_decide_ext (u ∈ v :: uids) (u ∈ uids)), <-IH by set_solver.
    destruct (servers_ s !! v) as [[|i l]|] eqn:Hl; simpl; [done| |done].
    rewrite filter_cons_False; [done|]. simpl. by rewrite (Hv _ _ eq_refl).
Qed.
Lemma server_pack_msg_same id to p b b' :
  same_conns b b' → server_pack_msg id to p b' = server_pack_msg id to p b.
Proof. intros (_&_&Hu&_). unfold server_pack_msg. by rewrite Hu. Qed.
Lemma send_conn_msg_writes c id p b :
  running c b = true →
  writes (events (send_conn_msg c id p None b).2) =
  writes (events b) ++ [(c, server_pack_msg id (world_uid c b) p b)].
Proof. intros H. unfold send_conn_msg. simpl. rewrite H. apply send_raw_msg_writes. Qed.
Lemma world_uid_same c b b' : same_conns b b' → world_uid c b' = world_uid c b.
Proof. intros (H&_). unfold world_uid. by rewrite H. Qed.

(** All the members of a list of connections of one server. *)
Lemma send_all_writes u id p (l : list manage_server_info) b :
  (∀ i, i ∈ l → running (ms_conn i) b = true ∧ world_uid (ms_conn i) b = u) →
  writes (events (foldl (λ b i, (send_conn_msg (ms_conn i) id p None b).2) b l)) =
  writes (events b) ++ ((λ i, (ms_conn i, server_pack_msg id u p b)) <$> l).
Proof.
  revert b. induction l as [|i l IH]; intros b Hl; simpl; [by rewrite app_nil_r|].
  destruct (Hl i) as [Hr Hw]; [by left|]. pose proof (send_conn_msg_same (ms_conn i) id p None b) as Hs.
  rewrite IH.
  - rewrite send_conn_msg_writes, Hw, <-app_assoc by done. simpl. do 2 f_equal.
    apply list_fmap_ext. intros k j _. by rewrite (server_pack_msg_same _ _ _ b).
  - intros j Hj. rewrite (running_same _ b), (world_uid_same _ b) by done. apply Hl. by right.
Qed.
Definition announced (ex id : Z) (p : payload) b (ss : list (Z * list manage_server_info)) : list (Z * msg) :=
  x ← filter (λ x, x.1 ≠ ex) ss; (λ i, (ms_conn i, server_pack_msg id x.1 p b)) <$> x.2.
Lemma broadcast_writes ex id p (ss : list (Z * list manage_server_info)) b :
  (∀ u l i, (u, l) ∈ ss → i ∈ l → running (ms_conn i) b = true ∧ world_uid (ms_conn i) b = u) →
  writes (events (foldl (λ b '(uid, infos),
    if uid =? ex then b
    else foldl (λ b i, (send_conn_msg (ms_conn i) id p None b).2) b infos) b ss)) =
  writes (events b) ++ announced ex id p b ss.
Proof.
  revert b. induction ss as [|[u l] ss IH]; intros b Hl; simpl; [by rewrite app_nil_r|].
  assert (∀ b', same_conns b b' → ∀ u l i, (u, l) ∈ ss → i ∈ l →
    running (ms_conn i) b' = true ∧ world_uid (ms_conn i) b' = u) as Hl'.
  { intros b' Hb u' l' i Hu Hi. rewrite (running_same _ b), (world_uid_same _ b) by done.
    eapply Hl; [by right|done]. }
  unfold announced. destruct (Z.eqb_spec u ex) as [Hu|Hu].
  - rewrite filter_cons_False by (simpl; tauto). apply IH. apply Hl'. apply same_conns_refl.
  - rewrite filter_cons_True by done. simpl.
    assert (same_conns b (foldl (λ b i, (send_conn_msg (ms_conn i) id p None b).2) b l)) as Hs.
    { apply foldl_same. intros. apply send_conn_msg_same. }
    rewrite IH by by apply Hl'. rewrite (send_all_writes u) by (intros; eapply Hl; [left|done]).
    rewrite <-app_assoc. do 2 f_equal. unfold announced.
    apply list_bind_ext; [|done]. intros [v k]. apply list_fmap_ext. intros n j _.
    by rewrite (server_pack_msg_same _ _ _ b).
Qed.
Definition entries (ss : list (Z * list manage_server_info)) : list (Z * manage_server_info) :=
  x ← ss; pair x.1 <$> x.2.
Lemma announced_entries ex id p b ss :
  announced ex id p b ss =
  (λ x, (ms_conn x.2, server_pack_msg id x.1 p b)) <$> filter (λ x, x.1 ≠ ex) (entries ss).
Proof.
  unfold announced, entries. induction ss as [|[u l] ss IH]; [done|]. rewrite filter_cons. simpl.
  rewrite filter_app, fmap_app. case_decide as Hu; simpl.
  - f_equal; [|exact IH]. clear IH. induction l as [|i l IHl]; [done|].
    rewrite !fmap_cons, filter_cons_True by done. rewrite fmap_cons. by f_equal.
  - assert (filter (λ x, x.1 ≠ ex) (pair u <$> l) = []) as ->; [|exact IH].
    clear IH. induction l as [|i l IHl]; [done|]. by rewrite fmap_cons, filter_cons_False by (simpl; tauto).
Qed.
Lemma entries_registered R s :
  implements R s → entries (in_key_order (servers_ s)) ≡ₚ registered R.
Proof.
  intros [H1 _ H3 _]. unfold entries. rewrite in_key_order_perm. apply NoDup_Permutation.
  - apply NoDup_bind; [| |apply NoDup_map_to_list].
    + intros [u l] [v k] y Hu Hv (i&->&Hi)%list_elem_of_fmap (j&Hj&_)%list_elem_of_fmap.
      simplify_eq/=. apply elem_of_map_to_list in Hu, Hv. congruence.
    + intros [u l] Hu%elem_of_map_to_list. simpl. apply NoDup_fmap_2; [by intros ?? [=]|].
      eapply NoDup_fmap_1. generalize (servers_of_nodup u R H3). by rewrite <-(H1 u), Hu.
  - by apply NoDup_fmap_1 in H3.
  - intros [u i]. rewrite <-servers_of_elem, <-H1, list_elem_of_bind. split.
    + intros ([v l]&(j&Hj&Hi)%list_elem_of_fmap&Hl%elem_of_map_to_list). simplify_eq/=.
      by rewrite Hl.
    + destruct (servers_ s !! u) as [l|] eqn:Hl; simpl; [|by intros ?%elem_of_nil]. intros Hi.
      exists (u, l). split; [|by apply elem_of_map_to_list]. simpl. by apply list_elem_of_fmap_2.
Qed.
Lemma broadcast_msg_writes ex id p R s :
  implements R s →
  writes (events (mgr_base (broadcast_msg ex id p s))) ≡ₚ
  writes (events (mgr_base s)) ++
    ((λ x, (ms_conn x.2, server_pack_msg id x.1 p (mgr_base s))) <$>
      filter (λ x, x.1 ≠ ex) (registered R)).
Proof.
  intros HR. unfold broadcast_msg. simpl. rewrite broadcast_writes.
  - by rewrite announced_entries, (entries_registered R s HR).
  - intros u l i Hl Hi. destruct HR as [H1 H2 _ H4].
    assert ((u, i) ∈ registered R) as Hin.
    { rewrite <-servers_of_elem, <-H1. rewrite in_key_order_perm in Hl.
      apply elem_of_map_to_list in Hl. by rewrite Hl. }
    destruct (H2 u i Hin) as [Hc Hw]. split; [|done]. rewrite H4. by apply bool_decide_true.
Qed.
Lemma register_writes c m R s :
  implements R s → c ∈ live R → is_registered c R = false →
  let d := unpack_register (m_data m) in let u := rd_unique_id d in let b := mgr_base s in
  writes (events (mgr_base (on_cs_register_server c m s))) ≡ₚ
  writes (events b) ++ [(c, server_pack_msg SC_RegisterServer u (P_registered (u16 u)) b)] ++
    ((λ x, (ms_conn x.2, server_pack_msg SC_ServerEvent x.1 (P_event (ServerEvent EServerConnected
        (ServerInfo_ u (rd_ip d) (rd_port d) 5000))) b)) <$> filter (λ x, x.1 ≠ u) (registered R)).
Proof.
  intros HR Hc Hr d u b. pose proof (implements_register c m R s HR Hc Hr) as HR'.
  unfold on_cs_register_server in *. fold d in HR' |- *. fold u in HR' |- *.
  set (s1 := on_base (set_world_uid c u) (set_servers _ s)) in *.
  set (s2 := on_base _ s1) in *.
  assert (implements (Registry (live R) (registered R ++ [(u, ManageServerInfo c
    (ServerInfo_ u (rd_ip d) (rd_port d) 5000))])) s2) as HR2.
  { eapply implements_same; [exact HR'| |].
    - destruct (proj1 (broadcast_msg_same u SC_ServerEvent (P_event (ServerEvent EServerConnected
        (ServerInfo_ u (rd_ip d) (rd_port d) 5000))) s2)) as (?&?&?&?&?). by split_and!.
    - done. }
  rewrite (broadcast_msg_writes _ _ _ _ _ HR2). simpl. rewrite filter_app, filter_cons_False by (simpl; tauto).
  change (filter _ []) with (@nil (Z * manage_server_info)). rewrite app_nil_r.
  assert (running c (mgr_base s) = true) as Hrun0 by (etrans; [apply HR|by apply bool_decide_true]).
  destruct (set_world_uid_spec c c u (mgr_base s)) as (Hrun&_&Hw). rewrite Hrun0 in Hrun.
  rewrite (send_conn_msg_writes c _ _ (set_world_uid c u (mgr_base s)) Hrun), <-app_assoc, (Hw Hrun0).
  apply reflexive_eq. do 2 f_equal. apply list_fmap_ext. intros k x _. f_equal.
  apply (server_pack_msg_same _ _ _ (set_world_uid c u (mgr_base s))), send_conn_msg_same.
Qed.
Lemma disconnect_writes c u i R s :
  implements R s → (u, i) ∈ registered R → ms_conn i = c →
  writes (events (mgr_base (mgr_step (ML_disconnected c) s))) ≡ₚ
  writes (events (mgr_base s)) ++
    ((λ x, (ms_conn x.2, server_pack_msg SC_ServerEvent x.1
        (P_event (ServerEvent EServerDisconnected (info_of_id u))) (mgr_base s))) <$>
      filter (λ x, x.1 ≠ u) (registered R)).
Proof.
  intros HR Hi Hc. destruct (impl_world _ _ HR u i Hi) as [_ Hw]. rewrite Hc in Hw.
  pose proof (implements_disconnected c R s HR) as HR'. revert HR'.
  simpl. unfold mgr_on_disconnect. simpl. rewrite (proj2 (set_running_spec c c false _)), Hw.
  pose proof (impl_servers _ _ HR u) as Hs.
  assert (i ∈ servers_of u R) as Hin by by apply servers_of_elem.
  destruct (servers_ s !! u) as [[|j l]|] eqn:Hl; simpl in Hs;
    [rewrite <-Hs in Hin; by apply elem_of_nil in Hin| |rewrite <-Hs in Hin; by apply elem_of_nil in Hin].
  set (s1 := set_servers _ (on_base _ s)). intros HR'.
  assert (implements (Registry (live R ∖ {[c]}) (filter (λ x, ms_conn x.2 ≠ c) (registered R))) s1) as HR1.
  { eapply implements_same; [exact HR'| |done].
    destruct (proj1 (broadcast_msg_same u SC_ServerEvent (P_event (ServerEvent EServerDisconnected
      (info_of_id u))) s1)) as (?&?&?&?&?). by split_and!. }
  rewrite (broadcast_msg_writes _ _ _ _ _ HR1). simpl.
  assert (∀ rs, (∀ v j, (v, j) ∈ rs → ms_conn j = c → v = u) →
    filter (λ x, x.1 ≠ u) (filter (λ x, ms_conn x.2 ≠ c) rs) =
    filter (λ x : Z * manage_server_info, x.1 ≠ u) rs) as ->; [|done|].
  - clear. induction rs as [|[v j] rs IH]; intros Hrs; [done|].
    assert (filter (λ x, x.1 ≠ u) (filter (λ x, ms_conn x.2 ≠ c) rs) =
      filter (λ x : Z * manage_server_info, x.1 ≠ u) rs) as IH' by (apply IH; set_solver).
    rewrite !filter_cons. simpl. destruct (decide (ms_conn j ≠ c)) as [Hj|Hj%dec_stable].
    + rewrite filter_cons. simpl. case_decide; [by f_equal|done].
    + rewrite decide_False; [done|]. intros []. apply (Hrs v j); [by left|done].
  - intros v j' Hj Hjc. destruct (impl_world _ _ HR v j' Hj) as [_ Hv]. congruence.
Qed.
Lemma run_infos ls R u i :
  reg_run ls registry_new = Some R → (u, i) ∈ registered R → si_unique_id (ms_info i) = u.
Proof. intros HR. eapply registry_infos; [exact HR|]. by intros ?? ?%elem_of_nil. Qed.
Lemma query_writes c m R s :
  implements R s → (∀ u i, (u, i) ∈ registered R → si_unique_id (ms_info i) = u) → c ∈ live R →
  ∃ infos, (∀ u, infos !! u = known_infos (unpack_get_info (m_data m)) R u) ∧
    writes (events (mgr_base (on_cs_get_server_info c m s))) = writes (events (mgr_base s)) ++
      [(c, server_pack_msg SC_GetServerInfo (world_uid c (mgr_base s)) (P_info (in_key_order infos))
             (mgr_base s))].
Proof.
  intros HR Hinfo Hc. exists (emplace_all (server_infos (unpack_get_info (m_data m)) s) ∅). split.
  - intros u. by apply server_infos_known.
  - unfold on_cs_get_server_info. simpl. rewrite send_conn_msg_writes; [done|].
    etrans; [apply HR|by apply bool_decide_true].
Qed.

(** ** What the manager promises *)
(** C7: The manager of a cluster implements its registry: whatever clients connect,
    register, send and disconnect, as long as a connection says who it is at most once,
    the servers kept under an id are exactly those registered with it that are still
    connected, in order of registration; each runs and carries its id. *)
Theorem manager_implements_registry ls uid hooks R :
  reg_run ls registry_new = Some R → implements R (mgr_run ls (mgr_new uid hooks)).
Proof. apply mgr_run_implements, mgr_new_implements. Qed.


(** C10: The manager delivers messages to the registered servers: a message to a server
    is written once to each connection registered with its id, in order of registration,
    and to no other, unchanged; a broadcast goes to each of the servers it names, in
    that order; a query is answered with the first registered of each server asked for,
    to the asker alone. *)
Theorem messages_delivered ls uid hooks R c m :
  let s := mgr_run ls (mgr_new uid hooks) in let b := mgr_base s in
  let b' := mgr_base (mgr_step (ML_receive c m) s) in
  let to u := (λ i, (ms_conn i, m)) <$> servers_of u R in
  reg_run ls registry_new = Some R →
  (protocol_of m ∉ [CS_RegisterServer; CS_GetServerInfo; BroadcastServerMsg; SimpleRegisterServer] →
    writes (events b') = writes (events b) ++ to (mh_to_unique_id (m_head m))) ∧
  (protocol_of m = BroadcastServerMsg →
    writes (events b') = writes (events b) ++ ((unpack_broadcast (m_data m)).2 ≫= to)) ∧
  (protocol_of m = CS_GetServerInfo → c ∈ live R →
    ∃ infos, (∀ u, infos !! u = known_infos (unpack_get_info (m_data m)) R u) ∧
      writes (events b') = writes (events b) ++
        [(c, server_pack_msg SC_GetServerInfo (world_uid c b) (P_info (in_key_order infos)) b)]).
Proof.
  intros s b b' to HR. pose proof (mgr_run_implements _ _ _ _ (mgr_new_implements uid hooks) HR) as Hs.
  fold s in Hs. subst b' b. simpl. unfold mgr_on_receive_msgs. simpl.
  set (s1 := on_base (before_invoke m) s).
  assert (implements R s1) as H1 by by eapply implements_same.
  assert (writes (events (mgr_base s1)) = writes (events (mgr_base s))) as Hw.
  { apply before_invoke_writes. }
  unfold mgr_on_receive. rewrite <-Hw. split_and!.
  - intros Hid. rewrite !not_elem_of_cons in Hid. destruct Hid as (?&?&?&?&_).
    rewrite !(proj2 (Z.eqb_neq _ _)) by done. simpl. by apply forward_msg_writes.
  - intros ->. simpl. unfold on_broadcast_server_msg. case_bool_decide as Hn.
    + rewrite Hn. simpl. by rewrite app_nil_r.
    + by apply broadcast_server_msg_writes.
  - intros -> Hc. simpl. apply (query_writes c m R s1); [done|intros u i; by eapply run_infos|done].
Qed.

(** C17: The manager announces its members: when a connection registers it is answered,
    and the others registered with another id are each told once; when a registered
    connection is lost they are each told once too. *)
Theorem membership_announced ls uid hooks R c :
  let s := mgr_run ls (mgr_new uid hooks) in let b := mgr_base s in
  let told e ex := (λ x, (ms_conn x.2, server_pack_msg SC_ServerEvent x.1 (P_event e) b)) <$>
                     filter (λ x, x.1 ≠ ex) (registered R) in
  reg_run ls registry_new = Some R → c ∈ live R →
  (∀ m, let d := unpack_register (m_data m) in let u := rd_unique_id d in
    protocol_of m = CS_RegisterServer → is_registered c R = false →
    writes (events (mgr_base (mgr_step (ML_receive c m) s))) ≡ₚ
    writes (events b) ++ [(c, server_pack_msg SC_RegisterServer u (P_registered (u16 u)) b)] ++
      told (ServerEvent EServerConnected (ServerInfo_ u (rd_ip d) (rd_port d) 5000)) u) ∧
  (∀ u i, (u, i) ∈ registered R → ms_conn i = c →
    writes (events (mgr_base (mgr_step (ML_disconnected c) s))) ≡ₚ
    writes (events b) ++ told (ServerEvent EServerDisconnected (info_of_id u)) u).
Proof.
  intros s b told HR Hc. pose proof (mgr_run_implements _ _ _ _ (mgr_new_implements uid hooks) HR) as Hs.
  fold s in Hs. split.
  - intros m d u Hid Hr. simpl. unfold mgr_on_receive_msgs. simpl.
    set (s1 := on_base (before_invoke m) s).
    assert (implements R s1) as H1 by by eapply implements_same.
    unfold mgr_on_receive. rewrite Hid.
    etrans; [apply (register_writes c m R s1 H1 Hc Hr)|].
    unfold s1. simpl mgr_base. by rewrite before_invoke_writes.
  - intros u i Hi Hic. by apply (disconnect_writes c u i R).
Qed.
End game.

(** ** A codec *)
#[export] Instance ServerInfo_eq_dec : EqDecision ServerInfo.
Proof. solve_decision. Defined.
#[export] Instance ServerInfo_countable : Countable ServerInfo.
Proof.
  refine (inj_countable' (λ i, (si_unique_id i, si_ip i, si_port i, si_connect_interval i))
    (λ '(u, ip, p, n), ServerInfo_ u ip p n) _). by intros [].
Defined.
#[export] Instance register_data_eq_dec : EqDecision register_data.
Proof. solve_decision. Defined.
#[export] Instance register_data_countable : Countable register_data.
Proof.
  refine (inj_countable' (λ i, (rd_unique_id i, rd_ip i, rd_port i))
    (λ '(u, ip, p), RegisterData u ip p) _). by intros [].
Defined.
#[export] Instance server_event_eq_dec : EqDecision server_event.
Proof. solve_decision. Defined.
#[export] Instance server_event_countable : Countable server_event.
Proof.
  refine (inj_countable' (λ e, (match se_event e with EServerConnected => true | EServerDisconnected => false end, se_info e))
    (λ '(b, i), ServerEvent (if b : bool then EServerConnected else EServerDisconnected) i) _).
  by intros [[] i].
Defined.
(** One number for the whole body. *)
Definition encode_body {A} `{Countable A} (a : A) : list Z := [Zpos (encode a)].
Definition decode_body {A} `{Countable A} (a0 : A) (l : list Z) : A :=
  match l with [Zpos p] => default a0 (decode p) | _ => a0 end.
Lemma decode_encode_body {A} `{Countable A} (a0 a : A) : decode_body a0 (encode_body a) = a.
Proof. unfold decode_body, encode_body. by rewrite decode_encode. Qed.
Definition sample_codec : Codec.
Proof.
  refine {|
    packable _ := True;
    pack p := match p with
              | P_simple_register uid => encode_body uid
              | P_register d => encode_body d
              | P_registered uid => encode_body uid
              | P_get_info l => encode_body l
              | P_info l => encode_body l
              | P_event e => encode_body e
              | P_broadcast m l d => encode_body (m, l, d)
              end;
    unpack_simple_register := decode_body 0;
    unpack_register := decode_body (RegisterData 0 "" 0);
    unpack_get_info := decode_body [];
    unpack_info := decode_body [];
    unpack_event := decode_body (ServerEvent EServerDisconnected (info_of_id 0));
    unpack_broadcast l := (decode_body (0, [], []) l : Z * list Z * list Z).1
  |}; intros; try apply decode_encode_body. by rewrite decode_encode_body.
Defined.

(** ** A center with two lobbies and a database server *)
#[local] Existing Instance sample_codec.
Definition request (id : Z) (p : payload) : msg := server_pack_msg id 17 p (GameServerBase 6 None ∅ 0 0 []).
Definition joined (c uid : Z) : list mgr_label :=
  [ML_connected c; ML_receive c (request CS_RegisterServer (P_register (RegisterData uid "10.0.0.1" 90)))].
Definition cluster_run : list mgr_label := joined 1 4 ++ joined 2 7 ++ joined 3 7.
Definition cluster : registry := default registry_new (reg_run cluster_run registry_new).

Lemma cluster_ok : reg_run cluster_run registry_new = Some cluster.
Proof. vm_compute. reflexivity. Qed.

Lemma manager_implements_registry_witness :
  length (registered cluster) = 3%nat ∧ implements cluster (mgr_run cluster_run (mgr_new 17 1)).
Proof.
  split; [vm_compute; reflexivity|]. exact (manager_implements_registry _ _ _ _ cluster_ok).
Defined.
Lemma messages_delivered_witness :
  let m := request 300000 (P_registered 0) in
  let to7 := Msg (MsgHeader 6 7 0 0 0 0 300000 (mh_length (m_head m))) (m_data m) in
  writes (events (mgr_base (mgr_step (ML_receive 1 to7) (mgr_run cluster_run (mgr_new 17 1))))) =
  writes (events (mgr_base (mgr_run cluster_run (mgr_new 17 1)))) ++ [(2, to7); (3, to7)].
Proof.
  intros m to7. rewrite (proj1 (messages_delivered cluster_run 17 1 cluster 1 to7 cluster_ok)).
  - f_equal.
  - by apply (bool_decide_eq_true_1 _).
Defined.
Lemma membership_announced_witness :
  length (writes (events (mgr_base (mgr_step (ML_disconnected 1)
    (mgr_run cluster_run (mgr_new 17 1)))))) =
  (length (writes (events (mgr_base (mgr_run cluster_run (mgr_new 17 1))))) + 2)%nat.
Proof.
  destruct (membership_announced cluster_run 17 1 cluster 1 cluster_ok) as [_ H].
  - by apply (bool_decide_eq_true_1 _).
  - rewrite (Permutation_length (H 4 (ManageServerInfo 1 (ServerInfo_ 4 "10.0.0.1" 90 5000))
      ltac:(vm_compute; left) eq_refl)), length_app, length_fmap. f_equal.
Defined.
