(* ===== verification/GameClient.v ===== *)
(** * Clients of the center ([network/gameserver/game_server.hpp])

    A game server keeps a connection to the center and one to the database
    server.  It connects to the center and registers; the center tells it where
    the database server is; lost connections are made again from timers.  The
    timers are those of [Timer], the messages and the base those of
    [GameServer]; a connection is started by the transport before its router is
    told, and a lost one has stopped before. *)
From stdpp Require Import base option list numbers gmap strings.
From S2P Require Import Prelude RawMsg Timer GameServer.
Local Open Scope Z_scope.

(** ** Definitions *)
(** What the game server's code uses of [server_info], the configuration of a
    server ([common.hpp]). *)
Record server_cfg := ServerCfg {
  cfg_ip : string;
  cfg_port : Z;
  cfg_connect_interval : Z;
  cfg_depends : list Z;
  cfg_flush_log_time : Z
}.
(** The functions of the timers. *)
Inductive fn := Flush_logs | Connect_center | Connect_db | Get_db_info.

Record game_server := GameServer_ {
  gs_base : game_server_base;
  gs_timers : timer_manager fn;
  flush_log_timer_ : timer_proxy;
  depend_center_ : bool;
  center_conn_ptr_ : option Z;
  connect_center_timer_ : timer_proxy;
  depend_db_ : bool;
  db_conn_ptr_ : option Z;
  connect_db_timer_ : timer_proxy;
  get_db_info_timer_ : timer_proxy;
  db_info_ : ServerInfo
}.
Implicit Types s : game_server.
Definition on_gs_base (f : game_server_base → game_server_base) s : game_server :=
  GameServer_ (f (gs_base s)) (gs_timers s) (flush_log_timer_ s) (depend_center_ s)
    (center_conn_ptr_ s) (connect_center_timer_ s) (depend_db_ s) (db_conn_ptr_ s)
    (connect_db_timer_ s) (get_db_info_timer_ s) (db_info_ s).
Definition set_gs_timers (tm : timer_manager fn) s : game_server :=
  GameServer_ (gs_base s) tm (flush_log_timer_ s) (depend_center_ s)
    (center_conn_ptr_ s) (connect_center_timer_ s) (depend_db_ s) (db_conn_ptr_ s)
    (connect_db_timer_ s) (get_db_info_timer_ s) (db_info_ s).
Definition set_flush_timer (p : timer_proxy) s : game_server :=
  GameServer_ (gs_base s) (gs_timers s) p (depend_center_ s)
    (center_conn_ptr_ s) (connect_center_timer_ s) (depend_db_ s) (db_conn_ptr_ s)
    (connect_db_timer_ s) (get_db_info_timer_ s) (db_info_ s).
Definition set_center_timer (p : timer_proxy) s : game_server :=
  GameServer_ (gs_base s) (gs_timers s) (flush_log_timer_ s) (depend_center_ s)
    (center_conn_ptr_ s) p (depend_db_ s) (db_conn_ptr_ s)
    (connect_db_timer_ s) (get_db_info_timer_ s) (db_info_ s).
Definition set_connect_db_timer (p : timer_proxy) s : game_server :=
  GameServer_ (gs_base s) (gs_timers s) (flush_log_timer_ s) (depend_center_ s)
    (center_conn_ptr_ s) (connect_center_timer_ s) (depend_db_ s) (db_conn_ptr_ s)
    p (get_db_info_timer_ s) (db_info_ s).
Definition set_get_db_timer (p : timer_proxy) s : game_server :=
  GameServer_ (gs_base s) (gs_timers s) (flush_log_timer_ s) (depend_center_ s)
    (center_conn_ptr_ s) (connect_center_timer_ s) (depend_db_ s) (db_conn_ptr_ s)
    (connect_db_timer_ s) p (db_info_ s).
Definition set_center_conn (c : option Z) s : game_server :=
  GameServer_ (gs_base s) (gs_timers s) (flush_log_timer_ s) (depend_center_ s)
    c (connect_center_timer_ s) (depend_db_ s) (db_conn_ptr_ s)
    (connect_db_timer_ s) (get_db_info_timer_ s) (db_info_ s).
Definition set_db_conn (c : option Z) s : game_server :=
  GameServer_ (gs_base s) (gs_timers s) (flush_log_timer_ s) (depend_center_ s)
    (center_conn_ptr_ s) (connect_center_timer_ s) (depend_db_ s) c
    (connect_db_timer_ s) (get_db_info_timer_ s) (db_info_ s).
Definition set_depends (center db : bool) s : game_server :=
  GameServer_ (gs_base s) (gs_timers s) (flush_log_timer_ s) center
    (center_conn_ptr_ s) (connect_center_timer_ s) db (db_conn_ptr_ s)
    (connect_db_timer_ s) (get_db_info_timer_ s) (db_info_ s).
Definition set_db_info (i : ServerInfo) s : game_server :=
  GameServer_ (gs_base s) (gs_timers s) (flush_log_timer_ s) (depend_center_ s)
    (center_conn_ptr_ s) (connect_center_timer_ s) (depend_db_ s) (db_conn_ptr_ s)
    (connect_db_timer_ s) (get_db_info_timer_ s) i.
#[export] Instance game_server_timers : TimerOwner gs_timers set_gs_timers.
Proof. split; by intros; destruct s. Defined.
Notation on_timers := (on_tm gs_timers set_gs_timers).

Definition game_server_new (uid : Z) (hooks : nat) : game_server :=
  GameServer_ (GameServerBase uid None ∅ hooks hooks []) timer_manager_new proxy_default
    true None proxy_default true None proxy_default proxy_default (ServerInfo_ 0 "" 0 0).

Section client.
Context `{CODEC : Codec} (config : Z → server_cfg).
(** The protocols with a handler of their own ([Proto::GetMap]). *)
Context (protos : Z → bool).
Implicit Types (c uid now : Z) (m : msg).

(** *** Sending *)
Definition gs_get_connection_ptr s uid b : option Z :=
  if uid =? center_server then get_running_conn (center_conn_ptr_ s) b
  else if uid =? db_server then get_running_conn (db_conn_ptr_ s) b
  else if negb (uid =? gateway_server) then get_running_conn (center_conn_ptr_ s) b
  else base_get_connection_ptr uid b.
Definition gs_send_server_msg uid (msg_id : Z) (p : payload) s : game_server :=
  on_gs_base (λ b, (send_server_msg (gs_get_connection_ptr s) uid msg_id p None b).2) s.
Definition gs_broadcast_server_msg (servers : list Z) (msg_id : Z) (data : list Z) s
    : Z * game_server :=
  match gs_get_connection_ptr s center_server (gs_base s) with
  | None => (0, s)
  | Some c =>
      let m := server_pack_msg BroadcastServerMsg center_server (P_broadcast (u32 msg_id) servers data)
                 (gs_base s) in
      (total_length m, on_gs_base (send_raw_msg c m) s)
  end.
Definition register_to_center s : game_server :=
  let uid := unique_id_ (gs_base s) in
  gs_send_server_msg center_server CS_RegisterServer
    (P_register (RegisterData uid (cfg_ip (config uid)) (cfg_port (config uid)))) s.
Definition get_server_info s : game_server :=
  if depend_db_ s then gs_send_server_msg center_server CS_GetServerInfo (P_get_info [db_server]) s
  else s.

(** *** Connecting: a running connection is left alone *)
Definition async_connect (conn : option Z) (ip : string) (port : Z) s : game_server :=
  match conn with
  | Some c => if running c (gs_base s) then s else on_gs_base (emit [Ev_async_connect c ip port]) s
  | None => s
  end.
Definition conn_running (conn : option Z) s : bool :=
  match conn with Some c => running c (gs_base s) | None => false end.

(** The timers' functions; timers exist with their connections. *)
Definition connect_func s : game_server :=
  async_connect (center_conn_ptr_ s) (cfg_ip (config center_server)) (cfg_port (config center_server)) s.
Definition connect_db_func s : game_server :=
  async_connect (db_conn_ptr_ s) (si_ip (db_info_ s)) (si_port (db_info_ s)) s.
Definition stop_connect_db s : game_server :=
  let '(p, s) := proxy_stop gs_timers set_gs_timers (connect_db_timer_ s) s in
  set_connect_db_timer p s.
Definition get_db_info_func s : game_server :=
  if conn_running (db_conn_ptr_ s) s then s else get_server_info (stop_connect_db s).
Definition gs_call (f : fn) s : bool * game_server :=
  (true, match f with
         | Flush_logs => s
         | Connect_center => connect_func s
         | Connect_db => connect_db_func s
         | Get_db_info => get_db_info_func s
         end).
Notation start_proxy := (proxy_start gs_timers set_gs_timers gs_call).
Definition start_connect_center now (first : bool) s : game_server :=
  let '(p, s) := start_proxy now first (connect_center_timer_ s) s in set_center_timer p s.
Definition stop_connect_center s : game_server :=
  let '(p, s) := proxy_stop gs_timers set_gs_timers (connect_center_timer_ s) s in
  set_center_timer p s.
Definition start_connect_db now s : game_server :=
  let '(p, s) := start_proxy now true (connect_db_timer_ s) s in set_connect_db_timer p s.
Definition start_get_db_info now s : game_server :=
  let '(p, s) := start_proxy now true (get_db_info_timer_ s) s in set_get_db_timer p s.
Definition stop_get_db_info s : game_server :=
  let '(p, s) := proxy_stop gs_timers set_gs_timers (get_db_info_timer_ s) s in
  set_get_db_timer p s.

(** *** Starting *)
Definition create_connection c s : game_server :=
  on_gs_base (λ b, set_conns (<[c := ConnState false 0]> (conns b)) b) s.
Definition add_timer (milliseconds : Z) (f : fn) (set : timer_proxy → game_server → game_server) s
    : ub game_server :=
  '(id, tm) ← set_auto_timer milliseconds f (gs_timers s);
  Def (set (proxy_new id) (set_gs_timers tm s)).
(** [c1] and [c2] are the numbers of the next connections. *)
Definition gs_init now c1 c2 s : ub game_server :=
  let uid := unique_id_ (gs_base s) in
  let info := config uid in
  flush ← i32 (cfg_flush_log_time info * 1000);
  s ← add_timer flush Flush_logs set_flush_timer s;
  let depend_db := negb (uid =? db_server) && bool_decide (db_server ∈ cfg_depends info) in
  let depend_center := depend_center_ s && bool_decide (center_server ∈ cfg_depends info) in
  let s := set_depends depend_center depend_db s in
  s ← (if depend_center then
         let s := set_center_conn (Some c1) (create_connection c1 s) in
         s ← add_timer (s32 (cfg_connect_interval (config center_server))) Connect_center
               set_center_timer s;
         Def (start_connect_center now true s)
       else Def s);
  if depend_db then
    let s := set_db_conn (Some c2) (create_connection c2 s) in
    s ← add_timer (s32 (cfg_connect_interval info)) Connect_db set_connect_db_timer s;
    add_timer (20 * 1000) Get_db_info set_get_db_timer s
  else Def s.
Definition gs_start now s : game_server :=
  let '(p, s) := start_proxy now false (flush_log_timer_ s) s in set_flush_timer p s.
(** The timers' part of [stop]. *)
Definition gs_stop s : game_server := on_timers stop_all_timer s.

(** *** Messages from the center *)
Definition reconnect_db now s : game_server := if depend_db_ s then start_get_db_info now s else s.
Definition on_get_db_info now (info : ServerInfo) s : game_server :=
  start_connect_db now (set_db_info info s).
Definition on_sc_register_server now s : game_server := reconnect_db now s.
Definition on_sc_get_server_info now m s : game_server :=
  if depend_db_ s then
    match (list_to_map (unpack_info (m_data m)) : gmap Z ServerInfo) !! db_server with
    | Some info => on_get_db_info now info s
    | None => s
    end
  else s.
Definition on_sc_server_event now m s : game_server :=
  let e := unpack_event (m_data m) in
  match se_event e with
  | EServerConnected =>
      if si_unique_id (se_info e) =? db_server then on_get_db_info now (se_info e) s else s
  | EServerDisconnected => s
  end.
Definition gs_on_receive now c m s : game_server :=
  let id := protocol_of m in
  if protos id then s
  else if id =? SC_RegisterServer then on_sc_register_server now s
  else if id =? SC_GetServerInfo then on_sc_get_server_info now m s
  else if id =? SC_ServerEvent then on_sc_server_event now m s
  else on_gs_base (base_on_receive c m) s.
Definition gs_on_receive_msgs now c (ms : list msg) s : game_server :=
  foldl (λ s m, gs_on_receive now c m (on_gs_base (before_invoke m) s)) s ms.

(** *** Connections made and lost *)
Definition conn_start c s : game_server :=
  on_gs_base (λ b, emit [Ev_conn_start c] (set_running c true b)) s.
Definition gs_on_connect c (err : bool) s : game_server :=
  if depend_center_ s && bool_decide (center_conn_ptr_ s = Some c) then
    if err then s else register_to_center (conn_start c (stop_connect_center s))
  else if depend_db_ s && bool_decide (db_conn_ptr_ s = Some c) then
    if err then s else conn_start c (stop_get_db_info (stop_connect_db s))
  else s.
Definition gs_on_disconnect now c s : game_server :=
  if depend_center_ s && bool_decide (center_conn_ptr_ s = Some c) then
    start_connect_center now false s
  else if depend_db_ s && bool_decide (db_conn_ptr_ s = Some c) then reconnect_db now s
  else on_gs_base (base_on_disconnect c) s.

(** *** What happens to a game server *)
Inductive gs_label :=
| GL_accepted c                             (* a new connection from outside *)
| GL_connected c (err : bool)               (* an [async_connect] completes *)
| GL_disconnected now c
| GL_receive now c (ms : list msg)
| GL_expire now (id : Z) | GL_run now (id : Z).
Definition gs_step (l : gs_label) s : game_server :=
  match l with
  | GL_accepted c =>
      match conns (gs_base s) !! c with
      | Some _ => s
      | None => on_gs_base (λ b, set_conns (<[c := ConnState true 0]> (conns b)) b) s
      end
  | GL_connected c err =>
      if running c (gs_base s) then s
      else gs_on_connect c err (if err then s else on_gs_base (set_running c true) s)
  | GL_disconnected now c =>
      if running c (gs_base s) then gs_on_disconnect now c (on_gs_base (set_running c false) s) else s
  | GL_receive now c ms => gs_on_receive_msgs now c ms s
  | GL_expire now id => on_timers (expire now id) s
  | GL_run now id => run_expired gs_timers set_gs_timers gs_call now id s
  end.
Definition gs_run (ls : list gs_label) s : game_server := foldl (λ s l, gs_step l s) s ls.

(** ** Timers that stay armed *)
Implicit Types (tm : timer_manager fn) (ti : timer_info fn).
Definition timer_is tm (id : Z) (f : fn) : Prop :=
  id ∈ tm_timers tm ∧
  ∃ ti, tm_infos tm !! id = Some ti ∧ ti_func ti = Some (TF_auto f) ∧ ti_next_time ti = 0.
(** A wait is pending, or has expired and not yet run. *)
Definition armed tm (id : Z) : Prop :=
  ∃ ti, tm_infos tm !! id = Some ti ∧ ti_status ti = ts_ok ∧
    (is_Some (ti_waiting ti) ∨ ti_expired ti ≠ O).
(** What nothing but a [stop] of the other two timers may undo. *)
Definition tm_frame tm tm' : Prop :=
  (∀ id f, timer_is tm id f → timer_is tm' id f) ∧
  (∀ id f, f ≠ Connect_db → timer_is tm id f → armed tm id → armed tm' id).
#[export] Instance tm_frame_preorder : PreOrder tm_frame.
Proof. split; [done|]. intros t1 t2 t3 [H1 H2] [H3 H4]. split; eauto. Qed.

Lemma timer_is_update tm id id' f g :
  (∀ ti, ti_func (g ti) = ti_func ti ∧ (ti_next_time ti = 0 → ti_next_time (g ti) = 0)) →
  timer_is tm id f → timer_is (update_info id' g tm) id f.
Proof.
  intros Hg (Hin&ti&Hti&Hf&Hn). split; [done|]. rewrite update_info_lookup.
  case_bool_decide as Hid; [subst|by eauto]. rewrite Hti. exists (g ti).
  destruct (Hg ti) as [Hgf Hgn]. split_and!; [done|congruence|auto].
Qed.
Lemma armed_update_other tm id id' g : id ≠ id' → armed tm id → armed (update_info id' g tm) id.
Proof. intros Hid (ti&H&?&?). exists ti. by rewrite update_info_lookup, bool_decide_false. Qed.
Lemma timer_is_inj tm id f f' : timer_is tm id f → timer_is tm id f' → f = f'.
Proof. intros (_&ti&Hti&Hf&_) (_&ti'&Hti'&Hf'&_). congruence. Qed.
Lemma armed_started now tm id : is_Some (tm_infos tm !! id) → armed (start_timer_info now id tm) id.
Proof.
  intros [ti Hti]. destruct (start_timer_info_lookup now id tm ti Hti) as (ti'&H'&Hs&Hw&_).
  exists ti'. rewrite Hw. split_and!; [done..|]. left. by eauto.
Qed.
Lemma start_info_frame now id tm : tm_frame tm (start_timer_info now id tm).
Proof.
  split.
  - intros id' f. apply timer_is_update. intros ti. simpl.
    destruct (ti_next_time ti =? 0) eqn:Hn; simpl; [done|]. split; [done|]. lia.
  - intros id' f Hf (_&ti&Hti&_) Ha. destruct (decide (id' = id)) as [->|].
    + by apply armed_started.
    + by apply armed_update_other.
Qed.
Lemma start_frame now id tm : tm_frame tm (start_timer now id tm).
Proof. unfold start_timer. case_bool_decide; [apply start_info_frame|reflexivity]. Qed.
Lemma start_armed now id f tm : timer_is tm id f → armed (start_timer now id tm) id.
Proof.
  intros (Hin&ti&Hti&_). unfold start_timer. rewrite bool_decide_true by done.
  apply armed_started. by eauto.
Qed.
Lemma stop_info_is id id' f tm : timer_is tm id f → timer_is (stop_timer_info id' tm) id f.
Proof. by apply timer_is_update. Qed.
Lemma stop_is id id' f tm : timer_is tm id f → timer_is (stop_timer id' tm) id f.
Proof. unfold stop_timer. case_bool_decide; [apply stop_info_is|done]. Qed.
Lemma stop_armed_other id id' tm : id ≠ id' → armed tm id → armed (stop_timer id' tm) id.
Proof.
  intros Hid Ha. unfold stop_timer. case_bool_decide; [|done]. by apply armed_update_other.
Qed.
Lemma expire_frame now id tm : tm_frame tm (expire now id tm).
Proof.
  split.
  - intros id' f. apply timer_is_update. intros ti. destruct (ti_waiting ti); [|done]. by case_match.
  - intros id' f _ _ (ti&Hti&Hs&Hw). unfold armed, expire. rewrite update_info_lookup.
    case_bool_decide as Hid; [subst|by eauto]. rewrite Hti. simpl. eexists. split; [done|].
    destruct (ti_waiting ti) as [t|] eqn:Ht; [|by rewrite Ht].
    case_match; simpl; rewrite ?Ht; eauto.
Qed.

(** ** The connections a game server keeps *)
Definition base_frame (b b' : game_server_base) : Prop :=
  (∀ c, running c b' = running c b) ∧ (∀ c, is_Some (conns b !! c) → is_Some (conns b' !! c)).
#[export] Instance base_frame_preorder : PreOrder base_frame.
Proof. split; [done|]. intros b1 b2 b3 [H1 H2] [H3 H4]. split; [|by auto]. intros c. by rewrite H3. Qed.
Definition same_proxy (p p' : timer_proxy) : Prop := tp_timer p' = tp_timer p ∧ tp_id p' = tp_id p.
Record same_shape s s' : Prop := {
  sh_center : depend_center_ s' = depend_center_ s;
  sh_db : depend_db_ s' = depend_db_ s;
  sh_center_conn : center_conn_ptr_ s' = center_conn_ptr_ s;
  sh_db_conn : db_conn_ptr_ s' = db_conn_ptr_ s;
  sh_center_timer : same_proxy (connect_center_timer_ s) (connect_center_timer_ s');
  sh_db_timer : same_proxy (connect_db_timer_ s) (connect_db_timer_ s');
  sh_get_timer : same_proxy (get_db_info_timer_ s) (get_db_info_timer_ s')
}.
#[export] Instance same_shape_preorder : PreOrder same_shape.
Proof.
  split; [intros s; by repeat split|]. intros s1 s2 s3 [] []. unfold same_proxy in *.
  repeat match goal with H : _ ∧ _ |- _ => destruct H end. split; try split; congruence.
Qed.
Definition frame s s' : Prop :=
  same_shape s s' ∧ base_frame (gs_base s) (gs_base s') ∧ tm_frame (gs_timers s) (gs_timers s').
#[export] Instance frame_preorder : PreOrder frame.
Proof.
  split; [intros s; split_and!; reflexivity|].
  intros s1 s2 s3 (?&?&?) (?&?&?). split_and!; by etrans.
Qed.

Definition proxy_is s (p : timer_proxy) (f : fn) : Prop :=
  tp_timer p = true → timer_is (gs_timers s) (tp_id p) f.
Record proxies_ok s : Prop := {
  px_center : proxy_is s (connect_center_timer_ s) Connect_center;
  px_db : proxy_is s (connect_db_timer_ s) Connect_db;
  px_get : proxy_is s (get_db_info_timer_ s) Get_db_info
}.
(** Connected, or about to try again. *)
Definition kept s (conn : option Z) (p : timer_proxy) : Prop :=
  ∃ c, conn = Some c ∧ is_Some (conns (gs_base s) !! c) ∧ tp_timer p = true ∧
    (running c (gs_base s) = true ∨ armed (gs_timers s) (tp_id p)).
(** The same, armed or not. *)
Definition wired s (conn : option Z) (p : timer_proxy) : Prop :=
  ∃ c, conn = Some c ∧ is_Some (conns (gs_base s) !! c) ∧ tp_timer p = true.
Record client_ok (sought : bool) s : Prop := {
  cl_proxies : proxies_ok s;
  cl_center : depend_center_ s = true → kept s (center_conn_ptr_ s) (connect_center_timer_ s);
  cl_wired : depend_db_ s = true →
    wired s (db_conn_ptr_ s) (get_db_info_timer_ s) ∧ tp_timer (connect_db_timer_ s) = true;
  cl_db : depend_db_ s = true → sought = true → kept s (db_conn_ptr_ s) (get_db_info_timer_ s);
  cl_distinct : depend_center_ s = true → depend_db_ s = true → center_conn_ptr_ s ≠ db_conn_ptr_ s
}.

Lemma proxy_is_frame s s' p p' f :
  tm_frame (gs_timers s) (gs_timers s') → same_proxy p p' → proxy_is s p f → proxy_is s' p' f.
Proof. intros [H _] [Ht Hi] Hp. unfold proxy_is. rewrite Ht, Hi. intros H1. by apply H, Hp. Qed.
Lemma kept_frame s s' conn p p' f :
  base_frame (gs_base s) (gs_base s') → tm_frame (gs_timers s) (gs_timers s') → f ≠ Connect_db →
  proxy_is s p f → same_proxy p p' → kept s conn p → kept s' conn p'.
Proof.
  intros [Hb1 Hb2] [_ Ht] Hf Hp [Hpt Hpi] (c&->&Hc&Hpt'&Hr). exists c.
  rewrite Hpt, Hpi, Hb1. split_and!; auto. destruct Hr as [Hr|Hr]; [by left|right].
  apply (Ht _ f Hf); [by apply Hp|done].
Qed.
Lemma proxies_frame s s' : frame s s' → proxies_ok s → proxies_ok s'.
Proof. intros ([]&_&Ht) []. split; by eapply proxy_is_frame. Qed.
Lemma client_ok_frame k s s' : frame s s' → client_ok k s → client_ok k s'.
Proof.
  intros Hf [Hp Hc Hw Hd Hn]. pose proof (proxies_frame _ _ Hf Hp) as Hp'.
  destruct Hf as (Hsh&Hb&Ht). pose proof Hsh as [E1 E2 E3 E4 E5 E6 E7].
  split; rewrite ?E1, ?E2, ?E3, ?E4; [done| | | |done].
  - intros H. by apply (kept_frame s s' _ (connect_center_timer_ s) _ Connect_center Hb Ht); [|apply Hp| |apply Hc].
  - intros H. destruct (Hw H) as [(c&->&Hcc&Hpt) Hdt]. destruct E6 as [E6 _], E7 as [E7 _].
    split; [|congruence]. exists c. split_and!; [done| |congruence]. by apply Hb.
  - intros H Hk. by apply (kept_frame s s' _ (get_db_info_timer_ s) _ Get_db_info Hb Ht); [|apply Hp| |apply Hd].
Qed.

(** *** Frames *)
Lemma on_base_frame f s : base_frame (gs_base s) (f (gs_base s)) → frame s (on_gs_base f s).
Proof. intros H. split_and!; [by repeat split|done|reflexivity]. Qed.
Lemma same_conns_frame b b' : same_conns b b' → base_frame b b'.
Proof.
  intros (H&_). split; [|by rewrite H]. intros c. unfold running. by rewrite H.
Qed.
Lemma send_frame get uid id p r b : base_frame b (send_server_msg get uid id p r b).2.
Proof. unfold send_server_msg. destruct (get uid b); apply same_conns_frame; done. Qed.
Lemma get_server_info_frame s : frame s (get_server_info s).
Proof. unfold get_server_info. case_match; [apply on_base_frame, send_frame|reflexivity]. Qed.
Lemma register_frame s : frame s (register_to_center s).
Proof. apply on_base_frame, send_frame. Qed.
Lemma async_connect_frame conn ip port s : frame s (async_connect conn ip port s).
Proof.
  unfold async_connect. destruct conn as [c|]; [|reflexivity]. case_match; [reflexivity|].
  by apply on_base_frame, same_conns_frame.
Qed.
Lemma timers_frame f s : tm_frame (gs_timers s) (f (gs_timers s)) → frame s (on_timers f s).
Proof. intros H. split_and!; [by repeat split|reflexivity|done]. Qed.
Lemma stop_connect_db_frame s : proxies_ok s → frame s (stop_connect_db s).
Proof.
  intros [_ Hp _]. unfold stop_connect_db, proxy_stop.
  destruct (tp_timer (connect_db_timer_ s)) eqn:Ht; [|destruct s; reflexivity].
  split_and!; [by repeat split|reflexivity|]. split; simpl.
  - intros id f. apply stop_is.
  - intros id f Hf Hid. apply stop_armed_other. intros ->. apply Hf.
    eapply timer_is_inj; [exact Hid|by apply Hp].
Qed.
Lemma gs_call_frame f s : proxies_ok s → frame s (gs_call f s).2.
Proof.
  intros Hp. destruct f; simpl; [reflexivity|apply async_connect_frame..|].
  unfold get_db_info_func. case_match; [reflexivity|].
  etrans; [by apply stop_connect_db_frame|apply get_server_info_frame].
Qed.
Lemma run_func_frame func s : proxies_ok s → frame s (run_func (gs_call) func s).2.
Proof. intros Hp. destruct func; by apply gs_call_frame. Qed.
Lemma invoke_frame id s : proxies_ok s → frame s (invoke_timer gs_timers (gs_call) id s).
Proof.
  intros Hp. unfold invoke_timer, invoke_timer_info. case_bool_decide; [|reflexivity].
  case_match; [by apply run_func_frame|reflexivity].
Qed.
Lemma handler_restarts now id f s :
  timer_is (gs_timers s) id f → proxies_ok s →
  (∃ ti, tm_infos (gs_timers s) !! id = Some ti ∧ ti_status ti = ts_ok) →
  armed (gs_timers (timer_handler gs_timers set_gs_timers gs_call now false id s)) id.
Proof.
  intros Hid Hp (ti&Hti&Hs). pose proof Hid as (_&ti'&Hti'&Hf&_). rewrite Hti in Hti'. simplify_eq.
  unfold timer_handler. rewrite Hti, Hs, Hf. cbn [negb andb bool_decide]. rewrite bool_decide_true by done.
  destruct (gs_call_frame f s Hp) as (_&_&[Ht _]).
  change (armed (start_timer_info now id (gs_timers (gs_call f s).2)) id). apply armed_started.
  destruct (Ht id f Hid) as (_&ti''&->&_). by eauto.
Qed.
Lemma handler_frame now id s :
  proxies_ok s → frame s (timer_handler gs_timers set_gs_timers gs_call now false id s).
Proof.
  intros Hp. unfold timer_handler. destruct (tm_infos (gs_timers s) !! id) as [ti|]; [|reflexivity].
  destruct (negb false && _); [|reflexivity].
  assert (∀ r, frame s r.2 → frame s (let '(is_continue, s0) := r in
    if (is_continue : bool) || (0 <? default 0 (ti_next_time <$> tm_infos (gs_timers s0) !! id))
    then on_timers (start_timer_info now id) s0 else s0)) as Hr.
  { intros [b s0] H. case_match; [|done]. etrans; [exact H|]. apply timers_frame, start_info_frame. }
  apply Hr. destruct (ti_func ti) as [func|]; [by apply run_func_frame|reflexivity].
Qed.
Lemma run_frame now id s :
  proxies_ok s → frame s (run_expired gs_timers set_gs_timers gs_call now id s).
Proof.
  intros Hp. unfold run_expired. destruct (tm_infos (gs_timers s) !! id) as [ti|] eqn:Hti; [|reflexivity].
  destruct (ti_expired ti) as [|n]; [reflexivity|].
  set (s1 := on_timers (update_info id (λ ti, set_expired ti n)) s).
  assert (∀ id f, timer_is (gs_timers s) id f → timer_is (gs_timers s1) id f) as H1
    by (intros id' f; by apply timer_is_update).
  assert (proxies_ok s1) as Hp1 by (destruct Hp; split; intros ?; by apply H1; auto).
  destruct (handler_frame now id s1 Hp1) as (Hsh&Hb&[Ht1 Ht2]).
  split_and!; [etrans; [|exact Hsh]; by repeat split|exact Hb|]. split; [by auto|].
  intros id' f Hf Hid Ha. destruct (decide (id' = id)) as [->|Hne].
  - apply (handler_restarts _ _ f); [by apply H1|done|]. destruct Ha as (ti'&Hti'&Hs&_).
    rewrite Hti in Hti'. simplify_eq. exists (set_expired ti' n). split; [|exact Hs].
    unfold s1, on_tm. simpl. by rewrite lookup_alter_eq, Hti.
  - apply (Ht2 _ f Hf); [by apply H1|]. by apply armed_update_other.
Qed.

(** *** The proxies *)
Lemma start_proxy_frame now first p s p' s' :
  proxies_ok s → proxy_start gs_timers set_gs_timers gs_call now first p s = (p', s') →
  frame s s' ∧ same_proxy p p' ∧
  (∀ f, proxy_is s p f → tp_timer p = true → armed (gs_timers s') (tp_id p)).
Proof.
  intros Hp. unfold proxy_start. destruct (tp_timer p) eqn:Ht; [|intros [= <- <-]; split; [reflexivity|done]].
  set (s1 := if first then _ else s). assert (frame s s1) as H1.
  { unfold s1. destruct first; [by apply invoke_frame|reflexivity]. }
  intros [= <- <-]. split; [|split; [done|]].
  - etrans; [exact H1|]. apply timers_frame, start_frame.
  - intros f Hpf _. destruct H1 as (_&_&[H1 _]). by eapply start_armed, H1, Hpf.
Qed.
Lemma set_center_timer_frame p s : same_proxy (connect_center_timer_ s) p → frame s (set_center_timer p s).
Proof. intros []. by split_and!; [repeat split|reflexivity|reflexivity]. Qed.
Lemma set_connect_db_timer_frame p s : same_proxy (connect_db_timer_ s) p → frame s (set_connect_db_timer p s).
Proof. intros []. by split_and!; [repeat split|reflexivity|reflexivity]. Qed.
Lemma set_get_db_timer_frame p s : same_proxy (get_db_info_timer_ s) p → frame s (set_get_db_timer p s).
Proof. intros []. by split_and!; [repeat split|reflexivity|reflexivity]. Qed.

Lemma start_center_ok now first s :
  proxies_ok s → let s' := start_connect_center now first s in
  frame s s' ∧ (tp_timer (connect_center_timer_ s) = true →
    armed (gs_timers s') (tp_id (connect_center_timer_ s'))).
Proof.
  intros Hp. unfold start_connect_center. destruct (proxy_start _ _ _ _ _ _ s) as [p s1] eqn:He.
  destruct (start_proxy_frame _ _ _ _ _ _ Hp He) as (Hf&Hsp&Ha).
  split; [|intros Ht; destruct Hsp as [_ Hid]; simpl; rewrite Hid; by apply (Ha Connect_center); [apply Hp|]].
  etrans; [exact Hf|]. apply set_center_timer_frame. destruct Hf as ([_ _ _ _ [E1 E2] _ _]&_), Hsp.
  split; congruence.
Qed.
Lemma start_connect_db_frame now s : proxies_ok s → frame s (start_connect_db now s).
Proof.
  intros Hp. unfold start_connect_db. destruct (proxy_start _ _ _ _ _ _ s) as [p s1] eqn:He.
  destruct (start_proxy_frame _ _ _ _ _ _ Hp He) as (Hf&Hsp&_).
  etrans; [exact Hf|]. apply set_connect_db_timer_frame. destruct Hf as ([_ _ _ _ _ [E1 E2] _]&_), Hsp.
  split; congruence.
Qed.
Lemma start_get_ok now s :
  proxies_ok s → let s' := start_get_db_info now s in
  frame s s' ∧ (tp_timer (get_db_info_timer_ s) = true →
    armed (gs_timers s') (tp_id (get_db_info_timer_ s'))).
Proof.
  intros Hp. unfold start_get_db_info. destruct (proxy_start _ _ _ _ _ _ s) as [p s1] eqn:He.
  destruct (start_proxy_frame _ _ _ _ _ _ Hp He) as (Hf&Hsp&Ha).
  split; [|intros Ht; destruct Hsp as [_ Hid]; simpl; rewrite Hid; by apply (Ha Get_db_info); [apply Hp|]].
  etrans; [exact Hf|]. apply set_get_db_timer_frame. destruct Hf as ([_ _ _ _ _ _ [E1 E2]]&_), Hsp.
  split; congruence.
Qed.
(** *** Messages *)
Lemma before_invoke_frame m s : frame s (on_gs_base (before_invoke m) s).
Proof. by apply on_base_frame, same_conns_frame. Qed.
Lemma set_world_uid_frame c uid b : base_frame b (set_world_uid c uid b).
Proof.
  split; [intros c'; apply (set_world_uid_spec c c' uid b)|].
  intros c' Hc. unfold set_world_uid. simpl. by apply lookup_alter_is_Some.
Qed.
Lemma base_on_receive_frame c m b : base_frame b (base_on_receive c m b).
Proof.
  unfold base_on_receive. repeat case_match; try reflexivity.
  etrans; [|apply set_world_uid_frame]. done.
Qed.
Lemma on_get_db_info_frame now i s : proxies_ok s → frame s (on_get_db_info now i s).
Proof.
  intros Hp. assert (frame s (set_db_info i s)) as H by by split_and!; [repeat split|reflexivity|reflexivity].
  etrans; [exact H|]. apply start_connect_db_frame. by apply (proxies_frame s).
Qed.
Lemma reconnect_db_frame now s : proxies_ok s → frame s (reconnect_db now s).
Proof.
  intros Hp. unfold reconnect_db. case_match; [|reflexivity]. by apply start_get_ok.
Qed.
Lemma on_receive_frame now c m s : proxies_ok s → frame s (gs_on_receive now c m s).
Proof.
  intros Hp. unfold gs_on_receive. case_match; [reflexivity|]. case_match; [by apply reconnect_db_frame|].
  case_match.
  { unfold on_sc_get_server_info. repeat case_match; try reflexivity. by apply on_get_db_info_frame. }
  case_match.
  { unfold on_sc_server_event. repeat case_match; try reflexivity. by apply on_get_db_info_frame. }
  apply on_base_frame, base_on_receive_frame.
Qed.
Lemma on_receive_msgs_frame now c ms s : proxies_ok s → frame s (gs_on_receive_msgs now c ms s).
Proof.
  unfold gs_on_receive_msgs. revert s. induction ms as [|m ms IH]; intros s Hp; simpl; [reflexivity|].
  pose proof (before_invoke_frame m s) as H1. pose proof (proxies_frame _ _ H1 Hp) as Hp1.
  pose proof (on_receive_frame now c m _ Hp1) as H2.
  etrans; [exact H1|]. etrans; [exact H2|]. apply IH. by eapply proxies_frame.
Qed.

(** The center has answered: the database server is sought from now on. *)
Definition answers (m : msg) : bool := negb (protos (protocol_of m)) && (protocol_of m =? SC_RegisterServer).
Definition sought (l : gs_label) : bool :=
  match l with GL_receive _ _ ms => existsb answers ms | _ => false end.
Lemma client_ok_sought s :
  client_ok false s → (depend_db_ s = true → kept s (db_conn_ptr_ s) (get_db_info_timer_ s)) →
  client_ok true s.
Proof. intros [] H. by split; auto. Qed.
Lemma client_ok_weaken k s : client_ok k s → client_ok false s.
Proof. intros []. by split. Qed.
Lemma answer_seeks now c m s k :
  client_ok k s → answers m = true → client_ok true (gs_on_receive now c m s).
Proof.
  intros Hok Hm. pose proof (cl_proxies _ _ Hok) as Hp.
  pose proof (client_ok_frame _ _ _ (on_receive_frame now c m s Hp) Hok) as H'.
  apply client_ok_weaken in H'. apply client_ok_sought; [done|].
  apply andb_true_iff in Hm as [Hpr Hid]. apply negb_true_iff in Hpr. revert H'.
  unfold gs_on_receive. rewrite Hpr, Hid. unfold on_sc_register_server, reconnect_db.
  destruct (depend_db_ s) eqn:Hdb; [|by intros _; rewrite Hdb].
  intros H' Hdb'. destruct (start_get_ok now s Hp) as [_ Ha].
  destruct (cl_wired _ _ Hok Hdb) as [(c0&_&_&Ht)_]. specialize (Ha Ht).
  destruct (cl_wired _ _ H' Hdb') as [(c1&Hc1&Hc2&Ht1)_]. exists c1. by split_and!; auto.
Qed.
Lemma receive_ok now c ms s k :
  client_ok k s → client_ok (k || existsb answers ms) (gs_on_receive_msgs now c ms s).
Proof.
  unfold gs_on_receive_msgs. revert s k. induction ms as [|m ms IH]; intros s k Hok; simpl.
  { by rewrite orb_false_r. }
  pose proof (client_ok_frame _ _ _ (before_invoke_frame m s) Hok) as H1.
  rewrite orb_assoc. apply IH. destruct (answers m) eqn:Hm.
  - rewrite orb_true_r. by eapply answer_seeks.
  - rewrite orb_false_r. eapply client_ok_frame; [|exact H1]. apply on_receive_frame, H1.
Qed.

(** *** Connections *)
Lemma set_running_base c r b c' :
  (r = true → running c' b = true → running c' (set_running c r b) = true) ∧
  (c' ≠ c → running c' (set_running c r b) = running c' b) ∧
  (is_Some (conns b !! c') → is_Some (conns (set_running c r b) !! c')).
Proof.
  destruct (set_running_spec c c' r b) as [H _]. rewrite H. split_and!.
  - intros ->. case_decide as Hc; [subst|done]. unfold running. destruct (conns b !! c'); [|done].
    by rewrite bool_decide_true by eauto.
  - intros Hne. by rewrite decide_False by congruence.
  - intros Hs. unfold set_running. simpl. by apply lookup_alter_is_Some.
Qed.
Lemma client_ok_runs k c s :
  client_ok k s → client_ok k (on_gs_base (set_running c true) s).
Proof.
  intros [Hp Hc Hw Hd Hn]. assert (∀ conn p, kept s conn p → kept (on_gs_base (set_running c true) s) conn p) as Hk.
  { intros conn p (c'&->&Hs&Ht&Hr). exists c'. destruct (set_running_base c true (gs_base s) c') as (H1&_&H3).
    split_and!; [done|by apply H3|done|]. destruct Hr; [left|by right]. by apply H1. }
  split; simpl; [by destruct Hp|by auto| |by auto|done].
  intros H. destruct (Hw H) as [(c'&->&Hs&Ht) Ht2]. split; [|done]. exists c'.
  split_and!; [done|by apply (set_running_base c true (gs_base s) c')|done].
Qed.
Lemma stop_proxy_ok s id f :
  timer_is (gs_timers s) id f → ∀ id' f', f' ≠ f → timer_is (gs_timers s) id' f' →
  timer_is (gs_timers (on_timers (stop_timer id) s)) id' f' ∧
  (armed (gs_timers s) id' → armed (gs_timers (on_timers (stop_timer id) s)) id').
Proof.
  intros Hid id' f' Hf Hid'. split; [by apply stop_is|]. apply stop_armed_other.
  intros ->. apply Hf. by eapply timer_is_inj.
Qed.
Lemma client_ok_emit k evs s : client_ok k s → client_ok k (on_gs_base (emit evs) s).
Proof. apply client_ok_frame. by apply on_base_frame, same_conns_frame. Qed.
Lemma stop_center_ok k c s :
  client_ok k s → depend_center_ s = true → center_conn_ptr_ s = Some c → running c (gs_base s) = true →
  client_ok k (stop_connect_center s).
Proof.
  intros [[P1 P2 P3] Hc Hw Hd Hn] Hdc Hcc Hr. destruct (Hc Hdc) as (c'&Hc'&Hs&Ht&_).
  rewrite Hcc in Hc'. simplify_eq. unfold stop_connect_center, proxy_stop. rewrite Ht.
  pose proof (stop_proxy_ok s _ _ (P1 Ht)) as Hst.
  split; simpl.
  - split; intros Htt; simpl in *.
    + by apply stop_is, P1.
    + by apply stop_is, P2.
    + by apply stop_is, P3.
  - intros _. exists c'. rewrite Hcc. simpl. by split_and!; auto.
  - done.
  - intros H1 H2. destruct (Hd H1 H2) as (c''&Hc''&Hs'&Ht'&Hr'). exists c''. split_and!; try done.
    destruct Hr' as [Hr'|Ha]; [by left|right]. apply (Hst _ Get_db_info); [done|by apply P3|done].
  - done.
Qed.
Lemma stop_get_ok k c s :
  client_ok k s → depend_db_ s = true → db_conn_ptr_ s = Some c → running c (gs_base s) = true →
  client_ok k (stop_get_db_info s).
Proof.
  intros [[P1 P2 P3] Hc Hw Hd Hn] Hdd Hdc Hr. destruct (Hw Hdd) as [(c'&Hc'&Hs&Ht) Hdt].
  rewrite Hdc in Hc'. simplify_eq. unfold stop_get_db_info, proxy_stop. rewrite Ht.
  pose proof (stop_proxy_ok s _ _ (P3 Ht)) as Hst.
  split; simpl.
  - split; intros Htt; simpl in *.
    + by apply stop_is, P1.
    + by apply stop_is, P2.
    + by apply stop_is, P3.
  - intros H1. destruct (Hc H1) as (c''&Hc''&Hs'&Ht'&Hr'). exists c''. split_and!; try done.
    destruct Hr' as [Hr'|Ha]; [by left|right]. apply (Hst _ Connect_center); [done|by apply P1|done].
  - intros _. split; [|done]. exists c'. by rewrite Hdc.
  - intros H1 H2. exists c'. rewrite Hdc. simpl. by split_and!; auto.
  - done.
Qed.
Lemma client_ok_start k c s : client_ok k s → client_ok k (conn_start c s).
Proof. intros H. apply (client_ok_emit k [Ev_conn_start c] (on_gs_base (set_running c true) s)), client_ok_runs, H. Qed.
Lemma connected_ok k c err s :
  client_ok k s → client_ok k (gs_step (GL_connected c err) s).
Proof.
  intros Hok. simpl. destruct (running c (gs_base s)) eqn:Hr; [done|]. unfold gs_on_connect.
  destruct err; [by repeat case_match|].
  set (s1 := on_gs_base (set_running c true) s).
  assert (client_ok k s1) as H1 by by apply client_ok_runs.
  assert (∀ conn, is_Some (conns (gs_base s) !! c) → conn = Some c → running c (gs_base s1) = true) as Hrun.
  { intros conn Hs _. simpl. rewrite (proj1 (set_running_spec c c true (gs_base s))), decide_True by done.
    by rewrite bool_decide_true. }
  destruct (depend_center_ s1 && bool_decide (center_conn_ptr_ s1 = Some c)) eqn:Hcc.
  { apply andb_true_iff in Hcc as [Hdc Hcc%bool_decide_eq_true].
    eapply client_ok_frame; [apply register_frame|]. apply client_ok_start.
    destruct (cl_center _ _ Hok Hdc) as (c'&Hc'&Hs&_). simpl in Hcc. rewrite Hcc in Hc'. simplify_eq.
    apply (stop_center_ok _ c'); [done..|]. by apply (Hrun (Some c')). }
  destruct (depend_db_ s1 && bool_decide (db_conn_ptr_ s1 = Some c)) eqn:Hdc; [|done].
  apply andb_true_iff in Hdc as [Hdd Hdc%bool_decide_eq_true].
  apply client_ok_start. destruct (cl_wired _ _ Hok Hdd) as [(c'&Hc'&Hs&_) _].
  simpl in Hdc. rewrite Hdc in Hc'. simplify_eq.
  pose proof (stop_connect_db_frame s1 (cl_proxies _ _ H1)) as Hf.
  pose proof Hf as ([_ E2 _ E4 _ _ _]&[Hb _]&_).
  apply (stop_get_ok _ c'); [by eapply client_ok_frame|by rewrite E2|by rewrite E4|].
  rewrite Hb. by apply (Hrun (Some c')).
Qed.

Lemma base_on_disconnect_frame c b : base_frame b (base_on_disconnect c b).
Proof. unfold base_on_disconnect. case_bool_decide; [by split|reflexivity]. Qed.
Lemma disconnected_ok k now c s :
  client_ok k s → client_ok k (gs_step (GL_disconnected now c) s).
Proof.
  intros [Hp Hc Hw Hd Hn]. simpl. destruct (running c (gs_base s)) eqn:Hr; [|by split].
  set (s1 := on_gs_base (set_running c false) s).
  assert (proxies_ok s1) as Hp1 by by destruct Hp.
  assert (∀ conn p, conn ≠ Some c → kept s conn p → kept s1 conn p) as Hk.
  { intros conn p Hne (c'&->&Hs&Ht&Hr'). exists c'.
    destruct (set_running_base c false (gs_base s) c') as (_&H2&H3).
    split_and!; [done|by apply H3|done|]. destruct Hr' as [Hr'|]; [left|by right].
    etrans; [apply H2; congruence|done]. }
  assert (∀ conn p, wired s conn p → wired s1 conn p) as Hwi.
  { intros conn p (c'&->&Hs&Ht). exists c'. split_and!; [done| |done].
    by apply (set_running_base c false (gs_base s) c'). }
  assert (∀ s2, frame s1 s2 →
    (depend_center_ s = true → center_conn_ptr_ s = Some c → armed (gs_timers s2) (tp_id (connect_center_timer_ s2))) →
    (depend_db_ s = true → db_conn_ptr_ s = Some c → armed (gs_timers s2) (tp_id (get_db_info_timer_ s2))) →
    client_ok k s2) as Hfin.
  { intros s2 Hf Ha1 Ha2. pose proof (proxies_frame _ _ Hf Hp1) as Hp2.
    destruct Hf as (Hsh&Hb&Ht). pose proof Hsh as [E1 E2 E3 E4 E5 E6 E7].
    pose proof E5 as [E5t _]. pose proof E6 as [E6t _]. pose proof E7 as [E7t _].
    simpl in E1, E2, E3, E4. split; rewrite ?E1, ?E2, ?E3, ?E4; [done| | | |done].
    - intros H. destruct (decide (center_conn_ptr_ s = Some c)) as [He|He].
      + destruct (Hc H) as (c'&Hc'&Hs&Htt&_). exists c'. split_and!; [done| |by rewrite E5t|right; auto].
        by apply Hb, (set_running_base c false (gs_base s) c').
      + apply (kept_frame s1 s2 _ (connect_center_timer_ s) _ Connect_center Hb Ht); [done|apply Hp1|done|by auto].
    - intros H. destruct (Hw H) as [H1 H2]. split; [|by rewrite E6t].
      destruct (Hwi _ _ H1) as (c'&Hc'&Hs&Htt). exists c'. split_and!; [done|by apply Hb|by rewrite E7t].
    - intros H Hkk. destruct (decide (db_conn_ptr_ s = Some c)) as [He|He].
      + destruct (Hw H) as [(c'&Hc'&Hs&Htt) _]. exists c'. split_and!; [done| |by rewrite E7t|right; auto].
        by apply Hb, (set_running_base c false (gs_base s) c').
      + apply (kept_frame s1 s2 _ (get_db_info_timer_ s) _ Get_db_info Hb Ht); [done|apply Hp1|done|by auto]. }
  unfold gs_on_disconnect. simpl. destruct (depend_center_ s && bool_decide (center_conn_ptr_ s = Some c)) eqn:Hcc.
  { apply andb_true_iff in Hcc as [Hdc Hcc%bool_decide_eq_true].
    destruct (start_center_ok now false s1 Hp1) as [Hf Ha]. destruct (Hc Hdc) as (_&_&_&Ht&_).
    apply Hfin; [done|by intros; apply Ha|]. intros Hdd Hdc'. exfalso. apply Hn; congruence. }
  assert (depend_center_ s = true → center_conn_ptr_ s ≠ Some c) as Hnc.
  { intros H. rewrite H in Hcc. by apply bool_decide_eq_false in Hcc. }
  destruct (depend_db_ s && bool_decide (db_conn_ptr_ s = Some c)) eqn:Hdc.
  { apply andb_true_iff in Hdc as [Hdd Hdc%bool_decide_eq_true].
    unfold reconnect_db. simpl. rewrite Hdd. destruct (start_get_ok now s1 Hp1) as [Hf Ha].
    destruct (Hw Hdd) as [(_&_&_&Ht) _]. apply Hfin; [done| |by intros; apply Ha].
    intros H1 H2. by destruct (Hnc H1). }
  apply Hfin.
  - apply on_base_frame, base_on_disconnect_frame.
  - intros H1 H2. by destruct (Hnc H1).
  - intros H1 H2. rewrite H1, H2 in Hdc. simpl in Hdc. by rewrite bool_decide_true in Hdc.
Qed.

Lemma step_ok k l s : client_ok k s → client_ok (k || sought l) (gs_step l s).
Proof.
  intros Hok. destruct l as [c|c err|now c|now c ms|now id|now id]; rewrite ?orb_false_r.
  - simpl. destruct (conns (gs_base s) !! c) as [x|] eqn:Hc; [done|].
    assert (∀ conn p, kept s conn p → kept (on_gs_base (λ b, set_conns (<[c:=ConnState true 0]> (conns b)) b) s) conn p)
      as Hk.
    { intros conn p (c'&->&Hs&Ht&Hr). assert (c' ≠ c) by (intros ->; rewrite Hc in Hs; by destruct Hs).
      exists c'. unfold running. simpl. by rewrite lookup_insert_ne by done. }
    destruct Hok as [[] Hc1 Hw Hd Hn]. split; simpl; [by split|by auto| |by auto|done].
    intros H. destruct (Hw H) as [(c'&->&Hs&Ht) Ht2]. split; [|done].
    assert (c' ≠ c) by (intros ->; rewrite Hc in Hs; by destruct Hs).
    exists c'. simpl. by rewrite lookup_insert_ne by done.
  - by apply connected_ok.
  - by apply disconnected_ok.
  - by apply receive_ok.
  - eapply client_ok_frame; [apply timers_frame, expire_frame|done].
  - eapply client_ok_frame; [apply run_frame, Hok|done].
Qed.
Lemma run_ok k ls s : client_ok k s → client_ok (k || existsb sought ls) (gs_run ls s).
Proof.
  unfold gs_run. revert k s. induction ls as [|l ls IH]; intros k s Hok; simpl.
  { by rewrite orb_false_r. }
  rewrite orb_assoc. by apply IH, step_ok.
Qed.

(** *** A fresh client *)
Lemma add_timer_spec ms f set s s' :
  (∀ p s, gs_timers (set p s) = gs_timers s) →
  add_timer ms f set s = Def s' → 
  ∃ id tm, set_auto_timer ms f (gs_timers s) = Def (id, tm) ∧ s' = set (proxy_new id) (set_gs_timers tm s).
Proof.
  intros _ H. unfold add_timer in H. apply ub_bind_Def in H as ([id tm]&Ht&H). inv_def. by eauto.
Qed.
(** The ids of a manager are those it has given out. *)
Definition ids_ok tm : Prop := ∀ id, is_Some (tm_infos tm !! id) → id ≤ tm_timer_id tm.
Lemma set_auto_timer_spec ms f tm id tm' :
  set_auto_timer ms f tm = Def (id, tm') → ids_ok tm →
  ids_ok tm' ∧ timer_is tm' id f ∧ (∀ id' f', timer_is tm id' f' → timer_is tm' id' f') ∧
  (∀ id', armed tm id' → armed tm' id').
Proof.
  unfold set_auto_timer, create_timer. intros H Hok. apply ub_bind_Def in H as (id0&Hid&H). inv_def.
  assert (id = tm_timer_id tm + 1) as ->.
  { unfold i32 in Hid. case_match; by inv_def. }
  assert (∀ id' ti, tm_infos tm !! id' = Some ti → id' ≠ tm_timer_id tm + 1) as Hne.
  { intros id' ti Hti ->. specialize (Hok _ (ex_intro _ _ Hti)). lia. }
  split_and!; simpl.
  - intros id'. simpl. destruct (decide (id' = tm_timer_id tm + 1)) as [->|]; [lia|].
    rewrite lookup_insert_ne by done. intros H%Hok. lia.
  - split; simpl; [set_solver|]. rewrite lookup_insert_eq. by eauto.
  - intros id' f' (Hin&ti&Hti&Hf). split; simpl; [set_solver|].
    rewrite lookup_insert_ne by (intros Heq; by eapply Hne). by eauto.
  - intros id' (ti&Hti&Ha). exists ti. simpl. by rewrite lookup_insert_ne by (intros Heq; by eapply Hne).
Qed.
Lemma ids_start now id tm : ids_ok tm → ids_ok (start_timer now id tm).
Proof.
  intros H. unfold start_timer. case_bool_decide; [|done]. intros id' Hs. apply (H id').
  revert Hs. unfold start_timer_info. rewrite update_info_lookup. case_bool_decide; [subst|done].
  by destruct (tm_infos tm !! id).
Qed.
Lemma async_connect_timers conn ip port s : gs_timers (async_connect conn ip port s) = gs_timers s.
Proof. unfold async_connect. destruct conn; [|done]. by case_match. Qed.
Lemma start_center_ids now s :
  proxies_ok s → ids_ok (gs_timers s) → ids_ok (gs_timers (start_connect_center now true s)).
Proof.
  intros [Hp _ _] Hok. unfold start_connect_center, proxy_start.
  destruct (tp_timer (connect_center_timer_ s)) eqn:Ht; [|done]. destruct (Hp Ht) as (Hin&ti&Hti&Hf&_).
  unfold invoke_timer, invoke_timer_info. rewrite bool_decide_true by done. rewrite Hti. simpl. rewrite Hf.
  simpl. unfold connect_func. rewrite async_connect_timers. by apply ids_start.
Qed.

Lemma start_center_conns now s :
  proxies_ok s → conns (gs_base (start_connect_center now true s)) = conns (gs_base s).
Proof.
  intros [Hp _ _]. unfold start_connect_center, proxy_start.
  destruct (tp_timer (connect_center_timer_ s)) eqn:Ht; [|done]. destruct (Hp Ht) as (Hin&ti&Hti&Hf&_).
  unfold invoke_timer, invoke_timer_info. rewrite bool_decide_true by done. rewrite Hti. simpl. rewrite Hf.
  simpl. unfold connect_func, async_connect. destruct (center_conn_ptr_ s); [|done]. by case_match.
Qed.

(** What a client being built has. *)
Record built (center db : bool) s : Prop := {
  bu_ids : ids_ok (gs_timers s);
  bu_proxies : proxies_ok s;
  bu_center : center = true → kept s (center_conn_ptr_ s) (connect_center_timer_ s);
  bu_db : db = true →
    wired s (db_conn_ptr_ s) (get_db_info_timer_ s) ∧ tp_timer (connect_db_timer_ s) = true
}.
Lemma proxies_timer s tm :
  (∀ id f, timer_is (gs_timers s) id f → timer_is tm id f) → proxies_ok s → proxies_ok (set_gs_timers tm s).
Proof. intros H [P1 P2 P3]. split; intros Ht; apply H; [by apply P1|by apply P2|by apply P3]. Qed.
Lemma kept_insert s c conn p :
  conns (gs_base s) !! c = None → kept s conn p → kept (create_connection c s) conn p.
Proof.
  intros Hn (c'&->&Hs&Ht&Hr). assert (c' ≠ c) by (intros ->; rewrite Hn in Hs; by destruct Hs).
  exists c'. unfold create_connection, running. simpl. by rewrite lookup_insert_ne by done.
Qed.
Lemma build_center now c s s' :
  let s1 := set_center_conn (Some c) (create_connection c s) in
  ids_ok (gs_timers s) → proxies_ok s →
  add_timer (s32 (cfg_connect_interval (config center_server))) Connect_center set_center_timer s1 = Def s' →
  let s2 := start_connect_center now true s' in
  built true false s2 ∧ depend_center_ s2 = depend_center_ s ∧ depend_db_ s2 = depend_db_ s ∧
  center_conn_ptr_ s2 = Some c ∧ conns (gs_base s2) = <[c := ConnState false 0]> (conns (gs_base s)).
Proof.
  intros s1 Hi Hp H. apply add_timer_spec in H as (id&tm&Ht&->); [|done].
  destruct (set_auto_timer_spec _ _ _ _ _ Ht Hi) as (Hi'&His&Hmono&_).
  set (s2 := set_center_timer _ _).
  assert (proxies_ok s2) as Hp2.
  { destruct Hp as [P1 P2 P3]. split; intros Htt; simpl in *; [done|by apply Hmono, P2|by apply Hmono, P3]. }
  destruct (start_center_ok now true s2 Hp2) as [Hf Ha]. specialize (Ha eq_refl).
  pose proof (proxies_frame _ _ Hf Hp2) as Hp3. pose proof (start_center_ids now s2 Hp2 Hi') as Hi3.
  pose proof (start_center_conns now s2 Hp2) as Hcn.
  destruct Hf as ([E1 E2 E3 _ [E5 _] _ _]&[_ Hb]&_). split; [|done].
  split; [done|done| |done]. intros _.
  exists c. rewrite E3, E5. split_and!; [done| |done|by right].
  apply Hb. simpl. rewrite lookup_insert_eq. by eauto.
Qed.
Lemma build_db c ms s s1 s' center :
  let s0 := set_db_conn (Some c) (create_connection c s) in
  built center false s → conns (gs_base s) !! c = None → 
  add_timer ms Connect_db set_connect_db_timer s0 = Def s1 →
  add_timer (20 * 1000) Get_db_info set_get_db_timer s1 = Def s' →
  built center true s' ∧ depend_center_ s' = depend_center_ s ∧ depend_db_ s' = depend_db_ s ∧
  center_conn_ptr_ s' = center_conn_ptr_ s ∧ db_conn_ptr_ s' = Some c.
Proof.
  intros s0 [Hi [P1 P2 P3] Hc _] Hn H1 H2.
  apply add_timer_spec in H1 as (id&tm&Ht&->); [|done].
  destruct (set_auto_timer_spec _ _ _ _ _ Ht Hi) as (Hi1&His1&Hm1&Ha1).
  apply add_timer_spec in H2 as (id2&tm2&Ht2&->); [|done].
  destruct (set_auto_timer_spec _ _ _ _ _ Ht2 Hi1) as (Hi2&His2&Hm2&Ha2).
  split; [|done]. split; simpl; [done| | |].
  - split; intros Htt; simpl in *; [by apply Hm2, Hm1, P1|by apply Hm2|done].
  - intros Hcc. destruct (kept_insert s c _ _ Hn (Hc Hcc)) as (c'&Hc'&Hs&Htt&Hr).
    exists c'. split_and!; [done..|]. destruct Hr as [Hr|Hr]; [by left|right]. by apply Ha2, Ha1.
  - intros _. split; [|done]. exists c. split_and!; [done| |done]. simpl. rewrite lookup_insert_eq. by eauto.
Qed.
Lemma init_ok now c1 c2 uid hooks s :
  c1 ≠ c2 → gs_init now c1 c2 (game_server_new uid hooks) = Def s → client_ok false s.
Proof.
  intros Hne H. unfold gs_init in H. apply ub_bind_Def in H as (fl&_&H). apply ub_bind_Def in H as (s0&H0&H).
  apply add_timer_spec in H0 as (id&tm&Ht&->); [|done].
  assert (ids_ok (timer_manager_new (F:=fn))) as Hi0 by (intros ? [? Hx]; simpl in Hx; by rewrite lookup_empty in Hx).
  destruct (set_auto_timer_spec _ _ _ _ _ Ht Hi0) as (Hi&_&_&_).
  set (dc := depend_center_ _ && _) in H. set (dd := negb _ && _) in H.
  set (s1 := set_depends _ _ _) in H.
  assert (proxies_ok s1) as Hp1 by by split.
  apply ub_bind_Def in H as (s2&H2&H).
  assert (built dc false s2 ∧ depend_center_ s2 = dc ∧ depend_db_ s2 = dd ∧
    conns (gs_base s2) !! c2 = None ∧ (dc = true → center_conn_ptr_ s2 = Some c1)) as (Hb&E1&E2&Hn&E3).
  { destruct dc eqn:Hdc; [|inv_def; by split_and!; [split|..]]. 
    apply ub_bind_Def in H2 as (s2'&H2'&H2). inv_def.
    destruct (build_center now c1 s1 s2' Hi Hp1 H2') as (Hb&E1&E2&E3&E4).
    split_and!; [done|done|done| |done]. rewrite E4. simpl. by rewrite lookup_insert_ne. }
  destruct dd eqn:Hdd.
  - apply ub_bind_Def in H as (s3&H3&H).
    destruct (build_db c2 _ s2 s3 s dc Hb Hn H3 H) as ([_ Hp Hc Hd]&F1&F2&F3&F4).
    split; rewrite ?F1, ?F2, ?E1, ?E2; [done|done|by intros _; apply Hd|done|].
    intros Hdc _. rewrite F3, F4, E3 by done. congruence.
  - inv_def. destruct Hb as [_ Hp Hc _]. split; rewrite ?E1, ?E2; done.
Qed.

(** ** An armed timer fires *)
Lemma armed_fires s id f :
  timer_is (gs_timers s) id f → armed (gs_timers s) id →
  ∃ t, ∀ now, t ≤ now → ∃ tm,
    gs_run [GL_expire now id; GL_run now id] s =
    on_timers (start_timer_info now id) (gs_call f (set_gs_timers tm s)).2.
Proof.
  intros (_&ti&Hti&Hf&Hn) (ti'&Hti'&Hs&Hw). rewrite Hti in Hti'. simplify_eq.
  exists (default 0 (ti_waiting ti')). intros now Hnow.
  assert (∃ ti1 n, tm_infos (expire now id (gs_timers s)) !! id = Some ti1 ∧ ti_expired ti1 = S n ∧
    ti_status ti1 = ts_ok ∧ ti_func ti1 = Some (TF_auto f)) as (ti1&n&H1&He&Hs1&Hf1).
  { unfold expire. rewrite update_info_eq, Hti. simpl.
    destruct (ti_waiting ti') as [t|] eqn:Ht; simpl in Hnow.
    - rewrite (proj2 (Z.leb_le t now)) by done. eexists _, _. by split_and!.
    - destruct Hw as [[? ?]|Hw]; [done|]. destruct (ti_expired ti') as [|n] eqn:He; [done|].
      exists ti', n. by split_and!. }
  set (tm := expire now id (gs_timers s)) in *.
  set (tm1 := update_info id (λ ti, set_expired ti n) tm).
  assert (tm_infos tm1 !! id = Some (set_expired ti1 n)) as H2
    by (unfold tm1; by rewrite update_info_eq, H1).
  exists tm1. change (run_expired gs_timers set_gs_timers gs_call now id (set_gs_timers tm s) =
    on_timers (start_timer_info now id) (gs_call f (set_gs_timers tm1 s)).2).
  unfold run_expired. change (gs_timers (set_gs_timers tm s)) with tm. rewrite H1, He.
  change (timer_handler gs_timers set_gs_timers gs_call now false id (set_gs_timers tm1 s) =
    on_timers (start_timer_info now id) (gs_call f (set_gs_timers tm1 s)).2).
  unfold timer_handler. change (gs_timers (set_gs_timers tm1 s)) with tm1. rewrite H2.
  simpl ti_status. simpl ti_func. rewrite Hf1, bool_decide_true by done. done.
Qed.

Lemma center_tried k s :
  client_ok k s → depend_center_ s = true →
  ∃ c, center_conn_ptr_ s = Some c ∧ (running c (gs_base s) = true ∨
    ∃ t, ∀ now, t ≤ now → let id := tp_id (connect_center_timer_ s) in
      events (gs_base (gs_run [GL_expire now id; GL_run now id] s)) = events (gs_base s) ++
        [Ev_async_connect c (cfg_ip (config center_server)) (cfg_port (config center_server))]).
Proof.
  intros Hok Hd. destruct (cl_center _ _ Hok Hd) as (c&Hc&_&Ht&Hr). exists c. split; [done|].
  destruct (running c (gs_base s)) eqn:Hrun; [by left|]. destruct Hr as [|Ha]; [done|]. right.
  destruct (armed_fires s _ Connect_center (px_center _ (cl_proxies _ _ Hok) Ht) Ha) as [t Hfire].
  exists t. intros now Hnow. cbv zeta. destruct (Hfire now Hnow) as [tm ->].
  simpl. unfold connect_func, async_connect. simpl. by rewrite Hc, Hrun.
Qed.
Definition db_request s : list (Z * msg) :=
  match gs_get_connection_ptr s center_server (gs_base s) with
  | Some c => [(c, server_pack_msg CS_GetServerInfo center_server (P_get_info [db_server]) (gs_base s))]
  | None => []
  end.
Lemma stop_connect_db_base s :
  gs_base (stop_connect_db s) = gs_base s ∧ depend_db_ (stop_connect_db s) = depend_db_ s ∧
  center_conn_ptr_ (stop_connect_db s) = center_conn_ptr_ s.
Proof. unfold stop_connect_db, proxy_stop. by destruct (tp_timer _). Qed.
Lemma send_server_writes get uid id p b :
  writes (events (send_server_msg get uid id p None b).2) = writes (events b) ++
    match get uid b with Some c => [(c, server_pack_msg id uid p b)] | None => [] end.
Proof.
  unfold send_server_msg. destruct (get uid b) as [c|]; cbn [snd]; [apply send_raw_msg_writes|].
  by rewrite app_nil_r.
Qed.
Lemma db_sought s :
  client_ok true s → depend_db_ s = true →
  ∃ c, db_conn_ptr_ s = Some c ∧ (running c (gs_base s) = true ∨
    ∃ t, ∀ now, t ≤ now → let id := tp_id (get_db_info_timer_ s) in
      writes (events (gs_base (gs_run [GL_expire now id; GL_run now id] s))) =
      writes (events (gs_base s)) ++ db_request s).
Proof.
  intros Hok Hd. destruct (cl_db _ _ Hok Hd eq_refl) as (c&Hc&_&Ht&Hr). exists c. split; [done|].
  destruct (running c (gs_base s)) eqn:Hrun; [by left|]. destruct Hr as [|Ha]; [done|]. right.
  destruct (armed_fires s _ Get_db_info (px_get _ (cl_proxies _ _ Hok) Ht) Ha) as [t Hfire].
  exists t. intros now Hnow. cbv zeta. destruct (Hfire now Hnow) as [tm ->]. clear Hfire.
  set (s1 := set_gs_timers tm s).
  change (writes (events (gs_base (get_db_info_func s1))) = writes (events (gs_base s)) ++ db_request s).
  unfold get_db_info_func, conn_running. simpl. rewrite Hc, Hrun. unfold get_server_info.
  destruct (stop_connect_db_base s1) as (Hb&Hd1&Hc1). rewrite Hd1. simpl. rewrite Hd.
  unfold gs_send_server_msg. cbn [gs_base on_gs_base]. rewrite send_server_writes, Hb.
  unfold db_request, gs_get_connection_ptr. by rewrite Hc1.
Qed.

(** ** What a client of the center can rely on *)
(** C8: A game server never gives up on its connections: whatever is accepted,
    connected, lost, received and timed, a server that depends on the center is
    connected to it, or a timer is armed whose next firing connects to the configured
    address; and once the center has answered its registration, a server that depends on
    the database is connected to it, or a timer is armed whose next firing asks the
    center, if it is connected, where it is. *)
Theorem client_keeps_connecting now c1 c2 uid hooks s0 ls :
  c1 ≠ c2 → gs_init now c1 c2 (game_server_new uid hooks) = Def s0 →
  let s := gs_run ls s0 in
  (depend_center_ s = true → ∃ c, center_conn_ptr_ s = Some c ∧ (running c (gs_base s) = true ∨
    ∃ t, ∀ now', t ≤ now' → let id := tp_id (connect_center_timer_ s) in
      events (gs_base (gs_run [GL_expire now' id; GL_run now' id] s)) = events (gs_base s) ++
        [Ev_async_connect c (cfg_ip (config center_server)) (cfg_port (config center_server))])) ∧
  (depend_db_ s = true → existsb sought ls = true →
    ∃ c, db_conn_ptr_ s = Some c ∧ (running c (gs_base s) = true ∨
    ∃ t, ∀ now', t ≤ now' → let id := tp_id (get_db_info_timer_ s) in
      writes (events (gs_base (gs_run [GL_expire now' id; GL_run now' id] s))) =
      writes (events (gs_base s)) ++ db_request s)).
Proof.
  intros Hne Hi s. pose proof (run_ok false ls s0 (init_ok _ _ _ _ _ _ Hne Hi)) as Hok. split.
  - intros Hd. by eapply center_tried.
  - intros Hd Hs. apply db_sought; [|done]. by rewrite Hs in Hok.
Qed.

Lemma start_connect_db_events now s c :
  proxies_ok s → tp_timer (connect_db_timer_ s) = true → db_conn_ptr_ s = Some c →
  running c (gs_base s) = false →
  events (gs_base (start_connect_db now s)) = events (gs_base s) ++
    [Ev_async_connect c (si_ip (db_info_ s)) (si_port (db_info_ s))].
Proof.
  intros [_ Hp _] Ht Hc Hr. unfold start_connect_db, proxy_start. rewrite Ht.
  destruct (Hp Ht) as (Hin&ti&Hti&Hf&_).
  unfold invoke_timer, invoke_timer_info. rewrite bool_decide_true by done. rewrite Hti. simpl. rewrite Hf.
  simpl. unfold connect_db_func, async_connect. by rewrite Hc, Hr.
Qed.
Lemma list_to_map_in_key_order {A} (m : gmap Z A) : (list_to_map (in_key_order m) : gmap Z A) = m.
Proof.
  transitivity (list_to_map (map_to_list m) : gmap Z A); [|apply list_to_map_to_list].
  apply list_to_map_proper; [|apply in_key_order_perm].
  rewrite in_key_order_perm. apply NoDup_fst_map_to_list.
Qed.

Lemma in_key_order_singleton {A} k (x : A) : in_key_order {[k := x]} = [(k, x)].
Proof. unfold in_key_order. by rewrite map_to_list_singleton. Qed.

(** Client and center together find the database server: the request of a client
    that looks for it, received by the center on any of its connections, is answered on
    that connection alone; and when a database server is registered there, the client
    that receives the answer connects to the address the first of them registered with.
    *)
Theorem client_finds_database ls uid hooks R c i now now' c1 c2 uid' hooks' s0 ls' cn cd :
  let center := mgr_run ls (mgr_new uid hooks) in let s := gs_run ls' s0 in
  let request := server_pack_msg CS_GetServerInfo center_server (P_get_info [db_server]) (gs_base s) in
  reg_run ls registry_new = Some R → c ∈ live R → head (servers_of db_server R) = Some i →
  c1 ≠ c2 → gs_init now c1 c2 (game_server_new uid' hooks') = Def s0 →
  depend_db_ s = true → db_conn_ptr_ s = Some cd → running cd (gs_base s) = false →
  protos SC_GetServerInfo = false →
  packable (P_get_info [db_server]) → packable (P_info [(db_server, ms_info i)]) →
  ∃ reply,
    writes (events (mgr_base (mgr_step (ML_receive c request) center))) =
      writes (events (mgr_base center)) ++ [(c, reply)] ∧
    last (events (gs_base (gs_step (GL_receive now' cn [reply]) s))) =
      Some (Ev_async_connect cd (si_ip (ms_info i)) (si_port (ms_info i))).
Proof.
  intros center s request HR Hc Hi Hne Hinit Hd Hcd Hrun Hpr Hp1 Hp2.
  pose proof (mgr_run_implements _ _ _ _ (mgr_new_implements uid hooks) HR) as Hcen. fold center in Hcen.
  set (center1 := on_base (before_invoke request) center).
  destruct (query_writes c request R center1) as (infos&Hinfos&Hw).
  { by eapply implements_same. }
  { intros u j. by eapply run_infos. }
  { done. }
  assert (infos = {[db_server := ms_info i]}) as ->.
  { apply map_eq. intros u. rewrite Hinfos. change (m_data request) with (pack (P_get_info [db_server])).
    rewrite unpack_get_info_pack by done. unfold known_infos. destruct (decide (u = db_server)) as [->|Hu].
    - rewrite bool_decide_true by by left. by rewrite Hi, lookup_singleton_eq.
    - rewrite bool_decide_false by by rewrite list_elem_of_singleton. by rewrite lookup_singleton_ne. }
  eexists. split.
  { simpl. unfold mgr_on_receive_msgs. simpl. etrans; [exact Hw|].
    unfold center1. simpl mgr_base. by rewrite before_invoke_writes. }
  pose proof (run_ok false ls' s0 (init_ok _ _ _ _ _ _ Hne Hinit)) as Hok. fold s in Hok.
  set (m := server_pack_msg _ _ _ _). unfold gs_step, gs_on_receive_msgs. simpl foldl.
  set (s1 := on_gs_base (before_invoke m) s).
  assert (client_ok (false || existsb sought ls') s1) as Hok1
    by (eapply client_ok_frame; [apply before_invoke_frame|exact Hok]).
  unfold gs_on_receive. change (protocol_of m) with SC_GetServerInfo. rewrite Hpr. simpl.
  unfold on_sc_get_server_info. simpl depend_db_. rewrite Hd.
  change (m_data m) with (pack (P_info (in_key_order {[db_server := ms_info i]}))).
  rewrite in_key_order_singleton, unpack_info_pack by done. simpl. rewrite lookup_insert_eq.
  unfold on_get_db_info.
  rewrite (start_connect_db_events now' (set_db_info (ms_info i) s1) cd).
  - by rewrite last_snoc.
  - by destruct (cl_proxies _ _ Hok1).
  - apply (cl_wired _ _ Hok1 Hd).
  - done.
  - done.
Qed.
End client.

(** ** A lobby and its center *)
#[local] Existing Instance sample_codec.
Definition sample_config (uid : Z) : server_cfg :=
  ServerCfg "10.0.0.2" (9000 + uid) 5000 [center_server; db_server] 10.
Definition lobby : game_server :=
  match gs_init sample_config 1000 1 2 (game_server_new 7 1) with
  | Def s => s
  | Undef => game_server_new 7 1
  end.
Lemma lobby_init : gs_init sample_config 1000 1 2 (game_server_new 7 1) = Def lobby.
Proof. vm_compute. reflexivity. Qed.
(** The center accepts the lobby, answers it, and is lost. *)
Definition lobby_answered : list gs_label :=
  [GL_connected 1 false; GL_receive 2000 1 [request SC_RegisterServer (P_registered 7)]].
Definition lobby_run : list gs_label := lobby_answered ++ [GL_disconnected 3000 1].

Lemma client_keeps_connecting_witness :
  ∃ t, ∀ now, t ≤ now →
    let s := gs_run sample_config (λ _, false) lobby_run lobby in
    let id := tp_id (connect_center_timer_ s) in
    events (gs_base (gs_run sample_config (λ _, false) [GL_expire now id; GL_run now id] s)) =
      events (gs_base s) ++ [Ev_async_connect 1 "10.0.0.2" 9017].
Proof.
  destruct (client_keeps_connecting sample_config (λ _, false) 1000 1 2 7 1 lobby lobby_run
    ltac:(lia) lobby_init) as [H _].
  destruct H as (c&Hc&H); [vm_compute; reflexivity|].
  assert (Some 1 = Some c) as [= <-] by (rewrite <-Hc; vm_compute; reflexivity).
  destruct H as [H|[t H]]; [vm_compute in H; discriminate H|]. exists t. exact H.
Defined.
Lemma client_finds_database_witness :
  let center := mgr_run cluster_run (mgr_new 17 1) in
  let s := gs_run sample_config (λ _, false) lobby_answered lobby in
  ∃ reply,
    writes (events (mgr_base (mgr_step (ML_receive 2
      (server_pack_msg CS_GetServerInfo center_server (P_get_info [db_server]) (gs_base s))) center))) =
      writes (events (mgr_base center)) ++ [(2, reply)] ∧
    last (events (gs_base (gs_step sample_config (λ _, false) (GL_receive 2500 1 [reply]) s))) =
      Some (Ev_async_connect 2 "10.0.0.1" 90).
Proof.
  intros center s.
  apply (client_finds_database sample_config (λ _, false) cluster_run 17 1 cluster 2
    (ManageServerInfo 1 (ServerInfo_ 4 "10.0.0.1" 90 5000)) 1000 2500 1 2 7 1 lobby lobby_answered 1 2
    cluster_ok).
  - by apply (bool_decide_eq_true_1 _).
  - vm_compute. reflexivity.
  - lia.
  - exact lobby_init.
  - vm_compute. reflexivity.
  - vm_compute. reflexivity.
  - vm_compute. reflexivity.
  - reflexivity.
  - exact I.
  - exact I.
Defined.
