(* ===== verification/Gos.v ===== *)
(** * The Gos serializer ([network/serialize/gos_adapter.hpp], [serializer.hpp],
      [network/codec/codec_gos.hpp], [codec_common.hpp])

    Values of a universe of C++ types are written to a memory stream and read
    back: numbers, strings and character arrays, vectors, sets, maps, pairs,
    optional values, fixed arrays, tuples and structs with registered members.
    The serializer passes a flag down its overloads (the tag types
    [std::true_type] and [std::false_type]) that says whether the keys of maps
    and pairs are written.  Date-times, which go through the clock's time zone,
    are left out. *)
From stdpp Require Import base option list numbers list_numbers sorting.
From S2P Require Import Prelude NetOrder MemoryStream.
Local Open Scope Z_scope.

(** ** Definitions *)
(** *** Types and their values *)
Inductive ty :=
| G_num (t : scalar)
| G_bool
| G_enum (under : scalar)
| G_string
| G_chars (n : nat)                   (* [char[n]] *)
| G_vector (t : ty)
| G_set (t : ty)
| G_map (k v : ty)
| G_pair (k v : ty)
| G_optional (t : ty)
| G_array (n : nat) (t : ty)
| G_struct (fs : list ty)
| G_tuple (ts : list ty).
(** A character array is the string it holds; sets and maps are listed in the
    order of their keys. *)
Inductive val :=
| V_num (z : Z)
| V_str (s : list Z)
| V_list (l : list val)
| V_map (l : list (val * val))
| V_pair (a b : val)
| V_none
| V_some (v : val).

(** The order of keys: numbers, and strings by their bytes. *)
Fixpoint lex_ltb (s s' : list Z) : bool :=
  match s, s' with
  | _, [] => false
  | [], _ :: _ => true
  | x :: s, y :: s' => if x <? y then true else if y <? x then false else lex_ltb s s'
  end.
Definition key_ltb (a b : val) : bool :=
  match a, b with
  | V_num x, V_num y => x <? y
  | V_str s, V_str s' => lex_ltb s s'
  | _, _ => false
  end.
(** [insert] keeps what a key already has. *)
Fixpoint set_insert (v : val) (l : list val) : list val :=
  match l with
  | [] => [v]
  | w :: l' => if key_ltb v w then v :: l else if key_ltb w v then w :: set_insert v l' else l
  end.
Fixpoint map_insert (k v : val) (l : list (val * val)) : list (val * val) :=
  match l with
  | [] => [(k, v)]
  | (k', v') :: l' =>
      if key_ltb k k' then (k, v) :: l
      else if key_ltb k' k then (k', v') :: map_insert k v l' else l
  end.

(** [T{}] *)
Fixpoint default_val (t : ty) : val :=
  match t with
  | G_num _ | G_bool | G_enum _ => V_num 0
  | G_string | G_chars _ => V_str []
  | G_vector _ | G_set _ => V_list []
  | G_map _ _ => V_map []
  | G_pair k v => V_pair (default_val k) (default_val v)
  | G_optional _ => V_none
  | G_array n t => V_list (replicate n (default_val t))
  | G_struct fs | G_tuple fs => V_list (map default_val fs)
  end.

Section gos.
Context `{Allocator} (is_big_endian_ : bool).
Implicit Types st : memory_stream.

(** *** The adapters *)
Definition gos_hton (t : Z) : Z := if is_big_endian_ then hton T_int t else t.
Definition gos_ntoh (t : Z) : Z := if is_big_endian_ then ntoh T_int t else t.
Definition write_begin_array (array_size : nat) st : ub memory_stream :=
  write_scalar S_int st (gos_hton (s32 (Z.of_nat array_size))).
(** A negative count is a [size_t] near 2^64: the loop over the elements does
    not come to its end. *)
Definition read_begin_array st : ub (nat * memory_stream) :=
  '(_, length, st) ← read_scalar S_int st 0;
  let length := gos_ntoh length in
  if length <? 0 then Undef else Def (Z.to_nat length, st).
Definition write_is_null (is_null : bool) st : ub memory_stream :=
  write_scalar S_uchar st (if is_null then 1 else 0).

(** *** Writing *)
Fixpoint write_elems {A} (f : A → memory_stream → ub memory_stream) (l : list A) st
    : ub memory_stream :=
  match l with
  | [] => Def st
  | v :: l => st ← f v st; write_elems f l st
  end.
Fixpoint write_members (fs : list (val → memory_stream → ub memory_stream)) (l : list val) st
    : ub memory_stream :=
  match fs, l with
  | [], [] => Def st
  | f :: fs, v :: l => st ← f v st; write_members fs l st
  | _, _ => Undef
  end.
(** [WriteObject]: a value that is not of the type does not occur. *)
Fixpoint WriteObject (begin_object : bool) (t : ty) (v : val) st {struct t} : ub memory_stream :=
  match t, v with
  | G_num s, V_num z | G_enum s, V_num z => write_scalar s st z
  | G_bool, V_num z => write_scalar S_uchar st z
  | G_string, V_str s | G_chars _, V_str s => write_string st s
  | G_vector t, V_list l | G_set t, V_list l =>
      st ← write_begin_array (length l) st;
      write_elems (WriteObject false t) l st
  | G_array _ t, V_list l => write_elems (WriteObject false t) l st
  | G_map k w, V_map l =>
      st ← write_begin_array (length l) st;
      write_elems (λ p st,
        st ← (if begin_object then WriteObject true k p.1 st else Def st);
        WriteObject true w p.2 st) l st
  | G_pair k w, V_pair a b =>
      st ← (if begin_object then WriteObject true k a st else Def st);
      WriteObject true w b st
  | G_optional t, V_none => write_is_null true st
  | G_optional t, V_some v =>
      st ← write_is_null false st;
      WriteObject begin_object t v st
  | G_struct fs, V_list l => write_members (map (WriteObject true) fs) l st
  | G_tuple ts, V_list l => write_members (map (WriteObject begin_object) ts) l st
  | _, _ => Undef
  end.

(** *** Reading: into a fresh [T{}], whether or not the bytes are there *)
Fixpoint read_elems {A B} (f : memory_stream → ub (A * memory_stream)) (insert : A → B → B)
    (n : nat) (l : B) st : ub (B * memory_stream) :=
  match n with
  | O => Def (l, st)
  | S n => '(v, st) ← f st; read_elems f insert n (insert v l) st
  end.
Fixpoint read_members (fs : list (memory_stream → ub (val * memory_stream))) st
    : ub (list val * memory_stream) :=
  match fs with
  | [] => Def ([], st)
  | f :: fs =>
      '(v, st) ← f st;
      '(l, st) ← read_members fs st;
      Def (v :: l, st)
  end.
Definition push_back {A} (v : A) (l : list A) : list A := l ++ [v].
Definition read_number (s : scalar) st : ub (val * memory_stream) :=
  '(_, z, st) ← read_scalar s st 0;
  Def (V_num z, st).
Definition read_text st : ub (list Z * memory_stream) :=
  '(_, s, st) ← read_string st [];
  Def (s, st).
Fixpoint ReadObject (begin_object : bool) (t : ty) st {struct t} : ub (val * memory_stream) :=
  match t with
  | G_num s | G_enum s => read_number s st
  | G_bool => read_number S_uchar st
  | G_string => '(s, st) ← read_text st; Def (V_str s, st)
  | G_chars n => '(s, st) ← read_text st; Def (V_str (take (n - 1) s), st)
  | G_vector t =>
      '(n, st) ← read_begin_array st;
      '(l, st) ← read_elems (ReadObject false t) push_back n [] st;
      Def (V_list l, st)
  | G_set t =>
      '(n, st) ← read_begin_array st;
      '(l, st) ← read_elems (ReadObject false t) set_insert n [] st;
      Def (V_list l, st)
  | G_array n t =>
      '(l, st) ← read_elems (ReadObject false t) push_back n [] st;
      Def (V_list l, st)
  | G_map k w =>
      '(n, st) ← read_begin_array st;
      '(l, st) ← read_elems (λ st,
          '(a, st) ← (if begin_object then ReadObject true k st else Def (default_val k, st));
          '(b, st) ← ReadObject true w st;
          Def ((a, b), st))
        (λ p, map_insert p.1 p.2) n [] st;
      Def (V_map l, st)
  | G_pair k w =>
      '(a, st) ← (if begin_object then ReadObject true k st else Def (default_val k, st));
      '(b, st) ← ReadObject true w st;
      Def (V_pair a b, st)
  | G_optional t =>
      '(_, is_null, st) ← read_scalar S_uchar st 0;
      if is_null =? 0 then '(v, st) ← ReadObject true t st; Def (V_some v, st)
      else Def (V_none, st)
  | G_struct fs => '(l, st) ← read_members (map (ReadObject true) fs) st; Def (V_list l, st)
  | G_tuple ts => '(l, st) ← read_members (map (ReadObject false) ts) st; Def (V_list l, st)
  end.

(** *** The codec *)
(** [tuple_total_size]: the size of a type whose values all have it, or -1. *)
Fixpoint total_size (t : ty) : Z :=
  match t with
  | G_num s | G_enum s => scalar_size s
  | G_bool => 1
  | G_chars n => Z.of_nat n
  | G_array n t => if total_size t <? 0 then -1 else total_size t * Z.of_nat n
  | G_pair k v =>
      if (total_size k <? 0) || (total_size v <? 0) then -1 else total_size k + total_size v
  | G_tuple ts =>
      foldr (λ a b, if (a <? 0) || (b <? 0) then -1 else a + b) 0 (map total_size ts)
  | _ => -1
  end.
(** [pack(T&& t)]: of a reference only the size of an enumeration is known. *)
Definition pack_size (rvalue : bool) (t : ty) : Z :=
  if rvalue then total_size t else match t with G_enum s => scalar_size s | _ => -1 end.
Definition gos_pack (rvalue : bool) (t : ty) (v : val) : ub (list Z) :=
  let total_size := pack_size rvalue t in
  if total_size =? 0 then Def []
  else
    let total_size := if total_size <? 0 then default_data_size else total_size in
    st ← WriteObject true t v (memory_stream_sized total_size);
    buf ← deref (ms_data st);
    read_at buf (ms_rd_pos st) (length_ st).
(** [pack(gos, t)], after what the stream already has. *)
Definition gos_pack_to st (t : ty) (v : val) : ub memory_stream := WriteObject true t v st.
Definition gos_unpack (t : ty) (data : list Z) (len : Z) : ub val :=
  st ← memory_stream_wrap data len 0;
  '(v, _) ← ReadObject true t st;
  Def v.
Definition gos_unpack_from (t : ty) st : ub (val * memory_stream) := ReadObject true t st.
End gos.

(** ** The encoding *)
(** What is read of a type regardless of the flag; and the types whose values
    survive: the reader passes the flag down otherwise than the writer. *)
Fixpoint flag_free (t : ty) : bool :=
  match t with
  | G_map _ _ | G_pair _ _ => false
  | G_optional t => flag_free t
  | G_tuple ts => forallb id (map flag_free ts)
  | _ => true
  end.
Definition is_key (t : ty) : bool :=
  match t with G_num _ | G_bool | G_enum _ | G_string => true | _ => false end.
Fixpoint survives (begin_object : bool) (t : ty) : bool :=
  match t with
  | G_num _ | G_bool | G_enum _ | G_string | G_chars _ => true
  | G_vector t | G_array _ t => survives false t
  | G_set t => is_key t
  | G_map k v | G_pair k v => begin_object && is_key k && survives true v
  | G_optional t => survives true t && (begin_object || flag_free t)
  | G_struct fs => forallb id (map (survives true) fs)
  | G_tuple ts => forallb id (map (survives false) ts) &&
      (negb begin_object || forallb id (map flag_free ts))
  end.

Fixpoint all2 {A} (Ps : list (A → Prop)) (l : list A) : Prop :=
  match Ps, l with
  | [], [] => True
  | P :: Ps, x :: l => P x ∧ all2 Ps l
  | _, _ => False
  end.
Definition text_ok (s : list Z) : Prop := bytes_ok s ∧ 0 ∉ s ∧ Z.of_nat (length s) < 2 ^ 15.
Definition key_lt (a b : val) : Prop := key_ltb a b = true.
Fixpoint has_type (t : ty) (v : val) : Prop :=
  match t, v with
  | G_num s, V_num z | G_enum s, V_num z => scalar_range s z
  | G_bool, V_num z => z = 0 ∨ z = 1
  | G_string, V_str s => text_ok s
  | G_chars n, V_str s => text_ok s ∧ (length s < n)%nat
  | G_vector t, V_list l => Z.of_nat (length l) < 2 ^ 31 ∧ Forall (has_type t) l
  | G_set t, V_list l =>
      Z.of_nat (length l) < 2 ^ 31 ∧ Forall (has_type t) l ∧ StronglySorted key_lt l
  | G_map k w, V_map l =>
      Z.of_nat (length l) < 2 ^ 31 ∧ Forall (λ p, has_type k p.1 ∧ has_type w p.2) l ∧
      StronglySorted (λ p q, key_lt p.1 q.1) l
  | G_array n t, V_list l => length l = n ∧ Forall (has_type t) l
  | G_pair k w, V_pair a b => has_type k a ∧ has_type w b
  | G_optional t, V_none => True
  | G_optional t, V_some v => has_type t v
  | G_struct fs, V_list l | G_tuple fs, V_list l => all2 (map has_type fs) l
  | _, _ => False
  end.

#[local] Arguments le_bytes : simpl never.
Section encoding.
Context (be : bool).
Definition enc_count (n : nat) : list Z := le_bytes 4 (gos_hton be (s32 (Z.of_nat n))).
#[local] Arguments enc_count : simpl never.
Definition enc_text (s : list Z) : list Z := le_bytes length_size (Z.of_nat (length s)) ++ s.
#[local] Arguments enc_text : simpl never.
Fixpoint enc_members (fs : list (val → list Z)) (l : list val) : list Z :=
  match fs, l with
  | f :: fs, v :: l => f v ++ enc_members fs l
  | _, _ => []
  end.
Fixpoint enc (bo : bool) (t : ty) (v : val) : list Z :=
  match t, v with
  | G_num s, V_num z | G_enum s, V_num z => le_bytes (scalar_size s) z
  | G_bool, V_num z => le_bytes 1 z
  | G_string, V_str s | G_chars _, V_str s => enc_text s
  | G_vector t, V_list l | G_set t, V_list l => enc_count (length l) ++ (l ≫= enc false t)
  | G_array _ t, V_list l => l ≫= enc false t
  | G_map k w, V_map l =>
      enc_count (length l) ++ (l ≫= λ p, (if bo then enc true k p.1 else []) ++ enc true w p.2)
  | G_pair k w, V_pair a b => (if bo then enc true k a else []) ++ enc true w b
  | G_optional t, V_none => [1]
  | G_optional t, V_some v => 0 :: enc bo t v
  | G_struct fs, V_list l => enc_members (map (enc true) fs) l
  | G_tuple ts, V_list l => enc_members (map (enc bo) ts) l
  | _, _ => []
  end.
End encoding.

#[local] Arguments enc_count : simpl never.
#[local] Arguments enc_text : simpl never.
#[local] Arguments write_begin_array : simpl never.
#[local] Arguments write_scalar : simpl never.
(** Induction over types with lists of members. *)
Lemma ty_induction (P : ty → Prop) :
  (∀ s, P (G_num s)) → P G_bool → (∀ s, P (G_enum s)) → P G_string → (∀ n, P (G_chars n)) →
  (∀ t, P t → P (G_vector t)) → (∀ t, P t → P (G_set t)) →
  (∀ k v, P k → P v → P (G_map k v)) → (∀ k v, P k → P v → P (G_pair k v)) →
  (∀ t, P t → P (G_optional t)) → (∀ n t, P t → P (G_array n t)) →
  (∀ fs, Forall P fs → P (G_struct fs)) → (∀ ts, Forall P ts → P (G_tuple ts)) → ∀ t, P t.
Proof.
  intros H1 H2 H3 H4 H5 H6 H7 H8 H9 H10 H11 H12 H13.
  fix IH 1. intros [s| |s| |n|t|t|k v|k v|t|n t|fs|ts];
    [apply H1|apply H2|apply H3|apply H4|apply H5|apply H6, IH|apply H7, IH|apply H8; apply IH
    |apply H9; apply IH|apply H10, IH|apply H11, IH|apply H12|apply H13].
  - induction fs as [|t fs IHfs]; constructor; [apply IH|exact IHfs].
  - induction ts as [|t ts IHts]; constructor; [apply IH|exact IHts].
Qed.

(** ** Writing appends the encoding *)
Section writing.
Context `{Allocator} (be : bool).
Definition writes (f : memory_stream → ub memory_stream) (bs : list Z) : Prop :=
  ∀ st q, stream_repr st q → owned st → (ms_wr_pos st + Z.of_nat (length bs)) * 2 < max_stream →
  ∃ st', f st = Def st' ∧ owned st' ∧ stream_repr st' (q ++ bs) ∧
    ms_wr_pos st' = ms_wr_pos st + Z.of_nat (length bs).
Lemma writes_nothing : writes Def [].
Proof. intros st q Hr Hown _. exists st. rewrite app_nil_r. split_and!; [done..|simpl; lia]. Qed.
Lemma writes_bind f g b1 b2 : writes f b1 → writes g b2 → writes (λ st, st ← f st; g st) (b1 ++ b2).
Proof.
  intros Hf Hg st q Hr Hown Hbig. rewrite length_app in *.
  assert (0 ≤ ms_wr_pos st) by (destruct Hr as (?&?&?&?&?&?); lia).
  destruct (Hf st q Hr Hown) as (st1&->&Hown1&Hr1&Hw1); [lia|]. simpl.
  destruct (Hg st1 _ Hr1 Hown1) as (st2&->&Hown2&Hr2&Hw2); [lia|].
  exists st2. rewrite <-app_assoc in Hr2. split_and!; [done..|lia].
Qed.
Lemma writes_scalar s z : writes (λ st, write_scalar s st z) (le_bytes (scalar_size s) z).
Proof.
  intros st q Hr Hown. pose proof (scalar_size_range s). rewrite le_bytes_length by lia. intros Hbig.
  destruct (write_scalar_repr st q s z Hr Hown) as (st1&->&Hown1&Hr1&Hw1&_); [lia|].
  by exists st1.
Qed.
Lemma writes_text s : bytes_ok s → writes (λ st, write_string st s) (enc_text s).
Proof.
  intros Hs st q Hr Hown. unfold enc_text. rewrite length_app, Nat2Z.inj_add, le_bytes_length by done.
  intros Hbig. destruct (write_string_repr st q s Hr Hown Hs) as (st1&->&Hown1&Hr1&Hw1); [lia|].
  exists st1. split_and!; [done..|lia].
Qed.
Lemma writes_elems {A} (f : A → memory_stream → ub memory_stream) (e : A → list Z) l :
  Forall (λ v, writes (f v) (e v)) l → writes (write_elems f l) (l ≫= e).
Proof. induction 1 as [|v l Hv Hl IH]; simpl; [apply writes_nothing|by apply writes_bind]. Qed.
Lemma writes_members (t : list ty) f (e : ty → val → list Z) l :
  Forall (λ t, ∀ v, has_type t v → writes (f t v) (e t v)) t → all2 (map has_type t) l →
  writes (write_members (map f t) l) (enc_members (map e t) l).
Proof.
  intros Hf. revert l. induction Hf as [|t ts Ht Hts IH]; intros [|v l]; simpl; try done.
  { intros _. apply writes_nothing. }
  intros [Hv Hl]. apply writes_bind; auto.
Qed.
Lemma writes_count n : writes (write_begin_array be n) (enc_count be n).
Proof. apply writes_scalar. Qed.

Lemma WriteObject_writes t : ∀ bo v, has_type t v → writes (WriteObject be bo t v) (enc be bo t v).
Proof.
  induction t as [s| |s| |n|t IH|t IH|k w IHk IHw|k w IHk IHw|t IH|n t IH|fs IH|ts IH]
    using ty_induction; intros bo [z|s'|l|l|a b| |v];
    cbn [WriteObject enc has_type]; try done.
  - intros _. apply writes_scalar.
  - intros _. apply (writes_scalar S_uchar).
  - intros _. apply writes_scalar.
  - intros (Hs&_). by apply writes_text.
  - intros [(Hs&_) _]. by apply writes_text.
  - intros [_ Hl]. apply (writes_bind (write_begin_array be (length l)) (write_elems _ l));
      [apply writes_count|]. apply writes_elems. eapply Forall_impl; [exact Hl|]. auto.
  - intros (_&Hl&_). apply (writes_bind (write_begin_array be (length l)) (write_elems _ l));
      [apply writes_count|]. apply writes_elems. eapply Forall_impl; [exact Hl|]. auto.
  - intros (_&Hl&_). apply (writes_bind (write_begin_array be (length l)) (write_elems _ l));
      [apply writes_count|]. apply writes_elems. eapply Forall_impl; [exact Hl|].
    intros p [Hk Hw]. apply (writes_bind (λ st, if bo then _ else _) _); [|by apply IHw].
    destruct bo; [by apply IHk|apply writes_nothing].
  - intros [Hk Hw]. apply (writes_bind (λ st, if bo then _ else _) _); [|by apply IHw].
    destruct bo; [by apply IHk|apply writes_nothing].
  - intros _. apply (writes_scalar S_uchar 1).
  - intros Hv. apply (writes_bind (write_is_null false) _ [0]); [apply (writes_scalar S_uchar 0)|by apply IH].
  - intros [_ Hl]. apply writes_elems. eapply Forall_impl; [exact Hl|]. auto.
  - intros Hl. apply writes_members; [|done]. eapply Forall_impl; [exact IH|]. auto.
  - intros Hl. apply writes_members; [|done]. eapply Forall_impl; [exact IH|]. auto.
Qed.
End writing.

(** ** Reading takes the encoding *)
Section reading.
Context `{Allocator} (be : bool).
Implicit Types st : memory_stream.
(** The buffer has a byte after the data, where [read_string] puts a terminator.
    An empty string at the very end is not taken from the stream.  The size a
    stream keeps of its buffer, which of a wrapped one is that of the data, does
    not count. *)
Definition sized (n : Z) st : memory_stream := set_data st (ms_data st) n.
Definition leaves st (q : list Z) : Prop :=
  (stream_repr st q ∨ (q = [] ∧ stream_repr st (le_bytes 2 0))) ∧ ms_wr_pos st < ms_data_size st.
Definition left st (q : list Z) : Prop := ∃ n, leaves (sized n st) q.
Definition reads {A} (f : memory_stream → ub (A * memory_stream)) (bs : list Z) (a : A) : Prop :=
  ∀ st rest, left st (bs ++ rest) → ∃ st', f st = Def (a, st') ∧ left st' rest.

Lemma reads_sized {A} (f : memory_stream → ub (A * memory_stream)) bs a :
  (∀ n st, f (sized n st) = ('(a, st) ← f st; Def (a, sized n st))) →
  (∀ st rest, leaves st (bs ++ rest) → ∃ st', f st = Def (a, st') ∧ leaves st' rest) →
  reads f bs a.
Proof.
  intros Hsz Hf st rest [n Hl]. destruct (Hf _ _ Hl) as (st'&Heq&Hl'). rewrite Hsz in Heq.
  destruct (f st) as [[a' st1]|]; simplify_eq/=. exists st1. split; [done|by exists n].
Qed.
Lemma read_scalar_sized s n st :
  read_scalar s (sized n st) 0 = ('(a, st) ← read_scalar s st 0; Def (a, sized n st)).
Proof.
  unfold read_scalar, read_value. simpl. case_match; [done|].
  destruct (ms_data st) as [buf|]; [simpl|done]. by destruct (read_at buf _ _).
Qed.
Lemma read_text_sized n st :
  read_text (sized n st) = ('(a, st) ← read_text st; Def (a, sized n st)).
Proof.
  unfold read_text, read_string. simpl. case_match; [done|].
  destruct (ms_data st) as [buf|]; [simpl|done]. destruct (read_at buf _ _) as [bs|]; [simpl|done].
  case_match; [done|]. destruct (read_at buf _ 1) as [c|]; [simpl|done].
  destruct (write_at buf _ [0]) as [buf0|]; [simpl|done].
  destruct (c_string _) as [s'|]; [simpl|done]. by destruct (write_at buf0 _ c).
Qed.
Lemma reads_ret {A} (a : A) : reads (λ st, Def (a, st)) [] a.
Proof. intros st rest Hl. by exists st. Qed.
Lemma reads_bind {A B} (f : memory_stream → ub (A * memory_stream)) (g : A → memory_stream → ub (B * memory_stream))
    b1 b2 a b :
  reads f b1 a → reads (g a) b2 b → reads (λ st, '(a, st) ← f st; g a st) (b1 ++ b2) b.
Proof.
  intros Hf Hg st rest Hl. rewrite <-app_assoc in Hl.
  destruct (Hf st _ Hl) as (st1&->&Hl1). simpl. by apply Hg.
Qed.
Lemma reads_map {A B} (f : memory_stream → ub (A * memory_stream)) (h : A → B) bs a :
  reads f bs a → reads (λ st, '(a, st) ← f st; Def (h a, st)) bs (h a).
Proof.
  intros Hf. rewrite <-(app_nil_r bs).
  apply (reads_bind f (λ a st, Def (h a, st)) bs [] a (h a)); [done|apply reads_ret].
Qed.

Lemma reads_scalar s z :
  scalar_range s z → reads (λ st, read_scalar s st 0) (le_bytes (scalar_size s) z) (true, z).
Proof.
  intros Hz. apply reads_sized; [apply read_scalar_sized|]. intros st rest [Hl Hroom].
  pose proof (scalar_size_range s).
  assert (stream_repr st (le_bytes (scalar_size s) z ++ rest)) as Hr.
  { destruct Hl as [|[He _]]; [done|]. apply app_nil in He as [He _].
    pose proof (le_bytes_length (scalar_size s) z ltac:(lia)) as Hlen. rewrite He in Hlen.
    simpl length in Hlen. lia. }
  destruct (read_scalar_repr st _ s 0 Hr) as (st'&Heq&Hr'&_&Hw&Hd).
  rewrite (queue_pop_push (scalar_size s) z rest ltac:(lia)) in Heq, Hr'. cbn [fst snd] in Heq, Hr'.
  rewrite scalar_of_bytes_le in Heq by done.
  exists st'. split; [done|]. split; [by left|lia].
Qed.
Lemma reads_number s z :
  scalar_range s z → reads (read_number s) (le_bytes (scalar_size s) z) (V_num z).
Proof.
  intros Hz st rest Hl. destruct (reads_scalar s z Hz st rest Hl) as (st'&Heq&Hl').
  exists st'. unfold read_number. by rewrite Heq.
Qed.

Lemma read_string_empty st b rest :
  stream_repr st (le_bytes 2 0 ++ b :: rest) →
  ∃ st', read_string st [] = Def (true, [], st') ∧ stream_repr st' (b :: rest) ∧
    ms_wr_pos st' = ms_wr_pos st ∧ ms_data_size st' = ms_data_size st.
Proof.
  intros (pre&tail&Hd&Hrd&Hwr&Hsz&Hmax&Hq). unfold max_stream in *.
  pose proof (le_bytes_length 2 0 ltac:(lia)) as Hlb.
  pose proof (read_at_mid pre (le_bytes 2 0) ((b :: rest) ++ tail)) as Hread.
  pose proof (length_prefix_val 0 ltac:(lia)) as Hval. unfold length_size in *.
  set (lb := le_bytes 2 0) in *. clearbody lb. rewrite length_app in *. simpl length in *.
  replace (Z.of_nat (length lb)) with 2 in Hread by lia.
  unfold read_string, length_size. rewrite s32_small by lia. zcase; [lia|].
  rewrite Hd, Hrd. cbn [deref mbind ub_bind]. rewrite <-app_assoc. rewrite Hread. cbn [mbind ub_bind].
  rewrite Hval. simpl. eexists. split_and!; [done| |done|done].
  exists (pre ++ lb), tail. simpl. rewrite length_app. unfold max_stream.
  split_and!; try done; try lia.
  - by rewrite Hd, <-!app_assoc.
  - by apply Forall_app in Hq as [_ Hq].
Qed.
Lemma read_string_last st :
  stream_repr st (le_bytes 2 0) → read_string st [] = Def (false, [], st).
Proof.
  intros (pre&tail&Hd&Hrd&Hwr&Hsz&Hmax&Hq). unfold max_stream in *.
  pose proof (le_bytes_length 2 0 ltac:(lia)) as Hlb.
  unfold read_string, length_size. rewrite s32_small by lia. zcase; [done|lia].
Qed.
Lemma reads_text s : text_ok s → reads read_text (enc_text s) s.
Proof.
  intros (Hs&Hz&Hlen). apply reads_sized; [apply read_text_sized|]. intros st rest [Hl Hroom].
  unfold read_text, enc_text in *.
  assert (stream_repr st (le_bytes length_size (Z.of_nat (length s)) ++ s ++ rest)) as Hr.
  { destruct Hl as [Hl|[He _]]; [by rewrite <-app_assoc in Hl|]. apply app_nil in He as [He _].
    apply app_nil in He as [He _]. pose proof (le_bytes_length length_size (Z.of_nat (length s)) ltac:(done)) as Hlb.
    by rewrite He in Hlb. }
  destruct s as [|c s].
  - simpl length in Hr. destruct rest as [|b rest].
    + exists st. rewrite app_nil_r in Hr. rewrite read_string_last by done.
      split; [done|]. split; [by right|done].
    + destruct (read_string_empty st b rest Hr) as (st'&->&Hr'&Hw&Hd).
      exists st'. split; [done|]. split; [by left|lia].
  - destruct (read_string_repr st (c :: s) rest [] Hr) as (st'&->&Hr'&_&_&Hw&Hd); try done.
    + simpl. lia.
    + destruct Hr as (pre&tail&_&Hrd&Hwr&_). unfold length_size in *.
      rewrite !length_app in Hwr. pose proof (le_bytes_length 2 (Z.of_nat (length (c :: s))) ltac:(lia)). lia.
    + exists st'. split; [done|]. split; [by left|lia].
Qed.
Lemma reads_count n :
  Z.of_nat n < 2 ^ 31 → reads (read_begin_array be) (enc_count be n) n.
Proof.
  intros Hn st rest Hl. unfold enc_count in Hl. rewrite s32_small in Hl by lia.
  assert (scalar_range S_int (gos_hton be (Z.of_nat n)) ∧
    gos_ntoh be (gos_hton be (Z.of_nat n)) = Z.of_nat n) as [Hs Hnt].
  { unfold gos_hton, gos_ntoh. destruct be; [|split; [unfold scalar_range; simpl; lia|done]].
    split; [by apply (hton_range T_int)|]. apply (ntoh_hton T_int); unfold net_range; simpl; lia. }
  destruct (reads_scalar S_int _ Hs st rest Hl) as (st'&Heq&Hl').
  exists st'. unfold read_begin_array. rewrite Heq. simpl. rewrite Hnt.
  zcase; [lia|]. by rewrite Nat2Z.id.
Qed.
Lemma reads_elems {A B} (f : memory_stream → ub (A * memory_stream)) (ins : A → B → B)
    (e : A → list Z) (l : list A) acc :
  Forall (λ v, reads f (e v) v) l →
  reads (read_elems f ins (length l) acc) (l ≫= e) (foldl (λ acc v, ins v acc) acc l).
Proof.
  intros Hl. revert acc. induction Hl as [|v l Hv Hl IH]; intros acc; simpl; [apply reads_ret|].
  apply (reads_bind f (λ v st, read_elems f ins (length l) (ins v acc) st) (e v) (l ≫= e) v); auto.
Qed.
Lemma foldl_push_back {A} (l acc : list A) : foldl (λ acc v, push_back v acc) acc l = acc ++ l.
Proof.
  revert acc. induction l as [|v l IH]; intros acc; simpl; [by rewrite app_nil_r|].
  rewrite IH. unfold push_back. by rewrite <-app_assoc.
Qed.

(** Keys come in order, so each insertion is at the end. *)
Lemma foldl_insert {A} (R : A → A → Prop) (ins : A → list A → list A) l :
  (∀ v l, Forall (λ w, R w v) l → ins v l = l ++ [v]) →
  ∀ acc, Forall (λ w, Forall (R w) l) acc → StronglySorted R l →
  foldl (λ acc v, ins v acc) acc l = acc ++ l.
Proof.
  intros Hins. induction l as [|v l IH]; intros acc Hacc Hl; simpl; [by rewrite app_nil_r|].
  apply StronglySorted_inv in Hl as [Hl Hv]. rewrite Hins.
  - rewrite IH; [by rewrite <-app_assoc| |done]. apply Forall_app. split; [|by constructor].
    eapply Forall_impl; [exact Hacc|]. intros w Hw. by inversion Hw.
  - eapply Forall_impl; [exact Hacc|]. intros w Hw. by inversion Hw.
Qed.
Lemma lex_ltb_asym s s' : lex_ltb s s' = true → lex_ltb s' s = false.
Proof.
  revert s'. induction s as [|x s IH]; intros [|y s']; simpl; try done.
  repeat (case_match; rewrite ?Z.ltb_lt, ?Z.ltb_ge in *; try done; try lia). apply IH.
Qed.
Lemma key_ltb_asym a b : key_ltb a b = true → key_ltb b a = false.
Proof.
  destruct a, b; simpl; try done; [|apply lex_ltb_asym]. rewrite Z.ltb_lt, Z.ltb_ge. lia.
Qed.
Lemma set_insert_last v l : Forall (λ w, key_lt w v) l → set_insert v l = l ++ [v].
Proof.
  induction 1 as [|w l Hw _ IH]; simpl; [done|]. by rewrite (key_ltb_asym _ _ Hw), Hw, IH.
Qed.
Lemma map_insert_last (p : val * val) l :
  Forall (λ q, key_lt q.1 p.1) l → map_insert p.1 p.2 l = l ++ [p].
Proof.
  destruct p as [k v]. induction 1 as [|[k' v'] l Hw _ IH]; simpl in *; [done|].
  by rewrite (key_ltb_asym _ _ Hw), Hw, IH.
Qed.

Lemma reads_members_enc (ts : list ty) (f : ty → memory_stream → ub (val * memory_stream))
    (e : ty → val → list Z) l :
  Forall (λ t, ∀ v, has_type t v → reads (f t) (e t v) v) ts → all2 (map has_type ts) l →
  reads (read_members (map f ts)) (enc_members (map e ts) l) l.
Proof.
  intros Hf. revert l. induction Hf as [|t ts Ht Hts IH]; intros [|v l]; simpl; try done.
  { intros _. apply reads_ret. }
  intros [Hv Hl]. apply (reads_bind (f t) (λ v st, '(l, st) ← read_members (map f ts) st; Def (v :: l, st))
    (e t v) _ v); [auto|]. apply reads_map. auto.
Qed.
Lemma reads_array {A} (f : memory_stream → ub (A * memory_stream)) ins (e : A → list Z) l (h : list A → val) :
  Z.of_nat (length l) < 2 ^ 31 → Forall (λ v, reads f (e v) v) l →
  foldl (λ acc v, ins v acc) [] l = l →
  reads (λ st, '(n, st) ← read_begin_array be st; '(l, st) ← read_elems f ins n [] st; Def (h l, st))
    (enc_count be (length l) ++ (l ≫= e)) (h l).
Proof.
  intros Hlen Hl Hfold.
  apply (reads_bind (read_begin_array be) (λ n st, '(l, st) ← read_elems f ins n [] st; Def (h l, st))
    _ _ (length l)); [by apply reads_count|].
  apply (reads_map _ h). pose proof (reads_elems f ins e l [] Hl) as Hr. by rewrite Hfold in Hr.
Qed.
Lemma reads_scalar_bind {B} s z (g : Z → memory_stream → ub (B * memory_stream)) b2 b :
  scalar_range s z → reads (g z) b2 b →
  reads (λ st, '(_, z, st) ← read_scalar s st 0; g z st) (le_bytes (scalar_size s) z ++ b2) b.
Proof.
  intros Hz Hg st rest Hl. rewrite <-app_assoc in Hl.
  destruct (reads_scalar s z Hz st _ Hl) as (st1&->&Hl1). simpl. by apply Hg.
Qed.
(** What does not depend on the flag. *)
Lemma flag_free_enc t : flag_free t = true → ∀ bo bo' v, enc be bo t v = enc be bo' t v.
Proof.
  induction t as [s| |s| |n|t IH|t IH|k w IHk IHw|k w IHk IHw|t IH|n t IH|fs IH|ts IH]
    using ty_induction; intros Hff bo bo' v; try done.
  - simpl. destruct v; try done. f_equal. by apply IH.
  - simpl in *. destruct v as [| |l| | | |]; try done. revert l Hff.
    induction IH as [|t ts Ht _ IHts]; intros [|v l] Hff; simpl in *; try done.
    apply andb_true_iff in Hff as [H1 H2]. f_equal; [by apply Ht|by apply IHts].
Qed.
Lemma forallb_map_elem {A} (f : A → bool) l x : forallb id (map f l) = true → x ∈ l → f x = true.
Proof.
  induction l as [|y l IH]; simpl; [by rewrite elem_of_nil|]. intros [H1 H2]%andb_true_iff [->|Hx]%elem_of_cons; auto.
Qed.
Lemma ReadObject_reads t :
  ∀ bo v, survives bo t = true → has_type t v → reads (ReadObject be bo t) (enc be bo t v) v.
Proof.
  induction t as [s| |s| |n|t IH|t IH|k w IHk IHw|k w IHk IHw|t IH|n t IH|fs IH|ts IH]
    using ty_induction; intros bo [z|s'|l|l|a b| |v] Hsv;
    cbn [ReadObject enc has_type survives] in *; try done.
  - apply reads_number.
  - intros Hz. apply (reads_number S_uchar). unfold scalar_range; simpl. lia.
  - apply reads_number.
  - intros Hs. apply (reads_map read_text V_str), reads_text, Hs.
  - intros [Hs Hn]. rewrite <-(take_ge s' (n - 1)) at 2 by lia.
    apply (reads_map read_text (λ s, V_str (take (n - 1) s))), reads_text, Hs.
  - intros [Hlen Hl]. apply (reads_array (ReadObject be false t) push_back _ l V_list); [done| |apply foldl_push_back].
    eapply Forall_impl; [exact Hl|]. auto.
  - intros (Hlen&Hl&Hsort). apply (reads_array (ReadObject be false t) set_insert _ l V_list); [done| |].
    + eapply Forall_impl; [exact Hl|]. intros v Hv. apply IH; [|done]. by destruct t.
    + apply (foldl_insert key_lt); [apply set_insert_last|constructor|done].
  - apply andb_true_iff in Hsv as [[-> Hk]%andb_true_iff Hw]. intros (Hlen&Hl&Hsort).
    apply (reads_array _ (λ p, map_insert p.1 p.2) _ l V_map); [done| |].
    + eapply Forall_impl; [exact Hl|]. intros [a b] [Ha Hb].
      apply (reads_bind (ReadObject be true k) (λ a st, '(b, st) ← ReadObject be true w st; Def ((a, b), st)) _ _ a).
      { apply IHk; [by destruct k|done]. }
      apply (reads_map _ (pair a)). by apply IHw.
    + apply (foldl_insert (λ p q, key_lt p.1 q.1)); [apply map_insert_last|constructor|done].
  - apply andb_true_iff in Hsv as [[-> Hk]%andb_true_iff Hw]. intros [Ha Hb].
    apply (reads_bind (ReadObject be true k) (λ a st, '(b, st) ← ReadObject be true w st; Def (V_pair a b, st)) _ _ a).
    { apply IHk; [by destruct k|done]. }
    apply (reads_map _ (V_pair a)). by apply IHw.
  - intros _. apply (reads_scalar_bind S_uchar 1 (λ z st,
      if z =? 0 then '(v, st) ← ReadObject be true t st; Def (V_some v, st) else Def (V_none, st))
      []); [done|apply reads_ret].
  - apply andb_true_iff in Hsv as [Hsv Hff]. intros Hv.
    apply (reads_scalar_bind S_uchar 0 (λ z st,
      if z =? 0 then '(v, st) ← ReadObject be true t st; Def (V_some v, st) else Def (V_none, st)));
      [done|].
    apply (reads_map (ReadObject be true t) V_some).
    replace (enc be bo t v) with (enc be true t v); [by apply IH|].
    destruct bo; [done|]. by apply flag_free_enc.
  - intros [<- Hl]. apply (reads_map _ V_list).
    pose proof (reads_elems (ReadObject be false t) push_back (enc be false t) l []) as Hr.
    rewrite foldl_push_back in Hr. apply Hr. eapply Forall_impl; [exact Hl|]. auto.
  - intros Hl. apply (reads_map _ V_list), reads_members_enc; [|done].
    rewrite Forall_forall in IH |- *. intros t Ht v Hv. apply IH; [done| |done].
    by apply (forallb_map_elem (survives true) fs).
  - apply andb_true_iff in Hsv as [Hsv Hff]. intros Hl.
    apply (reads_map _ V_list), reads_members_enc; [|done].
    rewrite Forall_forall in IH |- *. intros t Ht v Hv.
    replace (enc be bo t v) with (enc be false t v).
    { apply IH; [done| |done]. by apply (forallb_map_elem (survives false) ts). }
    destruct bo; [|done]. apply flag_free_enc. by apply (forallb_map_elem flag_free ts).
Qed.
End reading.

(** ** The codec *)
Section codec.
Context `{Allocator} (be : bool).
Lemma total_size_zero t : total_size t = 0 → ∀ bo v, has_type t v → enc be bo t v = [].
Proof.
  assert (∀ fs : list Z, foldr (λ a b, if (a <? 0) || (b <? 0) then -1 else a + b) 0 fs = 0 →
    Forall (λ a, a = 0) fs) as Hsum.
  { induction fs as [|a fs IH]; simpl; [constructor|]. set (b := foldr _ 0 fs) in *.
    case_match eqn:He; [done|]. apply orb_false_iff in He as [H1%Z.ltb_ge H2%Z.ltb_ge].
    intros Hab. constructor; [lia|]. apply IH. lia. }
  induction t as [s| |s| |n|t IH|t IH|k w IHk IHw|k w IHk IHw|t IH|n t IH|fs IH|ts IH]
    using ty_induction; cbn [total_size]; intros Ht bo [z|s'|l|l|a b| |v]; cbn [has_type enc];
    try done; try (pose proof (scalar_size_range s); lia).
  - intros [_ Hn]. lia.
  - case_match eqn:He; [done|]. apply orb_false_iff in He as [H1%Z.ltb_ge H2%Z.ltb_ge].
    intros [Ha Hb]. rewrite IHw by (done || lia). destruct bo; [|done]. by rewrite IHk by (done || lia).
  - case_match eqn:He; [done|]. intros [<- Hl]. apply Z.mul_eq_0 in Ht as [Ht|Ht].
    + induction Hl as [|v l Hv _ IHl]; simpl; [done|]. by rewrite IH.
    + by destruct l.
  - apply Hsum in Ht. revert l. induction IH as [|t ts Hh _ IHts]; intros [|v l]; simpl; try done.
    inversion Ht as [|? ? Ht0 Hts]. intros [Hv Hl]. by rewrite Hh, IHts.
Qed.
Definition pack_bytes (t : ty) (v : val) : list Z := enc be true t v.
Lemma gos_pack_spec rvalue t v :
  has_type t v → pack_size rvalue t < max_stream →
  Z.of_nat (length (pack_bytes t v)) * 2 < max_stream →
  gos_pack be rvalue t v = Def (pack_bytes t v) ∧ bytes_ok (pack_bytes t v).
Proof.
  intros Hv Hsz Hlen. unfold gos_pack. case_match eqn:Hz.
  - apply Z.eqb_eq in Hz. unfold pack_bytes. rewrite total_size_zero; [|destruct rvalue; simpl in Hz|done].
    + by split; [|constructor].
    + exact Hz.
    + by destruct t.
  - set (n := if pack_size rvalue t <? 0 then _ else _).
    assert (0 < n < max_stream) as Hn.
    { apply Z.eqb_neq in Hz. unfold n, max_stream, default_data_size in *. zcase; lia. }
    assert (∃ st', WriteObject be true t v (memory_stream_sized n) = Def st' ∧ owned st' ∧
      stream_repr st' ([] ++ pack_bytes t v) ∧ ms_wr_pos st' = 0 + Z.of_nat (length (pack_bytes t v)))
      as (st'&->&_&Hr&Hw).
    { apply (WriteObject_writes be t true v Hv (memory_stream_sized n) []);
        [by apply memory_stream_sized_repr|done|unfold pack_bytes in *; simpl; lia]. }
    destruct Hr as (pre&tail&Hd&Hrd&Hwr&_&_&Hok). simpl in Hwr, Hd, Hok.
    destruct pre as [|? pre]; [|simpl in Hwr; lia]. simpl in Hd, Hrd. simpl. rewrite Hd, Hrd. simpl.
    split; [|done]. replace (length_ st') with (Z.of_nat (length (pack_bytes t v))).
    { apply read_at_prefix. }
    unfold length_. zcase; lia.
Qed.
Lemma gos_unpack_spec t v rest extra :
  survives true t = true → has_type t v → bytes_ok (pack_bytes t v ++ rest) → extra ≠ [] →
  Z.of_nat (length ((pack_bytes t v ++ rest) ++ extra)) < max_stream →
  gos_unpack be t ((pack_bytes t v ++ rest) ++ extra) (Z.of_nat (length (pack_bytes t v ++ rest))) =
  Def v.
Proof.
  intros Hsv Hv Hok Hex Hlen. unfold gos_unpack, memory_stream_wrap. simpl.
  set (bs := pack_bytes t v ++ rest) in *. set (st := MemoryStream _ _ _ _ _).
  assert (left st bs) as Hl.
  { exists (Z.of_nat (length (bs ++ extra))). split.
    - left. exists [], extra. simpl. rewrite length_app in *. by split_and!; try done; try lia.
    - simpl. rewrite length_app. destruct extra; [done|simpl; lia]. }
  by destruct (ReadObject_reads be t true v Hsv Hv st rest Hl) as (st'&->&_).
Qed.
End codec.

Lemma default_key_irrefl k : key_ltb (default_val k) (default_val k) = false.
Proof. by destruct k. Qed.

(** ** Properties *)
Section properties.
Context `{Allocator} (be : bool).
(** C14: Packing a value and unpacking the bytes gives the value back, in both byte
    orders, whatever the type is built of and whatever follows it in the message, when
    maps and pairs stand where their keys are written ([survives]), character strings
    have no zero byte and are shorter than 2^15, and the buffer that holds the message
    goes on for at least one byte. The bytes are those of a definition that does not
    know the stream. *)
Theorem gos_roundtrip rvalue t v rest extra :
  survives true t = true → has_type t v → bytes_ok rest →
  pack_size rvalue t < max_stream → extra ≠ [] →
  let bs := pack_bytes be t v in
  Z.of_nat (length ((bs ++ rest) ++ extra)) * 2 < max_stream →
  gos_pack be rvalue t v = Def bs ∧
  gos_unpack be t ((bs ++ rest) ++ extra) (Z.of_nat (length (bs ++ rest))) = Def v.
Proof.
  intros Hsv Hv Hrest Hsz Hex bs Hlen. rewrite !length_app in Hlen.
  destruct (gos_pack_spec be rvalue t v) as [Hp Hok]; [done|done|unfold bs in *; lia|].
  split; [done|]. apply gos_unpack_spec; try done; [by apply Forall_app|].
  rewrite !length_app. unfold bs in *. lia.
Qed.
(** a map or a pair in a container loses its keys: what is written does not
    depend on them, and what is read has the default key, so that of a map's
    entries at most one is left. *)
Theorem nested_map_loses_keys k w l l' st :
  (l.*2 = l'.*2 →
    WriteObject be false (G_map k w) (V_map l) st = WriteObject be false (G_map k w) (V_map l') st) ∧
  (∀ v st', ReadObject be false (G_map k w) st = Def (v, st') →
    v = V_map [] ∨ ∃ a, v = V_map [(default_val k, a)]).
Proof.
  split.
  - intros Hl. cbn [WriteObject]. assert (length l = length l') as ->.
    { apply (f_equal length) in Hl. by rewrite !length_fmap in Hl. }
    destruct (write_begin_array be _ st) as [st1|]; simpl; [|done]. revert l' Hl st1.
    induction l as [|[a b] l IH]; intros [|[a' b'] l'] Hl st1; simplify_eq/=; [done|].
    destruct (WriteObject be true w _ st1) as [st2|]; simpl; [|done]. by apply IH.
  - intros v st'. cbn [ReadObject]. destruct (read_begin_array be st) as [[n st1]|]; simpl; [|done].
    match goal with |- context [read_elems ?f ?ins n [] st1] =>
      assert (∀ n acc st1 l st2, (acc = [] ∨ ∃ a, acc = [(default_val k, a)]) →
        read_elems f ins n acc st1 = Def (l, st2) → l = [] ∨ ∃ a, l = [(default_val k, a)]) as Hone end.
    { clear n st1. intros n. induction n as [|n IH]; intros acc st1 l0 st2 Hacc; simpl.
      - intros ?. by simplify_eq.
      - destruct (ReadObject be true w st1) as [[b st3]|]; simpl; [|done]. apply IH. right.
        destruct Hacc as [->|[a ->]]; simpl; [by exists b|]. rewrite default_key_irrefl. by exists a. }
    destruct (read_elems _ _ n [] st1) as [[l0 st2]|] eqn:He; simpl; [|done].
    intros ?; simplify_eq. destruct (Hone _ _ _ _ _ (or_introl eq_refl) He) as [->|[a ->]]; eauto.
Qed.
End properties.

(** ** Witnesses: an allocator whose blocks are zeroed; a struct with members of
    most kinds *)
#[local] Existing Instance zero_allocator.
Definition player : ty := G_struct
  [G_num S_int; G_string; G_chars 4; G_vector (G_optional (G_num S_short)); G_set G_string;
   G_map G_string (G_array 2 G_bool); G_pair (G_enum S_uint) (G_struct [G_tuple [G_num S_int64]]);
   G_optional (G_num S_double)].
Definition player_1 : val := V_list
  [V_num (-7); V_str [97; 98]; V_str [99]; V_list [V_some (V_num 3); V_none]; V_list [V_str []; V_str [97]];
   V_map [(V_str [120], V_list [V_num 1; V_num 0]); (V_str [121], V_list [V_num 0; V_num 1])];
   V_pair (V_num 9) (V_list [V_list [V_num (-1)]]); V_none].
Example player_bytes : gos_pack true false player player_1 = Def
  [249; 255; 255; 255; 2; 0; 97; 98; 1; 0; 99; 0; 0; 0; 2; 0; 3; 0; 1; 0; 0; 0; 2; 0; 0; 1; 0; 97;
   0; 0; 0; 2; 1; 0; 120; 1; 0; 1; 0; 121; 0; 1; 9; 0; 0; 0; 255; 255; 255; 255; 255; 255; 255; 255; 1].
Proof. vm_compute. reflexivity. Qed.
Lemma player_1_has_type : has_type player player_1.
Proof.
  unfold player, player_1, text_ok, bytes_ok. simpl.
  repeat first [lia | done | constructor | by rewrite ?elem_of_cons, ?elem_of_nil; naive_solver].
Qed.
Lemma gos_roundtrip_witness :
  gos_pack true false player player_1 = Def (pack_bytes true player player_1) ∧
  gos_unpack true player ((pack_bytes true player player_1 ++ [8; 9]) ++ [0])
    (Z.of_nat (length (pack_bytes true player player_1 ++ [8; 9]))) = Def player_1.
Proof.
  apply gos_roundtrip; [done|apply player_1_has_type|by repeat constructor|done|done|].
  vm_compute. reflexivity.
Defined.
