(* ===== verification/GameCodec.v ===== *)
(** * The messages of game servers on the wire ([network/gameserver/protocol.hpp],
      [msg_pack.hpp])

    The structs of [protocol.hpp] as types of the Gos serializer, and the codec
    of the game servers built from it: an instance of the interface [Codec] that
    the server manager and the game server are proved against.  A received body
    lies in a buffer that goes on behind it ([slack]). *)
From stdpp Require Import base option list numbers gmap strings.
From S2P Require Import Prelude MemoryStream RawMsg Timer Gos GameServer GameClient.
Local Open Scope Z_scope.

(** ** Definitions *)
(** *** Strings *)
Definition char_val (a : Ascii.ascii) : Z := Z.of_N (Ascii.N_of_ascii a).
Definition char_of (z : Z) : Ascii.ascii := Ascii.ascii_of_N (Z.to_N z).
Definition bytes_of (s : string) : list Z := map char_val (String.list_ascii_of_string s).
Definition string_of (bs : list Z) : string := String.string_of_list_ascii (map char_of bs).

(** *** The structs *)
Definition uid_ty : ty := G_enum S_int.
Definition BroadcastInfo_ty : ty := G_struct [G_num S_uint; G_vector uid_ty].
Definition ServerInfo_ty : ty := G_struct [uid_ty; G_string; G_num S_ushort; G_num S_int].
Definition CSRegisterServer_ty : ty := G_struct [uid_ty; G_string; G_num S_ushort].
Definition SCRegisterServer_ty : ty := G_struct [G_num S_ushort].
Definition CSGetServerInfo_ty : ty := G_struct [G_vector uid_ty].
Definition SCGetServerInfo_ty : ty := G_struct [G_map uid_ty ServerInfo_ty].
(** An enumeration without negative values and without a type is [unsigned]. *)
Definition SCServerEvent_ty : ty := G_struct [G_enum S_uint; ServerInfo_ty].

Definition info_val (i : ServerInfo) : val :=
  V_list [V_num (si_unique_id i); V_str (bytes_of (si_ip i)); V_num (si_port i); V_num (si_connect_interval i)].
Definition event_num (e : EServerEvent) : Z :=
  match e with EServerConnected => 0 | EServerDisconnected => 1 end.
Definition info_of (v : val) : option ServerInfo :=
  match v with
  | V_list [V_num u; V_str ip; V_num p; V_num n] => Some (ServerInfo_ u (string_of ip) p n)
  | _ => None
  end.
Definition num_of (v : val) : option Z := match v with V_num z => Some z | _ => None end.

Definition payload_ty (p : payload) : ty :=
  match p with
  | P_simple_register _ => uid_ty
  | P_register _ => CSRegisterServer_ty
  | P_registered _ => SCRegisterServer_ty
  | P_get_info _ => CSGetServerInfo_ty
  | P_info _ => SCGetServerInfo_ty
  | P_event _ => SCServerEvent_ty
  | P_broadcast _ _ _ => BroadcastInfo_ty
  end.
Definition payload_val (p : payload) : val :=
  match p with
  | P_simple_register uid => V_num uid
  | P_register d => V_list [V_num (rd_unique_id d); V_str (bytes_of (rd_ip d)); V_num (rd_port d)]
  | P_registered uid => V_list [V_num uid]
  | P_get_info l => V_list [V_list (V_num <$> l)]
  | P_info l => V_list [V_map ((λ x, (V_num x.1, info_val x.2)) <$> l)]
  | P_event e => V_list [V_num (event_num (se_event e)); info_val (se_info e)]
  | P_broadcast msg_id l _ => V_list [V_num msg_id; V_list (V_num <$> l)]
  end.

Section codec.
Context `{Allocator} (is_big_endian : bool).
(** *** [pack_msg] of one struct, and of an id, a list and a packed message *)
Definition pack_msg_struct (t : ty) (v : val) : ub (list Z) := gos_pack is_big_endian false t v.
Definition pack_msg_args (msg_id : Z) (l : list Z) (data : list Z) : ub (list Z) :=
  st ← gos_pack_to is_big_endian memory_stream_default (G_num S_uint) (V_num msg_id);
  st ← gos_pack_to is_big_endian st (G_vector uid_ty) (V_list (V_num <$> l));
  st ← write_binary st data;
  buf ← deref (ms_data st);
  read_at buf 0 (length_ st).
Definition pack_payload (p : payload) : ub (list Z) :=
  match p with
  | P_broadcast msg_id l data => pack_msg_args msg_id l data
  | _ => pack_msg_struct (payload_ty p) (payload_val p)
  end.
(** *** [unpack_msg] *)
Definition unpack_msg (slack : list Z) (t : ty) (bs : list Z) : ub val :=
  gos_unpack is_big_endian t (bs ++ slack) (Z.of_nat (length bs)).

(** The structs of what was read; what is not of the type does not occur. *)
Definition read_as {A} (a0 : A) (f : val → option A) (r : ub val) : A :=
  match r with Def v => default a0 (f v) | Undef => a0 end.
Definition register_of (v : val) : option register_data :=
  match v with V_list [V_num u; V_str ip; V_num p] => Some (RegisterData u (string_of ip) p) | _ => None end.
Definition get_info_of (v : val) : option (list Z) :=
  match v with V_list [V_list l] => mapM num_of l | _ => None end.
Definition infos_of (v : val) : option (list (Z * ServerInfo)) :=
  match v with
  | V_list [V_map l] => mapM (λ x, u ← num_of x.1; i ← info_of x.2; Some (u, i)) l
  | _ => None
  end.
Definition event_of (v : val) : option server_event :=
  match v with
  | V_list [V_num e; i] =>
      i ← info_of i; Some (ServerEvent (if e =? 0 then EServerConnected else EServerDisconnected) i)
  | _ => None
  end.
Definition broadcast_of (v : val) : option (Z * list Z) :=
  match v with V_list [V_num m; V_list l] => l ← mapM num_of l; Some (m, l) | _ => None end.
End codec.

(** ** Lemmas *)
(** *** Strings *)
Lemma char_of_val a : char_of (char_val a) = a.
Proof. unfold char_of, char_val. by rewrite N2Z.id, Ascii.ascii_N_embedding. Qed.
Lemma string_of_bytes s : string_of (bytes_of s) = s.
Proof.
  unfold string_of, bytes_of. rewrite map_map, (map_ext _ (λ a, a)) by apply char_of_val.
  by rewrite map_id, String.string_of_list_ascii_of_string.
Qed.
(** *** Values read as what they were written from *)
Lemma info_of_val i : info_of (info_val i) = Some i.
Proof. destruct i as [u ip p n]. simpl. by rewrite string_of_bytes. Qed.
Lemma mapM_num_of l : mapM num_of (V_num <$> l) = Some l.
Proof. induction l as [|z l IH]; [done|]. rewrite fmap_cons. cbn [mapM num_of]. by rewrite IH. Qed.
Lemma infos_of_val l :
  mapM (λ x, u ← num_of x.1; i ← info_of x.2; Some (u, i)) ((λ x, (V_num x.1, info_val x.2)) <$> l) =
  Some l.
Proof.
  induction l as [|[u i] l IH]; cbn [fmap list_fmap mapM fst snd]; [done|].
  rewrite info_of_val, IH. done.
Qed.
Lemma payload_survives p : survives true (payload_ty p) = true.
Proof. by destruct p. Qed.

(** ** The codec of the game servers *)
Section instance.
Context `{Allocator} (be : bool) (slack : list Z).
Context (Hslack : slack ≠ []).

(** The payload has its type, and the message does not overflow [int] sizes. *)
Definition payload_fits (p : payload) : Prop :=
  has_type (payload_ty p) (payload_val p) ∧
  Z.of_nat (length (pack_bytes be (payload_ty p) (payload_val p)) + length slack) * 2 < max_stream ∧
  match p with
  | P_broadcast _ _ d => bytes_ok d ∧
      Z.of_nat (length (pack_bytes be (payload_ty p) (payload_val p)) + length d + length slack) * 2 <
      max_stream
  | _ => True
  end.
Definition payload_rest (p : payload) : list Z := match p with P_broadcast _ _ d => d | _ => [] end.
Lemma writes_binary d : bytes_ok d → Gos.writes (λ st, write_binary st d) d.
Proof.
  intros Hd st q Hr Hown Hbig. unfold write_binary, max_stream in *.
  assert (0 ≤ ms_wr_pos st) by (destruct Hr as (?&?&?&?&?&?); lia).
  rewrite i32_in by lia. simpl.
  destruct (check_space_repr st q (Z.of_nat (length d))) as (st1&->&Hr1&Hown1&_&Hwr1&Hfit1);
    [done..|lia|unfold max_stream; lia|]. simpl.
  destruct (put_repr st1 q d Hr1 Hd) as (st2&->&Hr2&Hal2&_&_&Hwr2); [lia|].
  exists st2. split_and!; [done|unfold owned in *; congruence|done|lia].
Qed.
(** A fresh stream that was written to holds what was written. *)
Lemma packed_stream f bs :
  Gos.writes f bs → Z.of_nat (length bs) * 2 < max_stream →
  (st ← f memory_stream_default; buf ← deref (ms_data st); read_at buf 0 (length_ st)) = Def bs ∧
  bytes_ok bs.
Proof.
  intros Hf Hlen. destruct (memory_stream_sized_repr default_data_size ltac:(done)) as [Hr Hown].
  destruct (Hf _ _ Hr Hown) as (st&Heq&_&(pre&tail&Hd&Hrd&Hwr&_&_&Hok)&Hw); [simpl; lia|].
  unfold memory_stream_default. rewrite Heq. simpl in *.
  destruct pre as [|? pre]; [|simpl in Hwr; lia]. simpl in *. rewrite Hd. simpl.
  split; [|done]. replace (length_ st) with (Z.of_nat (length bs)); [apply read_at_prefix|].
  unfold length_. zcase; lia.
Qed.
Lemma pack_payload_spec p :
  payload_fits p →
  pack_payload be p = Def (pack_bytes be (payload_ty p) (payload_val p) ++ payload_rest p) ∧
  bytes_ok (pack_bytes be (payload_ty p) (payload_val p) ++ payload_rest p).
Proof.
  intros (Hty&Hlen&Hd).
  assert (payload_rest p = [] → pack_payload be p = pack_msg_struct be (payload_ty p) (payload_val p) →
    pack_payload be p = Def (pack_bytes be (payload_ty p) (payload_val p) ++ payload_rest p) ∧
    bytes_ok (pack_bytes be (payload_ty p) (payload_val p) ++ payload_rest p)) as Hstruct.
  { intros -> ->. rewrite app_nil_r. apply gos_pack_spec; [done| |lia]. by destruct p. }
  destruct p as [uid|d|uid|l|l|e|m l d]; try by apply Hstruct.
  destruct Hd as [Hd Hbig]. simpl payload_rest. destruct Hty as [Hm [Hl _]].
  assert (∀ st, (st ← WriteObject be true (G_num S_uint) (V_num m) st;
      st ← WriteObject be true (G_vector uid_ty) (V_list (V_num <$> l)) st; st ← write_binary st d;
      buf ← deref (ms_data st); read_at buf 0 (length_ st)) =
    (st ← (st ← WriteObject be true (G_num S_uint) (V_num m) st;
      st ← WriteObject be true (G_vector uid_ty) (V_list (V_num <$> l)) st; write_binary st d);
      buf ← deref (ms_data st); read_at buf 0 (length_ st))) as Hassoc.
  { intros st. by destruct (WriteObject be true (G_num S_uint) (V_num m) st) as [st1|]; [|done];
      cbn [mbind ub_bind]; destruct (WriteObject be true (G_vector uid_ty) _ st1). }
  unfold pack_payload, pack_msg_args, gos_pack_to. rewrite Hassoc.
  apply (packed_stream (λ st, st ← WriteObject be true (G_num S_uint) (V_num m) st;
    st ← WriteObject be true (G_vector uid_ty) (V_list (V_num <$> l)) st; write_binary st d)).
  - simpl payload_ty. simpl payload_val. unfold pack_bytes. cbn [enc enc_members map BroadcastInfo_ty].
    rewrite app_nil_r, <-app_assoc.
    apply (writes_bind (WriteObject be true (G_num S_uint) (V_num m)) (λ st,
      st ← WriteObject be true (G_vector uid_ty) (V_list (V_num <$> l)) st; write_binary st d)
      (enc be true (G_num S_uint) (V_num m))); [by apply WriteObject_writes|].
    apply (writes_bind (WriteObject be true (G_vector uid_ty) (V_list (V_num <$> l))) (λ st, write_binary st d)
      (enc be true (G_vector uid_ty) (V_list (V_num <$> l)))); [by apply WriteObject_writes|].
    by apply writes_binary.
  - rewrite length_app. lia.
Qed.
Lemma unpack_packed p bs :
  payload_fits p → pack_payload be p = Def bs →
  unpack_msg be slack (payload_ty p) bs = Def (payload_val p).
Proof.
  intros Hp Heq. destruct (pack_payload_spec p Hp) as [Hpack Hok]. rewrite Hpack in Heq. simplify_eq.
  destruct Hp as (Hty&Hlen&Hd). unfold unpack_msg. apply gos_unpack_spec; try done.
  - apply payload_survives.
  - rewrite !length_app. unfold max_stream in *. destruct p; simpl length in *; lia.
Qed.
Definition packed (p : payload) : list Z :=
  match pack_payload be p with Def bs => bs | Undef => [] end.
Lemma unpack_msg_packed p : payload_fits p → unpack_msg be slack (payload_ty p) (packed p) = Def (payload_val p).
Proof.
  intros Hp. apply unpack_packed; [done|]. unfold packed. by rewrite (proj1 (pack_payload_spec p Hp)).
Qed.
Lemma unpack_as {A} t p (a0 a : A) f :
  payload_ty p = t → payload_fits p → f (payload_val p) = Some a →
  read_as a0 f (unpack_msg be slack t (packed p)) = a.
Proof. intros <- Hp Hf. rewrite unpack_msg_packed by done. simpl. by rewrite Hf. Qed.
(** The codec of the game servers; the laws of [Codec] hold of what fits. *)
Definition gos_codec : Codec.
Proof.
  refine {|
    packable := payload_fits;
    pack := packed;
    unpack_simple_register bs := read_as 0 num_of (unpack_msg be slack uid_ty bs);
    unpack_register bs :=
      read_as (RegisterData 0 "" 0) register_of (unpack_msg be slack CSRegisterServer_ty bs);
    unpack_get_info bs := read_as [] get_info_of (unpack_msg be slack CSGetServerInfo_ty bs);
    unpack_info bs := read_as [] infos_of (unpack_msg be slack SCGetServerInfo_ty bs);
    unpack_event bs :=
      read_as (ServerEvent EServerConnected (info_of_id 0)) event_of (unpack_msg be slack SCServerEvent_ty bs);
    unpack_broadcast bs := read_as (0, []) broadcast_of (unpack_msg be slack BroadcastInfo_ty bs)
  |}.
  - intros uid Hp. by apply (unpack_as _ (P_simple_register uid)).
  - intros [u ip p] Hp. apply (unpack_as _ (P_register _)); [done..|]. simpl. by rewrite string_of_bytes.
  - intros l Hp. apply (unpack_as _ (P_get_info l)); [done..|]. apply mapM_num_of.
  - intros l Hp. apply (unpack_as _ (P_info l)); [done..|]. apply infos_of_val.
  - intros [e i] Hp. apply (unpack_as _ (P_event _)); [done..|].
    cbn [payload_val event_of se_info se_event]. rewrite info_of_val. by destruct e.
  - intros m l d Hp. apply (unpack_as _ (P_broadcast m l d)); [done..|].
    cbn [payload_val broadcast_of]. by rewrite mapM_num_of.
Defined.
End instance.

Lemma reg_run_snoc `{Codec} ls l R0 R :
  reg_run ls R0 = Some R → reg_run (ls ++ [l]) R0 = reg_step l R.
Proof.
  revert R0. induction ls as [|l' ls IH]; intros R0; simpl.
  - intros [= ->]. by destruct (reg_step l R).
  - destruct (reg_step l' R0) as [R1|]; simpl; [apply IH|done].
Qed.

Section fits.
Context `{Allocator} (be : bool) (slack : list Z).
Context (Hslack : Z.of_nat (length slack) < 2 ^ 20).
Lemma enc_text_length s : length (enc_text s) = (2 + length s)%nat.
Proof. unfold enc_text, length_size. by rewrite length_app. Qed.
Lemma fits_register d :
  scalar_range S_int (rd_unique_id d) → text_ok (bytes_of (rd_ip d)) → scalar_range S_ushort (rd_port d) →
  payload_fits be slack (P_register d).
Proof.
  intros Hu Hip Hp. destruct (Hip) as (_&_&Hlen). split; [exact (conj Hu (conj Hip (conj Hp I)))|split; [|done]].
  unfold pack_bytes, max_stream. cbn [payload_ty payload_val CSRegisterServer_ty enc enc_members map uid_ty].
  rewrite !length_app, enc_text_length. simpl. lia.
Qed.
Lemma fits_get_db : payload_fits be slack (P_get_info [db_server]).
Proof.
  split; [|split; [|done]].
  - split; [|done]. split; [simpl; lia|]. by repeat constructor.
  - unfold pack_bytes, max_stream. cbn [payload_ty payload_val CSGetServerInfo_ty enc enc_members map uid_ty].
    rewrite !length_app. simpl. lia.
Qed.
Lemma fits_info i :
  scalar_range S_int (si_unique_id i) → text_ok (bytes_of (si_ip i)) → scalar_range S_ushort (si_port i) →
  scalar_range S_int (si_connect_interval i) →
  payload_fits be slack (P_info [(db_server, i)]).
Proof.
  intros Hu Hip Hp Hn. destruct (Hip) as (_&_&Hlen). split; [|split; [|done]].
  - split; [|done]. split; [simpl; lia|]. split; [|by repeat constructor].
    constructor; [|constructor]. split; [done|]. exact (conj Hu (conj Hip (conj Hp (conj Hn I)))).
  - unfold pack_bytes, max_stream.
    cbn [payload_ty payload_val SCGetServerInfo_ty ServerInfo_ty enc enc_members map uid_ty info_val
      fmap list_fmap mbind list_bind fst snd].
    rewrite !length_app, enc_text_length. simpl. lia.
Qed.
End fits.

(** ** Properties *)
Section properties.
Context `{Allocator} (be : bool) (slack : list Z).
Context (Hslack : slack ≠ []) (Hsmall : Z.of_nat (length slack) < 2 ^ 20).
#[local] Instance wire : Codec := gos_codec be slack Hslack.
Context (cfg : Z → server_cfg) (protos : Z → bool).

(** C9: The address of the database server reaches the servers that depend on it, over
    the wire: when a database server has registered with the center, in bytes of the Gos
    serializer, the request of a client, in such bytes, is answered on the client's
    connection alone, and the client that reads the answer connects to the address the
    database server has given. *)
Theorem database_address_reaches_client ls uid hooks R cdb d db c now now' c1 c2 uid' hooks' s0 ls' cn cd :
  let registration := server_pack_msg CS_RegisterServer center_server (P_register d) db in
  let center := mgr_run (ls ++ [ML_receive cdb registration]) (mgr_new uid hooks) in
  let s := gs_run cfg protos ls' s0 in
  let request := server_pack_msg CS_GetServerInfo center_server (P_get_info [db_server]) (gs_base s) in
  reg_run ls registry_new = Some R → cdb ∈ live R → is_registered cdb R = false →
  servers_of db_server R = [] → c ∈ live R →
  rd_unique_id d = db_server → text_ok (bytes_of (rd_ip d)) → scalar_range S_ushort (rd_port d) →
  c1 ≠ c2 → gs_init cfg now c1 c2 (game_server_new uid' hooks') = Def s0 →
  depend_db_ s = true → db_conn_ptr_ s = Some cd → running cd (gs_base s) = false →
  protos SC_GetServerInfo = false →
  ∃ reply,
    writes (events (mgr_base (mgr_step (ML_receive c request) center))) =
      writes (events (mgr_base center)) ++ [(c, reply)] ∧
    last (events (gs_base (gs_step cfg protos (GL_receive now' cn [reply]) s))) =
      Some (Ev_async_connect cd (rd_ip d) (rd_port d)).
Proof.
  intros registration center s request HR Hcdb Hreg Hnone Hc Hdb Hip Hport Hne Hinit Hd Hcd Hrun Hpr.
  assert (scalar_range S_int (rd_unique_id d)) as Hu by by rewrite Hdb.
  assert (unpack_register (m_data registration) = d) as Hunpack.
  { apply unpack_register_pack. by apply fits_register. }
  set (i := ManageServerInfo cdb (ServerInfo_ db_server (rd_ip d) (rd_port d) 5000)).
  set (R' := Registry (live R) (registered R ++ [(db_server, i)])).
  assert (reg_run (ls ++ [ML_receive cdb registration]) registry_new = Some R') as HR'.
  { rewrite (reg_run_snoc _ _ _ R) by done. cbn [reg_step]. rewrite Hunpack, Hreg, Hdb.
    by rewrite bool_decide_true by done. }
  assert (head (servers_of db_server R') = Some i) as Hi.
  { unfold servers_of, R'. simpl registered. rewrite filter_app, fmap_app.
    unfold servers_of in Hnone. by rewrite Hnone. }
  apply (client_finds_database cfg protos _ uid hooks R' c i now now' c1 c2 uid' hooks' s0 ls' cn cd HR');
    try done.
  - by apply fits_get_db.
  - by apply fits_info.
Qed.
End properties.

(** ** Witnesses: a lobby and a center, over the wire *)
#[local] Existing Instance zero_allocator.
Lemma one_byte : [0] ≠ [].
Proof. done. Qed.
#[local] Instance sample_wire : Codec := gos_codec true [0] one_byte.
Definition lobby_base : game_server_base := GameServerBase 7 None ∅ 0 0 [].
Definition wire_run : list mgr_label :=
  [ML_connected 1; ML_connected 2;
   ML_receive 2 (server_pack_msg CS_RegisterServer 17 (P_register (RegisterData 7 "10.0.0.3" 91)) lobby_base)].
Definition wire_cluster : registry := default registry_new (reg_run wire_run registry_new).
Lemma wire_cluster_ok : reg_run wire_run registry_new = Some wire_cluster.
Proof. vm_compute. reflexivity. Qed.
Definition wire_lobby : game_server :=
  match gs_init sample_config 1000 1 2 (game_server_new 7 1) with
  | Def s => s
  | Undef => game_server_new 7 1
  end.
Lemma wire_lobby_init : gs_init sample_config 1000 1 2 (game_server_new 7 1) = Def wire_lobby.
Proof. vm_compute. reflexivity. Qed.
Definition wire_answered : list gs_label :=
  [GL_connected 1 false;
   GL_receive 2000 1 [server_pack_msg SC_RegisterServer 7 (P_registered 7) lobby_base]].
Definition db_data : register_data := RegisterData 4 "10.0.0.4" 3306.

(** The body of a registration: an [int], the length of the address in two bytes,
    the address, the port. *)
Example registration_bytes :
  m_data (server_pack_msg CS_RegisterServer 17 (P_register db_data) lobby_base) =
  [4; 0; 0; 0; 8; 0; 49; 48; 46; 48; 46; 48; 46; 52; 234; 12].
Proof. vm_compute. reflexivity. Qed.
Lemma database_address_reaches_client_witness :
  let center := mgr_run (wire_run ++
    [ML_receive 1 (server_pack_msg CS_RegisterServer center_server (P_register db_data) lobby_base)])
    (mgr_new 17 1) in
  let s := gs_run sample_config (λ _, false) wire_answered wire_lobby in
  ∃ reply,
    writes (events (mgr_base (mgr_step (ML_receive 2
      (server_pack_msg CS_GetServerInfo center_server (P_get_info [db_server]) (gs_base s))) center))) =
      writes (events (mgr_base center)) ++ [(2, reply)] ∧
    last (events (gs_base (gs_step sample_config (λ _, false) (GL_receive 2500 1 [reply]) s))) =
      Some (Ev_async_connect 2 "10.0.0.4" 3306).
Proof.
  intros center s.
  apply (database_address_reaches_client true [0] one_byte ltac:(simpl; lia) sample_config (λ _, false)
    wire_run 17 1 wire_cluster 1 db_data lobby_base 2 1000 2500 1 2 7 1 wire_lobby wire_answered 1 2
    wire_cluster_ok).
  - by apply (bool_decide_eq_true_1 _).
  - vm_compute. reflexivity.
  - vm_compute. reflexivity.
  - by apply (bool_decide_eq_true_1 _).
  - reflexivity.
  - split; [by repeat constructor|]. split; [|vm_compute; reflexivity].
    apply (bool_decide_eq_true_1 _). vm_compute. reflexivity.
  - split; [done|vm_compute; reflexivity].
  - lia.
  - exact wire_lobby_init.
  - vm_compute. reflexivity.
  - vm_compute. reflexivity.
  - vm_compute. reflexivity.
  - reflexivity.
Defined.
