(* ===== verification/Json.v ===== *)
(** * JSON ([network/serialize/json_adapter.hpp], [detail/json_util.hpp],
      [serializer.hpp], [deserializer.hpp], [network/codec/codec_json.hpp])

    The same serializer as in [Gos], over the JSON adapters: a value becomes the
    events a JSON writer is given, and is read back from the document parsed.
    The values are those of [Gos]; the types name the members of structs.  The
    flag of the serializer (its tag types) says here whether a map's or pair's
    keys are written as texts of their own type or have to be strings.
    rapidjson's writer with its buffer and its parser are parameters, and so are
    the texts [fmt] gives numbers and [boost::lexical_cast].  Floating point
    numbers, date-times and structs whose members have initializers are left
    out. *)
From Stdlib Require Import DecimalString DecimalZ DecimalPos.
From stdpp Require Import countable strings sets base option numbers sorting list.
From S2P Require Import Prelude Gos EnumMeta.
Local Open Scope Z_scope.

(** ** Definitions *)
(** *** Types *)
Inductive num := N_i8 | N_u8 | N_i16 | N_u16 | N_i32 | N_u32 | N_i64 | N_u64.
Definition num_bits (s : num) : Z :=
  match s with N_i8 | N_u8 => 8 | N_i16 | N_u16 => 16 | N_i32 | N_u32 => 32 | N_i64 | N_u64 => 64 end.
Definition num_signed (s : num) : bool :=
  match s with N_i8 | N_i16 | N_i32 | N_i64 => true | _ => false end.
Definition num_range (s : num) (z : Z) : Prop :=
  if num_signed s then - 2 ^ (num_bits s - 1) ≤ z < 2 ^ (num_bits s - 1) else 0 ≤ z < 2 ^ num_bits s.
#[global] Instance num_range_dec s z : Decision (num_range s z).
Proof. unfold num_range. destruct (num_signed s); apply _. Defined.
Definition num_cast (s : num) (z : Z) : Z :=
  if num_signed s then to_signed (num_bits s) z else z `mod` 2 ^ num_bits s.

Notation text := (list Z) (only parsing).
Inductive jty :=
| J_num (s : num)
| J_bool
| J_enum (tid : Z) (under : num)
| J_string
| J_chars (n : nat)                   (* [char[n]] *)
| J_vector (t : jty)
| J_set (t : jty)
| J_map (k v : jty)
| J_pair (k v : jty)
| J_optional (t : jty)
| J_array (n : nat) (t : jty)
| J_struct (fs : list (text * jty))
| J_tuple (ts : list jty).
(** [T{}] *)
Fixpoint json_default (t : jty) : val :=
  match t with
  | J_num _ | J_bool | J_enum _ _ => V_num 0
  | J_string | J_chars _ => V_str []
  | J_vector _ | J_set _ => V_list []
  | J_map _ _ => V_map []
  | J_pair k v => V_pair (json_default k) (json_default v)
  | J_optional _ => V_none
  | J_array n t => V_list (replicate n (json_default t))
  | J_struct fs => V_list (map (λ f, json_default f.2) fs)
  | J_tuple ts => V_list (map json_default ts)
  end.

(** *** The writer's events and the documents *)
Inductive event :=
| E_start_object | E_end_object | E_start_array | E_end_array
| E_string (s : text)
| E_int (z : Z) | E_uint (z : Z) | E_int64 (z : Z) | E_uint64 (z : Z)
| E_bool (b : bool) | E_null.
(** What a [rapidjson::Value] says of itself: [JReal] is a number that no
    integer of 64 bits is. *)
Inductive json :=
| JNull
| JBool (b : bool)
| JNum (z : Z)
| JReal
| JStr (s : text)
| JArr (l : list json)
| JObj (ms : list (text * json)).

(** [val.c_str()], [val.GetString()]: the text up to its first NUL. *)
Fixpoint c_text (s : text) : text :=
  match s with
  | [] => []
  | c :: s => if c =? 0 then [] else c :: c_text s
  end.
Definition text_of (s : string) : text :=
  (λ a, Z.of_nat (Ascii.nat_of_ascii a)) <$> Stdlib.Strings.String.list_ascii_of_string s.
Definition string_of (s : text) : string :=
  Stdlib.Strings.String.string_of_list_ascii ((λ z, Ascii.ascii_of_nat (Z.to_nat z)) <$> s).

(** *** [json_util] *)
Definition write_number (s : num) (z : Z) : list event :=
  [match s with
   | N_i8 | N_u8 | N_i16 | N_u16 | N_i32 => E_int z
   | N_u32 => E_uint z
   | N_i64 => E_int64 z
   | N_u64 => E_uint64 z
   end].
Definition write_text (s : text) : list event := [E_string (c_text s)].
(** [IsInt], [IsUint], [IsInt64], [IsUint64] *)
Definition is_number (s : num) (z : Z) : Prop :=
  match s with
  | N_i8 | N_u8 | N_i16 | N_u16 | N_i32 => num_range N_i32 z
  | s => num_range s z
  end.
#[global] Instance is_number_dec s z : Decision (is_number s z).
Proof. destruct s; apply _. Defined.
Definition read_value (s : num) (t : val) (j : json) : val :=
  match j with
  | JNum z => if decide (is_number s z) then V_num (num_cast s z) else t
  | _ => t
  end.
Definition read_bool (t : val) (j : json) : val :=
  match j with JBool b => V_num (Z.b2z b) | _ => t end.
Definition read_string (t : text) (j : json) : text :=
  match j with JStr s => c_text s | _ => t end.

(** [t[f] = s] *)
Fixpoint map_assign (k v : val) (l : list (val * val)) : list (val * val) :=
  match l with
  | [] => [(k, v)]
  | (k', v') :: l' =>
      if key_ltb k k' then (k, v) :: l
      else if key_ltb k' k then (k', v') :: map_assign k v l' else (k', v) :: l'
  end.
(** [FindMember] *)
Fixpoint find_member (key : text) (ms : list (text * json)) : option json :=
  match ms with
  | [] => None
  | (k, j) :: ms => if bool_decide (k = key) then Some j else find_member key ms
  end.

(** A computation that may throw: [None] is an exception. *)
Definition exc_bind {A B} (m : ub (option A)) (f : A → ub (option B)) : ub (option B) :=
  r ← m;
  match r with Some a => f a | None => Def None end.
Notation "x ←? y ; z" := (exc_bind y (λ x, z))
  (at level 20, y at level 100, z at level 200, only parsing) : core_scope.
Local Open Scope core_scope.

Section json.
Context (format_number : num → Z → text) (lexical_cast : num → text → option Z)
  (lexical_bool : text → option bool) (enums : enum_factory) (enum_with_str_ : bool).

(** *** Keys *)
Definition enum_name (tid : Z) (z : Z) : option text := text_of <$> to_string tid (u32 z) false enums.
(** [WriteKey]: the key as [fmt] formats it. *)
Definition key_text (t : jty) (k : val) : text :=
  match t, k with
  | J_num s, V_num z => format_number s z
  | J_bool, V_num z => text_of (if z =? 0 then "false" else "true")
  | J_enum tid under, V_num z =>
      match if enum_with_str_ then enum_name tid z else None with
      | Some name => name
      | None => format_number under z
      end
  | J_string, V_str s => s
  | _, _ => []
  end.
Definition cast_bool (s : text) : bool :=
  negb (bool_decide (s = [] ∨ s = text_of "false" ∨ s = text_of "FALSE" ∨ s = text_of "0" ∨
    s = text_of "off" ∨ s = text_of "OFF")).
Definition cast_enum (tid : Z) (under : num) (s : text) : option val :=
  match to_enum tid (string_of s) true enums with
  | Some z => Some (V_num (num_cast under z))
  | None => V_num <$> lexical_cast under s
  end.
(** [cast<first_type>]; other types have no cast. *)
Definition cast_key (t : jty) (s : text) : option val :=
  match t with
  | J_num n => V_num <$> lexical_cast n s
  | J_bool => Some (V_num (Z.b2z (cast_bool s)))
  | J_enum tid under => cast_enum tid under s
  | J_string => Some (V_str s)
  | _ => None
  end.
(** [boost::lexical_cast<first_type>], of a pair's key. *)
Definition lexical_key (t : jty) (s : text) : option val :=
  match t with
  | J_num n => V_num <$> lexical_cast n s
  | J_bool => V_num ∘ Z.b2z <$> lexical_bool s
  | J_string => Some (V_str s)
  | _ => None
  end.

(** *** Writing *)
Fixpoint write_all {A} (f : A → list event) (l : list A) : list event :=
  match l with
  | [] => []
  | v :: l => f v ++ write_all f l
  end.
Fixpoint write_fields (fs : list (val → list event)) (l : list val) : list event :=
  match fs, l with
  | f :: fs, v :: l => f v ++ write_fields fs l
  | _, _ => []
  end.
(** [WriteObject]: a value that is not of the type does not occur. *)
Fixpoint WriteObject (begin_object : bool) (t : jty) (v : val) {struct t} : list event :=
  match t, v with
  | J_num s, V_num z => write_number s z
  | J_bool, V_num z => [E_bool (negb (z =? 0))]
  | J_enum tid under, V_num z =>
      match if enum_with_str_ then enum_name tid z else None with
      | Some name => write_text name
      | None => write_number under z
      end
  | J_string, V_str s | J_chars _, V_str s => write_text s
  | J_vector t, V_list l | J_set t, V_list l | J_array _ t, V_list l =>
      [E_start_array] ++ write_all (WriteObject false t) l ++ [E_end_array]
  | J_map k w, V_map l =>
      [E_start_object] ++ write_all (λ p, write_text (key_text k p.1) ++ WriteObject true w p.2) l ++ [E_end_object]
  | J_pair k w, V_pair a b =>
      let kv := write_text (key_text k a) ++ WriteObject true w b in
      if begin_object then [E_start_object] ++ kv ++ [E_end_object] else kv
  | J_optional t, V_none => [E_null]
  | J_optional t, V_some v => WriteObject begin_object t v
  | J_struct fs, V_list l =>
      [E_start_object] ++ write_fields (map (λ f v, write_text f.1 ++ WriteObject true f.2 v) fs) l ++ [E_end_object]
  | J_tuple ts, V_list l =>
      [E_start_array] ++ write_fields (map (WriteObject begin_object) ts) l ++ [E_end_array]
  | _, _ => []
  end.

(** *** Reading: [t] is what the object is before *)
Fixpoint read_array {A} (f : json → ub (option A)) (insert : A → list val → list val) (l : list json) (t : list val)
    : ub (option (list val)) :=
  match l with
  | [] => Def (Some t)
  | j :: l => el ←? f j; read_array f insert l (insert el t)
  end.
Fixpoint read_map (f : text * json → ub (option (val * val))) (l : list (text * json)) (t : list (val * val))
    : ub (option (list (val * val))) :=
  match l with
  | [] => Def (Some t)
  | m :: l => p ←? f m; read_map f l (map_assign p.1 p.2 t)
  end.
Fixpoint read_fixed (f : val → json → ub (option val)) (t : list val) (l : list json) : ub (option (list val)) :=
  match t, l with
  | v :: t, j :: l => v ←? f v j; t ←? read_fixed f t l; Def (Some (v :: t))
  | t, _ => Def (Some t)
  end.
(** Members by name: those the document lacks stay as they are. *)
Fixpoint read_members (fs : list (text * (val → json → ub (option val)))) (t : list val) (ms : list (text * json))
    : ub (option (list val)) :=
  match fs, t with
  | (name, f) :: fs, v :: t =>
      v ←? match find_member name ms with Some j => f v j | None => Def (Some v) end;
      t ←? read_members fs t ms;
      Def (Some (v :: t))
  | _, _ => Def (Some [])
  end.
(** Elements of a tuple by position, as far as the array goes. *)
Fixpoint read_tuple (fs : list (val → json → ub (option val))) (t : list val) (l : list json) : ub (option (list val)) :=
  match fs, t, l with
  | f :: fs, v :: t, j :: l => v ←? f v j; t ←? read_tuple fs t l; Def (Some (v :: t))
  | _, t, _ => Def (Some t)
  end.
(** [ReadTuple] without the flag: every element from the same document. *)
Fixpoint read_same (fs : list (val → json → ub (option val))) (t : list val) (j : json) : ub (option (list val)) :=
  match fs, t with
  | f :: fs, v :: t => v ←? f v j; t ←? read_same fs t j; Def (Some (v :: t))
  | _, _ => Def (Some t)
  end.
(** [ReadObject]: asking a document for elements or members it does not have by
    its kind is undefined. *)
Fixpoint ReadObject (begin_object : bool) (t : jty) (v : val) (j : json) {struct t} : ub (option val) :=
  match t, v with
  | J_num s, _ => Def (Some (read_value s v j))
  | J_bool, _ => Def (Some (read_bool v j))
  | J_enum tid under, _ =>
      if enum_with_str_ then Def (cast_enum tid under (read_string [] j))
      else Def (Some (read_value under v j))
  | J_string, V_str s => Def (Some (V_str (read_string s j)))
  | J_chars n, _ => Def (Some (V_str (take (n - 1) (read_string [] j))))
  | J_vector t, V_list c =>
      match j with
      | JArr l => c ←? read_array (ReadObject false t (json_default t)) push_back l c; Def (Some (V_list c))
      | _ => Undef
      end
  | J_set t, V_list c =>
      match j with
      | JArr l => c ←? read_array (ReadObject false t (json_default t)) set_insert l c; Def (Some (V_list c))
      | _ => Undef
      end
  | J_array n t, V_list c =>
      match j with
      | JArr l => c ←? read_fixed (ReadObject false t) c l; Def (Some (V_list c))
      | _ => Undef
      end
  | J_map k w, V_map c =>
      match j with
      | JObj ms =>
          c ←? read_map (λ m,
            f ←? Def (cast_key k (c_text m.1));
            s ←? ReadObject begin_object w (json_default w) m.2;
            Def (Some (f, s))) ms c;
          Def (Some (V_map c))
      | _ => Undef
      end
  | J_pair k w, V_pair a b =>
      match begin_object, j with
      | true, JObj [(name, j)] =>
          a ←? Def (lexical_key k (c_text name));
          b ←? ReadObject true w b j;
          Def (Some (V_pair a b))
      | true, JObj _ => Def None
      | _, _ => Undef
      end
  | J_optional t, _ =>
      match j with
      | JNull => Def (Some v)
      | _ => r ←? ReadObject true t (json_default t) j; Def (Some (V_some r))
      end
  | J_struct fs, V_list c =>
      match j with
      | JObj ms => c ←? read_members (map (λ f, (f.1, ReadObject true f.2)) fs) c ms; Def (Some (V_list c))
      | _ => Undef
      end
  | J_tuple ts, V_list c =>
      match ts, begin_object, j with
      | [], _, _ => Def (Some v)
      | _, true, JArr l => c ←? read_tuple (map (ReadObject true) ts) c l; Def (Some (V_list c))
      | _, false, JObj [] => Def (Some v)
      | _, false, JObj ms => c ←? read_same (map (ReadObject false) ts) c j; Def (Some (V_list c))
      | _, _, _ => Undef
      end
  | _, _ => Undef
  end.

(** *** The codec *)
Context (json_text : list event → text) (json_parse : text → option json).
(** [Serialize]: [begin_serialize] ignores the key. *)
Definition Serialize (t : jty) (v : val) (key : option text) : text := json_text (WriteObject true t v).
(** [get_root] *)
Definition get_root (doc : json) (key : option text) (has_root : bool) : ub (option json) :=
  if negb has_root then Def (Some doc)
  else match key, doc with
       | None, JObj ((_, j) :: _) => Def (Some j)
       | Some k, JObj ms => Def (find_member k ms)
       | _, _ => Undef
       end.
Definition DeSerialize (t : jty) (v : val) (doc : json) (key : option text) (has_root : bool) : ub (option val) :=
  j ←? get_root doc key has_root;
  ReadObject true t v j.
(** An element of [GetTuple]: an object at hand ([OtherTuple] has its type), or
    one to read, from the next element of the array, if there is one.  Objects at
    hand would also take the places of their types in tuples inside the
    arguments; such arguments are left out. *)
Fixpoint make (ts : list (jty + val)) (index : nat) (j : json) : ub (option (list val)) :=
  match ts with
  | [] => Def (Some [])
  | inr v :: ts => vs ←? make ts index j; Def (Some (v :: vs))
  | inl t :: ts =>
      match j with
      | JArr l =>
          match l !! index with
          | None => vs ←? make ts index j; Def (Some (json_default t :: vs))
          | Some e =>
              v ←? ReadObject true t (json_default t) e;
              vs ←? make ts (S index) j;
              Def (Some (v :: vs))
          end
      | _ => Undef
      end
  end.
Definition GetTuple (ts : list (jty + val)) (doc : json) : ub (option (list val)) :=
  match ts with [] => Def (Some []) | _ => make ts 0 doc end.
Definition json_pack (t : jty) (v : val) : text := Serialize t v None.
Definition json_pack_args (ts : list jty) (vs : list val) : text := json_pack (J_tuple ts) (V_list vs).
(** An exception becomes [net_exception(codec_fail)]. *)
Definition json_unpack (t : jty) (data : text) : ub (option val) :=
  match json_parse data with
  | None => Def None
  | Some doc => DeSerialize t (json_default t) doc None false
  end.
Definition json_unpack_with (ts : list (jty + val)) (data : text) : ub (option (list val)) :=
  match json_parse data with
  | None => Def None
  | Some doc => GetTuple ts doc
  end.
End json.

(** ** The document of a value *)
Definition text_ok (s : text) : Prop := Forall (λ c, 0 < c < 256) s.
Definition scalar_event (e : event) (j : json) : Prop :=
  match e, j with
  | E_null, JNull => True
  | E_bool b, JBool b' => b = b'
  | E_string s, JStr s' => s = s' ∧ text_ok s
  | E_int z, JNum z' => z = z' ∧ num_range N_i32 z
  | E_uint z, JNum z' => z = z' ∧ num_range N_u32 z
  | E_int64 z, JNum z' => z = z' ∧ num_range N_i64 z
  | E_uint64 z, JNum z' => z = z' ∧ num_range N_u64 z
  | _, _ => False
  end.
(** The events that write a document. *)
Inductive denotes : list event → json → Prop :=
| denotes_scalar e j : scalar_event e j → denotes [e] j
| denotes_array es js : denotes_all es js → denotes ([E_start_array] ++ es ++ [E_end_array]) (JArr js)
| denotes_object es ms : denotes_members es ms → denotes ([E_start_object] ++ es ++ [E_end_object]) (JObj ms)
with denotes_all : list event → list json → Prop :=
| denotes_nil : denotes_all [] []
| denotes_cons e j es js : denotes e j → denotes_all es js → denotes_all (e ++ es) (j :: js)
with denotes_members : list event → list (text * json) → Prop :=
| members_nil : denotes_members [] []
| members_cons k e j es ms : text_ok k → denotes e j → denotes_members es ms →
    denotes_members ((E_string k :: e) ++ es) ((k, j) :: ms).

(** The types whose values can be written, and read back. *)
Definition num_key (s : num) : bool := negb (num_bits s =? 8).
Definition map_key (t : jty) : bool :=
  match t with J_num s => num_key s | J_bool | J_enum _ _ | J_string => true | _ => false end.
Definition pair_key (t : jty) : bool :=
  match t with J_num s => num_key s | J_string => true | _ => false end.
Definition set_key (t : jty) : bool :=
  match t with J_num _ | J_bool | J_enum _ _ | J_string => true | _ => false end.
Definition is_string (t : jty) : bool := match t with J_string => true | _ => false end.
Definition is_optional (t : jty) : bool := match t with J_optional _ => true | _ => false end.
Fixpoint writable (begin_object : bool) (t : jty) : bool :=
  match t with
  | J_num _ | J_bool | J_enum _ _ | J_string | J_chars _ => true
  | J_vector t | J_array _ t => writable false t
  | J_set t => set_key t
  | J_map k w => map_key k && (begin_object || is_string k) && writable true w
  | J_pair k w => pair_key k && begin_object && writable true w
  | J_optional t => writable begin_object t
  | J_struct fs => forallb id (map (λ f, writable true f.2) fs)
  | J_tuple ts => forallb id (map (writable begin_object) ts)
  end.
Fixpoint readable (begin_object : bool) (t : jty) : bool :=
  match t with
  | J_num _ | J_bool | J_enum _ _ | J_string | J_chars _ => true
  | J_vector t | J_array _ t => readable false t
  | J_set t => set_key t
  | J_map k w => map_key k && readable begin_object w
  | J_pair k w => pair_key k && begin_object && readable true w
  | J_optional t => negb (is_optional t) && readable true t
  | J_struct fs => bool_decide (NoDup (map fst fs)) && forallb id (map (λ f, readable true f.2) fs)
  | J_tuple ts => begin_object && forallb id (map (readable true) ts)
  end.

Section values.
Context (format_number : num → Z → text) (lexical_cast : num → text → option Z)
  (enums : enum_factory) (enum_with_str_ : bool).
Notation key_text := (key_text format_number enums enum_with_str_).
Notation cast_enum := (cast_enum lexical_cast enums).

(** Values of a type; an enumerator that is written by its name has one, and
    the name is read back ([EnumMeta.enum_roundtrip] says when). *)
Definition enum_ok (tid : Z) (under : num) (z : Z) : Prop :=
  num_range under z ∧
  (enum_with_str_ = true → ∃ n, enum_name enums tid z = Some n ∧ text_ok n ∧ cast_enum tid under n = Some (V_num z)).
Definition has_key (t : jty) (v : val) : Prop :=
  match t, v with
  | J_enum tid under, V_num z =>
      text_ok (key_text t v) ∧ cast_enum tid under (key_text t v) = Some v
  | J_num s, V_num z => num_range s z
  | J_bool, V_num z => z = 0 ∨ z = 1
  | J_string, V_str s => text_ok s
  | _, _ => False
  end.
Fixpoint has_jtype (t : jty) (v : val) : Prop :=
  match t, v with
  | J_num s, V_num z => num_range s z
  | J_bool, V_num z => z = 0 ∨ z = 1
  | J_enum tid under, V_num z => enum_ok tid under z
  | J_string, V_str s => text_ok s
  | J_chars n, V_str s => text_ok s ∧ (length s < n)%nat
  | J_vector t, V_list l => Forall (has_jtype t) l
  | J_set t, V_list l => Forall (has_jtype t) l ∧ StronglySorted key_lt l
  | J_map k w, V_map l =>
      Forall (λ p, has_key k p.1 ∧ has_jtype w p.2) l ∧ StronglySorted (λ p q, key_lt p.1 q.1) l
  | J_array n t, V_list l => length l = n ∧ Forall (has_jtype t) l
  | J_pair k w, V_pair a b => has_key k a ∧ has_jtype w b
  | J_optional t, V_none => True
  | J_optional t, V_some v => has_jtype t v
  | J_struct fs, V_list l => all2 (map (λ f v, text_ok f.1 ∧ has_jtype f.2 v) fs) l
  | J_tuple ts, V_list l => all2 (map has_jtype ts) l
  | _, _ => False
  end.

Fixpoint members_of (fs : list (val → text * json)) (l : list val) : list (text * json) :=
  match fs, l with
  | f :: fs, v :: l => f v :: members_of fs l
  | _, _ => []
  end.
Fixpoint elems_of (fs : list (val → json)) (l : list val) : list json :=
  match fs, l with
  | f :: fs, v :: l => f v :: elems_of fs l
  | _, _ => []
  end.
Fixpoint json_of (t : jty) (v : val) : json :=
  match t, v with
  | J_num _, V_num z => JNum z
  | J_bool, V_num z => JBool (negb (z =? 0))
  | J_enum tid _, V_num z =>
      match if enum_with_str_ then enum_name enums tid z else None with
      | Some name => JStr name
      | None => JNum z
      end
  | J_string, V_str s | J_chars _, V_str s => JStr s
  | J_vector t, V_list l | J_set t, V_list l | J_array _ t, V_list l => JArr (map (json_of t) l)
  | J_map k w, V_map l => JObj (map (λ p, (key_text k p.1, json_of w p.2)) l)
  | J_pair k w, V_pair a b => JObj [(key_text k a, json_of w b)]
  | J_optional t, V_some v => json_of t v
  | J_struct fs, V_list l => JObj (members_of (map (λ f v, (f.1, json_of f.2 v)) fs) l)
  | J_tuple ts, V_list l => JArr (elems_of (map json_of ts) l)
  | _, _ => JNull
  end.
End values.

(** ** The documents that are written *)
Lemma jty_induction (P : jty → Prop) :
  (∀ s, P (J_num s)) → P J_bool → (∀ i s, P (J_enum i s)) → P J_string → (∀ n, P (J_chars n)) →
  (∀ t, P t → P (J_vector t)) → (∀ t, P t → P (J_set t)) →
  (∀ k v, P k → P v → P (J_map k v)) → (∀ k v, P k → P v → P (J_pair k v)) →
  (∀ t, P t → P (J_optional t)) → (∀ n t, P t → P (J_array n t)) →
  (∀ fs, Forall (λ f, P f.2) fs → P (J_struct fs)) → (∀ ts, Forall P ts → P (J_tuple ts)) → ∀ t, P t.
Proof.
  intros H1 H2 H3 H4 H5 H6 H7 H8 H9 H10 H11 H12 H13.
  fix IH 1. intros [s| |i s| |n|t|t|k v|k v|t|n t|fs|ts];
    [apply H1|apply H2|apply H3|apply H4|apply H5|by apply H6|by apply H7|by apply H8|by apply H9|by apply H10|by apply H11|apply H12|apply H13].
  - induction fs as [|[name t] fs IHfs]; constructor; [apply IH|done].
  - induction ts as [|t ts IHts]; constructor; [apply IH|done].
Qed.
Lemma c_text_ok s : text_ok s → c_text s = s.
Proof.
  induction 1 as [|c s Hc _ IH]; simpl; [done|]. rewrite (proj2 (Z.eqb_neq _ _)) by lia. by rewrite IH.
Qed.
Lemma write_text_denotes s : text_ok s → denotes (write_text s) (JStr s).
Proof. intros Hs. unfold write_text. rewrite c_text_ok by done. by constructor. Qed.
Lemma write_number_denotes n z : num_range n z → denotes (write_number n z) (JNum z).
Proof.
  intros Hz. unfold write_number. destruct n; constructor; split; try done;
    unfold num_range in *; simpl in *; lia.
Qed.

Section writing.
Context (format_number : num → Z → text) (lexical_cast : num → text → option Z)
  (enums : enum_factory) (enum_with_str_ : bool).
Hypothesis format_ok : ∀ s z, num_key s = true → num_range s z →
  text_ok (format_number s z) ∧ lexical_cast s (format_number s z) = Some z.
Notation key_text := (key_text format_number enums enum_with_str_).
Notation has_key := (has_key format_number lexical_cast enums enum_with_str_).
Notation has_jtype := (has_jtype format_number lexical_cast enums enum_with_str_).
Notation json_of := (json_of format_number enums enum_with_str_).
Notation WriteObject := (WriteObject format_number enums enum_with_str_).

Lemma key_text_ok k v : map_key k = true → has_key k v → text_ok (key_text k v).
Proof.
  destruct k, v; simpl; try done; intros Hk Hv.
  - by apply format_ok.
  - destruct (z =? 0); repeat constructor; done.
  - by destruct Hv.
Qed.
Lemma write_all_denotes {A} (f : A → list event) (g : A → json) l :
  Forall (λ v, denotes (f v) (g v)) l → denotes_all (write_all f l) (map g l).
Proof. induction 1; simpl; by constructor. Qed.
Lemma write_members_denotes {A} (k : A → text) (f : A → list event) (g : A → json) l :
  Forall (λ p, text_ok (k p) ∧ denotes (f p) (g p)) l →
  denotes_members (write_all (λ p, write_text (k p) ++ f p) l) (map (λ p, (k p, g p)) l).
Proof.
  induction 1 as [|p l [Hk Hp] Hl IH]; simpl; [constructor|]. unfold write_text.
  rewrite c_text_ok by done. by apply members_cons.
Qed.
Lemma WriteObject_denotes t : ∀ bo v, writable bo t = true → has_jtype t v →
  denotes (WriteObject bo t v) (json_of t v).
Proof.
  induction t as [s| |i s| |n|t IH|t IH|k w _ IH|k w _ IH|t IH|n t IH|fs IH|ts IH] using jty_induction;
    intros bo v Hw Hv; destruct v; simpl in Hv; try done; simpl.
  - by apply write_number_denotes.
  - by constructor.
  - destruct Hv as [Hz Hn]. destruct enum_with_str_; [|by apply write_number_denotes].
    destruct Hn as (n&->&Hn&_); [done|]. by apply write_text_denotes.
  - by apply write_text_denotes.
  - by apply write_text_denotes, Hv.
  - constructor. apply write_all_denotes. eapply Forall_impl; [exact Hv|]. intros v. by apply IH.
  - constructor. apply write_all_denotes. eapply Forall_impl; [exact (proj1 Hv)|]. intros v.
    apply IH. by destruct t.
  - simpl in Hw. apply andb_true_iff in Hw as [[Hk _]%andb_true_iff Hw].
    apply (denotes_object _ (map (λ p, (key_text k p.1, json_of w p.2)) l)).
    apply (write_members_denotes (λ p, key_text k p.1) (λ p, WriteObject true w p.2) (λ p, json_of w p.2)).
    eapply Forall_impl; [exact (proj1 Hv)|]. intros p [Hp1 Hp2]. split; [by apply key_text_ok|by apply IH].
  - simpl in Hw. apply andb_true_iff in Hw as [[Hk ->]%andb_true_iff Hw]. destruct Hv as [Ha Hb].
    assert (text_ok (key_text k v1)) as Hok by (apply key_text_ok; [by destruct k|done]).
    unfold write_text. rewrite c_text_ok by done.
    pose proof (denotes_object _ _ (members_cons _ _ _ [] [] Hok (IH true v2 Hw Hb) members_nil)) as H.
    by rewrite app_nil_r in H.
  - by constructor.
  - by apply IH.
  - constructor. apply write_all_denotes. eapply Forall_impl; [exact (proj2 Hv)|]. intros v. by apply IH.
  - apply denotes_object. revert l Hv Hw. simpl.
    induction IH as [|[name t] fs Ht IH IHfs]; intros [|v l] Hv Hw; simpl in *; try done; [constructor|].
    destruct Hv as [[Hname Hv] Hl]. apply andb_true_iff in Hw as [Hw Hws].
    unfold write_text. rewrite c_text_ok by done.
    apply members_cons; [done|by apply Ht|by apply IHfs].
  - apply denotes_array. revert l Hv Hw. simpl.
    induction IH as [|t ts Ht IH IHts]; intros [|v l] Hv Hw; simpl in *; try done; [constructor|].
    destruct Hv as [Hv Hl]. apply andb_true_iff in Hw as [Hw Hws].
    constructor; [by apply Ht|by apply IHts].
Qed.
End writing.

(** ** The documents that are read *)
Lemma num_cast_id s z : num_range s z → num_cast s z = z.
Proof.
  unfold num_range, num_cast. intros Hz.
  assert (0 < num_bits s) as Hb by (by destruct s).
  destruct (num_signed s); [|by apply Z.mod_small].
  rewrite <-(to_signed_small (num_bits s) z) at 2 by done.
  unfold to_signed. rewrite Z.mod_mod; [done|]. destruct s; done.
Qed.
Lemma read_number_of s t z : num_range s z → read_value s t (JNum z) = V_num z.
Proof.
  intros Hz. simpl. rewrite decide_True by (destruct s; unfold is_number, num_range in *; simpl in *; lia).
  by rewrite num_cast_id.
Qed.
Lemma read_array_of {A B} (f : json → ub (option A)) (g : B → json) (h : B → A) insert (l : list B) t :
  (∀ v, v ∈ l → f (g v) = Def (Some (h v))) →
  read_array f insert (map g l) t = Def (Some (foldl (λ t v, insert (h v) t) t l)).
Proof.
  revert t. induction l as [|v l IH]; intros t Hf; simpl; [done|].
  rewrite Hf by set_solver. simpl. apply IH. set_solver.
Qed.
Lemma read_map_of (f : text * json → ub (option (val * val))) (g : val * val → text * json) (l : list (val * val)) t :
  (∀ p, p ∈ l → f (g p) = Def (Some p)) →
  read_map f (map g l) t = Def (Some (foldl (λ t p, map_assign p.1 p.2 t) t l)).
Proof.
  revert t. induction l as [|v l IH]; intros t Hf; simpl; [done|].
  rewrite Hf by set_solver. simpl. apply IH. set_solver.
Qed.
Lemma read_fixed_of (f : val → json → ub (option val)) (g : val → json) (d : val) (l : list val) :
  (∀ v, v ∈ l → f d (g v) = Def (Some v)) →
  read_fixed f (replicate (length l) d) (map g l) = Def (Some l).
Proof.
  induction l as [|v l IH]; intros Hf; simpl; [done|].
  rewrite Hf by set_solver. simpl. rewrite IH by set_solver. done.
Qed.
Lemma map_assign_last (p : val * val) l :
  Forall (λ q, key_lt q.1 p.1) l → map_assign p.1 p.2 l = l ++ [p].
Proof.
  destruct p as [k v]. induction 1 as [|[k' v'] l Hw _ IH]; simpl in *; [done|].
  by rewrite (key_ltb_asym _ _ Hw), Hw, IH.
Qed.
(** Members are found in the whole document: [pre] are those before. *)
Lemma find_member_app name pre ms : name ∉ pre.*1 → find_member name (pre ++ ms) = find_member name ms.
Proof.
  induction pre as [|[k j] pre IH]; simpl; [done|]. rewrite not_elem_of_cons. intros [Hk Hpre].
  rewrite bool_decide_eq_false_2 by congruence. by apply IH.
Qed.

Section reading.
Context (format_number : num → Z → text) (lexical_cast : num → text → option Z)
  (lexical_bool : text → option bool) (enums : enum_factory) (enum_with_str_ : bool).
Hypothesis format_ok : ∀ s z, num_key s = true → num_range s z →
  text_ok (format_number s z) ∧ lexical_cast s (format_number s z) = Some z.
Notation key_text := (key_text format_number enums enum_with_str_).
Notation has_key := (has_key format_number lexical_cast enums enum_with_str_).
Notation has_jtype := (has_jtype format_number lexical_cast enums enum_with_str_).
Notation json_of := (json_of format_number enums enum_with_str_).
Notation ReadObject := (ReadObject lexical_cast lexical_bool enums enum_with_str_).
Notation cast_key := (cast_key lexical_cast enums).
Notation lexical_key := (lexical_key lexical_cast lexical_bool).

Lemma cast_key_text k v : map_key k = true → has_key k v → cast_key k (c_text (key_text k v)) = Some v.
Proof.
  intros Hk Hv. rewrite c_text_ok by (by eapply key_text_ok).
  destruct k, v; simpl in *; try done.
  - by rewrite (proj2 (format_ok s z Hk Hv)).
  - by destruct Hv as [->| ->].
  - by destruct Hv.
Qed.
Lemma lexical_key_text k v : pair_key k = true → has_key k v → lexical_key k (c_text (key_text k v)) = Some v.
Proof.
  intros Hk Hv. rewrite c_text_ok by (eapply key_text_ok; [done| |done]; by destruct k).
  destruct k, v; simpl in *; try done. by rewrite (proj2 (format_ok s z Hk Hv)).
Qed.
(** Only optional values without one are null. *)
Lemma json_of_not_null t v : is_optional t = false → has_jtype t v → json_of t v ≠ JNull.
Proof.
  destruct t, v; simpl; try done. intros _ [_ Hn]. destruct enum_with_str_; [|done].
  by destruct Hn as (n&->&_).
Qed.
Let reads (t : jty) : Prop := ∀ bo v, readable bo t = true → has_jtype t v →
  ReadObject bo t (json_default t) (json_of t v) = Def (Some v).
Lemma read_members_of fs l pre :
  Forall (λ f, reads f.2) fs → NoDup (pre.*1 ++ map fst fs) →
  forallb id (map (λ f, readable true f.2) fs) = true →
  all2 (map (λ f v, text_ok f.1 ∧ has_jtype f.2 v) fs) l →
  read_members (map (λ f, (f.1, ReadObject true f.2)) fs) (map (λ f, json_default f.2) fs)
    (pre ++ members_of (map (λ f v, (f.1, json_of f.2 v)) fs) l) = Def (Some l).
Proof.
  intros IH. revert l pre. induction IH as [|[name t] fs Ht IH IHfs]; intros [|v l] pre Hnd Hr Hv; simpl in *; try done.
  destruct Hv as [[_ Hv] Hl]. apply andb_true_iff in Hr as [Hr Hrs].
  rewrite find_member_app.
  - simpl. rewrite bool_decide_eq_true_2 by done. rewrite Ht by done. simpl.
    specialize (IHfs l (pre ++ [(name, json_of t v)])). rewrite <-app_assoc in IHfs. simpl in IHfs.
    rewrite IHfs; [done| |done..]. by rewrite fmap_app, <-app_assoc.
  - apply NoDup_app in Hnd as (_&Hd&_). intros Hin. apply (Hd name Hin). by left.
Qed.
Lemma read_tuple_of ts l :
  Forall reads ts → forallb id (map (readable true) ts) = true → all2 (map has_jtype ts) l →
  read_tuple (map (ReadObject true) ts) (map json_default ts) (elems_of (map json_of ts) l) = Def (Some l).
Proof.
  intros IH. revert l. induction IH as [|t ts Ht IH IHts]; intros [|v l] Hr Hv; simpl in *; try done.
  destruct Hv as [Hv Hl]. apply andb_true_iff in Hr as [Hr Hrs].
  rewrite Ht by done. simpl. by rewrite IHts.
Qed.
Lemma ReadObject_json t : ∀ bo v, readable bo t = true → has_jtype t v →
  ReadObject bo t (json_default t) (json_of t v) = Def (Some v).
Proof.
  induction t as [s| |i s| |n|t IH|t IH|k w _ IH|k w _ IH|t IH|n t IH|fs IH|ts IH] using jty_induction;
    intros bo v Hr Hv; destruct v; simpl in Hv; try done; simpl.
  - rewrite decide_True by (destruct s; unfold is_number, num_range in *; simpl in *; lia).
    by rewrite num_cast_id.
  - by destruct Hv as [->| ->].
  - destruct Hv as [Hz Hn]. destruct enum_with_str_; [|f_equal; f_equal; by apply read_number_of].
    destruct Hn as (n&->&Hn&Hc); [done|]. simpl. rewrite c_text_ok by done. by f_equal.
  - by rewrite c_text_ok.
  - destruct Hv as [Hs Hl]. rewrite c_text_ok by done. by rewrite take_ge by lia.
  - rewrite (read_array_of _ _ id).
    + simpl. by rewrite (foldl_push_back l []).
    + intros v Hin. apply IH; [done|]. by eapply Forall_forall in Hv.
  - destruct Hv as [Hv Hs]. rewrite (read_array_of _ _ id).
    + simpl. rewrite (foldl_insert key_lt); auto using set_insert_last.
    + intros v Hin. apply IH; [by destruct t|]. by eapply Forall_forall in Hv.
  - simpl in Hr. apply andb_true_iff in Hr as [Hk Hr]. destruct Hv as [Hv Hs].
    rewrite read_map_of.
    + simpl. rewrite (foldl_insert (λ p q, key_lt p.1 q.1)); auto using map_assign_last.
    + intros [a b] Hin. eapply Forall_forall in Hv; [|exact Hin]. destruct Hv as [Ha Hb]. simpl in *.
      rewrite cast_key_text by done. simpl. by rewrite IH.
  - simpl in Hr. apply andb_true_iff in Hr as [[Hk ->]%andb_true_iff Hr]. destruct Hv as [Ha Hb].
    rewrite lexical_key_text by done. simpl. by rewrite IH.
  - simpl in Hr. apply andb_true_iff in Hr as [Ho Hr]. apply negb_true_iff in Ho.
    pose proof (json_of_not_null t v Ho Hv) as Hn. pose proof (IH true v Hr Hv) as Hj.
    destruct (json_of t v); [done|..]; by rewrite Hj.
  - destruct Hv as [<- Hv]. rewrite (read_fixed_of _ _ (json_default t)); [done|].
    intros v Hin. apply IH; [done|]. by eapply Forall_forall in Hv.
  - simpl in Hr. apply andb_true_iff in Hr as [Hnd%bool_decide_eq_true_1 Hr].
    pose proof (read_members_of fs l [] IH Hnd Hr Hv) as Hm. simpl in Hm. by rewrite Hm.
  - simpl in Hr. apply andb_true_iff in Hr as [-> Hr].
    pose proof (read_tuple_of ts l IH Hr Hv) as Ht. destruct ts; [by destruct l|]. by rewrite Ht.
Qed.
End reading.

(** ** Packing and unpacking *)
(** The arguments of a call: those in the message, and the objects at hand. *)
Definition slot_of (a : jty * val + val) : jty + val := match a with inl (t, _) => inl t | inr v => inr v end.
Definition value_of (a : jty * val + val) : val := match a with inl (_, v) => v | inr v => v end.
Definition sent (a : jty * val + val) : option (jty * val) := match a with inl p => Some p | inr _ => None end.

Section codec.
Context (format_number : num → Z → text) (lexical_cast : num → text → option Z)
  (lexical_bool : text → option bool) (enums : enum_factory) (enum_with_str_ : bool)
  (json_text : list event → text) (json_parse : text → option json).
(** [fmt] writes numbers so that [lexical_cast] reads them (but for those of one
    byte, which it takes for a character); parsing what a writer wrote gives the
    document written. *)
Hypothesis format_ok : ∀ s z, num_key s = true → num_range s z →
  text_ok (format_number s z) ∧ lexical_cast s (format_number s z) = Some z.
Hypothesis parse_text : ∀ es j, denotes es j → json_parse (json_text es) = Some j.
Notation has_jtype := (has_jtype format_number lexical_cast enums enum_with_str_).
Notation json_of := (json_of format_number enums enum_with_str_).
Notation json_pack := (json_pack format_number enums enum_with_str_ json_text).
Notation json_pack_args := (json_pack_args format_number enums enum_with_str_ json_text).
Notation json_unpack := (json_unpack lexical_cast lexical_bool enums enum_with_str_ json_parse).
Notation json_unpack_with := (json_unpack_with lexical_cast lexical_bool enums enum_with_str_ json_parse).

Lemma parse_packed t v : writable true t = true → has_jtype t v → json_parse (json_pack t v) = Some (json_of t v).
Proof. intros Hw Hv. apply parse_text. by eapply WriteObject_denotes. Qed.
Definition sendable (p : jty * val) : Prop :=
  writable true p.1 = true ∧ readable true p.1 = true ∧ has_jtype p.1 p.2.
Lemma make_of args pre : Forall sendable (omap sent args) →
  make lexical_cast lexical_bool enums enum_with_str_ (map slot_of args) (length pre)
    (JArr (pre ++ map (λ p, json_of p.1 p.2) (omap sent args))) = Def (Some (map value_of args)).
Proof.
  revert pre. induction args as [|[[t v]|v] args IH]; intros pre Hs; csimpl in *; [done|..].
  - apply Forall_cons in Hs as [(_&Hr&Hv) Hs].
    rewrite list_lookup_middle by done. simpl in Hr, Hv.
    rewrite (ReadObject_json format_number) by done. simpl.
    specialize (IH (pre ++ [json_of t v]) Hs). rewrite length_app, <-app_assoc in IH. csimpl in IH.
    rewrite Nat.add_1_r in IH. by rewrite IH.
  - by rewrite IH.
Qed.
Lemma sent_tuple ps : Forall sendable ps →
  writable true (J_tuple (map fst ps)) = true ∧ has_jtype (J_tuple (map fst ps)) (V_list (map snd ps)) ∧
  json_of (J_tuple (map fst ps)) (V_list (map snd ps)) = JArr (map (λ p, json_of p.1 p.2) ps).
Proof.
  simpl. induction 1 as [|[t v] ps (Hw&_&Hv) Hs (IHw&IHv&IHj)]; simpl in *; [done|].
  rewrite Hw. split_and!; [done|done|done|]. injection IHj as IHj. by rewrite IHj.
Qed.

(** C32: JSON gives back what it was given. A value that fits its type, packed and
    unpacked, is the value again; and the arguments of a call, packed as a tuple, are
    unpacked in order, with the objects at hand in their places between them. Given are
    that the parser reads the document the writer wrote and that lexical_cast reads the
    numbers of two bytes and more that fmt formats. The values are: integers in the
    range of their type, booleans; enumerations, which when they are written by name
    have a name that is read back; texts without a zero byte (the writer cuts a text at
    one), in a char[n] at most n - 1 long; vectors, and arrays of their length; sets of
    integers, booleans, enumerations or texts; maps whose keys are integers of two bytes
    or more, booleans, texts, or enumerators whose text is read back; pairs whose keys
    are integers of two bytes or more or texts; options of anything but options; structs
    whose members have distinct names, without a zero byte; tuples. Two restrictions
    hold inside vectors and arrays: an element, or what stands in an element behind
    options and tuples, is no pair and no map with keys that are not texts; and an
    element, or the value of a map that is an element, is no pair and no tuple. Much of
    what is left out does not come back: see the lemmas below. *)
Theorem json_roundtrip :
  (∀ t v, sendable (t, v) → json_unpack t (json_pack t v) = Def (Some v)) ∧
  (∀ args, Forall sendable (omap sent args) →
    json_unpack_with (map slot_of args)
      (json_pack_args (map fst (omap sent args)) (map snd (omap sent args))) =
    Def (Some (map value_of args))).
Proof.
  split.
  - intros t v (Hw&Hr&Hv). unfold json_unpack. rewrite parse_packed by done.
    unfold DeSerialize. simpl. by rewrite (ReadObject_json format_number).
  - intros args Hs. unfold json_unpack_with, json_pack_args.
    destruct (sent_tuple _ Hs) as (Hw&Hv&Hj).
    rewrite parse_packed by done. rewrite Hj.
    pose proof (make_of args [] Hs) as Hm. destruct args; [done|exact Hm].
Qed.
End codec.

(** ** A writer and a parser *)
(** The text of events is a list of their numbers here; what counts is that the
    parser gives what the writer wrote. *)
Definition event_code (e : event) : Z * list Z :=
  match e with
  | E_start_object => (0, []) | E_end_object => (1, []) | E_start_array => (2, []) | E_end_array => (3, [])
  | E_string s => (4, s)
  | E_int z => (5, [z]) | E_uint z => (6, [z]) | E_int64 z => (7, [z]) | E_uint64 z => (8, [z])
  | E_bool b => (9, [Z.b2z b]) | E_null => (10, [])
  end.
Definition code_event (c : Z * list Z) : event :=
  match c with
  | (0, _) => E_start_object | (1, _) => E_end_object | (2, _) => E_start_array | (3, _) => E_end_array
  | (4, s) => E_string s
  | (5, z :: _) => E_int z | (6, z :: _) => E_uint z | (7, z :: _) => E_int64 z | (8, z :: _) => E_uint64 z
  | (9, z :: _) => E_bool (z =? 1) | _ => E_null
  end.
Definition sample_text (es : list event) : text := (λ e, Z.pos (encode (event_code e))) <$> es.
Definition sample_events (t : text) : list event :=
  (λ z, match decode (Z.to_pos z) with Some c => code_event c | None => E_null end) <$> t.
Definition scalar_json (e : event) : option json :=
  match e with
  | E_string s => Some (JStr s)
  | E_int z | E_uint z | E_int64 z | E_uint64 z => Some (JNum z)
  | E_bool b => Some (JBool b)
  | E_null => Some JNull
  | _ => None
  end.
Fixpoint parse_value (fuel : nat) (es : list event) : option (json * list event) :=
  match fuel, es with
  | S fuel, E_start_array :: es => '(js, es) ← parse_all fuel es; Some (JArr js, es)
  | S fuel, E_start_object :: es => '(ms, es) ← parse_members fuel es; Some (JObj ms, es)
  | S fuel, e :: es => j ← scalar_json e; Some (j, es)
  | _, _ => None
  end
with parse_all (fuel : nat) (es : list event) : option (list json * list event) :=
  match fuel, es with
  | S fuel, E_end_array :: es => Some ([], es)
  | S fuel, es =>
      '(j, es) ← parse_value fuel es;
      '(js, es) ← parse_all fuel es;
      Some (j :: js, es)
  | _, _ => None
  end
with parse_members (fuel : nat) (es : list event) : option (list (text * json) * list event) :=
  match fuel, es with
  | S fuel, E_end_object :: es => Some ([], es)
  | S fuel, E_string k :: es =>
      '(j, es) ← parse_value fuel es;
      '(ms, es) ← parse_members fuel es;
      Some ((k, j) :: ms, es)
  | _, _ => None
  end.
Definition sample_parse (t : text) : option json :=
  match parse_value (2 * length t) (sample_events t) with Some (j, []) => Some j | _ => None end.

Scheme denotes_mind := Induction for denotes Sort Prop
  with denotes_all_mind := Induction for denotes_all Sort Prop
  with denotes_members_mind := Induction for denotes_members Sort Prop.
Combined Scheme denotes_mutual from denotes_mind, denotes_all_mind, denotes_members_mind.
Lemma denotes_head es j : denotes es j → ∃ e es', es = e :: es' ∧ e ≠ E_end_array.
Proof. destruct 1 as [e j He| |]; eexists _, _; (split; [done|]); [by destruct e|done..]. Qed.
Lemma parse_all_step fuel es : (∃ e es', es = e :: es' ∧ e ≠ E_end_array) →
  parse_all (S fuel) es = '(j, es) ← parse_value fuel es; '(js, es) ← parse_all fuel es; Some (j :: js, es).
Proof. intros (e&es'&->&He). by destruct e. Qed.
Lemma parse_denoted :
  (∀ es j, denotes es j → ∀ fuel rest, (2 * length es ≤ fuel)%nat →
     parse_value fuel (es ++ rest) = Some (j, rest)) ∧
  (∀ es js, denotes_all es js → ∀ fuel rest, (2 * length es < fuel)%nat →
     parse_all fuel (es ++ E_end_array :: rest) = Some (js, rest)) ∧
  (∀ es ms, denotes_members es ms → ∀ fuel rest, (2 * length es < fuel)%nat →
     parse_members fuel (es ++ E_end_object :: rest) = Some (ms, rest)).
Proof.
  apply denotes_mutual.
  - intros e j He fuel rest Hf. destruct fuel as [|fuel]; [simpl in Hf; lia|].
    destruct e, j; simpl in He; try done; simpl; repeat f_equal; naive_solver.
  - intros es js _ IH fuel rest Hf. destruct fuel as [|fuel]; [simpl in Hf; lia|].
    simpl in *. rewrite <-app_assoc. simpl. rewrite IH; [done|]. rewrite length_app in Hf. simpl in Hf. lia.
  - intros es ms _ IH fuel rest Hf. destruct fuel as [|fuel]; [simpl in Hf; lia|].
    simpl in *. rewrite <-app_assoc. simpl. rewrite IH; [done|]. rewrite length_app in Hf. simpl in Hf. lia.
  - intros fuel rest Hf. destruct fuel; [simpl in Hf; lia|done].
  - intros e j es js He IHe _ IHs fuel rest Hf. destruct fuel as [|fuel]; [simpl in Hf; lia|].
    destruct (denotes_head e j He) as (x&e'&->&Hx). rewrite length_app in Hf. simpl in Hf.
    rewrite parse_all_step by (eexists _, _; split; [done|done]).
    rewrite <-app_assoc, IHe by (simpl; lia). simpl. rewrite IHs by lia. done.
  - intros fuel rest Hf. destruct fuel; [simpl in Hf; lia|done].
  - intros k e j es ms Hk He IHe _ IHs fuel rest Hf. destruct fuel as [|fuel]; [simpl in Hf; lia|].
    simpl in Hf. rewrite length_app in Hf. simpl.
    rewrite <-app_assoc, IHe by lia. simpl. rewrite IHs by lia. done.
Qed.
Lemma sample_events_text es : sample_events (sample_text es) = es.
Proof.
  unfold sample_events, sample_text. rewrite <-list_fmap_compose.
  induction es as [|e es IH]; csimpl; [done|]. rewrite IH, decode_encode. f_equal.
  destruct e as [| | | |s|z|z|z|z|[]|]; done.
Qed.
Lemma sample_parse_text es j : denotes es j → sample_parse (sample_text es) = Some j.
Proof.
  intros Hd. unfold sample_parse. rewrite sample_events_text.
  pose proof (proj1 parse_denoted es j Hd (2 * length (sample_text es))%nat []) as H.
  unfold sample_text in H at 1. rewrite length_fmap, app_nil_r in H. rewrite H; [done|]. lia.
Qed.

(** Decimal numbers; [lexical_cast] takes a number of one byte for a character. *)
Definition sample_format (s : num) (z : Z) : text := text_of (NilZero.string_of_int (Z.to_int z)).
Definition sample_cast (s : num) (t : text) : option Z :=
  if num_bits s =? 8 then match t with [c] => Some c | _ => None end
  else
    d ← NilZero.int_of_string (string_of t);
    if decide (num_range s (Z.of_int d)) then Some (Z.of_int d) else None.
Definition sample_bool (t : text) : option bool :=
  if bool_decide (t = text_of "1") then Some true
  else if bool_decide (t = text_of "0") then Some false else None.
Lemma string_of_text s : string_of (text_of s) = s.
Proof.
  unfold string_of, text_of. rewrite <-list_fmap_compose.
  rewrite (list_fmap_ext _ id).
  - by rewrite list_fmap_id, Stdlib.Strings.String.string_of_list_ascii_of_string.
  - intros i a _. simpl. rewrite Nat2Z.id. apply Ascii.ascii_nat_embedding.
Qed.
Lemma digits_ok d : text_ok (text_of (NilEmpty.string_of_uint d)).
Proof. induction d; simpl; by repeat constructor. Qed.
Lemma number_text_ok d : text_ok (text_of (NilZero.string_of_uint d)).
Proof. destruct d; try apply (digits_ok _). by repeat constructor. Qed.
Lemma to_int_digits z : Z.to_int z ≠ Decimal.Pos Decimal.Nil ∧ Z.to_int z ≠ Decimal.Neg Decimal.Nil.
Proof.
  destruct z as [|p|p]; simpl; split; try done; intros [= H]; by apply DecimalPos.Unsigned.to_uint_nonnil in H.
Qed.
Lemma sample_format_ok s z : num_key s = true → num_range s z →
  text_ok (sample_format s z) ∧ sample_cast s (sample_format s z) = Some z.
Proof.
  intros Hs Hz. unfold sample_format, sample_cast, num_key in *. split.
  - destruct (Z.to_int z) as [d|d]; simpl; [apply number_text_ok|]. constructor; [done|apply number_text_ok].
  - apply negb_true_iff in Hs. destruct (to_int_digits z).
    rewrite Hs, string_of_text, NilZero.isi by done. simpl.
    rewrite DecimalZ.of_to. by rewrite decide_True.
Qed.

(** A struct with members of most kinds. *)
Definition sample_type : jty :=
  J_struct [(text_of "id", J_num N_i32); (text_of "name", J_string); (text_of "alive", J_bool);
    (text_of "scores", J_map (J_num N_u16) (J_vector (J_num N_i64)));
    (text_of "next", J_optional (J_struct [(text_of "x", J_num N_u8)]));
    (text_of "where", J_tuple [J_num N_u32; J_chars 4])].
Definition sample_value : val :=
  V_list [V_num (-7); V_str (text_of "bob"); V_num 1;
    V_map [(V_num 3, V_list [V_num 30; V_num 31]); (V_num 12, V_list [])];
    V_some (V_list [V_num 200]); V_list [V_num 4000000000; V_str (text_of "abc")]].
Notation sample_sendable := (sendable sample_format sample_cast factory_new false).
Notation sample_unpack := (json_unpack sample_cast sample_bool factory_new false sample_parse).
Notation sample_pack := (json_pack sample_format factory_new false sample_text).
Lemma text_ok_check s : forallb (λ c, (0 <? c) && (c <? 256)) s = true → text_ok s.
Proof.
  intros H. apply Forall_forall. intros c Hc%list_elem_of_In. rewrite forallb_forall in H.
  specialize (H c Hc). lia.
Qed.
Lemma num_range_check s z : bool_decide (num_range s z) = true → num_range s z.
Proof. apply bool_decide_eq_true_1. Qed.
Lemma sample_value_sendable : sample_sendable (sample_type, sample_value).
Proof.
  split_and!; [by vm_compute|by vm_compute|].
  cbn [fst snd sample_type sample_value has_jtype has_key map all2].
  split_and!; try (apply text_ok_check; by vm_compute); try (apply num_range_check; by vm_compute);
    try exact I; [by right| | |cbn; lia].
  - constructor; [|constructor; [|constructor]]; (split; [apply num_range_check; by vm_compute|]).
    + cbn [snd has_jtype]. by constructor; [|constructor; [|constructor]]; apply num_range_check; vm_compute.
    + constructor.
  - repeat constructor.
Qed.
Lemma json_roundtrip_witness :
  sample_unpack sample_type (sample_pack sample_type sample_value) = Def (Some sample_value) ∧
  json_unpack_with sample_cast sample_bool factory_new false sample_parse
    [inl (J_num N_i32); inr (V_str [1]); inl sample_type]
    (json_pack_args sample_format factory_new false sample_text [J_num N_i32; sample_type] [V_num 5; sample_value]) =
    Def (Some [V_num 5; V_str [1]; sample_value]).
Proof.
  destruct (json_roundtrip sample_format sample_cast sample_bool factory_new false sample_text sample_parse
    sample_format_ok sample_parse_text) as [H1 H2].
  split; [apply H1, sample_value_sendable|].
  apply (H2 [inl (J_num N_i32, V_num 5); inr (V_str [1]); inl (sample_type, sample_value)]).
  repeat constructor; [by vm_compute..|apply sample_value_sendable].
Defined.

(** ** What does not come back *)
(** Members the document lacks stay as they were. *)
Lemma empty_object_changes_nothing lexical_cast lexical_bool enums e bo fs l : length l = length fs →
  ReadObject lexical_cast lexical_bool enums e bo (J_struct fs) (V_list l) (JObj []) = Def (Some (V_list l)).
Proof.
  simpl. revert l. induction fs as [|f fs IH]; intros [|v l] Hl; simpl in *; try done.
  injection Hl as Hl. specialize (IH l Hl).
  destruct (read_members _ l []) as [[?|]|]; simpl in *; try done. by injection IH as ->.
Qed.
(** A tuple in a container is read as if it were an object. *)
Lemma vector_of_tuples_is_undefined :
  let t := J_vector (J_tuple [J_num N_i32; J_num N_i32]) in
  sample_unpack t (sample_pack t (V_list [V_list [V_num 1; V_num 2]])) = Undef.
Proof. by vm_compute. Qed.
(** A key of one byte is written as a number and read as a character. *)
Lemma byte_keys_do_not_come_back :
  let t := J_map (J_num N_u8) J_string in
  sample_unpack t (sample_pack t (V_map [(V_num 65, V_str [])])) = Def None ∧
  sample_unpack t (sample_pack t (V_map [(V_num 7, V_str [])])) = Def (Some (V_map [(V_num 55, V_str [])])).
Proof. split; by vm_compute. Qed.
(** Inside an option, nothing and an option of nothing are the same. *)
Lemma option_of_nothing_is_nothing :
  let t := J_optional (J_optional J_bool) in
  sample_unpack t (sample_pack t (V_some V_none)) = Def (Some V_none).
Proof. by vm_compute. Qed.
(** Written by name, an enumerator without one becomes a number, which is not
    read by name. *)
Lemma unnamed_enumerator_throws :
  let t := J_enum 0 N_i32 in
  json_unpack sample_cast sample_bool factory_new true sample_parse t
    (json_pack sample_format factory_new true sample_text t (V_num 3)) = Def None.
Proof. by vm_compute. Qed.
(** The key [Serialize] takes is not written, though [DeSerialize] looks for it. *)
Lemma key_of_serialize_is_ignored :
  let t := J_struct [(text_of "id", J_num N_i32)] in
  exc_bind (Def (sample_parse (Serialize sample_format factory_new false sample_text t (V_list [V_num 5]) (Some (text_of "root")))))
    (λ doc, DeSerialize sample_cast sample_bool factory_new false t (V_list [V_num 0]) doc (Some (text_of "root")) true) =
  Def None.
Proof. by vm_compute. Qed.
