(* ===== verification/Ptree.v ===== *)
(** * The property tree that is written ([network/serialize/xml_adapter.hpp],
      [base_serialize_adapter])

    The XML, INI and INFO serializers build a [boost::property_tree::ptree] and
    differ only in the text it becomes.  A tree is a text and children in order,
    each with a key; what Boost does with paths of keys is the interface
    [TreePaths], with the documented laws [TreePathsLaws].  The writer is the
    state machine of [base_serialize_adapter] over the calls the serializer
    makes; [tree_of] says which tree a value becomes, and [Serialize_tree] that
    the writer builds it.  Types and values are those of [Json] and [Gos]. *)
From Stdlib Require Import String.
From stdpp Require Import countable strings sets base option numbers sorting list.
From S2P Require Import Prelude Gos EnumMeta Json.
Local Open Scope Z_scope.
Local Open Scope core_scope.

(** ** Definitions *)
(** *** Trees and paths *)
Notation text := (list Z) (only parsing).
Inductive ptree := Tree (data : text) (children : list (text * ptree)).
Definition pt_data (d : ptree) : text := match d with Tree s _ => s end.
Definition pt_children (d : ptree) : list (text * ptree) := match d with Tree _ l => l end.
Definition pt_empty : ptree := Tree [] [].
Definition put_value (s : text) (d : ptree) : ptree := Tree s (pt_children d).
Definition push_back_child (p : text * ptree) (d : ptree) : ptree := Tree (pt_data d) (pt_children d ++ [p]).
(** A child by its position. *)
Definition alter_child (f : ptree → ptree) (i : nat) (d : ptree) : ptree :=
  Tree (pt_data d) (alter (λ p, (p.1, f p.2)) i (pt_children d)).

(** Boost's operations on paths: [add_child], [get_child_optional] (the position
    of the node, child by child) and [find] (the position of a child). *)
Class TreePaths := {
  add_child : text → ptree → ptree → ub ptree;
  walk : text → ptree → option (list nat);
  pt_find : text → ptree → option nat;
}.
(** A path is keys with dots between them. *)
Definition dot : Z := 46.
Definition simple (k : text) : Prop := k ≠ [] ∧ dot ∉ k.
#[global] Instance simple_dec k : Decision (simple k).
Proof. apply _. Defined.
Fixpoint path_of (ks : list text) : text :=
  match ks with
  | [] => []
  | [k] => k
  | k :: ks => k ++ dot :: path_of ks
  end.
Section paths.
Context `{TreePaths}.
(** "Create any missing parents.  If there already is a node at the path, add
    another one with the same key." *)
Fixpoint add_at (ks : list text) (sub d : ptree) : ptree :=
  match ks with
  | [] => d
  | [k] => push_back_child (k, sub) d
  | k :: ks =>
      match pt_find k d with
      | Some i => alter_child (add_at ks sub) i d
      | None => push_back_child (k, add_at ks sub pt_empty) d
      end
  end.
Fixpoint walk_keys (ks : list text) (d : ptree) : option (list nat) :=
  match ks with
  | [] => Some []
  | k :: ks =>
      i ← pt_find k d;
      p ← pt_children d !! i;
      l ← walk_keys ks p.2;
      Some (i :: l)
  end.
End paths.
Class TreePathsLaws `{TreePaths} : Prop := {
  find_child k d i : pt_find k d = Some i → fst <$> pt_children d !! i = Some k;
  find_no_child k d : pt_find k d = None ↔ k ∉ (pt_children d).*1;
  add_child_at ks sub d : ks ≠ [] → Forall simple ks → add_child (path_of ks) sub d = Def (add_at ks sub d);
  walk_at ks d : ks ≠ [] → Forall simple ks → walk (path_of ks) d = walk_keys ks d;
}.

(** *** The adapter *)
Inductive node_type := T_object | T_array | T_value | T_null.
#[global] Instance node_type_eq_dec : EqDecision node_type.
Proof. solve_decision. Defined.
Record xml_node := XmlNode { node_type_ : node_type; node_key : text; node_val : ptree }.
Add Printing Constructor xml_node.
(** [reset] *)
Definition node_reset (t : node_type) : xml_node := XmlNode t [] pt_empty.
(** [nodes_] with its back first. *)
Record writer := Writer { cur_node_ : xml_node; nodes_ : list xml_node }.
Add Printing Constructor writer.

Definition plus : text := text_of "+".
Definition at_key : text := text_of "@key".
Definition xmlattr : text := text_of "<xmlattr>".
Definition attr_name : text := text_of "name".
Definition special_chars : text := text_of "@,.<>" ++ [34] ++ text_of "'/&; " ++ [9; 13; 10].
(** [string_util::contains_chars] *)
Definition contains_chars (s chars : text) : bool := existsb (λ c, bool_decide (c ∈ chars)) s.
Definition key_or_plus (k : text) : text := match k with [] => plus | _ => k end.

(** What the serializer asks of the adapter; texts are those [fmt] makes of a key
    and [put_value] of a value. *)
Inductive call :=
| C_begin_object | C_end_object
| C_begin_array | C_end_array
| C_write_key (k : text)
| C_write (s : text)
| C_is_null (b : bool).

Section writer.
Context `{TreePaths}.

(** [nodes_.back().val.add_child(k, sub)] *)
Definition add_back (k : text) (sub : ptree) (ns : list xml_node) : ub (list xml_node) :=
  match ns with
  | n :: ns => v ← add_child k sub (node_val n); Def (XmlNode (node_type_ n) (node_key n) v :: ns)
  | [] => Undef
  end.
Definition set_type (t : node_type) (n : xml_node) : xml_node := XmlNode t (node_key n) (node_val n).
(** The beginning of [begin_object] and [begin_array] when the current node is a
    value: one with a text goes to the node around it. *)
Definition begin_value (w : writer) : ub writer :=
  let cur := cur_node_ w in
  match pt_data (node_val cur) with
  | _ :: _ =>
      ns ← add_back (key_or_plus (node_key cur)) (node_val cur) (nodes_ w);
      Def (Writer (node_reset T_object) ns)
  | [] => Def (Writer (set_type T_object cur) (nodes_ w))
  end.
Definition begin_object (w : writer) : ub writer :=
  w ← match node_type_ (cur_node_ w) with
      | T_value => begin_value w
      | T_null => Def (Writer (set_type T_object (cur_node_ w)) (nodes_ w))
      | _ => Def w
      end;
  Def (Writer (node_reset T_value) (cur_node_ w :: nodes_ w)).
Definition has_content (cur : xml_node) : bool :=
  negb (bool_decide (node_key cur = [])) || negb (bool_decide (pt_data (node_val cur) = [])).
Definition end_object (w : writer) : ub writer :=
  let cur := cur_node_ w in
  match nodes_ w with
  | node :: ns =>
      val ← if negb (bool_decide (node_type_ cur = T_null)) && has_content cur
            then add_child (node_key cur) (node_val cur) (node_val node)
            else Def (node_val node);
      ns ← add_back (key_or_plus (node_key node)) val ns;
      Def (Writer (node_reset T_value) ns)
  | [] => Undef
  end.
Definition begin_array (w : writer) : ub writer :=
  w ← match node_type_ (cur_node_ w) with
      | T_value => begin_value w
      | _ => Def w
      end;
  Def (Writer (node_reset T_value) (node_reset T_array :: cur_node_ w :: nodes_ w)).
Definition no_children (d : ptree) : bool := match pt_children d with [] => true | _ => false end.
(** A node takes the tree [v], as its own where it is empty and no array. *)
Definition take_node (node : xml_node) (k : text) (v : ptree) : ub ptree :=
  if no_children (node_val node) && negb (bool_decide (node_type_ node = T_array)) then Def v
  else add_child (key_or_plus k) v (node_val node).
Definition end_array (w : writer) : ub writer :=
  let cur := cur_node_ w in
  match nodes_ w with
  | node :: obj_node :: ns =>
      val ← match node_type_ cur with
            | T_value => if has_content cur then take_node node (node_key cur) (node_val cur) else Def (node_val node)
            | T_null => Def (node_val node)
            | _ => take_node node (node_key cur) (node_val cur)
            end;
      obj ← take_node obj_node (node_key node) val;
      ns ← add_back (key_or_plus (node_key obj_node)) obj ns;
      Def (Writer (node_reset T_value) ns)
  | _ => Undef
  end.
Definition write_key (k : text) (w : writer) : ub writer :=
  let cur := if bool_decide (node_type_ (cur_node_ w) = T_null) then node_reset T_value else cur_node_ w in
  match node_key cur with
  | [] =>
      if contains_chars k special_chars then
        v ← add_child (path_of [xmlattr; attr_name]) (Tree k []) (node_val cur);
        Def (Writer (XmlNode (node_type_ cur) at_key v) (nodes_ w))
      else Def (Writer (XmlNode (node_type_ cur) k (node_val cur)) (nodes_ w))
  | _ =>
      ns ← add_back (node_key cur) (node_val cur) (nodes_ w);
      Def (Writer (XmlNode (node_type_ cur) k pt_empty) ns)
  end.
Definition write (s : text) (w : writer) : ub writer :=
  let cur := cur_node_ w in
  let with_val v := XmlNode (node_type_ cur) (node_key cur) v in
  match node_type_ cur with
  | T_array =>
      v ← add_child (key_or_plus (node_key cur)) (Tree s []) (node_val cur);
      Def (Writer (with_val v) (nodes_ w))
  | T_value =>
      ns ← match pt_data (node_val cur) with
           | [] => Def (nodes_ w)
           | _ => add_back (key_or_plus (node_key cur)) (node_val cur) (nodes_ w)
           end;
      Def (Writer (with_val (put_value s (node_val cur))) ns)
  | T_null => Def w
  | T_object => Def (Writer (with_val (put_value s (node_val cur))) (nodes_ w))
  end.
Definition write_is_null (is_null : bool) (w : writer) : ub writer :=
  Def (if is_null then Writer (node_reset T_null) (nodes_ w) else w).
Definition run_call (c : call) (w : writer) : ub writer :=
  match c with
  | C_begin_object => begin_object w
  | C_end_object => end_object w
  | C_begin_array => begin_array w
  | C_end_array => end_array w
  | C_write_key k => write_key k w
  | C_write s => write s w
  | C_is_null b => write_is_null b w
  end.
Fixpoint run_calls (cs : list call) (w : writer) : ub writer :=
  match cs with
  | [] => Def w
  | c :: cs => w ← run_call c w; run_calls cs w
  end.
Definition begin_serialize (key : text) : writer :=
  Writer (XmlNode T_value (key_or_plus key) pt_empty) [node_reset T_object].
(** The nodes left, each into the one before. *)
Fixpoint merge_nodes (n : xml_node) (ns : list xml_node) : ub ptree :=
  match ns with
  | [] => Def (node_val n)
  | pt :: ns =>
      v ← add_child (key_or_plus (node_key n)) (node_val n) (node_val pt);
      merge_nodes (XmlNode (node_type_ pt) (node_key pt) v) ns
  end.
(** The tree given to [T::write]. *)
Definition end_serialize (w : writer) : ub ptree :=
  let cur := cur_node_ w in
  let ns := if negb (bool_decide (node_type_ cur = T_null)) && (has_content cur || negb (no_children (node_val cur)))
            then XmlNode (node_type_ cur) (key_or_plus (node_key cur)) (node_val cur) :: nodes_ w
            else nodes_ w in
  match ns with n :: ns => merge_nodes n ns | [] => Undef end.
End writer.

(** *** The serializer over it *)
Section serializer.
Context (format_number : num → Z → text) (value_number : num → Z → text) (value_bool : bool → text)
  (enums : enum_factory) (enum_with_str_ : bool).
Notation key_text := (key_text format_number enums enum_with_str_).

Definition zip_apply {A} (fs : list (val → list A)) (l : list val) : list A :=
  mjoin (zip_with (λ f v, f v) fs l).
(** The text of a value of one word. *)
Definition value_text (t : jty) (v : val) : option text :=
  match t, v with
  | J_num s, V_num z => Some (value_number s z)
  | J_bool, V_num z => Some (value_bool (negb (z =? 0)))
  | J_enum tid under, V_num z =>
      match if enum_with_str_ then enum_name enums tid z else None with
      | Some name => Some name
      | None => Some (value_number under z)
      end
  | J_string, V_str s => Some s
  | J_chars _, V_str s => Some (c_text s)
  | _, _ => None
  end.
(** [WriteObject] *)
Fixpoint xml_write (bo : bool) (t : jty) (v : val) {struct t} : list call :=
  match t, v with
  | J_vector t, V_list l | J_set t, V_list l | J_array _ t, V_list l =>
      [C_begin_array] ++ (l ≫= xml_write false t) ++ [C_end_array]
  | J_map k w, V_map l =>
      [C_begin_object] ++ (l ≫= λ p, C_write_key (key_text k p.1) :: xml_write true w p.2) ++ [C_end_object]
  | J_pair k w, V_pair a b =>
      let kv := C_write_key (key_text k a) :: xml_write true w b in
      if bo then [C_begin_object] ++ kv ++ [C_end_object] else kv
  | J_optional t, V_none => [C_is_null true]
  | J_optional t, V_some v => C_is_null false :: xml_write bo t v
  | J_struct fs, V_list l =>
      [C_begin_object] ++ zip_apply (map (λ f v, C_write_key f.1 :: xml_write true f.2 v) fs) l ++ [C_end_object]
  | J_tuple ts, V_list l =>
      [C_begin_array] ++ zip_apply (map (xml_write bo) ts) l ++ [C_end_array]
  | _, _ => match value_text t v with Some s => [C_write s] | None => [] end
  end.
(** [Serialize], up to the text; no key is the empty one. *)
Definition Serialize_tree `{TreePaths} (t : jty) (v : val) (key : option text) : ub ptree :=
  w ← run_calls (xml_write true t v) (begin_serialize (default [] key));
  end_serialize w.

(** *** The tree of a value *)
(** A tree below a node that has children already: the name of its key. *)
Definition place (d d' : ptree) : ptree := Tree (pt_data d') (pt_children d ++ pt_children d').
Definition attr_of (k : text) : ptree := Tree [] [(xmlattr, Tree [] [(attr_name, Tree k [])])].
(** A key with a character XML would not take is written as an attribute. *)
Definition member (k : text) (d : ptree) : text * ptree :=
  if contains_chars k special_chars then (at_key, place (attr_of k) d) else (k, d).
Definition absent (t : jty) (v : val) : bool :=
  match t, v with J_optional _, V_none => true | _, _ => false end.
Fixpoint tree_of (t : jty) (v : val) : ptree :=
  match t, v with
  | J_vector t, V_list l | J_set t, V_list l | J_array _ t, V_list l =>
      Tree [] (map (pair plus) (map (tree_of t) l))
  | J_map k w, V_map l => Tree [] (map (λ p, member (key_text k p.1) (tree_of w p.2)) l)
  | J_pair k w, V_pair a b => Tree [] [member (key_text k a) (tree_of w b)]
  | J_optional t, V_some v => tree_of t v
  | J_struct fs, V_list l =>
      Tree [] (zip_apply (map (λ f v, if absent f.2 v then [] else [(f.1, tree_of f.2 v)]) fs) l)
  | J_tuple ts, V_list l => Tree [] (map (pair plus) (zip_apply (map (λ t v, [tree_of t v]) ts) l))
  | _, _ => Tree (default [] (value_text t v)) []
  end.
End serializer.

(** *** What can be written and read back *)
(** Texts XML gives back: printable, without spaces around them or one after
    another; keys that can be the name of an element and mean nothing else to the
    reader. *)
Fixpoint tidy (space : bool) (s : text) : bool :=
  match s with
  | [] => negb space
  | c :: s => if c =? 32 then negb space && tidy true s else (32 <? c) && (c <? 127) && tidy false s
  end.
Definition clean_text (s : text) : bool := match s with [] => true | _ => tidy true s end.
Definition printable (s : text) : bool := forallb (λ c, (32 <=? c) && (c <? 127)) s.
Definition name_char (c : Z) : bool :=
  ((48 <=? c) && (c <=? 57)) || ((65 <=? c) && (c <=? 90)) || ((97 <=? c) && (c <=? 122)) ||
  bool_decide (c ∈ text_of "_-+").
Definition using_key : text := text_of "using".
Definition import_key : text := text_of "import".
Definition property_group : text := text_of "property_group".
Definition plain_key (k : text) : bool :=
  negb (bool_decide (k ∈ [[]; using_key; import_key; property_group])) && forallb name_char k.
Definition is_scalar (t : jty) : bool :=
  match t with J_num _ | J_bool | J_enum _ _ | J_string | J_chars _ => true | _ => false end.
(** A struct all of whose members are written. *)
Definition full_struct (t : jty) : bool :=
  match t with J_struct fs => forallb (λ f, negb (is_optional f.2)) fs | _ => false end.
(** The types: as for JSON, and options only as members of structs. *)
Fixpoint xml_type (bo : bool) (t : jty) : bool :=
  match t with
  | J_num s => num_key s
  | J_bool | J_enum _ _ | J_string | J_chars _ => true
  | J_vector t | J_array _ t => negb (is_optional t) && xml_type false t
  | J_set t => set_key t && xml_type false t
  | J_map k w => map_key k && (bo || is_string k) && negb (is_optional w) && xml_type bo w
  | J_pair k w => pair_key k && bo && negb (is_optional w) && xml_type true w
  | J_optional t => bo && negb (is_optional t) && xml_type true t
  | J_struct fs =>
      bool_decide (NoDup (map fst fs)) && forallb plain_key (map fst fs) && forallb id (map (λ f, xml_type true f.2) fs)
  | J_tuple ts => bo && forallb id (map (λ t, negb (is_optional t) && xml_type true t) ts)
  end.
Section values.
Context (format_number : num → Z → text) (lexical_cast : num → text → option Z)
  (enums : enum_factory) (enum_with_str_ : bool).
Notation key_text := (key_text format_number enums enum_with_str_).
Notation has_key := (has_key format_number lexical_cast enums enum_with_str_).

(** A key that is not plain is one in an attribute: where it comes after a value
    that has not been written out yet it would not become one. *)
Definition key_fits (single : bool) (k w : jty) (v : val) : Prop :=
  has_key k v ∧
  (plain_key (key_text k v) = true ∨
   contains_chars (key_text k v) special_chars = true ∧ printable (key_text k v) = true ∧
   (full_struct w = true ∨ single = true ∧ is_scalar w = true)).
Definition xml_enum (tid : Z) (under : num) (z : Z) : Prop :=
  num_range under z ∧
  (enum_with_str_ = true → ∃ n, enum_name enums tid z = Some n ∧ n ≠ [] ∧ clean_text n = true ∧
    cast_enum lexical_cast enums tid under n = Some (V_num z)) ∧
  (enum_with_str_ = false → num_key under = true).
(** Values: as for JSON, with texts as above; an element of a sequence is not the
    empty text, which is not written. *)
Fixpoint xml_value (t : jty) (v : val) : Prop :=
  match t, v with
  | J_num s, V_num z => num_range s z
  | J_bool, V_num z => z = 0 ∨ z = 1
  | J_enum tid under, V_num z => xml_enum tid under z
  | J_string, V_str s => clean_text s = true
  | J_chars n, V_str s => clean_text s = true ∧ (length s < n)%nat
  | J_vector t, V_list l => Forall (λ v, v ≠ V_str [] ∧ xml_value t v) l
  | J_set t, V_list l => Forall (λ v, v ≠ V_str [] ∧ xml_value t v) l ∧ StronglySorted key_lt l
  | J_array n t, V_list l => length l = n ∧ Forall (λ v, v ≠ V_str [] ∧ xml_value t v) l
  | J_map k w, V_map l =>
      Forall (λ p, key_fits false k w p.1 ∧ xml_value w p.2) l ∧ StronglySorted (λ p q, key_lt p.1 q.1) l
  | J_pair k w, V_pair a b => key_fits true k w a ∧ xml_value w b
  | J_optional t, V_none => True
  | J_optional t, V_some v => xml_value t v
  | J_struct fs, V_list l => all2 (map (λ f, xml_value f.2) fs) l
  | J_tuple ts, V_list l => all2 (map (λ t v, v ≠ V_str [] ∧ xml_value t v) ts) l
  | _, _ => False
  end.
End values.

(** ** The writer's steps *)
Lemma tidy_chars b s : tidy b s = true → Forall (λ c, 32 ≤ c < 127) s.
Proof.
  revert b. induction s as [|c s IH]; intros b; simpl; [constructor|].
  destruct (c =? 32) eqn:E; intros H; repeat (apply andb_true_iff in H as [? H]); constructor; eauto; lia.
Qed.
Lemma clean_text_ok s : clean_text s = true → text_ok s.
Proof.
  destruct s as [|c s]; [constructor|]. intros H%tidy_chars. eapply Forall_impl; [exact H|]. simpl. lia.
Qed.
Lemma plain_key_simple k : plain_key k = true → simple k ∧ contains_chars k special_chars = false.
Proof.
  intros [Hr Hn]%andb_true_iff. apply negb_true_iff, bool_decide_eq_false_1 in Hr.
  rewrite forallb_forall in Hn. split; [split|].
  - intros ->. set_solver.
  - intros Hd%list_elem_of_In. apply Hn in Hd. by vm_compute in Hd.
  - apply not_true_iff_false. intros (c&Hc&Hs)%existsb_exists. apply Hn in Hc. apply bool_decide_eq_true_1 in Hs.
    revert Hc. change (name_char c ≠ true).
    assert (Forall (λ c, name_char c ≠ true) special_chars) as Hf
      by (apply (bool_decide_eq_true_1 (Forall (λ c, name_char c ≠ true) special_chars)); by vm_compute).
    by eapply Forall_forall in Hf.
Qed.
Lemma plus_simple : simple plus.
Proof. by eapply bool_decide_unpack; vm_compute. Qed.
Lemma at_key_simple : simple at_key.
Proof. by eapply bool_decide_unpack; vm_compute. Qed.
Lemma key_or_plus_simple k : k = [] ∨ simple k → simple (key_or_plus k).
Proof. intros [->|H]; [apply plus_simple|]. destruct k; [by destruct H|done]. Qed.
Lemma key_or_plus_id k : simple k → key_or_plus k = k.
Proof. intros [H _]. by destruct k. Qed.
#[global] Opaque plus at_key xmlattr attr_name special_chars.

Section steps.
Context `{TreePathsLaws}.

Lemma add_child_simple k s d : simple k → add_child k s d = Def (push_back_child (k, s) d).
Proof. intros Hk. by apply (add_child_at [k] s d); [|constructor]. Qed.
Lemma add_attr k : add_child (path_of [xmlattr; attr_name]) (Tree k []) pt_empty = Def (attr_of k).
Proof.
  rewrite add_child_at.
  - cbn [add_at]. destruct (pt_find xmlattr pt_empty) eqn:E; [|done].
    by apply find_child in E.
  - done.
  - by apply (bool_decide_eq_true_1 (Forall simple [xmlattr; attr_name])).
Qed.
Definition with_children (n : xml_node) (cs : list (text * ptree)) : xml_node :=
  XmlNode (node_type_ n) (node_key n) (Tree (pt_data (node_val n)) cs).
Lemma add_back_simple k s n ns : simple k →
  add_back k s (n :: ns) = Def (with_children n (pt_children (node_val n) ++ [(k, s)]) :: ns).
Proof. intros Hk. simpl. by rewrite add_child_simple. Qed.

(** What of the current node is not in the tree around it yet. *)
Definition pending (n : xml_node) : list (text * ptree) :=
  if bool_decide (node_type_ n = T_value) && has_content n then [(key_or_plus (node_key n), node_val n)] else [].
Definition unwritten (n : xml_node) : list (text * ptree) :=
  match pt_data (node_val n) with [] => [] | _ => [(key_or_plus (node_key n), node_val n)] end.
(** A node where a value can be written: a member's key, or an element of a
    sequence, perhaps with the one before. *)
Record slot (n : xml_node) : Prop := {
  slot_type : node_type_ n = T_value;
  slot_children : node_key n = [] → pt_children (node_val n) = [];
  slot_data : pt_data (node_val n) = [] ∨ node_key n = [];
  slot_key : node_key n = [] ∨ simple (node_key n);
}.
(** A node after a member. *)
Definition ready (n : xml_node) : Prop :=
  n = node_reset T_value ∨ n = node_reset T_null ∨ (node_type_ n = T_value ∧ simple (node_key n)).
(** A node after an element. *)
Definition between (n : xml_node) : Prop :=
  node_type_ n = T_value ∧ node_key n = [] ∧ pt_children (node_val n) = [].
Definition opened (n : xml_node) : xml_node :=
  match pt_data (node_val n) with [] => set_type T_object n | _ => node_reset T_object end.

Lemma begin_value_slot n back rest : slot n →
  begin_value (Writer n (back :: rest)) =
  Def (Writer (opened n) (with_children back (pt_children (node_val back) ++ unwritten n) :: rest)).
Proof.
  intros [Ht Hc Hd Hk]. unfold begin_value, opened, unwritten. simpl.
  destruct (pt_data (node_val n)) eqn:E.
  - rewrite app_nil_r. destruct back as [? ? [? ?]]. done.
  - by rewrite add_child_simple by by apply key_or_plus_simple.
Qed.
Lemma begin_object_slot n back rest : slot n →
  begin_object (Writer n (back :: rest)) =
  Def (Writer (node_reset T_value) (opened n :: with_children back (pt_children (node_val back) ++ unwritten n) :: rest)).
Proof.
  intros Hs. unfold begin_object. cbn [cur_node_]. rewrite (slot_type _ Hs), begin_value_slot by done. done.
Qed.
Lemma begin_array_slot n back rest : slot n →
  begin_array (Writer n (back :: rest)) =
  Def (Writer (node_reset T_value)
    (node_reset T_array :: opened n :: with_children back (pt_children (node_val back) ++ unwritten n) :: rest)).
Proof.
  intros Hs. unfold begin_array. cbn [cur_node_]. rewrite (slot_type _ Hs), begin_value_slot by done. done.
Qed.
Lemma opened_key n : slot n → node_key (opened n) = node_key n.
Proof.
  intros [_ _ Hd _]. unfold opened. destruct (pt_data (node_val n)) eqn:E; [done|].
  by destruct Hd as [?| ->].
Qed.
Lemma opened_val n : slot n → node_val (opened n) = Tree [] (pt_children (node_val n)).
Proof.
  intros [_ Hc Hd _]. unfold opened. destruct (pt_data (node_val n)) eqn:E.
  - simpl. destruct (node_val n) as [d cs]. simpl in E. by subst.
  - destruct Hd as [?|Hk]; [done|]. simpl. by rewrite Hc.
Qed.
Lemma ready_content n : ready n →
  negb (bool_decide (node_type_ n = T_null)) && has_content n = bool_decide (node_type_ n = T_value) && has_content n.
Proof. intros [->|[->|[-> _]]]; done. Qed.
Lemma end_object_ready n obj back rest : ready n → node_key obj = [] ∨ simple (node_key obj) →
  end_object (Writer n (obj :: back :: rest)) =
  Def (Writer (node_reset T_value)
    (with_children back (pt_children (node_val back) ++
      [(key_or_plus (node_key obj), Tree (pt_data (node_val obj)) (pt_children (node_val obj) ++ pending n))]) :: rest)).
Proof.
  intros Hn Ho%key_or_plus_simple. unfold end_object. cbn [cur_node_ nodes_]. rewrite ready_content by done.
  unfold pending. destruct (_ && _) eqn:E; cbn [mbind ub_bind].
  - assert (simple (node_key n)) as Hk by (by destruct Hn as [->|[->|[_ ?]]]).
    rewrite add_child_simple by done. cbn [mbind ub_bind]. rewrite add_back_simple by done. simpl.
    by rewrite (key_or_plus_id (node_key n)) by done.
  - rewrite add_back_simple by done. simpl. rewrite app_nil_r. by destruct (node_val obj).
Qed.
Lemma take_node_object obj k v : node_type_ obj = T_object → pt_children (node_val obj) = [] → take_node obj k v = Def v.
Proof. intros Ht Hc. unfold take_node, no_children. by rewrite Ht, Hc. Qed.
Lemma take_node_array cs k v : k = [] ∨ simple k →
  take_node (with_children (node_reset T_array) cs) k v = Def (Tree [] (cs ++ [(key_or_plus k, v)])).
Proof. intros Hk. unfold take_node. simpl. rewrite andb_false_r. by apply add_child_simple, key_or_plus_simple. Qed.
Lemma end_array_between n cs obj back rest : between n → node_key obj = [] ∨ simple (node_key obj) →
  node_type_ obj = T_object → pt_children (node_val obj) = [] →
  end_array (Writer n (with_children (node_reset T_array) cs :: obj :: back :: rest)) =
  Def (Writer (node_reset T_value)
    (with_children back (pt_children (node_val back) ++
      [(key_or_plus (node_key obj), Tree [] (cs ++ pending n))]) :: rest)).
Proof.
  intros (Ht&Hk&Hc) Ho%key_or_plus_simple Hto Hco. unfold end_array, pending. cbn [cur_node_ nodes_].
  rewrite Ht, bool_decide_eq_true_2 by done. rewrite Hk.
  destruct (has_content n); cbn [mbind ub_bind andb].
  - rewrite take_node_array by by left. cbn [mbind ub_bind]. rewrite take_node_object by done.
    cbn [mbind ub_bind]. by rewrite add_back_simple.
  - rewrite take_node_object by done. cbn [mbind ub_bind]. rewrite add_back_simple by done. by rewrite app_nil_r.
Qed.

(** *** Sequences and objects *)
Lemma run_calls_app cs1 cs2 w : run_calls (cs1 ++ cs2) w = run_calls cs1 w ≫= run_calls cs2.
Proof.
  revert w. induction cs1 as [|c cs1 IH]; intros w; [done|]. simpl. destruct (run_call c w); simpl; [apply IH|done].
Qed.
Lemma with_children_id n : with_children n (pt_children (node_val n)) = n.
Proof. by destruct n as [? ? []]. Qed.
(** Calls that write elements, and members, into the node around the current one;
    with [free] nothing is pending before or after. *)
Definition elements_calls (es : list call) (ds : list ptree) : Prop := ∀ n back rest, between n → ∃ n' cs,
  run_calls es (Writer n (back :: rest)) = Def (Writer n' (with_children back cs :: rest)) ∧ between n' ∧
  cs ++ pending n' = pt_children (node_val back) ++ pending n ++ map (pair plus) ds.
Definition member_calls (free : bool) (es : list call) (ds : list (text * ptree)) : Prop := ∀ n back rest,
  ready n → (free = true → pending n = []) → ∃ n' cs,
  run_calls es (Writer n (back :: rest)) = Def (Writer n' (with_children back cs :: rest)) ∧
  ready n' ∧ (free = true → pending n' = []) ∧
  cs ++ pending n' = pt_children (node_val back) ++ pending n ++ ds.
Lemma elements_nil : elements_calls [] [].
Proof.
  intros n back rest Hn. exists n, (pt_children (node_val back)). rewrite with_children_id. simpl. by rewrite app_nil_r.
Qed.
Lemma elements_app es ds es' ds' : elements_calls es ds → elements_calls es' ds' → elements_calls (es ++ es') (ds ++ ds').
Proof.
  intros H1 H2 n back rest Hn. destruct (H1 n back rest Hn) as (n1&cs1&Hr1&Hn1&Hc1).
  destruct (H2 n1 (with_children back cs1) rest Hn1) as (n2&cs2&Hr2&Hn2&Hc2).
  exists n2, cs2. rewrite run_calls_app, Hr1. simpl. rewrite Hr2. split_and!; [done..|].
  rewrite Hc2. simpl. rewrite (app_assoc cs1), Hc1, map_app. by rewrite <-!app_assoc.
Qed.
Lemma members_nil free : member_calls free [] [].
Proof.
  intros n back rest Hn Hf. exists n, (pt_children (node_val back)). rewrite with_children_id. simpl. by rewrite app_nil_r.
Qed.
Lemma members_app free es ds es' ds' :
  member_calls free es ds → member_calls free es' ds' → member_calls free (es ++ es') (ds ++ ds').
Proof.
  intros H1 H2 n back rest Hn Hf. destruct (H1 n back rest Hn Hf) as (n1&cs1&Hr1&Hn1&Hf1&Hc1).
  destruct (H2 n1 (with_children back cs1) rest Hn1 Hf1) as (n2&cs2&Hr2&Hn2&Hf2&Hc2).
  exists n2, cs2. rewrite run_calls_app, Hr1. simpl. rewrite Hr2. split_and!; [done..|].
  rewrite Hc2. simpl. rewrite (app_assoc cs1), Hc1. by rewrite <-!app_assoc.
Qed.
Lemma write_array es ds n back rest : elements_calls es ds → slot n → pt_children (node_val n) = [] →
  run_calls ([C_begin_array] ++ es ++ [C_end_array]) (Writer n (back :: rest)) =
  Def (Writer (node_reset T_value) (with_children back (pt_children (node_val back) ++ unwritten n ++
    [(key_or_plus (node_key n), Tree [] (map (pair plus) ds))]) :: rest)).
Proof.
  intros Hl Hs Hc. cbn [app run_calls run_call]. rewrite begin_array_slot by done. cbn [mbind ub_bind].
  rewrite run_calls_app.
  set (back' := with_children back _).
  destruct (Hl (node_reset T_value) (node_reset T_array) (opened n :: back' :: rest)) as (n'&cs&->&Hn'&Hcs);
    [done|].
  cbn [mbind ub_bind run_calls run_call].
  rewrite end_array_between; [|done|rewrite opened_key by done; apply Hs| |by rewrite opened_val].
  - cbn [mbind ub_bind]. rewrite Hcs, opened_key by done. subst back'. simpl. by rewrite <-app_assoc.
  - unfold opened. by destruct (pt_data _).
Qed.
Definition object_calls (es : list call) (ds : list (text * ptree)) : Prop := ∀ back rest, ∃ n' cs,
  run_calls es (Writer (node_reset T_value) (back :: rest)) = Def (Writer n' (with_children back cs :: rest)) ∧
  ready n' ∧ cs ++ pending n' = pt_children (node_val back) ++ ds.
Lemma object_of_members free es ds : member_calls free es ds → object_calls es ds.
Proof.
  intros Hm back rest. destruct (Hm (node_reset T_value) back rest) as (n'&cs&?&?&_&?); [by left|done|].
  by exists n', cs.
Qed.
Lemma write_members es ds n back rest : object_calls es ds → slot n →
  run_calls ([C_begin_object] ++ es ++ [C_end_object]) (Writer n (back :: rest)) =
  Def (Writer (node_reset T_value) (with_children back (pt_children (node_val back) ++ unwritten n ++
    [(key_or_plus (node_key n), Tree [] (pt_children (node_val n) ++ ds))]) :: rest)).
Proof.
  intros Hl Hs. cbn [app run_calls run_call]. rewrite begin_object_slot by done. cbn [mbind ub_bind].
  rewrite run_calls_app.
  set (back' := with_children back _).
  destruct (Hl (opened n) (back' :: rest)) as (n'&cs&->&Hn'&Hcs).
  cbn [mbind ub_bind run_calls run_call].
  rewrite end_object_ready by (done || (simpl; rewrite opened_key by done; apply Hs)).
  cbn [mbind ub_bind]. simpl. rewrite Hcs, opened_key, opened_val by done. subst back'. simpl. by rewrite <-app_assoc.
Qed.
End steps.

(** ** The tree that is written *)
Section writing.
Context `{TreePathsLaws}.
Context (format_number : num → Z → text) (lexical_cast : num → text → option Z)
  (value_number : num → Z → text) (value_bool : bool → text) (enums : enum_factory) (enum_with_str_ : bool).
Hypothesis number_shown : ∀ s z, num_key s = true → num_range s z → value_number s z ≠ [].
Hypothesis bool_shown : ∀ b, value_bool b ≠ [].
Notation xml_value := (xml_value format_number lexical_cast enums enum_with_str_).
Notation key_fits := (key_fits format_number lexical_cast enums enum_with_str_).
Notation key_text := (key_text format_number enums enum_with_str_).
Notation value_text := (value_text value_number value_bool enums enum_with_str_).
Notation xml_write := (xml_write format_number value_number value_bool enums enum_with_str_).
Notation tree_of := (tree_of format_number value_number value_bool enums enum_with_str_).

Definition fits (t : jty) (v : val) (n : xml_node) : Prop :=
  slot n ∧ (node_key n = [] → is_optional t = false ∧ v ≠ V_str []) ∧
  (pt_children (node_val n) = [] ∨ is_scalar t = true ∨ full_struct t = true).
Definition after (t : jty) (v : val) (n n' : xml_node) : Prop :=
  n' = node_reset T_value ∨
  full_struct t = false ∧
  (absent t v = true ∧ n' = node_reset T_null ∨
   ∃ s, n' = XmlNode T_value (node_key n) (Tree s (pt_children (node_val n)))).
Definition new_children (t : jty) (v : val) (n : xml_node) : list (text * ptree) :=
  if absent t v then [] else [(key_or_plus (node_key n), place (node_val n) (tree_of t v))].
Definition value_calls (es : list call) (t : jty) (v : val) : Prop := ∀ n back rest, fits t v n → ∃ n' cs,
  run_calls es (Writer n (back :: rest)) = Def (Writer n' (with_children back cs :: rest)) ∧ after t v n n' ∧
  cs ++ pending n' = pt_children (node_val back) ++ unwritten n ++ new_children t v n.

Lemma scalar_calls t v s : is_scalar t = true → value_text t v = Some s → (s = [] → v = V_str []) →
  value_calls [C_write s] t v.
Proof.
  intros Ht Hv Hs n back rest (Hn&Hk&_). destruct Hn as [Hty Hc Hd Hkey].
  assert (tree_of t v = Tree (default [] (value_text t v)) []) as Htree by (by destruct t, v).
  rewrite Hv in Htree. simpl in Htree.
  assert (absent t v = false) as Ha by (by destruct t).
  exists (XmlNode T_value (node_key n) (Tree s (pt_children (node_val n)))),
    (pt_children (node_val back) ++ unwritten n). split_and!.
  - cbn [run_calls run_call]. unfold write, unwritten. cbn [cur_node_ nodes_]. rewrite Hty.
    destruct (pt_data (node_val n)) eqn:E; simpl.
    + by rewrite app_nil_r, with_children_id.
    + by rewrite add_child_simple by by apply key_or_plus_simple.
  - right. split; [by destruct t|]. right. by exists s.
  - unfold new_children. rewrite Ha, Htree, <-app_assoc. f_equal. f_equal.
    unfold pending, has_content, place. simpl. rewrite app_nil_r.
    destruct (node_key n) eqn:E; [|done]. simpl. rewrite bool_decide_eq_false_2; [done|]. naive_solver.
Qed.
Lemma element_of es t v : value_calls es t v → is_optional t = false → v ≠ V_str [] → elements_calls es [tree_of t v].
Proof.
  intros Hes Ho Hv n back rest (Ht&Hk&Hc).
  assert (absent t v = false) as Ha by (by destruct t).
  destruct (Hes n back rest) as (n'&cs&Hr&Haf&Hcs).
  - split_and!; [|done|by left]. split; [done..|by right|by left].
  - exists n', cs. split_and!; [done| |].
    + destruct Haf as [->|[_ [[? _]|[s ->]]]]; [done|congruence|done].
    + rewrite Hcs. unfold new_children. rewrite Ha, Hk. f_equal. f_equal.
      * unfold unwritten, pending, has_content. rewrite Ht, Hk. by destruct (pt_data (node_val n)).
      * unfold place. rewrite Hc. by destruct (tree_of t v).
Qed.
Lemma write_key_ready k n back rest : ready n →
  (plain_key k = true ∨ contains_chars k special_chars = true ∧ pending n = []) → ∃ n1,
  write_key k (Writer n (back :: rest)) =
    Def (Writer n1 (with_children back (pt_children (node_val back) ++ pending n) :: rest)) ∧
  slot n1 ∧ node_key n1 ≠ [] ∧ pt_data (node_val n1) = [] ∧
  (∀ d, (node_key n1, place (node_val n1) d) = member k d) ∧
  (pt_children (node_val n1) = [] ∨ contains_chars k special_chars = true).
Proof.
  intros Hn Hk.
  assert (pending n ≠ [] ∨ n = node_reset T_value ∨ n = node_reset T_null) as [Hp|Hr].
  { destruct Hn as [->|[->|[Ht [Hs _]]]]; [tauto..|]. left. unfold pending, has_content.
    rewrite Ht, !(bool_decide_eq_false_2 (node_key n = [])) by done. done. }
  - destruct Hk as [Hk|[_ ?]]; [|done]. apply plain_key_simple in Hk as [Hk Hsp].
    assert (node_type_ n = T_value ∧ simple (node_key n)) as [Ht Hkn] by (by destruct Hn as [->|[->|?]]).
    exists (XmlNode T_value k pt_empty). split_and!; [|split; simpl; tauto|apply Hk|done| |by left].
    + unfold write_key. cbn [cur_node_ nodes_]. rewrite Ht, bool_decide_eq_false_2 by done.
      unfold pending in *. rewrite Ht in *. destruct (_ && _); [|done].
      destruct (node_key n) eqn:E; [by destruct Hkn|]. rewrite <-E in *.
      rewrite add_back_simple by done. by rewrite key_or_plus_id.
    + intros d. unfold member. rewrite Hsp. by destruct d.
  - assert (pending n = []) as -> by (by destruct Hr as [->| ->]). rewrite app_nil_r, with_children_id.
    destruct (contains_chars k special_chars) eqn:Hsp.
    + exists (XmlNode T_value at_key (attr_of k)).
      split_and!; [|split; simpl; [done|done|by left|right; apply at_key_simple]|apply at_key_simple|done| |by right].
      * unfold write_key. destruct Hr as [->| ->]; simpl; rewrite Hsp, add_attr; done.
      * intros d. unfold member. by rewrite Hsp.
    + destruct Hk as [Hk|[? _]]; [|done]. apply plain_key_simple in Hk as [Hk _].
      exists (XmlNode T_value k pt_empty). split_and!; [|split; simpl; tauto|apply Hk|done| |by left].
      * unfold write_key. destruct Hr as [->| ->]; simpl; by rewrite Hsp.
      * intros d. unfold member. rewrite Hsp. by destruct d.
Qed.
Lemma member_step k es t v n back rest : value_calls es t v → ready n →
  (plain_key k = true ∨ contains_chars k special_chars = true ∧ pending n = [] ∧
   (is_scalar t = true ∨ full_struct t = true)) → ∃ n' cs,
  run_calls (C_write_key k :: es) (Writer n (back :: rest)) = Def (Writer n' (with_children back cs :: rest)) ∧
  ready n' ∧ (full_struct t = true → pending n' = []) ∧
  cs ++ pending n' = pt_children (node_val back) ++ pending n ++
    (if absent t v then [] else [member k (tree_of t v)]).
Proof.
  intros Hes Hn Hk.
  destruct (write_key_ready k n back rest) as (n1&Hw&Hs1&Hk1&Hd1&Hm&Hc1); [done|naive_solver|].
  set (back1 := with_children back _) in Hw.
  assert (simple (node_key n1)) as Hk2 by (by destruct (slot_key _ Hs1)).
  destruct (Hes n1 back1 rest) as (n'&cs&Hr&Haf&Hcs).
  { split_and!; [done|done|]. destruct Hc1 as [?|Hsp]; [by left|]. right.
    destruct Hk as [Hk|(_&_&?)]; [|done]. apply plain_key_simple in Hk as [_ Hk]. congruence. }
  exists n', cs. cbn [run_calls run_call]. rewrite Hw. simpl. rewrite Hr. split_and!; [done|..].
  - destruct Haf as [->|[_ [[_ ->]|[s ->]]]]; unfold ready; tauto.
  - intros Hf. destruct Haf as [->|[Hnf _]]; [done|congruence].
  - rewrite Hcs. unfold unwritten, new_children. rewrite Hd1. simpl. rewrite <-app_assoc. f_equal. f_equal.
    destruct (absent t v); [done|]. rewrite key_or_plus_id by done. by rewrite Hm.
Qed.
Lemma member_of k es t v : value_calls es t v →
  (plain_key k = true ∨ full_struct t = true ∧ contains_chars k special_chars = true) →
  member_calls (full_struct t) (C_write_key k :: es) (if absent t v then [] else [member k (tree_of t v)]).
Proof. intros Hes Hk n back rest Hn Hf. apply member_step; naive_solver. Qed.
Lemma value_of_node es t v : is_optional t = false →
  (∀ n back rest, fits t v n → 
    run_calls es (Writer n (back :: rest)) =
    Def (Writer (node_reset T_value) (with_children back (pt_children (node_val back) ++ unwritten n ++
      [(key_or_plus (node_key n), place (node_val n) (tree_of t v))]) :: rest))) →
  value_calls es t v.
Proof.
  intros Ho Hr n back rest Hf. eexists _, _. split_and!; [by apply Hr|by left|].
  assert (absent t v = false) as Ha by (by destruct t). unfold new_children. by rewrite Ha, app_nil_r.
Qed.

(** Elements of a sequence, and members of an object. *)
Lemma array_calls t v es ds : is_optional t = false → is_scalar t = false → full_struct t = false →
  elements_calls es ds → tree_of t v = Tree [] (map (pair plus) ds) →
  value_calls ([C_begin_array] ++ es ++ [C_end_array]) t v.
Proof.
  intros Ho Hsc Hfs Hl Ht. apply value_of_node; [done|]. intros n back rest (Hs&_&Hc).
  assert (pt_children (node_val n) = []) as Hn by (destruct Hc as [?|[?|?]]; [done|congruence..]).
  rewrite (write_array _ ds) by done. rewrite Ht. unfold place. by rewrite Hn.
Qed.
Lemma object_value_calls t v es ds : is_optional t = false → object_calls es ds → tree_of t v = Tree [] ds →
  value_calls ([C_begin_object] ++ es ++ [C_end_object]) t v.
Proof.
  intros Ho Hl Ht. apply value_of_node; [done|]. intros n back rest (Hs&_&_).
  rewrite (write_members _ ds) by done. by rewrite Ht.
Qed.
Lemma sequence_calls t es l : is_optional t = false →
  Forall (λ v, v ≠ V_str [] ∧ value_calls (es v) t v) l → elements_calls (l ≫= es) (map (tree_of t) l).
Proof.
  intros Ho. induction 1 as [|v l [Hv Hes] _ IH]; csimpl; [apply elements_nil|].
  apply (elements_app _ [_]); [by apply element_of|done].
Qed.
Lemma map_calls k w l : is_optional w = false →
  Forall (λ p, key_fits false k w p.1 ∧ value_calls (xml_write true w p.2) w p.2) l →
  member_calls (full_struct w) (l ≫= λ p, C_write_key (key_text k p.1) :: xml_write true w p.2)
    (map (λ p, member (key_text k p.1) (tree_of w p.2)) l).
Proof.
  intros Ho. induction 1 as [|[a b] l [[_ Hk] Hb] _ IH]; csimpl; [apply members_nil|].
  apply (members_app _ (C_write_key (key_text k a) :: xml_write true w b) [_]); [|done]. simpl in *.
  pose proof (member_of (key_text k a) _ w b Hb) as Hm.
  assert (absent w b = false) as Ha by (by destruct w). rewrite Ha in Hm. apply Hm. naive_solver.
Qed.
Lemma pair_calls k w a b : is_optional w = false → key_fits true k w a →
  value_calls (xml_write true w b) w b →
  object_calls (C_write_key (key_text k a) :: xml_write true w b) [member (key_text k a) (tree_of w b)].
Proof.
  intros Ho [_ Hk] Hb back rest. assert (absent w b = false) as Ha by (by destruct w).
  destruct (member_step (key_text k a) _ w b (node_reset T_value) back rest Hb) as (n'&cs&?&?&_&Hc);
    [by left|naive_solver|]. rewrite Ha in Hc. by exists n', cs.
Qed.
Lemma xml_type_weaken bo t : xml_type bo t = true → xml_type true t = true.
Proof.
  destruct bo; [done|]. induction t as [s| |i s| |n|t IH|t IH|k w _ IH|k w _ IH|t IH|n t IH|fs IH|ts IH] using jty_induction;
    simpl; try done.
  - intros [[[-> _]%andb_true_iff ->]%andb_true_iff Hw]%andb_true_iff. by rewrite IH.
  - by rewrite andb_false_r.
Qed.
Let writes (t : jty) : Prop := ∀ bo v, xml_type bo t = true → xml_value t v → value_calls (xml_write bo t v) t v.
Lemma fields_calls fs l : Forall (λ f, writes f.2) fs →
  forallb plain_key (map fst fs) = true → forallb id (map (λ f, xml_type true f.2) fs) = true →
  all2 (map (λ f, xml_value f.2) fs) l →
  member_calls false (zip_apply (map (λ f v, C_write_key f.1 :: xml_write true f.2 v) fs) l)
    (zip_apply (map (λ f v, if absent f.2 v then [] else [(f.1, tree_of f.2 v)]) fs) l).
Proof.
  intros IH. revert l. induction IH as [|[k t] fs Ht _ IH]; intros [|v l] Hk Hw Hv; simpl in *; try done.
  - apply members_nil.
  - apply andb_true_iff in Hk as [Hk Hks]. apply andb_true_iff in Hw as [Hw Hws]. destruct Hv as [Hv Hvs].
    unfold zip_apply. csimpl. apply (members_app _ (C_write_key k :: xml_write true t v)); [|by apply IH].
    intros n back rest Hn _. apply plain_key_simple in Hk as Hsp. unfold member in *.
    destruct (member_step k _ t v n back rest (Ht true v Hw Hv) Hn) as (n'&cs&?&?&_&Hc); [by left|].
    unfold member in Hc. rewrite (proj2 Hsp) in Hc. exists n', cs. done.
Qed.
Lemma tuple_calls ts l bo : Forall writes ts →
  bo = true → forallb id (map (λ t, negb (is_optional t) && xml_type true t) ts) = true →
  all2 (map (λ t v, v ≠ V_str [] ∧ xml_value t v) ts) l →
  elements_calls (zip_apply (map (xml_write bo) ts) l) (zip_apply (map (λ t v, [tree_of t v]) ts) l).
Proof.
  intros IH ->. revert l. induction IH as [|t ts Ht _ IH]; intros [|v l] Hw Hv; simpl in *; try done.
  - apply elements_nil.
  - apply andb_true_iff in Hw as [[Ho%negb_true_iff Hw]%andb_true_iff Hws]. destruct Hv as [[Hne Hv] Hvs].
    unfold zip_apply. csimpl. apply (elements_app _ [_]); [|by apply IH].
    apply element_of; [by apply Ht|done..].
Qed.

Lemma value_text_shown bo t v : xml_type bo t = true → xml_value t v → is_scalar t = true →
  ∃ s, value_text t v = Some s ∧ (s = [] → v = V_str []).
Proof.
  destruct t, v; simpl; try done; intros Ht Hv _.
  - eexists. split; [done|]. intros Hs. by apply number_shown in Hs.
  - eexists. split; [done|]. intros Hs. by apply bool_shown in Hs.
  - destruct Hv as (Hz&Hn&Hu). destruct enum_with_str_.
    + destruct Hn as (n&->&Hn&_); [done|]. by exists n.
    + eexists. split; [done|]. intros Hs. exfalso. by apply (number_shown under z (Hu eq_refl) Hz).
  - exists s. split; [done|]. by intros ->.
  - destruct Hv as [Hs _]. rewrite c_text_ok by by apply clean_text_ok. exists s. split; [done|]. by intros ->.
Qed.
Lemma xml_write_scalar bo t v s : is_scalar t = true → value_text t v = Some s → xml_write bo t v = [C_write s].
Proof. intros Ht Hv. destruct t; try done; destruct v; try done; cbn [Ptree.xml_write]; by rewrite Hv. Qed.
Lemma optional_calls es t v : is_optional t = false → value_calls es t v →
  value_calls (C_is_null false :: es) (J_optional t) (V_some v).
Proof.
  intros Ho Hes n back rest (Hs&Hk&Hc). destruct (Hes n back rest) as (n'&cs&Hr&Ha&Hcs).
  - split_and!; [done| |]; [intros Hn; by destruct (Hk Hn)|]. destruct Hc as [?|[?|?]]; [by left|done..].
  - exists n', cs. split_and!; [done| |].
    + destruct Ha as [?|[_ [[Ha _]|?]]]; [by left| |right; split; [done|by right]]. by destruct t.
    + rewrite Hcs. unfold new_children. simpl. by destruct t.
Qed.
(** The calls of a value put its tree into the node around. *)
Lemma xml_write_calls t : writes t.
Proof.
  induction t as [s| |i s| |n|t IH|t IH|k w _ IH|k w _ IH|t IH|n t IH|fs IH|ts IH] using jty_induction;
    intros bo v Ht Hv.
  1-5: destruct (value_text_shown bo _ v Ht Hv eq_refl) as (s'&Hs&Hne);
    rewrite (xml_write_scalar _ _ _ s') by done; by apply scalar_calls.
  - destruct v; try done. simpl in Ht, Hv. apply andb_true_iff in Ht as [Ho%negb_true_iff Ht].
    eapply array_calls; [done..| |done]. apply sequence_calls; [done|].
    eapply Forall_impl; [exact Hv|]. intros v [? ?]. split; [done|by apply IH].
  - destruct v; try done. simpl in Ht, Hv. apply andb_true_iff in Ht as [Ho Ht]. destruct Hv as [Hv _].
    eapply array_calls; [done..| |done]. apply sequence_calls; [by destruct t|].
    eapply Forall_impl; [exact Hv|]. intros v [? ?]. split; [done|by apply IH].
  - destruct v; try done. simpl in Ht, Hv. apply andb_true_iff in Ht as [[_ Ho%negb_true_iff]%andb_true_iff Ht].
    destruct Hv as [Hv _]. eapply object_value_calls; [done| |done].
    eapply object_of_members, map_calls; [done|].
    apply xml_type_weaken in Ht. eapply Forall_impl; [exact Hv|]. intros p [? ?]. split; [done|by apply IH].
  - destruct v; try done. simpl in Ht, Hv. apply andb_true_iff in Ht as [[[_ ->]%andb_true_iff Ho%negb_true_iff]%andb_true_iff Ht].
    destruct Hv as [Ha Hb]. eapply (object_value_calls _ _ (_ :: _)); [done| |done]. apply pair_calls; [done..|by apply IH].
  - simpl in Ht. apply andb_true_iff in Ht as [[-> Ho%negb_true_iff]%andb_true_iff Ht].
    destruct v; try done; [|by apply optional_calls; [|apply IH]].
    intros n back rest (Hs&Hk&_). exists (node_reset T_null), (pt_children (node_val back)). 
    split_and!; [by rewrite with_children_id|right; split; [done|by left]|].
    unfold new_children, unwritten, pending. simpl.
    destruct (pt_data (node_val n)) eqn:E; [done|]. destruct (slot_data _ Hs) as [?|Hn]; [congruence|]. by destruct (Hk Hn).
  - destruct v; try done. simpl in Ht, Hv. apply andb_true_iff in Ht as [Ho%negb_true_iff Ht]. destruct Hv as [_ Hv].
    eapply array_calls; [done..| |done]. apply sequence_calls; [done|].
    eapply Forall_impl; [exact Hv|]. intros v [? ?]. split; [done|by apply IH].
  - destruct v; try done. simpl in Ht, Hv. apply andb_true_iff in Ht as [[_ Hk]%andb_true_iff Ht].
    eapply object_value_calls; [done| |done]. eapply object_of_members, fields_calls; done.
  - destruct v; try done. simpl in Ht, Hv. apply andb_true_iff in Ht as [-> Ht].
    eapply array_calls; [done..| |done]. by apply tuple_calls.
Qed.
(** Serialized, a value that is not absent is the tree's only child. *)
Lemma Serialize_tree_of t v key : xml_type true t = true → is_optional t = false → xml_value t v →
  default [] key = [] ∨ simple (default [] key) →
  Serialize_tree format_number value_number value_bool enums enum_with_str_ t v key =
  Def (Tree [] [(key_or_plus (default [] key), tree_of t v)]).
Proof.
  intros Ht Ho Hv Hkey. unfold Serialize_tree, begin_serialize. set (k := key_or_plus _).
  assert (simple k) as Hk by by apply key_or_plus_simple.
  destruct (xml_write_calls t true v Ht Hv (XmlNode T_value k pt_empty) (node_reset T_object) []) as (n'&cs&->&Ha&Hc).
  { split_and!; [|by intros Hk'; destruct Hk|by left]. split; [done..|by left|by right]. }
  cbn [mbind ub_bind]. unfold new_children in Hc. simpl in Hc.
  assert (absent t v = false) as Hab by by destruct t. rewrite Hab, key_or_plus_id in Hc by done.
  assert (place pt_empty (tree_of t v) = tree_of t v) as Hp by by destruct (tree_of t v). rewrite Hp in Hc.
  unfold end_serialize. cbn [cur_node_ nodes_].
  destruct Ha as [->|[_ [[? _]|[s ->]]]]; [|congruence|].
  - simpl in *. rewrite app_nil_r in Hc. by subst.
  - unfold pending, has_content in Hc. simpl in *.
    clearbody k. destruct k as [|c k]; [by destruct Hk|]. simpl in Hc.
    simpl. rewrite add_child_simple by done. simpl. by rewrite <-Hc.
Qed.
End writing.
