(* ===== verification/Xml.v ===== *)
(** * Reading XML ([network/serialize/xml_adapter.hpp],
      [base_deserialize_adapter], [deserializer.hpp],
      [network/codec/codec_xml.hpp], [string_util::extend_all])

    The deserializer over a property tree: properties and their substitution in
    texts, imports and shared attributes, lists given as one text, members in
    attributes.  Reading an object changes the tree where a text is split into
    elements, so the tree is threaded through.  The parsers and the writer of a
    format, the file system, [boost::split], the stream translators and
    [lexical_cast] are parameters.  Dates, floating point numbers and structs whose
    members have initializers are left out, as in [Json].  [member_it], whose
    result [ReadTuple] does not use, is left out too. *)
From Stdlib Require Import String DecimalString DecimalZ.
From stdpp Require Import countable strings sets gmap base option numbers sorting list.
From S2P Require Import Prelude Gos EnumMeta Json Ptree.
Local Open Scope Z_scope.
Local Open Scope core_scope.

(** ** Definitions *)
(** *** Substitution ([string_util]) *)
Section extend.
Context (begin_extend end_extend : text) (extend_func : text → option text).
(** [std::string::find] *)
Fixpoint is_prefix (p s : text) : bool :=
  match p, s with
  | [], _ => true
  | a :: p, b :: s => (a =? b) && is_prefix p s
  | _ :: _, [] => false
  end.
Fixpoint find_text (p s : text) : option nat :=
  if is_prefix p s then Some 0%nat
  else match s with [] => None | _ :: s => S <$> find_text p s end.
Definition find_from (p s : text) (offset : nat) : option nat :=
  if decide (offset ≤ length s)%nat then (λ i, offset + i)%nat <$> find_text p (drop offset s) else None.
(** [internal_extend]: the result, the text and the offset ([None] is [npos]). *)
Definition internal_extend (str : text) (offset : nat) : bool * text * option nat :=
  match find_from begin_extend str offset with
  | None => (false, str, None)
  | Some pos =>
      match find_from end_extend str pos with
      | None => (false, str, None)
      | Some end_pos =>
          let from := (pos + length begin_extend)%nat in
          let str_val := take (end_pos - from) (drop from str) in
          match extend_func str_val with
          | None => (false, str, Some (end_pos + length end_extend)%nat)
          | Some str_prop =>
              (true, take pos str ++ str_prop ++ drop (end_pos + length end_extend) str,
               Some (pos + length str_prop)%nat)
          end
      end
  end.
(** The loop of [extend_all]: whether everything was extended, and the text. *)
Fixpoint extend_loop (fuel : nat) (str : text) (offset count : nat) : option (bool * text) :=
  match fuel with
  | O => None
  | S fuel =>
      match internal_extend str offset with
      | (true, str, Some offset) => extend_loop fuel str offset (S count)
      | (true, str, None) | (false, str, None) => Some (bool_decide (0 < count)%nat, str)
      | (false, str, Some _) => Some (false, str)
      end
  end.
Definition extend_all (str : text) : bool * text :=
  default (false, str) (extend_loop (S (length str)) str 0 0).
End extend.

(** *** The tree being read *)
Definition using_attr : text := text_of "using".
Definition path_attr : text := text_of "path".
Definition node_attr : text := text_of "node".
Definition key_attr : text := text_of "key".
Fixpoint node_at (p : list nat) (d : ptree) : option ptree :=
  match p with
  | [] => Some d
  | i :: p => c ← pt_children d !! i; node_at p c.2
  end.
Fixpoint alter_at (f : ptree → ptree) (p : list nat) (d : ptree) : ptree :=
  match p with
  | [] => f d
  | i :: p => alter_child (alter_at f p) i d
  end.
Notation "' x ←! y ; z" := (exc_bind y (λ x, z))
  (at level 20, x pattern, y at level 100, z at level 200, only parsing) : core_scope.

(** What ends the evaluation of an operation that may not end. *)
Inductive outcome (A : Type) := Done (a : A) | Throws | Undefined | Running.
Arguments Done {A} a.
Arguments Throws {A}.
Arguments Undefined {A}.
Arguments Running {A}.
#[global] Instance outcome_bind : MBind outcome := λ A B f m,
  match m with Done a => f a | Throws => Throws | Undefined => Undefined | Running => Running end.
Definition of_ub {A} (m : ub A) : outcome A := match m with Def a => Done a | Undef => Undefined end.
Definition or_throw {A} (o : option A) : outcome A := match o with Some a => Done a | None => Throws end.
Definition or_undefined {A} (o : option A) : outcome A := match o with Some a => Done a | None => Undefined end.

Notation props := (gmap (list Z) (list Z)).
(** [base_deserialize_adapter] *)
Record reader := Reader { pt_ : ptree; properties_ : props; default_properties_ : option props }.
Add Printing Constructor reader.

Section reader.
Context `{TreePaths}.
Context (lexical_cast : num → text → option Z) (lexical_bool : text → option bool)
  (get_number : num → text → option Z) (get_bool : text → option bool) (split : text → text → list text)
  (enums : enum_factory) (enum_with_str_ : bool).

(** *** [read] and the members of a node *)
Definition extend_func (r : reader) (prop : text) : option text :=
  match properties_ r !! prop with
  | Some v => Some v
  | None => d ← default_properties_ r; d !! prop
  end.
Definition extended (r : reader) (str : text) : bool * text :=
  extend_all (text_of "$(") (text_of ")") (extend_func r) str.
(** [read] of a string, a number or a bool: cast when something was extended, the
    value of the node otherwise. *)
Definition read_string (r : reader) (d : ptree) : text :=
  match extended r (pt_data d) with
  | (true, str) => str
  | (false, _) => pt_data d
  end.
Definition read_number (r : reader) (s : num) (d : ptree) : option Z :=
  match extended r (pt_data d) with
  | (true, str) => lexical_cast s str
  | (false, _) => get_number s (pt_data d)
  end.
Definition read_bool (r : reader) (d : ptree) : option bool :=
  match extended r (pt_data d) with
  | (true, str) => Some (cast_bool str)
  | (false, _) => get_bool (pt_data d)
  end.
Definition get_member (key : text) (d : ptree) : option (list nat) :=
  match pt_find key d with
  | Some i => Some [i]
  | None =>
      p ← walk xmlattr d;
      attr ← node_at p d;
      i ← pt_find key attr;
      Some (p ++ [i])
  end.
(** [first]: the key of a member, which may be in an attribute. *)
Definition data_at (path : text) (d : ptree) : option text :=
  p ← walk path d;
  pt_data <$> node_at p d.
Definition first (p : text * ptree) : text :=
  if bool_decide (p.1 = at_key) then default p.1 (data_at (path_of [xmlattr; attr_name]) p.2)
  else if bool_decide (p.1 = plus) then default p.1 (data_at (path_of [xmlattr; key_attr]) p.2)
  else p.1.
Definition is_valid (p : text * ptree) : bool := negb (bool_decide (p.1 = xmlattr)).
Definition list_chars : text := text_of ",;".
(** [process_array]: a text is split into elements. *)
Fixpoint add_all (k : text) (ss : list text) (d : ptree) : ub ptree :=
  match ss with
  | [] => Def d
  | s :: ss => d ← add_child k (Tree s []) d; add_all k ss d
  end.
Definition process_array (d : ptree) : ub ptree :=
  match pt_data d with
  | [] => Def d
  | s => match split s list_chars with
         | [] => Def d
         | ss => add_all plus ss (put_value [] d)
         end
  end.
(** The elements a text is split into: not those of an array of char. *)
Definition splits (t : jty) : bool :=
  match t with J_num _ | J_bool | J_enum _ _ | J_string => true | _ => false end.
Definition process_array_of (t : jty) (d : ptree) : ub ptree := if splits t then process_array d else Def d.

(** *** [ReadObject]: the value and the tree after it *)
Definition children := (list (text * ptree)).
Fixpoint xread_array {A} (f : ptree → ub (option (A * ptree))) (insert : A → list val → list val)
    (l : children) (t : list val) : ub (option (list val * children)) :=
  match l with
  | [] => Def (Some (t, []))
  | p :: l =>
      if is_valid p then
        '(el, c) ←! f p.2;
        '(t, l) ←! xread_array f insert l (insert el t);
        Def (Some (t, (p.1, c) :: l))
      else
        '(t, l) ←! xread_array f insert l t;
        Def (Some (t, p :: l))
  end.
Fixpoint xread_map (f : text * ptree → ub (option (val * val * ptree))) (l : children) (t : list (val * val))
    : ub (option (list (val * val) * children)) :=
  match l with
  | [] => Def (Some (t, []))
  | p :: l =>
      '(k, v, c) ←! f p;
      '(t, l) ←! xread_map f l (map_assign k v t);
      Def (Some (t, (p.1, c) :: l))
  end.
Fixpoint xread_fixed (f : val → ptree → ub (option (val * ptree))) (l : children) (t : list val)
    : ub (option (list val * children)) :=
  match l, t with
  | p :: l, v :: t' =>
      if is_valid p then
        '(v, c) ←! f v p.2;
        '(t, l) ←! xread_fixed f l t';
        Def (Some (v :: t, (p.1, c) :: l))
      else
        '(t, l) ←! xread_fixed f l t;
        Def (Some (t, p :: l))
  | l, t => Def (Some (t, l))
  end.
(** Members by name, from the node or its attributes. *)
Fixpoint xread_members (fs : list (text * (val → ptree → ub (option (val * ptree))))) (t : list val) (d : ptree)
    : ub (option (list val * ptree)) :=
  match fs, t with
  | (name, f) :: fs, v :: t =>
      '(v, d) ←!
        match get_member name d with
        | Some p =>
            match node_at p d with
            | Some c => '(v, c) ←! f v c; Def (Some (v, alter_at (λ _, c) p d))
            | None => Undef
            end
        | None => Def (Some (v, d))
        end;
      '(t, d) ←! xread_members fs t d;
      Def (Some (v :: t, d))
  | _, t => Def (Some (t, d))
  end.
(** Elements of a tuple by position: the list may be one text before the first
    element is read. *)
Fixpoint xread_tuple (fs : list (jty * (val → ptree → ub (option (val * ptree))))) (t : list val) (index : nat) (d : ptree)
    : ub (option (list val * ptree)) :=
  match fs, t with
  | (ty, f) :: fs, v :: t =>
      d ← if bool_decide (index = 0%nat) then process_array_of ty d else Def d;
      match pt_children d !! index with
      | None => '(t, d) ←! xread_tuple fs t index d; Def (Some (v :: t, d))
      | Some p =>
          '(v, c) ←! f v p.2;
          '(t, d) ←! xread_tuple fs t (S index) (alter_at (λ _, c) [index] d);
          Def (Some (v :: t, d))
      end
  | _, t => Def (Some (t, d))
  end.
(** Every element from the same node. *)
Fixpoint xread_same (fs : list (val → ptree → ub (option (val * ptree)))) (t : list val) (d : ptree)
    : ub (option (list val * ptree)) :=
  match fs, t with
  | f :: fs, v :: t =>
      '(v, d) ←! f v d;
      '(t, d) ←! xread_same fs t d;
      Def (Some (v :: t, d))
  | _, t => Def (Some (t, d))
  end.
Definition as_number (d : ptree) (o : option Z) : ub (option (val * ptree)) := Def ((λ z, (V_num z, d)) <$> o).
Definition with_list (d : ptree) (x : list val * children) : ub (option (val * ptree)) :=
  Def (Some (V_list x.1, Tree (pt_data d) x.2)).
Fixpoint xml_read (r : reader) (bo : bool) (t : jty) (v : val) (d : ptree) {struct t} : ub (option (val * ptree)) :=
  match t, v with
  | J_num s, _ => as_number d (read_number r s d)
  | J_bool, _ => as_number d (Z.b2z <$> read_bool r d)
  | J_enum tid under, _ =>
      if enum_with_str_ then Def ((λ v, (v, d)) <$> cast_enum lexical_cast enums tid under (read_string r d))
      else as_number d (read_number r under d)
  | J_string, _ => Def (Some (V_str (read_string r d), d))
  | J_chars n, _ => Def (Some (V_str (take (n - 1) (c_text (read_string r d))), d))
  | J_vector t, V_list c =>
      d ← process_array_of t d;
      x ←? xread_array (xml_read r false t (json_default t)) push_back (pt_children d) c;
      with_list d x
  | J_set t, V_list c =>
      d ← process_array_of t d;
      x ←? xread_array (xml_read r false t (json_default t)) set_insert (pt_children d) c;
      with_list d x
  | J_array n t, V_list c =>
      d ← process_array_of t d;
      x ←? xread_fixed (xml_read r false t) (pt_children d) c;
      with_list d x
  | J_map k w, V_map c =>
      x ←? xread_map (λ p,
        f ←? Def (cast_key lexical_cast enums k (first p));
        '(s, c) ←! xml_read r bo w (json_default w) p.2;
        Def (Some (f, s, c))) (pt_children d) c;
      Def (Some (V_map x.1, Tree (pt_data d) x.2))
  | J_pair k w, V_pair a b =>
      match bo, pt_children d with
      | true, [p] =>
          a ←? Def (lexical_key lexical_cast lexical_bool k (first p));
          '(b, c) ←! xml_read r true w b p.2;
          Def (Some (V_pair a b, Tree (pt_data d) [(p.1, c)]))
      | true, _ => Def None
      | false, _ => Undef
      end
  | J_optional t, _ =>
      '(v, d) ←! xml_read r true t (json_default t) d;
      Def (Some (V_some v, d))
  | J_struct fs, V_list c =>
      match pt_children d with
      | [] => Def (Some (v, d))
      | _ =>
          '(c, d) ←! xread_members (map (λ f, (f.1, xml_read r true f.2)) fs) c d;
          Def (Some (V_list c, d))
      end
  | J_tuple ts, V_list c =>
      if bo then
        '(c, d) ←! xread_tuple (map (λ t, (t, xml_read r true t)) ts) c 0 d;
        Def (Some (V_list c, d))
      else
        match pt_children d with
        | [] => Def (Some (v, d))
        | _ =>
            '(c, d) ←! xread_same (map (xml_read r false) ts) c d;
            Def (Some (V_list c, d))
        end
  | _, _ => Undef
  end.

(** *** Shared attributes, properties and imports *)
Definition key_at (d : ptree) (j : nat) : option text := fst <$> pt_children d !! j.
Definition erase_children (gone : nat → bool) (d : ptree) : ptree :=
  Tree (pt_data d) (omap (λ p, if gone p.1 then None else Some p.2)
    (zip (seq 0 (length (pt_children d))) (pt_children d))).
Fixpoint strip_path (p l : list nat) : option (list nat) :=
  match p, l with
  | [], l => Some l
  | i :: p, j :: l => if bool_decide (i = j) then strip_path p l else None
  | _ :: _, [] => None
  end.
(** Where a node is when children of the node at [p] are gone: nowhere, if it was
    one of them or below. *)
Definition shift_erased (p : list nat) (gone : nat → bool) (l : list nat) : option (list nat) :=
  match strip_path p l with
  | Some (j :: l') =>
      if gone j then None else Some (p ++ (j - length (List.filter gone (seq 0 j)))%nat :: l')
  | _ => Some l
  end.
(** The loops over the children of a node at [src], which each goes into the tree
    somewhere; the children may grow while they run. *)
Fixpoint copy_loop (fuel : nat) (step : text * ptree → ptree → ub ptree) (src : list nat) (j : nat) (root : ptree)
    : outcome ptree :=
  match fuel with
  | O => Running
  | S fuel =>
      n ← or_undefined (node_at src root);
      match pt_children n !! j with
      | None => Done root
      | Some op => root ← of_ub (step op root); copy_loop fuel step src (S j) root
      end
  end.
(** [tmp_pt.add_child(fmt::format("<xmlattr>.{}", op.first), op.second)] at [p] *)
Definition add_attribute (p : list nat) (op : text * ptree) (root : ptree) : ub ptree :=
  d ← deref (node_at p root);
  d ← add_child (xmlattr ++ dot :: op.1) op.2 d;
  Def (alter_at (λ _, d) p root).
Definition add_shared (p : list nat) (op : text * ptree) (root : ptree) : ub ptree :=
  Def (alter_at (push_back_child op) p root).
(** [parse_using], from the child [i] of the node at [path] on. *)
Fixpoint parse_using (fuel : nat) (r : reader) (path : list nat) (i : nat) (root : ptree) : outcome ptree :=
  match fuel with
  | O => Running
  | S fuel =>
      t ← or_undefined (node_at path root);
      match pt_children t !! i with
      | None => Done root
      | Some (key, p) =>
          if bool_decide (key = using_attr) then
            match get_member node_attr p with
            | Some pos =>
                n ← or_undefined (node_at pos p);
                match walk (read_string r n) root with
                | Some other =>
                    other ← or_undefined (shift_erased path (Nat.eqb i) other);
                    root ← copy_loop fuel (add_attribute path) other 0
                      (alter_at (erase_children (Nat.eqb i)) path root);
                    parse_using fuel r path i root
                | None => parse_using fuel r path (S i) root
                end
            | None => parse_using fuel r path (S i) root
            end
          else if bool_decide (key = xmlattr) then
            match data_at using_attr p with
            | Some node_path =>
                match walk node_path root with
                | Some other =>
                    let gone j := bool_decide (key_at p j = Some using_attr) in
                    other ← or_undefined (shift_erased (path ++ [i]) gone other);
                    root ← copy_loop fuel (add_shared (path ++ [i])) other 0
                      (alter_at (erase_children gone) (path ++ [i]) root);
                    parse_using fuel r path (S i) root
                | None => parse_using fuel r path (S i) root
                end
            | None => parse_using fuel r path (S i) root
            end
          else
            root ← parse_using fuel r (path ++ [i]) 0 root;
            parse_using fuel r path (S i) root
      end
  end.
Context (read_xml : text → option ptree) (read_file : bool → text → option ptree).
(** [read(properties_[prop.first], prop.second)]: the entry is there, and empty,
    before its text is read. *)
Definition read_property (p : text * ptree) (r : reader) : reader :=
  let r := Reader (pt_ r) (if properties_ r !! p.1 then properties_ r else <[p.1 := []]> (properties_ r))
             (default_properties_ r) in
  Reader (pt_ r) (<[p.1 := read_string r p.2]> (properties_ r)) (default_properties_ r).
(** The loop of [init] over the children of the first node. *)
Fixpoint init_loop (fuel : nat) (with_whitespace : bool) (i : nat) (r : reader) : outcome reader :=
  match fuel with
  | O => Running
  | S fuel =>
      tmp ← or_undefined (node_at [0%nat] (pt_ r));
      match pt_children tmp !! i with
      | None => Done r
      | Some (key, p) =>
          if bool_decide (key = property_group) then
            init_loop fuel with_whitespace (S i) (foldl (λ r p, read_property p r) r (pt_children p))
          else if bool_decide (key = import_key) then
            match get_member path_attr p with
            | Some pos =>
                n ← or_undefined (node_at pos p);
                other ← or_throw (read_file with_whitespace (read_string r n));
                f ← or_undefined (node_at [0%nat] other);
                let tmp := Tree (pt_data tmp) (pt_children tmp ++ pt_children f) in
                init_loop fuel with_whitespace i
                  (Reader (alter_at (λ _, erase_children (Nat.eqb i) tmp) [0%nat] (pt_ r))
                    (properties_ r) (default_properties_ r))
            | None => init_loop fuel with_whitespace (S i) r
            end
          else init_loop fuel with_whitespace (S i) r
      end
  end.
Definition init (fuel : nat) (with_whitespace : bool) (r : reader) : outcome reader :=
  match pt_children (pt_ r) with
  | [] => Done r
  | _ =>
      root ← parse_using fuel r [] 0 (pt_ r);
      init_loop fuel with_whitespace 0 (Reader root (properties_ r) (default_properties_ r))
  end.
Definition parse (fuel : nat) (str : text) (r : reader) : outcome reader :=
  d ← or_throw (read_xml str);
  init fuel false (Reader d (properties_ r) (default_properties_ r)).
Definition parse_file (fuel : nat) (with_whitespace : bool) (file : text) (r : reader) : outcome reader :=
  d ← or_throw (read_file with_whitespace file);
  init fuel with_whitespace (Reader d (properties_ r) (default_properties_ r)).
(** A deserializer of its own. *)
Definition reader_new : reader := Reader pt_empty ∅ None.

(** *** The deserializer *)
Definition get_root (key : option text) (has_root : bool) (r : reader) : option (list nat) :=
  match has_root, key with
  | true, Some key => walk key (pt_ r)
  | _, _ => if bool_decide (1 < length (pt_children (pt_ r)))%nat then Some [] else walk plus (pt_ r)
  end.
Definition DeSerialize (r : reader) (t : jty) (v : val) (key : option text) (has_root : bool)
    : ub (option (val * reader)) :=
  match get_root key has_root r with
  | None => Def None
  | Some p =>
      d ← deref (node_at p (pt_ r));
      '(v, d) ←! xml_read r true t v d;
      Def (Some (v, Reader (alter_at (λ _, d) p (pt_ r)) (properties_ r) (default_properties_ r)))
  end.
(** [make]: an argument at hand, or the next element. *)
Fixpoint xml_make (r : reader) (ts : list (jty + val)) (index : nat) (d : ptree) : ub (option (list val)) :=
  match ts with
  | [] => Def (Some [])
  | inr v :: ts => vs ←? xml_make r ts index d; Def (Some (v :: vs))
  | inl t :: ts =>
      d ← if bool_decide (index = 0%nat) then process_array_of t d else Def d;
      match pt_children d !! index with
      | None => vs ←? xml_make r ts index d; Def (Some (json_default t :: vs))
      | Some p =>
          '(v, c) ←! xml_read r true t (json_default t) p.2;
          vs ←? xml_make r ts (S index) (alter_at (λ _, c) [index] d);
          Def (Some (v :: vs))
      end
  end.
Definition GetTuple (r : reader) (ts : list (jty + val)) : ub (option (list val)) :=
  match ts with
  | [] => Def (Some [])
  | _ =>
      match get_root None false r with
      | None => Def None
      | Some p => d ← deref (node_at p (pt_ r)); xml_make r ts 0 d
      end
  end.
Definition lift_ub {A} (m : ub (option A)) : outcome A :=
  match m with Def (Some a) => Done a | Def None => Throws | Undef => Undefined end.
(** [xml_codec]: an exception becomes [net_exception(codec_fail)]. *)
Definition xml_unpack (fuel : nat) (t : jty) (data : text) : outcome val :=
  r ← parse fuel data reader_new;
  x ← lift_ub (DeSerialize r t (json_default t) None false);
  Done x.1.
Definition xml_unpack_with (fuel : nat) (ts : list (jty + val)) (data : text) : outcome (list val) :=
  r ← parse fuel data reader_new;
  lift_ub (GetTuple r ts).
End reader.
Section packing.
Context `{TreePaths}.
Context (format_number : num → Z → text) (value_number : num → Z → text) (value_bool : bool → text)
  (enums : enum_factory) (enum_with_str_ : bool) (write_xml : ptree → text).
Definition Serialize (t : jty) (v : val) (key : option text) : ub text :=
  d ← Serialize_tree format_number value_number value_bool enums enum_with_str_ t v key;
  Def (write_xml d).
Definition xml_pack (t : jty) (v : val) : ub text := Serialize t v None.
Definition xml_pack_args (ts : list jty) (vs : list val) : ub text := xml_pack (J_tuple ts) (V_list vs).
End packing.

(** ** Substitution *)
Section extending.
Context (begin_extend end_extend : text) (extend_func : text → option text).
Notation internal_extend := (internal_extend begin_extend end_extend extend_func).
Notation extend_loop := (extend_loop begin_extend end_extend extend_func).

Lemma is_prefix_spec p s : is_prefix p s = true ↔ ∃ s', s = p ++ s'.
Proof.
  revert s. induction p as [|a p IH]; intros s; simpl; [by split; [intros _; exists s|]|].
  destruct s as [|b s]; [by split; [|intros (s'&?)]|].
  rewrite andb_true_iff, Z.eqb_eq, IH. split.
  - intros [-> (s'&->)]. by exists s'.
  - intros (s'&[= -> ->]). split; [done|by exists s'].
Qed.
Lemma find_text_bound p s i : find_text p s = Some i → (i + length p ≤ length s)%nat.
Proof.
  revert i. induction s as [|c s IH]; intros i; simpl.
  - destruct (is_prefix p []) eqn:E; [|done]. intros [= <-]. apply is_prefix_spec in E as (s'&E).
    apply (f_equal length) in E. rewrite length_app in E. simpl in *. lia.
  - destruct (is_prefix p (c :: s)) eqn:E.
    + intros [= <-]. apply is_prefix_spec in E as (s'&E). apply (f_equal length) in E. rewrite length_app in E. simpl in *. lia.
    + intros (j&Hj&->)%fmap_Some. apply IH in Hj. simpl. lia.
Qed.
Lemma find_from_bound p s offset i : find_from p s offset = Some i → (offset ≤ i ∧ i + length p ≤ length s)%nat.
Proof.
  unfold find_from. case_decide; [|done]. intros (j&Hj%find_text_bound&->)%fmap_Some.
  rewrite length_drop in Hj. lia.
Qed.
(** What is left to look at shrinks. *)
Lemma internal_extend_progress str offset str' offset' :
  end_extend ≠ [] → internal_extend str offset = (true, str', Some offset') →
  (offset' ≤ length str' ∧ length str' - offset' < length str - offset)%nat.
Proof.
  intros Hend. unfold Xml.internal_extend.
  destruct (find_from begin_extend str offset) as [pos|] eqn:E1; [|done].
  destruct (find_from end_extend str pos) as [end_pos|] eqn:E2; [|done].
  destruct (extend_func _) as [prop|]; [|done]. intros [= <- <-].
  apply find_from_bound in E1, E2. destruct end_extend as [|e es]; [done|]. simpl in *.
  rewrite !length_app, length_take, length_drop. simpl. lia.
Qed.
(** [extend_all] ends, whatever the properties are. *)
Lemma extend_loop_ends fuel str offset count : end_extend ≠ [] → (length str - offset < fuel)%nat →
  is_Some (extend_loop fuel str offset count).
Proof.
  intros Hend. revert str offset count. induction fuel as [|fuel IH]; intros str offset count Hf; [lia|]. simpl.
  destruct (internal_extend str offset) as [[[] str'] [offset'|]] eqn:E; eauto.
  apply internal_extend_progress in E; [|done]. apply IH. lia.
Qed.
(** Without properties nothing is extended. *)
Lemma extend_nothing str : (∀ k, extend_func k = None) → (extend_all begin_extend end_extend extend_func str).1 = false.
Proof.
  intros Hf. unfold extend_all. simpl. unfold Xml.internal_extend.
  destruct (find_from _ _ _); [|done]. destruct (find_from _ _ _); [|done]. by rewrite Hf.
Qed.
End extending.

(** Texts with the names of properties between other texts, and what they become. *)
Definition dollar : Z := 36.
Definition paren : Z := 40.
Definition close : Z := 41.
Fixpoint template (l : list (text * text)) (last : text) : text :=
  match l with
  | [] => last
  | (seg, name) :: l => seg ++ text_of "$(" ++ name ++ text_of ")" ++ template l last
  end.
Fixpoint substituted (f : text → text) (l : list (text * text)) (last : text) : text :=
  match l with
  | [] => last
  | (seg, name) :: l => seg ++ f name ++ substituted f l last
  end.
Lemma find_text_none s : dollar ∉ s → find_text (text_of "$(") s = None.
Proof.
  induction s as [|c s IH]; [done|]. rewrite not_elem_of_cons. intros [Hc Hs]. cbn [find_text is_prefix text_of].
  change (text_of "$(") with [dollar; 40] in *. cbn [is_prefix]. rewrite (proj2 (Z.eqb_neq _ _)) by done. simpl.
  by rewrite IH.
Qed.
Lemma find_text_here a p s rest : a ∉ s → find_text (a :: p) (s ++ (a :: p) ++ rest) = Some (length s).
Proof.
  assert (is_prefix (a :: p) ((a :: p) ++ rest) = true) as Hp by (apply is_prefix_spec; by eexists).
  revert Hp. generalize ((a :: p) ++ rest) as r. intros r Hp.
  induction s as [|c s IH]; intros Ha.
  - destruct r; cbn [app find_text]; by rewrite Hp.
  - apply not_elem_of_cons in Ha as [Hc Hs]. cbn [app find_text is_prefix].
    rewrite (proj2 (Z.eqb_neq a c)) by done. cbn [andb]. by rewrite (IH Hs).
Qed.
Lemma find_from_here a p pre s rest : a ∉ s →
  find_from (a :: p) (pre ++ s ++ (a :: p) ++ rest) (length pre) = Some (length pre + length s)%nat.
Proof.
  intros Ha. unfold find_from. rewrite decide_True by (rewrite length_app; lia).
  by rewrite drop_app_length, find_text_here.
Qed.
Lemma extend_template (f : text → text) func pre l last fuel count :
  Forall (λ p, dollar ∉ p.1 ∧ close ∉ p.2 ∧ func p.2 = Some (f p.2)) l → dollar ∉ last → (length l < fuel)%nat →
  extend_loop (text_of "$(") (text_of ")") func fuel (pre ++ template l last) (length pre) count =
  Some (bool_decide (0 < count + length l)%nat, pre ++ substituted f l last).
Proof.
  intros Hl Hlast. revert pre fuel count. induction Hl as [|[seg name] l (Hs&Hn&Hf) _ IH]; intros pre [|fuel] count Hfuel;
    cbn [template substituted length extend_loop] in *; try lia.
  - unfold internal_extend, find_from. rewrite decide_True by (rewrite length_app; lia).
    rewrite drop_app_length, find_text_none by done. by rewrite Nat.add_0_r.
  - cbn [fst snd] in *. unfold internal_extend. change (text_of "$(") with [dollar; paren] in *. change (text_of ")") with [close] in *.
    rewrite (find_from_here dollar [paren] pre seg) by done.
    replace (find_from [close] _ _) with (Some (length (pre ++ seg) + length (dollar :: paren :: name))%nat).
    2: { replace (pre ++ seg ++ [dollar; paren] ++ name ++ [close] ++ template l last)
          with ((pre ++ seg) ++ (dollar :: paren :: name) ++ [close] ++ template l last) by (by rewrite <-!app_assoc).
         rewrite <-(length_app pre seg), find_from_here; [done|].
         rewrite !not_elem_of_cons. by split_and!. }
    replace (drop (length pre + length seg + length [dollar; paren]) (pre ++ seg ++ [dollar; paren] ++ name ++ [close] ++ template l last))
      with (name ++ [close] ++ template l last).
    2: { rewrite (app_assoc pre), <-length_app, <-drop_drop, drop_app_length. done. }
    replace (take _ (name ++ _)) with name.
    2: { rewrite take_app_length'; [done|]. rewrite length_app. simpl. lia. }
    rewrite Hf.
    replace (take _ _) with (pre ++ seg) by (by rewrite (app_assoc pre), <-length_app, take_app_length).
    replace (drop _ _) with (template l last).
    2: { replace (pre ++ seg ++ [dollar; paren] ++ name ++ [close] ++ template l last)
          with ((pre ++ seg ++ [dollar; paren] ++ name ++ [close]) ++ template l last) by (by rewrite <-!app_assoc).
         rewrite drop_app_length'; [done|]. rewrite !length_app. simpl. lia. }
    replace (length pre + length seg + length (f name))%nat with (length (pre ++ seg ++ f name)) by (rewrite !length_app; lia).
    specialize (IH (pre ++ seg ++ f name) fuel (S count)).
    replace ((pre ++ seg) ++ f name ++ template l last) with ((pre ++ seg ++ f name) ++ template l last) by (by rewrite <-!app_assoc).
    rewrite IH by lia. rewrite <-!app_assoc. do 2 f_equal. apply bool_decide_ext. lia.
Qed.
Lemma extend_all_template (f : text → text) func l last :
  l ≠ [] → Forall (λ p, dollar ∉ p.1 ∧ close ∉ p.2 ∧ func p.2 = Some (f p.2)) l → dollar ∉ last →
  extend_all (text_of "$(") (text_of ")") func (template l last) = (true, substituted f l last).
Proof.
  intros Hne Hl Hlast. unfold extend_all.
  rewrite (extend_template f func [] l last) by (done || (clear; induction l as [|[seg name] l IH]; simpl; rewrite ?length_app; simpl in *; rewrite ?length_app; simpl; lia)).
  simpl. destruct l; [done|]. done.
Qed.

(** ** Documents without shared attributes, properties or imports *)
Lemma ptree_induction (P : ptree → Prop) : (∀ s cs, Forall (λ p, P p.2) cs → P (Tree s cs)) → ∀ d, P d.
Proof.
  intros Hp. fix IH 1. intros [s cs]. apply Hp. induction cs as [|[k c] cs IHcs]; constructor; [apply IH|done].
Qed.
Fixpoint nodes (d : ptree) : nat := match d with Tree _ cs => S (sum_list (map (λ p, nodes p.2) cs)) end.
Inductive no_using : ptree → Prop :=
| no_using_tree s cs : Forall (λ p, p.1 ≠ using_attr ∧ no_using p.2) cs → no_using (Tree s cs).
Definition no_imports (d : ptree) : Prop :=
  Forall (λ p, p.1 ≠ property_group ∧ p.1 ≠ import_key) (pt_children d).
Lemma using_attr_simple : simple using_attr.
Proof. by eapply bool_decide_unpack; vm_compute. Qed.
Lemma xmlattr_simple : simple xmlattr.
Proof. by eapply bool_decide_unpack; vm_compute. Qed.
Lemma node_at_app p q d : node_at (p ++ q) d = c ← node_at p d; node_at q c.
Proof. revert d. induction p as [|i p IH]; intros d; csimpl; [done|]. destruct (_ !! i); csimpl; [apply IH|done]. Qed.
Lemma alter_at_same p d c : node_at p d = Some c → alter_at (λ _, c) p d = d.
Proof.
  revert d. induction p as [|i p IH]; intros [s cs] Hc; csimpl in *; [by simplify_eq|].
  destruct (cs !! i) as [[k c']|] eqn:E; csimpl in *; [|done]. unfold alter_child. simpl. f_equal.
  apply list_eq. intros j.
  destruct (decide (i = j)) as [<-|Hj]; [|by rewrite list_lookup_alter_ne].
  rewrite list_lookup_alter_eq, E. csimpl. by rewrite (IH c' Hc).
Qed.
Section loading.
Context `{TreePathsLaws}.
Lemma find_unique k c pre post s : k ∉ pre.*1 → k ∉ post.*1 →
  pt_find k (Tree s (pre ++ (k, c) :: post)) = Some (length pre).
Proof.
  intros Hpre Hpost. destruct (pt_find k _) as [i|] eqn:E.
  - apply find_child in E. simpl in E. f_equal.
    destruct (decide (i < length pre)%nat) as [Hi|Hi].
    { rewrite lookup_app_l in E by done. apply fmap_Some in E as (p&Hp&->). destruct Hpre.
      apply list_elem_of_fmap. exists p. split; [done|]. by eapply list_elem_of_lookup_2. }
    rewrite lookup_app_r in E by lia. destruct (i - length pre)%nat as [|j] eqn:Ej; [lia|]. simpl in E.
    apply fmap_Some in E as (p&Hp&->). destruct Hpost.
    apply list_elem_of_fmap. exists p. split; [done|]. by eapply list_elem_of_lookup_2.
  - apply find_no_child in E. destruct E. simpl. rewrite fmap_app. csimpl. set_solver.
Qed.
Lemma find_head k c post s : k ∉ post.*1 → pt_find k (Tree s ((k, c) :: post)) = Some 0%nat.
Proof. intros Hk. apply (find_unique k c [] post s); [|done]. by apply not_elem_of_nil. Qed.
Lemma walk_one k d : simple k → walk k d = (λ i, [i]) <$> pt_find k d.
Proof.
  intros Hk. assert (walk (path_of [k]) d = walk_keys [k] d) as Hw by (by apply walk_at; [|constructor]).
  simpl in Hw. rewrite Hw. destruct (pt_find k d) as [i|] eqn:E; [|done]. csimpl.
  apply find_child in E. by destruct (pt_children d !! i).
Qed.
Lemma walk_missing k d : simple k → k ∉ (pt_children d).*1 → walk k d = None.
Proof. intros Hk Hd. rewrite walk_one by done. apply find_no_child in Hd. by rewrite Hd. Qed.

Lemma no_using_keys d : no_using d → using_attr ∉ (pt_children d).*1.
Proof.
  intros [s cs Hcs] (p&Hp&Hin)%list_elem_of_fmap. simpl in Hin. eapply Forall_forall in Hcs; [|done]. by destruct Hcs.
Qed.
Lemma parse_using_plain r d : no_using d → ∀ root path pre rest fuel,
  node_at path root = Some d → pt_children d = pre ++ rest → (sum_list (map (λ p, nodes p.2) rest) < fuel)%nat →
  parse_using fuel r path (length pre) root = Done root.
Proof.
  induction d as [s cs IH] using ptree_induction. intros Hd root path pre rest fuel Hat. cbn [pt_children]. intros ->.
  revert pre fuel IH Hd Hat. induction rest as [|[k c] rest IHrest]; intros pre [|fuel] IH Hd Hat Hf; simpl in Hf; try lia.
  - cbn [parse_using]. rewrite Hat. csimpl. rewrite app_nil_r, lookup_ge_None_2 by lia. done.
  - cbn [parse_using]. rewrite Hat. cbn [mbind outcome_bind or_undefined pt_children]. rewrite list_lookup_middle by done.
    inversion Hd as [? ? Hcs]; subst.
    assert (k ≠ using_attr ∧ no_using c) as [Hk Hc] by (apply Forall_app in Hcs as [_ Hcs]; by apply Forall_cons in Hcs as [? _]).
    assert (∀ fuel, (sum_list (map (λ p, nodes p.2) rest) < fuel)%nat →
      parse_using fuel r path (S (length pre)) root = Done root) as Hnext.
    { intros fuel' Hf'. replace (S (length pre)) with (length (pre ++ [(k, c)])) by (rewrite length_app; simpl; lia).
      apply IHrest; by rewrite <-?app_assoc. }
    rewrite bool_decide_eq_false_2 by done.
    case_bool_decide; [|].
    + unfold data_at. rewrite walk_missing by auto using using_attr_simple, no_using_keys.
      apply Hnext. destruct c; simpl in *; lia.
    + apply Forall_app in IH as [_ IH]. apply Forall_cons in IH as [IH _]. destruct c as [s' cs'].
      rewrite (IH Hc root (path ++ [length pre]) [] cs').
      * apply Hnext. simpl in *; lia.
      * rewrite node_at_app, Hat. csimpl. by rewrite list_lookup_middle.
      * done.
      * simpl in *. lia.
Qed.
Context (read_file : bool → text → option ptree).
Lemma init_loop_plain r ww tmp pre rest fuel : node_at [0%nat] (pt_ r) = Some tmp → no_imports tmp →
  pt_children tmp = pre ++ rest → (length rest < fuel)%nat →
  init_loop read_file fuel ww (length pre) r = Done r.
Proof.
  intros Hat Hno Hc. revert pre fuel Hc. induction rest as [|[k c] rest IH]; intros pre [|fuel] Hc Hf; simpl in Hf; try lia.
  - cbn [init_loop]. rewrite Hat. cbn [mbind outcome_bind or_undefined].
    rewrite Hc, app_nil_r, lookup_ge_None_2 by lia. done.
  - cbn [init_loop]. rewrite Hat. cbn [mbind outcome_bind or_undefined]. rewrite Hc, list_lookup_middle by done.
    assert (k ≠ property_group ∧ k ≠ import_key) as [H1 H2].
    { unfold no_imports in Hno. rewrite Hc in Hno. apply Forall_app in Hno as [_ Hno]. by apply Forall_cons in Hno as [? _]. }
    rewrite !bool_decide_eq_false_2 by done.
    replace (S (length pre)) with (length (pre ++ [(k, c)])) by (rewrite length_app; simpl; lia).
    apply IH; [by rewrite <-app_assoc|lia].
Qed.
(** [init] leaves such a document as it is. *)
Lemma init_plain fuel ww r k d : pt_ r = Tree [] [(k, d)] → no_using (pt_ r) → no_imports d →
  (nodes d < fuel)%nat → init read_file fuel ww r = Done r.
Proof.
  intros Hd Hu Hi Hf. unfold init. rewrite Hd in *. cbn [pt_children].
  rewrite (parse_using_plain r _ Hu _ [] [] [(k, d)]); [|done..|simpl; lia].
  cbn [mbind outcome_bind]. destruct r as [root ps ds]. simpl in Hd. subst root.
  apply (init_loop_plain _ ww d [] (pt_children d)); [done..|].
  destruct d as [s cs]. simpl in *. enough (length cs ≤ sum_list (map (λ p, nodes p.2) cs))%nat by lia.
  clear. induction cs as [|[k [s' cs']] cs IH]; simpl; lia.
Qed.
End loading.

(** ** The documents that are written *)
Definition attributes (cs : list (text * ptree)) : Prop :=
  cs = [] ∨ ∃ k, cs = [(xmlattr, Tree [] [(attr_name, Tree k [])])] ∧ printable k = true.
(** A tree XML gives back: its texts are clean, the names of its elements are names,
    and a node has a text or elements. *)
Inductive clean : ptree → Prop :=
| clean_tree s at_ cs : clean_text s = true → attributes at_ → s = [] ∨ cs = [] →
    Forall (λ p, (plain_key p.1 = true ∨ p.1 = at_key) ∧ clean p.2) cs → clean (Tree s (at_ ++ cs)).

Lemma plain_key_not k k' : plain_key k = true → plain_key k' = false → k ≠ k'.
Proof. congruence. Qed.
Lemma at_key_not_plain : plain_key at_key = false.
Proof. by vm_compute. Qed.
Lemma plus_plain : plain_key plus = true.
Proof. by vm_compute. Qed.
Lemma plus_not_xmlattr : plus ≠ xmlattr.
Proof. apply plain_key_not; by vm_compute. Qed.
Lemma place_empty d : place pt_empty d = d.
Proof. by destruct d. Qed.

Section reading.
Context `{TreePathsLaws}.
Context (format_number : num → Z → text) (lexical_cast : num → text → option Z) (lexical_bool : text → option bool)
  (value_number : num → Z → text) (get_number : num → text → option Z)
  (value_bool : bool → text) (get_bool : text → option bool) (split : text → text → list text)
  (enums : enum_factory) (enum_with_str_ : bool).
Hypothesis format_ok : ∀ s z, num_key s = true → num_range s z →
  text_ok (format_number s z) ∧ lexical_cast s (format_number s z) = Some z.
Hypothesis number_ok : ∀ s z, num_key s = true → num_range s z →
  clean_text (value_number s z) = true ∧ value_number s z ≠ [] ∧ get_number s (value_number s z) = Some z.
Hypothesis bool_ok : ∀ b, clean_text (value_bool b) = true ∧ value_bool b ≠ [] ∧ get_bool (value_bool b) = Some b.
Notation xml_value := (xml_value format_number lexical_cast enums enum_with_str_).
Notation key_fits := (key_fits format_number lexical_cast enums enum_with_str_).
Notation key_text := (key_text format_number enums enum_with_str_).
Notation value_text := (value_text value_number value_bool enums enum_with_str_).
Notation tree_of := (tree_of format_number value_number value_bool enums enum_with_str_).
Notation xml_read := (xml_read lexical_cast lexical_bool get_number get_bool split enums enum_with_str_).

(** *** They are clean *)
Lemma value_text_clean bo t v s : is_scalar t = true → xml_type bo t = true → xml_value t v →
  value_text t v = Some s → clean_text s = true.
Proof.
  intros Hs Ht Hv Hx. destruct t, v; simpl in *; try done.
  - injection Hx as <-. by apply number_ok.
  - injection Hx as <-. apply bool_ok.
  - destruct Hv as (Hz&Hn&Hu). destruct enum_with_str_.
    + destruct Hn as (n&Hn1&_&Hn2&_); [done|]. rewrite Hn1 in Hx. by injection Hx as <-.
    + injection Hx as <-. apply number_ok; auto.
  - by injection Hx as <-.
  - injection Hx as <-. destruct Hv as [Hc _]. by rewrite c_text_ok by by apply clean_text_ok.
Qed.
Lemma tree_of_scalar t v : is_scalar t = true → tree_of t v = Tree (default [] (value_text t v)) [].
Proof. by destruct t, v. Qed.
Definition plain_entry (p : text * ptree) : Prop := (plain_key p.1 = true ∨ p.1 = at_key) ∧ clean p.2.
Lemma clean_elements s cs : clean_text s = true → s = [] ∨ cs = [] → Forall plain_entry cs → clean (Tree s cs).
Proof. intros. apply (clean_tree _ []); [done|by left|done..]. Qed.
(** A tree can be put below an attribute. *)
Lemma clean_place k t v : printable k = true → (is_scalar t = true ∨ full_struct t = true) →
  Forall plain_entry (pt_children (tree_of t v)) → clean (tree_of t v) → clean (place (attr_of k) (tree_of t v)).
Proof.
  intros Hk Ht Hp Hc. unfold place, attr_of. cbn [pt_children].
  apply (clean_tree _ [_]); [by destruct Hc|right; by exists k| |done].
  destruct Ht as [Ht|Ht]; [rewrite tree_of_scalar by done; by right|]. left. destruct t; try done. by destruct v.
Qed.
Lemma member_clean t v k : clean (tree_of t v) ∧ Forall plain_entry (pt_children (tree_of t v)) →
  (plain_key k = true ∨ contains_chars k special_chars = true ∧ printable k = true ∧
   (is_scalar t = true ∨ full_struct t = true)) → plain_entry (member k (tree_of t v)).
Proof.
  intros [Hc Hp] [Hk|(Hs&Hk&Ht)]; unfold member, plain_entry.
  - rewrite (proj2 (plain_key_simple _ Hk)). auto.
  - rewrite Hs. simpl. split; [by right|]. by apply clean_place.
Qed.
Let cleans (t : jty) : Prop := ∀ bo v, xml_type bo t = true → xml_value t v →
  clean (tree_of t v) ∧ Forall plain_entry (pt_children (tree_of t v)).
Lemma object_clean cs : Forall plain_entry cs → clean (Tree [] cs) ∧ Forall plain_entry (pt_children (Tree [] cs)).
Proof. intros Hcs. split; [|done]. by apply clean_elements; [|left|]. Qed.
Lemma zip_clean {A} (g : A → val → list (text * ptree)) (P : A → val → Prop) l vs :
  Forall (λ a, ∀ v, P a v → Forall plain_entry (g a v)) l → all2 (map P l) vs →
  Forall plain_entry (zip_apply (map g l) vs).
Proof.
  intros Hl. revert vs. induction Hl as [|a l Ha _ IH]; intros [|v vs] Hvs; simpl in Hvs; try done.
  unfold zip_apply. csimpl. apply Forall_app. split; [apply Ha, Hvs|apply IH, Hvs].
Qed.
Lemma forallb_map {A} (f : A → bool) l a : forallb id (map f l) = true → a ∈ l → f a = true.
Proof.
  rewrite forallb_forall. intros Hf Ha. apply (Hf (f a)). apply in_map_iff. exists a. split; [done|by apply list_elem_of_In].
Qed.
Lemma tree_of_clean t : cleans t.
Proof.
  induction t as [s| |i s| |n|t IH|t IH|k w _ IH|k w _ IH|t IH|n t IH|fs IH|ts IH] using jty_induction;
    intros bo v Ht Hv.
  1-5: rewrite tree_of_scalar by done; cbn [pt_children]; (split; [|by apply Forall_nil]); apply clean_elements; [|by right|by apply Forall_nil];
    destruct (value_text _ v) eqn:E; [by refine (value_text_clean bo _ v _ _ Ht Hv E)|done].
  - destruct v; try done. simpl in *. apply andb_true_iff in Ht as [_ Ht]. apply object_clean, Forall_map, Forall_map.
    eapply Forall_impl; [exact Hv|]. intros v [_ Hv']. split; [left; apply plus_plain|]. by eapply IH.
  - destruct v; try done. simpl in *. apply andb_true_iff in Ht as [_ Ht]. apply object_clean, Forall_map, Forall_map.
    eapply Forall_impl; [exact (proj1 Hv)|]. intros v [_ Hv']. split; [left; apply plus_plain|]. by eapply IH.
  - destruct v; try done. simpl in *. apply andb_true_iff in Ht as [_ Ht]. apply object_clean, Forall_map.
    eapply Forall_impl; [exact (proj1 Hv)|]. intros p [[_ Hk] Hp]. apply member_clean; [by eapply IH|naive_solver].
  - destruct v; try done. simpl in *. apply andb_true_iff in Ht as [_ Ht]. apply object_clean.
    constructor; [|constructor]. destruct Hv as [[_ Hk] Hb]. apply member_clean; [by eapply IH|naive_solver].
  - simpl in Ht. apply andb_true_iff in Ht as [_ Ht]. destruct v; try done; [|by eapply IH].
    by apply object_clean, Forall_nil.
  - destruct v; try done. simpl in *. apply andb_true_iff in Ht as [_ Ht]. apply object_clean, Forall_map, Forall_map.
    eapply Forall_impl; [exact (proj2 Hv)|]. intros v [_ Hv']. split; [left; apply plus_plain|]. by eapply IH.
  - destruct v; try done. simpl in *. apply andb_true_iff in Ht as [[_ Hk]%andb_true_iff Ht]. apply object_clean.
    eapply (zip_clean _ (λ f, xml_value f.2)); [|done].
    apply Forall_forall. intros f Hf v Hv'. destruct (absent f.2 v); [constructor|]. constructor; [|constructor].
    rewrite forallb_forall in Hk. split; [left; apply Hk, in_map_iff; exists f; split; [done|by apply list_elem_of_In]|].
    eapply Forall_forall in IH; [|done]. eapply IH; [|done]. by apply (forallb_map _ _ f Ht).
  - destruct v; try done. simpl in *. apply andb_true_iff in Ht as [_ Ht]. apply object_clean, Forall_map.
    revert l Hv. induction IH as [|t ts Htt _ IHts]; intros [|v l] Hv; simpl in *; try done.
    apply andb_true_iff in Ht as [[_ Ht]%andb_true_iff Hts]. destruct Hv as [[_ Hv] Hvs].
    unfold zip_apply. csimpl. constructor; [|by apply IHts]. split; [left; apply plus_plain|]. by eapply Htt.
Qed.

(** *** They are read *)
Context (r : reader).
Hypothesis no_properties : ∀ k, extend_func r k = None.

Lemma extended_none s : (extended r s).1 = false.
Proof. by apply extend_nothing. Qed.
Lemma read_string_data d : read_string r d = pt_data d.
Proof. unfold read_string. pose proof (extended_none (pt_data d)) as He. by destruct (extended r _) as [[] ?]. Qed.
Lemma read_number_data n d : read_number lexical_cast get_number r n d = get_number n (pt_data d).
Proof. unfold read_number. pose proof (extended_none (pt_data d)) as He. by destruct (extended r _) as [[] ?]. Qed.
Lemma read_bool_data d : read_bool get_bool r d = get_bool (pt_data d).
Proof. unfold read_bool. pose proof (extended_none (pt_data d)) as He. by destruct (extended r _) as [[] ?]. Qed.

Lemma entry_not_xmlattr cs : Forall plain_entry cs → xmlattr ∉ cs.*1.
Proof.
  intros Hcs (p&Hp&Hin)%list_elem_of_fmap. eapply Forall_forall in Hcs; [|done].
  destruct Hcs as [[Hk|Hk] _]; rewrite <-Hp in Hk; by vm_compute in Hk.
Qed.
Lemma process_elements t cs : process_array_of split t (Tree [] cs) = Def (Tree [] cs).
Proof. unfold process_array_of. by destruct (splits t). Qed.
Lemma read_elements (f : ptree → ub (option (val * ptree))) (g : val → ptree) insert l t :
  (∀ v, v ∈ l → f (g v) = Def (Some (v, g v))) →
  xread_array f insert (map (pair plus) (map g l)) t =
  Def (Some (foldl (λ t v, insert v t) t l, map (pair plus) (map g l))).
Proof.
  revert t. induction l as [|v l IH]; intros t Hf; simpl; [done|].
  unfold is_valid. simpl. rewrite bool_decide_eq_false_2 by apply plus_not_xmlattr. simpl.
  rewrite Hf by set_solver. simpl. rewrite IH by set_solver. done.
Qed.
Lemma read_fixed_elements (f : val → ptree → ub (option (val * ptree))) (g : val → ptree) d l :
  (∀ v, v ∈ l → f d (g v) = Def (Some (v, g v))) →
  xread_fixed f (map (pair plus) (map g l)) (replicate (length l) d) = Def (Some (l, map (pair plus) (map g l))).
Proof.
  induction l as [|v l IH]; intros Hf; simpl; [done|].
  unfold is_valid. simpl. rewrite bool_decide_eq_false_2 by apply plus_not_xmlattr. simpl.
  rewrite Hf by set_solver. simpl. rewrite IH by set_solver. done.
Qed.
Lemma read_entries (f : text * ptree → ub (option (val * val * ptree))) (g : val * val → text * ptree) l t :
  (∀ p, p ∈ l → f (g p) = Def (Some (p.1, p.2, (g p).2))) →
  xread_map f (map g l) t = Def (Some (foldl (λ t p, map_assign p.1 p.2 t) t l, map g l)).
Proof.
  revert t. induction l as [|p l IH]; intros t Hf; simpl; [done|].
  rewrite Hf by set_solver. simpl. rewrite IH by set_solver. by destruct (g p).
Qed.
(** The key of a member, in its element's name or its attribute. *)
Lemma first_member k d :
  plain_key k = true ∨ contains_chars k special_chars = true → xmlattr ∉ (pt_children d).*1 →
  first (member k d) = k.
Proof.
  intros Hk Hd. unfold member. destruct (contains_chars k special_chars) eqn:E.
  - unfold first. cbn [fst snd]. rewrite bool_decide_eq_true_2 by done. unfold data_at.
    rewrite walk_at; [|done|by eapply bool_decide_unpack; vm_compute].
    cbn [walk_keys]. unfold place, attr_of. cbn [pt_children pt_data app].
    rewrite find_head by done. csimpl.
    by rewrite find_head by by apply not_elem_of_nil.
  - destruct Hk as [Hk|?]; [|done]. unfold first. cbn [fst snd].
    rewrite bool_decide_eq_false_2 by (apply plain_key_not; [done|apply at_key_not_plain]).
    case_bool_decide; [|done]. unfold data_at.
    rewrite walk_at; [|done|by eapply bool_decide_unpack; vm_compute].
    cbn [walk_keys]. apply find_no_child in Hd. by rewrite Hd.
Qed.
(** A member by its name, below an attribute or not. *)
Lemma get_member_unique name c X pre post : (X = pt_empty ∨ ∃ k, X = attr_of k) → name ≠ xmlattr →
  name ∉ pre.*1 → name ∉ post.*1 →
  ∃ i, get_member name (place X (Tree [] (pre ++ (name, c) :: post))) = Some [i] ∧
    node_at [i] (place X (Tree [] (pre ++ (name, c) :: post))) = Some c.
Proof.
  intros HX Hn Hpre Hpost. unfold place, get_member. cbn [pt_data pt_children]. rewrite app_assoc.
  rewrite find_unique; [| |done].
  - eexists. split; [done|]. csimpl. by rewrite list_lookup_middle.
  - destruct HX as [->|[k ->]]; [done|]. set_solver.
Qed.
Lemma get_member_missing name cs s : name ∉ cs.*1 → xmlattr ∉ cs.*1 → get_member name (Tree s cs) = None.
Proof.
  intros Hc Hx. unfold get_member. rewrite (proj2 (find_no_child name _)) by done.
  by rewrite walk_missing by auto using xmlattr_simple.
Qed.
Definition above (t : jty) (X : ptree) : Prop :=
  X = pt_empty ∨ (∃ k, X = attr_of k) ∧ (is_scalar t = true ∨ full_struct t = true).
Let reads (t : jty) : Prop := ∀ bo v X, xml_type bo t = true → xml_value t v → absent t v = false → above t X →
  xml_read r bo t (json_default t) (place X (tree_of t v)) = Def (Some (v, place X (tree_of t v))).
Definition members (fs : list (text * jty)) (l : list val) : list (text * ptree) :=
  zip_apply (map (λ f v, if absent f.2 v then [] else [(f.1, tree_of f.2 v)]) fs) l.
Lemma members_cons name t fs v l :
  members ((name, t) :: fs) (v :: l) = (if absent t v then [] else [(name, tree_of t v)]) ++ members fs l.
Proof. done. Qed.
Lemma members_keys fs l k : k ∈ (members fs l).*1 → k ∈ fs.*1.
Proof.
  revert l. induction fs as [|[name t] fs IH]; intros [|v l]; try (intros Hk; by apply not_elem_of_nil in Hk).
  rewrite members_cons, fmap_app, elem_of_app. csimpl. rewrite elem_of_cons. intros [Hk|Hk]; [|right; by apply (IH l)].
  left. destruct (absent t v); [by apply not_elem_of_nil in Hk|]. by apply list_elem_of_singleton in Hk.
Qed.
Lemma names_not_xmlattr (ns : list text) k : forallb plain_key ns = true → k ∈ ns → k ≠ xmlattr.
Proof.
  rewrite forallb_forall. intros Hp Hk%list_elem_of_In. apply Hp in Hk. apply plain_key_not; [done|by vm_compute].
Qed.
Lemma names_middle (pre post : list text) name : NoDup (pre ++ name :: post) → forallb plain_key (pre ++ name :: post) = true →
  name ≠ xmlattr ∧ name ∉ pre ∧ name ∉ post ∧ NoDup (pre ++ post) ∧ forallb plain_key (pre ++ post) = true.
Proof.
  intros Hnd Hp. pose proof (names_not_xmlattr _ name Hp) as Hx. rewrite <-Permutation_middle in Hnd, Hx.
  rewrite forallb_app in Hp. simpl in Hp. apply andb_true_iff in Hp as [Hp1 [_ Hp2]%andb_true_iff].
  apply NoDup_cons in Hnd as [Hn Hnd]. rewrite elem_of_app in Hn. rewrite forallb_app, Hp1, Hp2.
  split_and!; try tauto. apply Hx. by left.
Qed.
Lemma xml_members_read fs l X pre :
  Forall (λ f, reads f.2) fs → NoDup (pre.*1 ++ fs.*1) → forallb plain_key (pre.*1 ++ fs.*1) = true →
  forallb id (map (λ f, xml_type true f.2) fs) = true → all2 (map (λ f, xml_value f.2) fs) l →
  (X = pt_empty ∨ (∃ k, X = attr_of k) ∧ forallb (λ f, negb (is_optional f.2)) fs = true) →
  let d := place X (Tree [] (pre ++ members fs l)) in
  xread_members (map (λ f, (f.1, xml_read r true f.2)) fs) (map (λ f, json_default f.2) fs) d = Def (Some (l, d)).
Proof.
  intros IH. revert l pre. induction IH as [|[name t] fs Ht IH IHfs]; intros [|v l] pre Hnd Hp Hty Hv HX d; simpl in Hv; try done.
  destruct Hv as [Hv Hl]. cbn [map forallb fst snd] in Hty, HX. apply andb_true_iff in Hty as [Hty Htys]. csimpl in Hnd; csimpl in Hp.
  destruct (names_middle _ _ _ Hnd Hp) as (Hx&Hpre&Hfs&Hnd'&Hp').
  assert (name ∉ (members fs l).*1) as Hpost by (by intros ?%members_keys).
  assert (X = pt_empty ∨ (∃ k, X = attr_of k) ∧ forallb (λ f, negb (is_optional f.2)) fs = true) as HX'.
  { destruct HX as [?|[? Ho]]; [by left|right]. split; [done|]. by apply andb_true_iff in Ho as [_ Ho]. }
  cbn [map xread_members fst snd]. destruct (absent t v) eqn:Ha.
  - assert (v = json_default t) as -> by (by destruct t, v).
    assert (X = pt_empty) as ->.
    { destruct HX as [?|[_ Ho]]; [done|]. apply andb_true_iff in Ho as [Ho _]. by destruct t. }
    specialize (IHfs l pre Hnd' Hp' Htys Hl HX').
    subst d. rewrite members_cons, Ha. cbn [app]. rewrite place_empty in *. rewrite get_member_missing.
    + simpl. simpl in IHfs. by rewrite IHfs.
    + rewrite fmap_app. rewrite elem_of_app. tauto.
    + rewrite fmap_app, elem_of_app. intros [Hk|Hk%members_keys];
        (eapply names_not_xmlattr; [exact Hp'| |done]); apply elem_of_app; tauto.
  - specialize (IHfs l (pre ++ [(name, tree_of t v)])).
    subst d. rewrite members_cons, Ha. cbn [app].
    destruct (get_member_unique name (tree_of t v) X pre (members fs l)) as (i&->&Hi); [naive_solver|done..|].
    rewrite Hi. specialize (Ht true v pt_empty Hty Hv Ha (or_introl eq_refl)). rewrite place_empty in Ht.
    simpl in Ht. rewrite Ht. simpl. rewrite (alter_at_same [i] _ _ Hi : alter_child _ i _ = _).
    rewrite <-app_assoc in IHfs. simpl in IHfs. rewrite IHfs; [done|..|done|done|done]; rewrite fmap_app, <-app_assoc; done.
Qed.
Lemma xml_tuple_read ts l pre : Forall reads ts →
  forallb id (map (λ t, negb (is_optional t) && xml_type true t) ts) = true →
  all2 (map (λ t v, v ≠ V_str [] ∧ xml_value t v) ts) l →
  let d := Tree [] (map (pair plus) (pre ++ zip_apply (map (λ t v, [tree_of t v]) ts) l)) in
  xread_tuple split (map (λ t, (t, xml_read r true t)) ts) (map json_default ts) (length pre) d = Def (Some (l, d)).
Proof.
  intros IH. revert l pre. induction IH as [|t ts Ht IH IHts]; intros [|v l] pre Hty Hv d; simpl in Hv; try done.
  destruct Hv as [[_ Hv] Hl]. cbn [map forallb] in Hty. apply andb_true_iff in Hty as [[Ho Hty]%andb_true_iff Htys].
  specialize (IHts l (pre ++ [tree_of t v]) Htys Hl). cbv zeta in IHts.
  rewrite <-app_assoc, length_app, Nat.add_1_r in IHts.
  assert (absent t v = false) as Ha by (by destruct t).
  specialize (Ht true v pt_empty Hty Hv Ha (or_introl eq_refl)). rewrite place_empty in Ht.
  cbn [map xread_tuple]. subst d. change (zip_apply (map _ (t :: ts)) (v :: l)) with
    ([tree_of t v] ++ zip_apply (map (λ t v, [tree_of t v]) ts) l).
  set (d := Tree [] _) in *.
  assert ((if bool_decide (length pre = 0%nat) then process_array_of split t d else Def d) = Def d) as ->
    by (case_bool_decide; [apply process_elements|done]).
  assert (pt_children d !! length pre = Some (plus, tree_of t v)) as Hd.
  { subst d. cbn [pt_children]. rewrite map_app. cbn [app map]. rewrite list_lookup_middle; [done|by rewrite length_map]. }
  assert (node_at [length pre] d = Some (tree_of t v)) as Hi by (cbn [node_at]; by rewrite Hd).
  cbn [mbind ub_bind]. rewrite Hd. cbn [snd]. rewrite Ht. cbn [exc_bind mbind ub_bind].
  rewrite (alter_at_same [length pre] _ _ Hi). cbn [app] in IHts |- *. by rewrite IHts.
Qed.
Lemma key_read k w v single : map_key k = true → key_fits single k w v →
  cast_key lexical_cast enums k (key_text k v) = Some v ∧
  (plain_key (key_text k v) = true ∨ contains_chars (key_text k v) special_chars = true).
Proof.
  intros Hk [Hh Hp]. split; [|tauto].
  rewrite <-(c_text_ok (key_text k v)) by (eapply key_text_ok; eauto). eapply cast_key_text; eauto.
Qed.
Lemma pair_key_read k w v single : pair_key k = true → key_fits single k w v →
  lexical_key lexical_cast lexical_bool k (key_text k v) = Some v ∧
  (plain_key (key_text k v) = true ∨ contains_chars (key_text k v) special_chars = true).
Proof.
  intros Hk [Hh Hp]. split; [|tauto].
  rewrite <-(c_text_ok (key_text k v)) by (eapply key_text_ok; eauto; by destruct k). eapply lexical_key_text; eauto.
Qed.
(** A member, read below its attribute if it has one. *)
Lemma read_member k t v : reads t → xml_type true t = true → xml_value t v → is_optional t = false →
  (plain_key k = true ∨ contains_chars k special_chars = true ∧ printable k = true ∧
   (is_scalar t = true ∨ full_struct t = true)) → ∀ bo, xml_type bo t = true →
  xml_read r bo t (json_default t) (member k (tree_of t v)).2 = Def (Some (v, (member k (tree_of t v)).2)).
Proof.
  intros Ht Hty Hv Ho Hk bo Hbo. assert (absent t v = false) as Ha by (by destruct t).
  unfold member. destruct (contains_chars k special_chars) eqn:E; cbn [snd].
  - apply Ht; [done..|]. right. split; [by eexists|]. destruct Hk as [Hk|?]; [|tauto].
    apply plain_key_simple in Hk as [_ Hk]. congruence.
  - pose proof (Ht bo v pt_empty Hbo Hv Ha (or_introl eq_refl)) as Hr. by rewrite place_empty in Hr.
Qed.
Lemma read_nothing (fs : list (text * (val → ptree → ub (option (val * ptree))))) t d :
  pt_children d = [] → length t = length fs → xread_members fs t d = Def (Some (t, d)).
Proof.
  intros Hd. revert t. induction fs as [|[name f] fs IH]; intros [|v t] Ht; try done.
  destruct d as [s cs]. simpl in Hd. subst cs. injection Ht as Ht. cbn [xread_members].
  rewrite get_member_missing by by apply not_elem_of_nil. simpl. by rewrite IH.
Qed.
Lemma above_empty t X : is_scalar t = false → full_struct t = false → above t X → X = pt_empty.
Proof. intros Hs Hf [?|[_ [?|?]]]; [done|congruence..]. Qed.
Lemma read_scalar bo t v X : is_scalar t = true → xml_type bo t = true → xml_value t v →
  xml_read r bo t (json_default t) (place X (tree_of t v)) = Def (Some (v, place X (tree_of t v))).
Proof.
  intros Hs Ht Hv. rewrite tree_of_scalar by done. unfold place. cbn [pt_data pt_children].
  destruct t, v; try done; cbn [Xml.xml_read Ptree.value_text default]; simpl in Ht, Hv.
  - rewrite read_number_data. simpl. destruct (number_ok s z) as (_&_&->); done.
  - rewrite read_bool_data. simpl. destruct (bool_ok (negb (z =? 0))) as (_&_&->). by destruct Hv as [->| ->].
  - destruct Hv as (Hz&Hn&Hu). destruct enum_with_str_ eqn:Ee.
    + destruct Hn as (n&Hn&_&_&Hc); [done|]. rewrite Hn, read_string_data. simpl. by rewrite Hc.
    + rewrite read_number_data. simpl. destruct (number_ok under z) as (_&_&->); auto.
  - by rewrite read_string_data.
  - destruct Hv as [Hc Hl]. rewrite read_string_data. simpl. pose proof (clean_text_ok _ Hc) as Hok.
    by rewrite (c_text_ok s Hok), (c_text_ok s Hok), take_ge by lia.
Qed.
Lemma read_sequence t l : reads t → is_optional t = false → xml_type false t = true →
  Forall (λ v, v ≠ V_str [] ∧ xml_value t v) l →
  ∀ v, v ∈ l → xml_read r false t (json_default t) (tree_of t v) = Def (Some (v, tree_of t v)).
Proof.
  intros Ht Ho Hty Hl v Hin. eapply Forall_forall in Hl; [|done]. destruct Hl as [_ Hv].
  pose proof (Ht false v pt_empty Hty Hv) as Hr. rewrite place_empty in Hr. apply Hr; [by destruct t|by left].
Qed.
(** A tree is read as the value it is of, and stays as it is. *)
Lemma xml_read_tree t : reads t.
Proof.
  induction t as [s| |i s| |n|t IH|t IH|k w _ IH|k w _ IH|t IH|n t IH|fs IH|ts IH] using jty_induction;
    intros bo v X Ht Hv Ha HX; try (by apply read_scalar);
    try (assert (X = pt_empty) as -> by (refine (above_empty _ X _ _ HX); reflexivity); clear HX; rewrite place_empty).
  - destruct v; try done. simpl in Ht, Hv. apply andb_true_iff in Ht as [Ho%negb_true_iff Ht].
    cbn [Xml.xml_read Ptree.tree_of json_default]. rewrite process_elements. cbn [mbind ub_bind pt_children].
    rewrite read_elements by (by apply read_sequence). simpl. by rewrite (foldl_push_back l []).
  - destruct v; try done. simpl in Ht, Hv. apply andb_true_iff in Ht as [Ho Ht]. destruct Hv as [Hv Hs].
    cbn [Xml.xml_read Ptree.tree_of json_default]. rewrite process_elements. cbn [mbind ub_bind pt_children].
    rewrite read_elements by (apply read_sequence; [done|by destruct t|done..]). simpl.
    by rewrite (foldl_insert key_lt) by auto using set_insert_last.
  - destruct v; try done. simpl in Ht, Hv.
    apply andb_true_iff in Ht as [[[Hk _]%andb_true_iff Ho%negb_true_iff]%andb_true_iff Ht]. destruct Hv as [Hv Hs].
    cbn [Xml.xml_read Ptree.tree_of json_default pt_children]. rewrite read_entries.
    + simpl. by rewrite (foldl_insert (λ p q, key_lt p.1 q.1)) by auto using map_assign_last.
    + intros p Hin. eapply Forall_forall in Hv; [|exact Hin]. destruct Hv as [Hp1 Hp2].
      destruct (key_read k w p.1 false Hk Hp1) as [Hc Hpl]. apply xml_type_weaken in Ht as Hty.
      rewrite first_member; [|done|by apply entry_not_xmlattr; eapply tree_of_clean].
      rewrite Hc. cbn [exc_bind mbind ub_bind].
      rewrite (read_member _ w p.2 IH) by (done || (destruct Hp1 as [_ ?]; naive_solver)). done.
  - destruct v; try done. simpl in Ht, Hv.
    apply andb_true_iff in Ht as [[[Hk ->]%andb_true_iff Ho%negb_true_iff]%andb_true_iff Ht]. destruct Hv as [Hp1 Hp2].
    cbn [Xml.xml_read Ptree.tree_of json_default pt_children]. destruct (pair_key_read k w v1 true Hk Hp1) as [Hc Hpl].
    rewrite first_member; [|done|by apply entry_not_xmlattr; eapply tree_of_clean].
    rewrite Hc. cbn [exc_bind mbind ub_bind].
    rewrite (read_member _ w v2 IH) by (done || (destruct Hp1 as [_ ?]; naive_solver)). simpl.
    by destruct (member _ _).
  - simpl in Ht. apply andb_true_iff in Ht as [[-> Ho%negb_true_iff]%andb_true_iff Ht].
    destruct v; try done. simpl in Hv.
    pose proof (IH true v pt_empty Ht Hv) as Hr. rewrite place_empty in Hr.
    cbn [Xml.xml_read Ptree.tree_of]. rewrite Hr; [done|by destruct t|by left].
  - destruct v; try done. simpl in Ht, Hv. apply andb_true_iff in Ht as [Ho%negb_true_iff Ht]. destruct Hv as [<- Hv].
    cbn [Xml.xml_read Ptree.tree_of json_default]. rewrite process_elements. cbn [mbind ub_bind pt_children].
    rewrite read_fixed_elements by (by apply read_sequence). done.
  - destruct v; try done. simpl in Ht, Hv. apply andb_true_iff in Ht as [[Hnd%bool_decide_eq_true_1 Hk]%andb_true_iff Ht].
    assert (X = pt_empty ∨ (∃ k, X = attr_of k) ∧ forallb (λ f, negb (is_optional f.2)) fs = true) as HX'
      by (destruct HX as [?|[? [?|?]]]; auto; done).
    pose proof (xml_members_read fs l X [] IH Hnd Hk Ht Hv HX') as Hr. cbv zeta in Hr. cbn [app] in Hr.
    change (tree_of (J_struct fs) (V_list l)) with (Tree [] (members fs l)).
    cbn [Xml.xml_read json_default].
    destruct (pt_children (place X (Tree [] (members fs l)))) eqn:E; [|by rewrite Hr].
    rewrite read_nothing in Hr; [|done|by rewrite !length_map]. by injection Hr as ->.
  - destruct v; try done. simpl in Ht, Hv. apply andb_true_iff in Ht as [-> Ht].
    pose proof (xml_tuple_read ts l [] IH Ht Hv) as Hr. cbv zeta in Hr. cbn [app length] in Hr.
    cbn [Xml.xml_read Ptree.tree_of json_default]. by rewrite Hr.
Qed.
End reading.

(** ** Packing and unpacking *)
Lemma attributes_no_using cs : attributes cs → Forall (λ p, p.1 ≠ using_attr ∧ no_using p.2) cs.
Proof.
  intros [->|(k&->&_)]; [by apply Forall_nil|]. apply Forall_singleton. simpl. split; [by apply (bool_decide_eq_true_1 (xmlattr ≠ using_attr)); vm_compute|].
  constructor. apply Forall_singleton. simpl. split; [by apply (bool_decide_eq_true_1 (attr_name ≠ using_attr)); vm_compute|].
  by constructor; apply Forall_nil.
Qed.
Lemma plain_entry_key k k' : plain_key k = true ∨ k = at_key → plain_key k' = false → k' ≠ at_key → k ≠ k'.
Proof. naive_solver congruence. Qed.
Lemma clean_no_using d : clean d → no_using d.
Proof.
  induction d as [s cs IH] using ptree_induction. inversion 1 as [s' a cs' _ Ha _ Hcs]; subst. constructor.
  apply Forall_app. split; [by apply attributes_no_using|]. apply Forall_app in IH as [_ IH].
  apply Forall_forall. intros p Hp. eapply Forall_forall in IH; [|done]. eapply Forall_forall in Hcs; [|done].
  destruct Hcs as [Hk Hc]. split; [|by apply IH]. eapply plain_entry_key; [done|by vm_compute|].
  by apply (bool_decide_eq_true_1 (using_attr ≠ at_key)); vm_compute.
Qed.
Lemma entries_no_imports s cs : Forall plain_entry cs → no_imports (Tree s cs).
Proof.
  intros Hcs. unfold no_imports. simpl. eapply Forall_impl; [exact Hcs|]. intros p [Hk _].
  split; (eapply plain_entry_key; [done|by vm_compute|]).
  - by apply (bool_decide_eq_true_1 (property_group ≠ at_key)); vm_compute.
  - by apply (bool_decide_eq_true_1 (import_key ≠ at_key)); vm_compute.
Qed.

Section codec.
Context `{TreePathsLaws}.
Context (format_number : num → Z → text) (lexical_cast : num → text → option Z) (lexical_bool : text → option bool)
  (value_number : num → Z → text) (get_number : num → text → option Z)
  (value_bool : bool → text) (get_bool : text → option bool) (split : text → text → list text)
  (enums : enum_factory) (enum_with_str_ : bool)
  (write_xml : ptree → text) (read_xml : text → option ptree) (read_file : bool → text → option ptree).
(** [fmt] and the stream translators write numbers and bools so that
    [lexical_cast] and [get_value] read them; the text of a tree that is clean is
    parsed as that tree. *)
Hypothesis format_ok : ∀ s z, num_key s = true → num_range s z →
  text_ok (format_number s z) ∧ lexical_cast s (format_number s z) = Some z.
Hypothesis number_ok : ∀ s z, num_key s = true → num_range s z →
  clean_text (value_number s z) = true ∧ value_number s z ≠ [] ∧ get_number s (value_number s z) = Some z.
Hypothesis bool_ok : ∀ b, clean_text (value_bool b) = true ∧ value_bool b ≠ [] ∧ get_bool (value_bool b) = Some b.
Hypothesis xml_ok : ∀ k d, plain_key k = true → clean d →
  read_xml (write_xml (Tree [] [(k, d)])) = Some (Tree [] [(k, d)]).
Notation xml_value := (xml_value format_number lexical_cast enums enum_with_str_).
Notation tree_of := (tree_of format_number value_number value_bool enums enum_with_str_).
Notation xml_read := (xml_read lexical_cast lexical_bool get_number get_bool split enums enum_with_str_).
Notation Serialize := (Serialize format_number value_number value_bool enums enum_with_str_ write_xml).
Notation xml_pack := (xml_pack format_number value_number value_bool enums enum_with_str_ write_xml).
Notation xml_pack_args := (xml_pack_args format_number value_number value_bool enums enum_with_str_ write_xml).
Notation parse := (parse read_xml read_file).
Notation DeSerialize := (DeSerialize lexical_cast lexical_bool get_number get_bool split enums enum_with_str_).
Notation xml_make := (xml_make lexical_cast lexical_bool get_number get_bool split enums enum_with_str_).
Notation xml_unpack := (xml_unpack lexical_cast lexical_bool get_number get_bool split enums enum_with_str_ read_xml read_file).
Notation xml_unpack_with := (xml_unpack_with lexical_cast lexical_bool get_number get_bool split enums enum_with_str_ read_xml read_file).

Definition xml_sendable (p : jty * val) : Prop :=
  xml_type true p.1 = true ∧ is_optional p.1 = false ∧ xml_value p.1 p.2.
Definition document (k : text) (d : ptree) : reader := Reader (Tree [] [(k, d)]) ∅ None.
Lemma document_no_properties k d prop : extend_func (document k d) prop = None.
Proof. unfold extend_func. simpl. by rewrite lookup_empty. Qed.
Definition root_key (key : option text) : text := default plus key.
Lemma Serialize_document t v key : xml_sendable (t, v) → plain_key (root_key key) = true →
  Serialize t v key = Def (write_xml (Tree [] [(root_key key, tree_of t v)])).
Proof.
  intros (Ht&Ho&Hv) Hk. simpl in *. unfold Xml.Serialize.
  apply plain_key_simple in Hk as [Hk _].
  rewrite (Serialize_tree_of format_number lexical_cast); try done.
  - simpl. destruct key as [k|]; simpl; [|done]. by rewrite key_or_plus_id.
  - intros s z Hs Hz. by apply number_ok.
  - apply bool_ok.
  - destruct key; [by right|by left].
Qed.
Lemma parse_document t v key fuel : xml_sendable (t, v) → plain_key (root_key key) = true →
  (nodes (tree_of t v) < fuel)%nat →
  parse fuel (write_xml (Tree [] [(root_key key, tree_of t v)])) reader_new = Done (document (root_key key) (tree_of t v)).
Proof.
  intros (Ht&Ho&Hv) Hk Hf. simpl in *. unfold Xml.parse.
  destruct (tree_of_clean format_number lexical_cast value_number get_number value_bool get_bool enums
    enum_with_str_ format_ok number_ok bool_ok t true v Ht Hv) as [Hc Hp].
  rewrite xml_ok by done. cbn [or_throw mbind outcome_bind]. apply (init_plain _ _ _ _ (root_key key) (tree_of t v)); [done|..|done].
  - simpl. constructor. apply Forall_singleton. split; [|by apply clean_no_using].
    eapply plain_key_not; [done|by vm_compute].
  - destruct (tree_of t v). by apply entries_no_imports.
Qed.
Lemma walk_root k d : plain_key k = true → walk k (Tree [] [(k, d)]) = Some [0%nat].
Proof.
  intros Hk. apply plain_key_simple in Hk as [Hk _]. rewrite walk_one by done.
  rewrite find_head; [done|]. by apply not_elem_of_nil.
Qed.
Lemma DeSerialize_document t v key : xml_sendable (t, v) → plain_key (root_key key) = true →
  DeSerialize (document (root_key key) (tree_of t v)) t (json_default t) key true =
  Def (Some (v, document (root_key key) (tree_of t v))).
Proof.
  intros (Ht&Ho&Hv) Hk. simpl in *. unfold Xml.DeSerialize.
  assert (get_root key true (document (root_key key) (tree_of t v)) = Some [0%nat]) as ->
    by (destruct key; apply (walk_root _ _ Hk)).
  simpl. pose proof (xml_read_tree format_number lexical_cast lexical_bool value_number get_number value_bool get_bool split
    enums enum_with_str_ format_ok number_ok bool_ok (document (root_key key) (tree_of t v))
    (document_no_properties _ _) t true v pt_empty Ht Hv) as Hr.
  rewrite place_empty in Hr. rewrite Hr; [done|by destruct t|by left].
Qed.
Definition xml_sent (p : jty * val) : Prop := xml_sendable p ∧ p.2 ≠ V_str [].
Lemma xml_make_of r args pre : (∀ k, extend_func r k = None) → Forall xml_sent (omap sent args) →
  xml_make r (map slot_of args) (length pre)
    (Tree [] (map (pair plus) (pre ++ map (λ p, tree_of p.1 p.2) (omap sent args)))) =
  Def (Some (map value_of args)).
Proof.
  intros Hr. revert pre. induction args as [|[[t v]|v] args IH]; intros pre Hs; csimpl in *; [done|..].
  - apply Forall_cons in Hs as [[(Ht&Ho&Hv) _] Hs]. simpl in Ht, Ho, Hv.
    set (d := Tree [] _).
    assert ((if bool_decide (length pre = 0%nat) then process_array_of split t d else Def d) = Def d) as ->
      by (case_bool_decide; [apply process_elements|done]).
    assert (pt_children d !! length pre = Some (plus, tree_of t v)) as Hd.
    { subst d. cbn [pt_children]. rewrite map_app. cbn [app map]. rewrite list_lookup_middle; [done|by rewrite length_map]. }
    assert (node_at [length pre] d = Some (tree_of t v)) as Hi by (cbn [node_at]; by rewrite Hd).
    cbn [mbind ub_bind]. rewrite Hd. cbn [snd].
    pose proof (xml_read_tree format_number lexical_cast lexical_bool value_number get_number value_bool get_bool split
      enums enum_with_str_ format_ok number_ok bool_ok r Hr t true v pt_empty Ht Hv) as Hx.
    rewrite place_empty in Hx. rewrite Hx; [|by destruct t|by left]. cbn [exc_bind mbind ub_bind].
    rewrite (alter_at_same [length pre] _ _ Hi : alter_child _ _ d = d). subst d.
    specialize (IH (pre ++ [tree_of t v]) Hs). rewrite length_app, <-app_assoc in IH. csimpl in IH.
    rewrite Nat.add_1_r in IH. by rewrite IH.
  - by rewrite IH.
Qed.
Notation GetTuple := (GetTuple lexical_cast lexical_bool get_number get_bool split enums enum_with_str_).
Lemma GetTuple_document args : Forall xml_sent (omap sent args) →
  GetTuple (document plus (Tree [] (map (pair plus) (map (λ p, tree_of p.1 p.2) (omap sent args))))) (map slot_of args) =
  Def (Some (map value_of args)).
Proof.
  intros Hs. set (d := Tree [] _).
  assert (xml_make (document plus d) (map slot_of args) 0 d = Def (Some (map value_of args))) as Hm
    by exact (xml_make_of _ args [] (document_no_properties _ _) Hs).
  assert (get_root None false (document plus d) = Some [0%nat]) as Hroot by exact (walk_root plus d plus_plain).
  unfold Xml.GetTuple. rewrite Hroot. by destruct args.
Qed.
Lemma sent_arguments ps : Forall xml_sent ps → xml_sendable (J_tuple (map fst ps), V_list (map snd ps)) ∧
  tree_of (J_tuple (map fst ps)) (V_list (map snd ps)) = Tree [] (map (pair plus) (map (λ p, tree_of p.1 p.2) ps)).
Proof.
  intros Hps. unfold xml_sendable. cbn [fst snd xml_type is_optional Ptree.xml_value Ptree.tree_of andb].
  induction Hps as [|[t v] ps [(Ht&Ho&Hv) Hne] _ [(IHt&_&IHv) IHtree]]; [done|]. simpl in *.
  rewrite Ht, Ho. split; [done|]. injection IHtree as IHtree. unfold zip_apply in *. simpl. by rewrite IHtree.
Qed.

End codec.

(** ** Trees with paths, and texts *)
(** The first child of a key; keys between dots. *)
Fixpoint first_child (k : text) (cs : list (text * ptree)) : option nat :=
  match cs with
  | [] => None
  | p :: cs => if bool_decide (p.1 = k) then Some 0%nat else S <$> first_child k cs
  end.
Fixpoint keys_of (path : text) : list text :=
  match path with
  | [] => [[]]
  | c :: path =>
      if c =? dot then [] :: keys_of path
      else match keys_of path with k :: ks => (c :: k) :: ks | [] => [[c]] end
  end.
Definition first_children : TreePaths :=
  {| add_child := λ _ _ _, Undef; walk := λ _ _, None; pt_find := λ k d, first_child k (pt_children d) |}.
Definition sample_paths : TreePaths :=
  {| add_child := λ path sub d, match path with [] => Undef | _ => Def (@add_at first_children (keys_of path) sub d) end;
     walk := λ path d, match path with [] => Some [] | _ => @walk_keys first_children (keys_of path) d end;
     pt_find := λ k d, first_child k (pt_children d) |}.
Lemma keys_of_simple k rest : dot ∉ k → keys_of (k ++ dot :: rest) = k :: keys_of rest.
Proof.
  induction k as [|c k IH]; intros Hk; simpl; [done|]. apply not_elem_of_cons in Hk as [Hc Hk].
  rewrite (proj2 (Z.eqb_neq c dot)) by done. by rewrite IH.
Qed.
Lemma keys_of_key k : dot ∉ k → keys_of k = [k].
Proof.
  induction k as [|c k IH]; intros Hk; simpl; [done|]. apply not_elem_of_cons in Hk as [Hc Hk].
  rewrite (proj2 (Z.eqb_neq c dot)) by done. by rewrite IH.
Qed.
Lemma keys_of_path ks : ks ≠ [] → Forall simple ks → keys_of (path_of ks) = ks ∧ path_of ks ≠ [].
Proof.
  intros Hne. induction 1 as [|k ks [Hk Hd] Hks IH]; [done|]. destruct ks as [|k' ks].
  - simpl. by rewrite keys_of_key.
  - destruct IH as [IH _]; [done|]. change (path_of (k :: k' :: ks)) with (k ++ dot :: path_of (k' :: ks)).
    rewrite keys_of_simple by done. rewrite IH. split; [done|]. by destruct k.
Qed.
Lemma first_child_some k cs i : first_child k cs = Some i → fst <$> cs !! i = Some k.
Proof.
  revert i. induction cs as [|p cs IH]; intros i; simpl; [done|]. case_bool_decide as Hp.
  - intros [= <-]. simpl. by rewrite Hp.
  - intros (j&Hj&->)%fmap_Some. by apply IH.
Qed.
Lemma first_child_none k cs : first_child k cs = None ↔ k ∉ cs.*1.
Proof.
  induction cs as [|p cs IH]; csimpl; [split; [intros _; apply not_elem_of_nil|done]|].
  rewrite not_elem_of_cons, <-IH. case_bool_decide as Hp; [split; [done|intros [? _]; by destruct Hp]|].
  rewrite fmap_None. naive_solver.
Qed.
Lemma sample_laws : @TreePathsLaws sample_paths.
Proof.
  constructor.
  - intros k d i. apply first_child_some.
  - intros k d. apply first_child_none.
  - intros ks sub d Hne Hks. destruct (keys_of_path ks Hne Hks) as [Hk Hp]. simpl. rewrite Hk. by destruct (path_of ks).
  - intros ks d Hne Hks. destruct (keys_of_path ks Hne Hks) as [Hk Hp]. simpl. rewrite Hk. by destruct (path_of ks).
Qed.
(** A text for a tree: a number. *)
Fixpoint tree_code (d : ptree) : gen_tree (list Z) :=
  match d with
  | Tree s cs => GenNode 0 (GenLeaf s :: map (λ p, GenNode 0 [GenLeaf p.1; tree_code p.2]) cs)
  end.
Definition leaf_text (g : gen_tree (list Z)) : text := match g with GenLeaf s => s | _ => [] end.
Fixpoint code_tree (g : gen_tree (list Z)) : ptree :=
  match g with
  | GenNode _ (s :: l) =>
      Tree (leaf_text s) (map (λ g, match g with GenNode _ [k; d] => (leaf_text k, code_tree d) | _ => ([], pt_empty) end) l)
  | _ => pt_empty
  end.
Lemma code_tree_code d : code_tree (tree_code d) = d.
Proof.
  induction d as [s cs IH] using ptree_induction. simpl. f_equal. rewrite map_map.
  induction IH as [|[k c] cs Hc _ IH]; simpl in *; [done|]. by rewrite Hc, IH.
Qed.
Definition sample_write (d : ptree) : text := [Z.pos (encode (tree_code d))].
Definition sample_read (t : text) : option ptree :=
  match t with [Z.pos p] => code_tree <$> decode p | _ => None end.
Lemma sample_read_write d : sample_read (sample_write d) = Some d.
Proof. unfold sample_read, sample_write. rewrite decode_encode. simpl. by rewrite code_tree_code. Qed.
Definition sample_bool_text (b : bool) : text := text_of (if b then "true" else "false").
Definition sample_get_bool (t : text) : option bool :=
  if bool_decide (t = text_of "true") then Some true else if bool_decide (t = text_of "false") then Some false else None.
Lemma sample_bool_ok b : clean_text (sample_bool_text b) = true ∧ sample_bool_text b ≠ [] ∧
  sample_get_bool (sample_bool_text b) = Some b.
Proof. by destruct b. Qed.
Lemma visible_clean s : Forall (λ c, 32 < c < 127) s → clean_text s = true.
Proof.
  intros Hs. destruct s as [|c s]; [done|]. unfold clean_text.
  apply Forall_cons in Hs as [Hc Hs]. simpl. rewrite (proj2 (Z.eqb_neq c 32)) by lia.
  apply andb_true_iff. split; [lia|]. clear c Hc.
  induction Hs as [|c s Hc _ IH]; simpl; [done|]. rewrite (proj2 (Z.eqb_neq c 32)) by lia.
  rewrite IH. lia.
Qed.
Lemma digits_visible d : Forall (λ c, 32 < c < 127) (text_of (NilEmpty.string_of_uint d)).
Proof. induction d; simpl; by repeat constructor. Qed.
Lemma sample_number_ok s z : num_key s = true → num_range s z →
  clean_text (sample_format s z) = true ∧ sample_format s z ≠ [] ∧ sample_cast s (sample_format s z) = Some z.
Proof.
  intros Hs Hz. destruct (sample_format_ok s z Hs Hz) as [_ Hc].
  assert (∀ d, Forall (λ c, 32 < c < 127) (text_of (NilZero.string_of_uint d)) ∧ text_of (NilZero.string_of_uint d) ≠ []) as Hd.
  { intros d. destruct d; (split; [|done]); try apply (digits_visible _). by repeat constructor. }
  split_and!; [| |done]; unfold sample_format; destruct (Z.to_int z) as [d|d]; simpl.
  - apply visible_clean, Hd.
  - apply (visible_clean (45 :: _)). constructor; [lia|apply Hd].
  - apply Hd.
  - done.
Qed.
(** [boost::split] with [token_compress_on], of characters. *)
Fixpoint sample_split_at (s chars acc : text) (sep : bool) : list text :=
  match s with
  | [] => [rev acc]
  | c :: s =>
      if bool_decide (c ∈ chars) then
        if sep then sample_split_at s chars acc sep else rev acc :: sample_split_at s chars [] true
      else sample_split_at s chars (c :: acc) false
  end.
Definition sample_split (s chars : text) : list text := sample_split_at s chars [] false.

(** A struct with members of most kinds: a map to structs with a key that is no
    name, an option without a value, lists of lists. *)
Definition sample_item : jty := J_struct [(text_of "id", J_num N_u16); (text_of "label", J_string)].
Definition sample_xml_type : jty :=
  J_struct [(text_of "id", J_num N_i32); (text_of "title", J_string); (text_of "alive", J_bool);
    (text_of "items", J_map J_string sample_item); (text_of "next", J_optional (J_num N_i32));
    (text_of "rows", J_vector (J_vector (J_num N_i64)));
    (text_of "pair", J_pair J_string (J_num N_u32)); (text_of "both", J_tuple [J_num N_u32; J_chars 4])].
Definition sample_xml_value : val :=
  V_list [V_num (-7); V_str (text_of "to be, or"); V_num 1;
    V_map [(V_str (text_of "a b"), V_list [V_num 3; V_str []]); (V_str (text_of "c"), V_list [V_num 4; V_str (text_of "x")])];
    V_none; V_list [V_list [V_num 30; V_num 31]; V_list []];
    V_pair (V_str (text_of "k@v")) (V_num 9); V_list [V_num 4000000000; V_str (text_of "abc")]].
Notation sample_xml_sendable := (xml_sendable sample_format sample_cast factory_new false).
Lemma string_key_fits single w k : text_ok k →
  plain_key k = true ∨ contains_chars k special_chars = true ∧ printable k = true ∧
    (full_struct w = true ∨ single = true ∧ is_scalar w = true) →
  key_fits sample_format sample_cast factory_new false single J_string w (V_str k).
Proof. intros Hk Hp. by split. Qed.
Lemma sample_xml_value_sendable : sample_xml_sendable (sample_xml_type, sample_xml_value).
Proof.
  split_and!; [by vm_compute|by vm_compute|].
  cbn [fst snd sample_xml_type sample_xml_value sample_item xml_value map all2].
  split_and!; try exact I; try (apply num_range_check; by vm_compute); try reflexivity; try done.
  - by right.
  - constructor; [|constructor; [|constructor]]; cbn [fst snd all2];
      (split; [apply string_key_fits; [apply text_ok_check; by vm_compute|vm_compute; tauto]|]);
      split_and!; try exact I; try (apply num_range_check; by vm_compute); reflexivity.
  - by repeat constructor.
  - repeat (constructor; [split; [done|]|]); repeat constructor; try (apply num_range_check; by vm_compute); done.
  - apply string_key_fits; [apply text_ok_check; by vm_compute|vm_compute; tauto].
  - simpl; lia.
Qed.
Notation sample_serialize := (@Serialize sample_paths sample_format sample_format sample_bool_text factory_new false sample_write).
Notation sample_tree := (@Serialize_tree sample_format sample_format sample_bool_text factory_new false sample_paths).
Notation sample_parse := (@parse sample_paths sample_read (λ _, sample_read)).
Notation sample_deserialize :=
  (@DeSerialize sample_paths sample_cast sample_bool sample_cast sample_get_bool sample_split factory_new false).
Notation sample_get_tuple :=
  (@GetTuple sample_paths sample_cast sample_bool sample_cast sample_get_bool sample_split factory_new false).
Notation sample_xml_unpack := (@xml_unpack sample_paths sample_cast sample_bool sample_cast sample_get_bool sample_split
  factory_new false sample_read (λ _, sample_read)).
Notation sample_xml_unpack_with := (@xml_unpack_with sample_paths sample_cast sample_bool sample_cast sample_get_bool sample_split
  factory_new false sample_read (λ _, sample_read)).
Notation sample_xml_pack := (@xml_pack sample_paths sample_format sample_format sample_bool_text factory_new false sample_write).
Notation sample_xml_pack_args := (@xml_pack_args sample_paths sample_format sample_format sample_bool_text factory_new false sample_write).

(** ** Properties and lists *)
Definition value_read {A B} (m : ub (option (A * B))) : ub (option A) := x ←? m; Def (Some x.1).
(** A text with the names of properties is read with what they stand for; with one
    that is not a property it stays as it is. *)
Lemma properties_substituted r (f : text → text) l last cs :
  l ≠ [] → Forall (λ p, dollar ∉ p.1 ∧ close ∉ p.2 ∧ extend_func r p.2 = Some (f p.2)) l → dollar ∉ last →
  read_string r (Tree (template l last) cs) = substituted f l last.
Proof. intros Hne Hl Hlast. unfold read_string, extended. cbn [pt_data]. by rewrite (extend_all_template f). Qed.
(** A text is a list of what stands between its commas and semicolons. *)
Lemma add_all_plus `{TreePathsLaws} ss cs :
  add_all plus ss (Tree [] cs) = Def (Tree [] (cs ++ map (λ s, (plus, Tree s [])) ss)).
Proof.
  revert cs. induction ss as [|s ss IH]; intros cs; simpl; [by rewrite app_nil_r|].
  rewrite add_child_simple by apply plus_simple. cbn [mbind ub_bind]. unfold push_back_child. simpl.
  by rewrite IH, <-app_assoc.
Qed.
Lemma list_text_read `{TreePathsLaws} lexical_cast lexical_bool get_number get_bool split enums e r bo s :
  (∀ k, extend_func r k = None) → s ≠ [] → split s list_chars ≠ [] →
  value_read (xml_read lexical_cast lexical_bool get_number get_bool split enums e r bo (J_vector J_string) (V_list []) (Tree s [])) =
  Def (Some (V_list (map V_str (split s list_chars)))).
Proof.
  intros Hr Hs Hsplit. cbn [xml_read process_array_of splits]. unfold process_array. cbn [pt_data].
  destruct s as [|c s]; [done|]. destruct (split (c :: s) list_chars) as [|x xs] eqn:E; [done|].
  unfold put_value. cbn [pt_children]. rewrite add_all_plus. cbn [mbind ub_bind app pt_children].
  generalize (x :: xs) as ss. intros ss. clear E Hsplit.
  assert (∀ t, xread_array (λ d, Def (Some (V_str (read_string r d), d))) push_back (map (λ s, (plus, Tree s [])) ss) t =
    Def (Some (t ++ map V_str ss, map (λ s, (plus, Tree s [])) ss))) as Hread; [|by rewrite Hread].
  induction ss as [|s' ss IH]; intros t; simpl; [by rewrite app_nil_r|].
  unfold is_valid. simpl. rewrite bool_decide_eq_false_2 by apply plus_not_xmlattr. simpl.
  rewrite read_string_data by done. rewrite IH. simpl. unfold push_back. by rewrite <-app_assoc.
Qed.

(** A member may be an attribute as well as an element. *)
Lemma find_same `{TreePathsLaws} k cs s s' : NoDup cs.*1 → pt_find k (Tree s cs) = pt_find k (Tree s' cs).
Proof.
  intros Hnd. destruct (decide (k ∈ cs.*1)) as [Hk|Hk].
  - apply list_elem_of_fmap in Hk as ([k' c]&->&Hin). apply list_elem_of_split in Hin as (pre&post&->). simpl in *.
    rewrite fmap_app in Hnd. csimpl in Hnd. apply NoDup_app in Hnd as (_&Hpre&Hnd). apply NoDup_cons in Hnd as [Hpost _].
    rewrite !find_unique; [done|..]; try done; intros Hin; apply (Hpre _ Hin); by left.
  - by rewrite !(proj2 (find_no_child k _)).
Qed.
Lemma alter_keys f i (cs : list (text * ptree)) : (alter (λ p, (p.1, f p.2)) i cs).*1 = cs.*1.
Proof.
  revert i. induction cs as [|p cs IH]; intros [|i]; csimpl; [done..|]. by rewrite IH.
Qed.
Lemma attributes_like_elements `{TreePathsLaws} fs t s s' cs :
  NoDup cs.*1 → xmlattr ∉ cs.*1 → Forall (λ f, f.1 ≠ xmlattr) fs →
  xread_members fs t (Tree s' [(xmlattr, Tree [] cs)]) =
  x ←? xread_members fs t (Tree s cs);
  Def (Some (x.1, Tree s' [(xmlattr, Tree [] (pt_children x.2))])).
Proof.
  intros Hnd Hx Hfs. revert t cs Hnd Hx. induction Hfs as [|[name f] fs Hn _ IH]; intros t cs Hnd Hx; [by destruct t|].
  destruct t as [|v t]; [done|]. simpl in Hn.
  assert (get_member name (Tree s' [(xmlattr, Tree [] cs)]) = (λ i, [0%nat; i]) <$> pt_find name (Tree s cs)) as Hattr.
  { unfold get_member. rewrite (proj2 (find_no_child name (Tree s' _))) by (simpl; by rewrite list_elem_of_singleton).
    rewrite walk_one by apply xmlattr_simple. rewrite find_head by apply not_elem_of_nil. csimpl.
    rewrite (find_same name cs [] s) by done. by destruct (pt_find name _). }
  assert (get_member name (Tree s cs) = (λ i, [i]) <$> pt_find name (Tree s cs)) as Helem.
  { unfold get_member. destruct (pt_find name _); [done|]. by rewrite walk_missing by auto using xmlattr_simple. }
  cbn [xread_members]. rewrite Hattr, Helem. destruct (pt_find name (Tree s cs)) as [i|] eqn:E; csimpl.
  - apply find_child in E. simpl in E. destruct (cs !! i) as [[k c]|] eqn:Ei; [|done]. csimpl.
    destruct (f v c) as [[[v' c']|]|]; [|done..]. simpl. unfold alter_child. cbn [pt_data pt_children].
    set (cs' := alter (λ p, (p.1, c')) i cs).
    change (alter _ 0%nat [(xmlattr, Tree [] cs)]) with [(xmlattr, Tree [] cs')].
    rewrite (IH t cs') by (subst cs'; by rewrite (alter_keys (λ _, c'))). by destruct (xread_members fs t _) as [[[]|]|].
  - rewrite IH by done. by destruct (xread_members fs t _) as [[[]|]|].
Qed.

(** ** What does not come back *)
(** What becomes of a value, tree to tree. *)
Definition back (t : jty) (v : val) : ub (option val) :=
  d ← sample_tree t v None;
  value_read (sample_deserialize (Reader d ∅ None) t (json_default t) None false).
Lemma sample_comes_back : back sample_xml_type sample_xml_value = Def (Some sample_xml_value).
Proof. by vm_compute. Qed.
(** An option without a value among the elements takes away the one before it and
    all behind it. *)
Lemma null_element_empties_sequence :
  back (J_vector (J_optional (J_num N_i32))) (V_list [V_some (V_num 1); V_none; V_some (V_num 2)]) = Def (Some (V_list [])).
Proof. by vm_compute. Qed.
(** Elements that are empty texts are lost; so arguments move to the places before. *)
Lemma empty_elements_are_lost :
  back (J_vector J_string) (V_list [V_str [97]; V_str []; V_str [98]]) = Def (Some (V_list [V_str [97]; V_str [98]])) ∧
  (d ← sample_tree (J_tuple [J_string; J_string]) (V_list [V_str []; V_str [98]]) None;
   sample_get_tuple (Reader d ∅ None) [inl J_string; inl J_string]) = Def (Some [V_str [98]; V_str []]).
Proof. split; by vm_compute. Qed.
(** Behind a number, a key with a dot becomes a path; the map cannot be read. *)
Lemma dotted_keys_nest :
  sample_tree (J_map J_string (J_num N_i32)) (V_map [(V_str [97], V_num 1); (V_str (text_of "b.c"), V_num 2)]) None =
    Def (Tree [] [(plus, Tree [] [([97], Tree [49] []); ([98], Tree [] [([99], Tree [50] [])])])]) ∧
  back (J_map J_string (J_num N_i32)) (V_map [(V_str [97], V_num 1); (V_str (text_of "b.c"), V_num 2)]) = Def None.
Proof. split; by vm_compute. Qed.
(** Below a key that is in an attribute, a sequence is one too deep, and a map has
    the attribute for a member. *)
Lemma attributes_are_members :
  back (J_map J_string (J_vector (J_num N_i32))) (V_map [(V_str (text_of "a b"), V_list [V_num 1])]) = Def None ∧
  back (J_map J_string (J_map J_string J_string)) (V_map [(V_str (text_of "a b"), V_map [(V_str [99], V_str [120])])]) =
    Def (Some (V_map [(V_str (text_of "a b"), V_map [(V_str (text_of "<xmlattr>"), V_str []); (V_str [99], V_str [120])])])).
Proof. split; by vm_compute. Qed.
(** A member called name that is not there is taken from it. *)
Lemma missing_name_is_the_key :
  let t := J_map J_string (J_struct [(text_of "name", J_optional J_string); (text_of "id", J_num N_i32)]) in
  back t (V_map [(V_str (text_of "a b"), V_list [V_none; V_num 1])]) =
  Def (Some (V_map [(V_str (text_of "a b"), V_list [V_some (V_str (text_of "a b")); V_num 1])])).
Proof. by vm_compute. Qed.
(** The empty key is no path. *)
Lemma empty_key_is_undefined : back (J_map J_string (J_num N_i32)) (V_map [(V_str [], V_num 1)]) = Undef.
Proof. by vm_compute. Qed.
(** A property that names itself stands for nothing there. *)
Lemma property_of_itself :
  properties_ (read_property ([97], Tree (text_of "x$(a)y") []) reader_new) !! [97] = Some (text_of "xy").
Proof. by vm_compute. Qed.
(** A file that imports itself is read for ever. *)
Definition circular : ptree :=
  Tree [] [(plus, Tree [] [(import_key, Tree [] [(path_attr, Tree [102] [])])])].
Lemma circular_import_never_ends fuel ps :
  @init_loop sample_paths (λ _ _, Some circular) fuel false 0 (Reader circular ps None) = Running.
Proof.
  induction fuel as [|fuel IH]; [done|].
  assert (∀ f, @init_loop sample_paths (λ _ _, Some circular) (S f) false 0 (Reader circular ps None) =
    @init_loop sample_paths (λ _ _, Some circular) f false 0 (Reader circular ps None)) as Hstep.
  { intros f. reflexivity. }
  by rewrite Hstep.
Qed.
