(* ===== verification/Room.v ===== *)
(** * The room server ([example/room_server])

    Players log in, make rooms, take and change seats, choose their equipment and start
    and end battles; the server answers them and tells the members of a room what
    changes.  A player's object is found by his user id and lives as long as the
    server; a room's object is known by its address, a handle, because the number a room
    has in the room service can come again.  What is sent is kept in order, without the
    times of day that two of the messages carry.  The configuration's
    [end_battle_when_disconnect] is a parameter. *)
From stdpp Require Import base option list numbers gmap sorting.
From S2P Require Import Prelude.
Local Open Scope Z_scope.

(** ** Definitions *)
Inductive room_mode := moba | tripartite | free.
Inductive room_status := opened | ready | prepare | battle | close.
Inductive player_type := DRIVER | SHOOTER.
#[global] Instance room_mode_eq_dec : EqDecision room_mode.
Proof. solve_decision. Defined.
#[global] Instance room_status_eq_dec : EqDecision room_status.
Proof. solve_decision. Defined.
#[global] Instance player_type_eq_dec : EqDecision player_type.
Proof. solve_decision. Defined.

(** *** Players *)
(** What goes with the seat, and what goes with the ship. *)
Record seat := Seat { team_ : Z; type_ : player_type; hero_id_ : Z; position_ : Z; player_id_ : Z }.
#[global] Instance seat_eq_dec : EqDecision seat.
Proof. solve_decision. Defined.
Record kit := Kit { ship_config_id_ : Z; skill_slot_count_ : Z; bullet_count_ : Z; unique_skills_ : list Z }.
Record game_player := Player {
  room_ptr_ : option nat; is_login_ : bool; seat_ : seat; kit_ : kit; is_ready_ : bool
}.
(** [update_to_none_status]: also what a new player is. *)
Definition none_status : game_player := Player None false (Seat (-1) DRIVER 0 0 0) (Kit 1 0 0 []) false.
Definition login_status : game_player := Player None true (seat_ none_status) (kit_ none_status) false.
Definition set_room_ptr (h : option nat) (p : game_player) : game_player :=
  Player h (is_login_ p) (seat_ p) (kit_ p) (is_ready_ p).
Definition set_seat (s : seat) (p : game_player) : game_player :=
  Player (room_ptr_ p) (is_login_ p) s (kit_ p) (is_ready_ p).
(** [update_info] *)
Definition set_kit (k : kit) (p : game_player) : game_player :=
  Player (room_ptr_ p) (is_login_ p) (seat_ p) k (is_ready_ p).
Definition set_ready (p : game_player) : game_player := Player (room_ptr_ p) (is_login_ p) (seat_ p) (kit_ p) true.

(** *** Rooms *)
Record game_room := Room {
  room_id_ : Z; status_ : room_status; mode_ : room_mode; master_player_ : option Z; max_size_ : Z;
  members : gset Z; pos_list_ : gset Z
}.
Definition in_order (s : gset Z) : list Z := merge_sort Z.le (elements s).
Definition room_new (id : Z) (max_size : Z) (mode : room_mode) : game_room :=
  Room id opened mode None max_size ∅ (list_to_set (s32 <$> seqZ 1 max_size)).
Definition full (r : game_room) : bool := Z.of_nat (size (members r)) =? max_size_ r.
Definition set_status (s : room_status) (r : game_room) : game_room :=
  Room (room_id_ r) s (mode_ r) (master_player_ r) (max_size_ r) (members r) (pos_list_ r).
Definition set_members (master : option Z) (ms : gset Z) (r : game_room) : game_room :=
  Room (room_id_ r) (status_ r) (mode_ r) master (max_size_ r) ms (pos_list_ r).
Definition set_pos_list (ps : gset Z) (r : game_room) : game_room :=
  Room (room_id_ r) (status_ r) (mode_ r) (master_player_ r) (max_size_ r) (members r) ps.

(** [get_pos]: a seat of the team with the most free seats. *)
Definition teams (r : game_room) : list Z * list Z * list Z :=
  let ps := in_order (pos_list_ r) in
  match mode_ r with
  | moba =>
      let n := Z.quot (max_size_ r) 2 in
      (filter (λ p, p ≤ n) ps, filter (λ p, ¬ p ≤ n) ps, [])
  | tripartite =>
      let n := Z.quot (max_size_ r) 3 in
      (filter (λ p, p ≤ n) ps, filter (λ p, n < p ≤ n * 2) ps, filter (λ p, ¬ p ≤ n ∧ ¬ n < p ≤ n * 2) ps)
  | free => (ps, [], [])
  end.
Definition longer {A} (l k : list A) : list A := if (length l <? length k)%nat then k else l.
Definition get_pos (r : game_room) : ub (Z * game_room) :=
  let '(t1, t2, t3) := teams r in
  pos ← deref (head (longer (longer t1 t2) t3));
  Def (pos, set_pos_list (pos_list_ r ∖ {[pos]}) r).
(** [set_player_pos] *)
Definition seat_at (r : game_room) (pos : Z) : seat :=
  let half := if pos <=? Z.quot (max_size_ r) 2 then 1 else 2 in
  let type := if 0 <? Z.rem pos 2 then DRIVER else SHOOTER in
  let hero := 20000 + Z.quot (pos + 1) 2 in
  if (max_size_ r =? 2) && bool_decide (mode_ r ≠ free) then Seat half DRIVER (20000 + pos) pos (10000 + pos)
  else match mode_ r with
  | moba => Seat half type hero pos (10000 + pos)
  | tripartite =>
      let n := Z.quot (max_size_ r) 3 in
      Seat (if pos <=? n then 1 else if (n <? pos) && (pos <=? n * 2) then 2 else 3) type hero pos (10000 + pos)
  | free => Seat (-1) type hero pos (10000 + pos)
  end.

(** *** The server *)
Record player_data := PlayerData { userId : Z; data_seat : seat; data_kit : kit }.
Record room_info := RoomInfo { roomId : Z; masterId : Z; roomSize : Z; mathPattern : room_mode; playerList : list player_data }.
Record room_data := RoomData { rd_id : Z; rd_pattern : room_mode; rd_count : Z; rd_max : Z }.
Inductive msg :=
  | SCServerInfo | SCCreateRoom (result : Z) | SCRequestRoomList (result roomCount : Z) (l : list room_data)
  | SCJoinRoom (result : Z) | SCRoomInfo (i : room_info) | SCSwitchSeat (result : Z) | SCSwitchShip (result : Z)
  | SCExitRoom (result : Z) | SCBeginLoadResource | SCStartBattle (result : Z) | SCEndBattle (result : Z)
  | SCRoomDestroyed (result : Z).
Inductive out := To_client (user_id : Z) (m : msg) | To_battle_server (i : room_info).
Record server := Server {
  players : gmap Z game_player; heap : gmap nat game_room; next_room : nat;
  rooms_ : gmap Z nat; current_room_id : Z; sent : list out
}.
Definition server_new : server := Server ∅ ∅ 0 ∅ 0 [].
Definition set_player (u : Z) (p : game_player) (w : server) : server :=
  Server (<[u := p]> (players w)) (heap w) (next_room w) (rooms_ w) (current_room_id w) (sent w).
Definition set_players (ps : gmap Z game_player) (w : server) : server :=
  Server ps (heap w) (next_room w) (rooms_ w) (current_room_id w) (sent w).
Definition set_room (h : nat) (r : game_room) (w : server) : server :=
  Server (players w) (<[h := r]> (heap w)) (next_room w) (rooms_ w) (current_room_id w) (sent w).
Definition set_rooms (rs : gmap Z nat) (w : server) : server :=
  Server (players w) (heap w) (next_room w) rs (current_room_id w) (sent w).
Definition send (os : list out) (w : server) : server :=
  Server (players w) (heap w) (next_room w) (rooms_ w) (current_room_id w) (sent w ++ os).
Definition reply (u : Z) (m : msg) : server → server := send [To_client u m].
(** The player a shared pointer to an object of the player service gives. *)
Definition player_of (w : server) (u : Z) : game_player := default none_status (players w !! u).

(** *** Operations of rooms *)
Definition ships_of (w : server) (r : game_room) : gmap Z (option Z * option Z) :=
  foldl (λ m u,
    let s := seat_ (player_of w u) in
    let '(mv, sh) := default (None, None) (m !! hero_id_ s) in
    <[hero_id_ s := match type_ s with DRIVER => (Some u, sh) | SHOOTER => (mv, Some u) end]> m) ∅ (in_order (members r)).
Definition share_ship (ps : gmap Z game_player) (ship : Z * (option Z * option Z)) : gmap Z game_player :=
  match ship.2 with
  | (Some mv, Some sh) => alter (set_kit (kit_ (default none_status (ps !! mv)))) sh ps
  | _ => ps
  end.
Definition update_player_info (r : game_room) (w : server) : server :=
  set_players (foldl share_ship (players w) (in_key_order (ships_of w r))) w.
Definition join (h : nat) (u : Z) (w : server) : ub server :=
  r ← deref (heap w !! h);
  let master := if decide (members r = ∅) then Some u else master_player_ r in
  let r := set_members master ({[u]} ∪ members r) r in
  let p := set_room_ptr (Some h) (player_of w u) in
  '(pos, r) ← get_pos r;
  let w := set_room h r (set_player u (set_seat (seat_at r pos) p) w) in
  Def (update_player_info r w).
Definition remove (h : nat) (u : Z) (w : server) : ub server :=
  r ← deref (heap w !! h);
  if decide (u ∈ members r) then
    let pos := position_ (seat_ (player_of w u)) in
    let r := set_pos_list ({[pos]} ∪ pos_list_ r) (set_members (master_player_ r) (members r ∖ {[u]}) r) in
    Def (set_player u login_status (set_room h r w))
  else Def w.
(** [get_player] *)
Definition player_at (w : server) (r : game_room) (pos : Z) : option Z :=
  snd <$> list_find (λ u, position_ (seat_ (player_of w u)) = pos) (in_order (members r)).
Definition switch_seat (h : nat) (u : Z) (target_pos : Z) (w : server) : ub server :=
  r ← deref (heap w !! h);
  let p := player_of w u in
  let pos := position_ (seat_ p) in
  if target_pos =? pos then Def w
  else if decide (target_pos ∈ pos_list_ r) then
    Def (set_room h (set_pos_list ({[pos]} ∪ pos_list_ r ∖ {[target_pos]}) r)
           (set_player u (set_seat (seat_at r target_pos) p) w))
  else
    v ← deref (player_at w r target_pos);
    let q := player_of w v in
    Def (set_player v (set_seat (seat_ p) q) (set_player u (set_seat (seat_ q) p) w)).
Definition destroy (h : nat) (w : server) : ub server :=
  r ← deref (heap w !! h);
  Def (set_room h (Room 0 opened (mode_ r) None 0 ∅ ∅)
         (set_players (foldl (λ ps u, <[u := login_status]> ps) (players w) (in_order (members r))) w)).
Definition info_le (d e : player_data) : Prop := player_id_ (data_seat d) ≤ player_id_ (data_seat e).
#[global] Instance info_le_dec : RelDecision info_le := λ d e, Z_le_dec _ _.
Definition get_player_data (w : server) (u : Z) : player_data := let p := player_of w u in PlayerData u (seat_ p) (kit_ p).
Definition get_room_info (w : server) (h : nat) : ub room_info :=
  r ← deref (heap w !! h);
  master ← deref (master_player_ r);
  Def (RoomInfo (room_id_ r) master (max_size_ r) (mode_ r)
         (merge_sort info_le (get_player_data w <$> in_order (members r)))).

(** *** The room service *)
Definition next_id (current : Z) : Z := (if 65535 <=? current then 0 else current) + 1.
Definition create_room (u : Z) (max_size : Z) (mode : room_mode) (w : server) : ub (nat * server) :=
  let h := next_room w in
  let id := next_id (current_room_id w) in
  let w := Server (players w) (<[h := room_new id max_size mode]> (heap w)) (S h) (rooms_ w) id (sent w) in
  w ← join h u w;
  Def (h, match rooms_ w !! id with Some _ => w | None => set_rooms (<[id := h]> (rooms_ w)) w end).
Definition room_of (w : server) (h : nat) : game_room := default (room_new 0 0 moba) (heap w !! h).
Definition find_room (room_id : Z) (w : server) : option nat :=
  if room_id =? -1 then
    snd ∘ snd <$> list_find (λ p, let r := room_of w p.2 in status_ r = opened ∧ full r = false) (in_key_order (rooms_ w))
  else rooms_ w !! room_id.
Definition broadcast_msg (h : nat) (m : msg) (w : server) : server :=
  send ((λ u, To_client u m) <$> in_order (members (room_of w h))) w.
Definition destroy_room (h : nat) (w : server) : ub server :=
  let id := room_id_ (room_of w h) in
  w ← destroy h w;
  Def (set_rooms (delete id (rooms_ w)) w).
Definition deal_destroy_room (h : nat) (w : server) : ub server := destroy_room h (broadcast_msg h (SCRoomDestroyed 0) w).
Definition get_room_list (mode : option room_mode) (w : server) : list nat :=
  filter (λ h, (mode = None ∨ mode = Some (mode_ (room_of w h))) ∧ status_ (room_of w h) = opened)
    (snd <$> in_key_order (rooms_ w)).

Section Server.
Variable end_battle_when_disconnect : bool.
Definition exit_room (u : Z) (w : server) : ub server :=
  match room_ptr_ (player_of w u) with
  | None => Def w
  | Some h =>
      if end_battle_when_disconnect then deal_destroy_room h w
      else
        w ← remove h u w;
        if negb (bool_decide (status_ (room_of w h) = battle)) then deal_destroy_room h w
        else if decide (members (room_of w h) = ∅) then destroy_room h w
        else Def w
  end.

(** *** The player service *)
Definition find_player (u : Z) (is_login : bool) (w : server) : option game_player :=
  p ← players w !! u;
  if is_login && negb (is_login_ p) then None else Some p.
Definition get_player (u : Z) (w : server) : server :=
  match find_player u false w with Some _ => w | None => set_player u none_status w end.
Definition handle_player_disconnect (u : Z) (w : server) : ub server :=
  match find_player u true w with
  | None => Def w
  | Some _ => w ← exit_room u w; Def (set_player u none_status w)
  end.
End Server.

(** *** Checks: 0, or the number of the error *)
(** [check_player] and then [check_not_matched], or [check_matched]. *)
Definition unmatched_player (u : Z) (w : server) : Z + game_player :=
  match find_player u true w with
  | None => inl 1
  | Some p => match room_ptr_ p with Some _ => inl 2 | None => inr p end
  end.
Definition matched_player (u : Z) (w : server) : Z + nat :=
  match find_player u true w with
  | None => inl 1
  | Some p => match room_ptr_ p with Some h => inr h | None => inl 4 end
  end.
Definition check_room (w : server) (h : option nat) : Z :=
  match h with
  | None => 3
  | Some h => if full (room_of w h) then 10 else if decide (status_ (room_of w h) = opened) then 0 else 11
  end.
Definition check_master (u : Z) (r : game_room) : Z := if decide (master_player_ r = Some u) then 0 else 5.
Definition check_room_battle (r : game_room) : Z := if decide (status_ r = battle) then 0 else 7.
Definition check_room_mode (mode : Z) : Z := if (0 <=? mode) && (mode <=? 2) then 0 else 8.
Definition to_mode (mode : Z) : room_mode := if mode =? 0 then moba else if mode =? 1 then tripartite else free.
Definition check_room_size (size mode : Z) : Z :=
  if mode =? 0 then if (Z.rem size 2 =? 0) || (size =? 1) then 0 else 9
  else if mode =? 1 then if Z.rem size 3 =? 0 then 0 else 9
  else 0.
Definition check_search_room_mode (mode : Z) : Z := if mode =? -1 then 0 else check_room_mode mode.
Definition team_size (w : server) (r : game_room) (team : Z) : nat :=
  length (filter (λ u, team_ (seat_ (player_of w u)) = team) (in_order (members r))).
Definition check_room_ready (w : server) (r : game_room) : Z :=
  if bool_decide (mode_ r = free) && negb (bool_decide (members r = ∅)) then 0
  else
    let a := team_size w r 1 in let b := team_size w r 2 in let c := team_size w r 3 in
    if ((a =? b)%nat && (0 <? a)%nat && (bool_decide (mode_ r = moba) || (b =? c)%nat)) || full r then 0 else 6.
Definition all_ready (w : server) (r : game_room) : bool :=
  forallb (λ u, is_ready_ (player_of w u)) (in_order (members r)).

(** *** The actions *)
Definition room_data_of (w : server) (h : nat) : room_data :=
  let r := room_of w h in RoomData (room_id_ r) (mode_ r) (Z.of_nat (size (members r))) (max_size_ r).
(** The loop over one page; it leaves at the end of the list, so that one step more than its length is enough. *)
Fixpoint page_loop (fuel : nat) (w : server) (l : list nat) (countPerPage begin_index i : Z) : list room_data :=
  match fuel with
  | O => []
  | S fuel =>
      if countPerPage <=? i then []
      else if Z.of_nat (length l) <=? begin_index + i then []
      else match l !! Z.to_nat (begin_index + i) with
           | None => []
           | Some h => room_data_of w h :: page_loop fuel w l countPerPage begin_index (i + 1)
           end
  end.
Definition request_room_list (pattern countPerPage pageNum : Z) (w : server) : list room_data * Z :=
  let l := get_room_list (if pattern =? -1 then None else Some (to_mode pattern)) w in
  let n := Z.of_nat (length l) in
  let total := Z.quot n countPerPage + (if 0 <? Z.rem n countPerPage then 1 else 0) in
  if n =? 0 then ([], n)
  else if total <? pageNum then ([], n)
  else (page_loop (S (length l)) w l countPerPage ((pageNum - 1) * countPerPage) 0, n).
Inductive request :=
  | SLoginGame
  | CSCreateRoom (playerCount matchPattern : Z)
  | CSRequestRoomList (pattern countPerPage pageNum : Z)
  | CSJoinRoom (roomId : Z)
  | CSSwitchSeat (playerId targetPos : Z)
  | CSSwitchShip (shipId : Z)
  | CSSwitchSlot (slotCount : Z) (uniqueSkills : list Z) (bulletCount : Z)
  | CSExitRoom
  | CSStartBattle
  | CSEndLoadResource
  | BRStartBattle (result : bool) (master_id : Z)
  | CSEndBattle.
Definition room_changed (h : nat) (w : server) : ub server :=
  i ← get_room_info w h; Def (broadcast_msg h (SCRoomInfo i) w).
Section Actions.
Variable end_battle_when_disconnect : bool.
Definition login_game (u : Z) (w : server) : ub server :=
  let w := get_player u w in
  w ← (match room_ptr_ (player_of w u) with
       | Some _ => handle_player_disconnect end_battle_when_disconnect u w
       | None => Def w
       end);
  if is_login_ (player_of w u) then Def w else Def (reply u SCServerInfo (set_player u login_status w)).
Definition cs_create_room (u size mode : Z) (w : server) : ub server :=
  let ret := match unmatched_player u w with
             | inl e => e
             | inr _ => if check_room_mode mode =? 0 then check_room_size size mode else check_room_mode mode
             end in
  if ret =? 0 then
    '(h, w) ← create_room u (u64 size) (to_mode mode) w;
    room_changed h (reply u (SCCreateRoom 0) w)
  else Def (reply u (SCCreateRoom ret) w).
Definition cs_request_room_list (u pattern countPerPage pageNum : Z) (w : server) : ub server :=
  let ret := match unmatched_player u w with inl e => e | inr _ => check_search_room_mode pattern end in
  let '(l, n) := if (ret =? 0) && negb ((countPerPage <=? 0) || (pageNum <=? 0))
                 then request_room_list pattern countPerPage pageNum w else ([], 0) in
  Def (reply u (SCRequestRoomList ret n l) w).
Definition cs_join_room (u room_id : Z) (w : server) : ub server :=
  let room := find_room room_id w in
  let ret := match unmatched_player u w with inl e => e | inr _ => check_room w room end in
  if ret =? 0 then
    h ← deref room;
    w ← join h u w;
    room_changed h (reply u (SCJoinRoom 0) w)
  else Def (reply u (SCJoinRoom ret) w).
Definition cs_switch_seat (u playerId targetPos : Z) (w : server) : ub server :=
  match find_player u true w, find_player playerId true w with
  | Some p, Some q =>
      match room_ptr_ p, room_ptr_ q with
      | Some h, Some k =>
          if negb (bool_decide (h = k)) || (max_size_ (room_of w h) <? u64 targetPos) || (targetPos <=? 0)
          then Def (reply u (SCSwitchSeat 11) w)
          else w ← switch_seat h playerId targetPos w; room_changed h (reply u (SCSwitchSeat 0) w)
      | _, _ => Def (reply u (SCSwitchSeat 4) w)
      end
  | _, _ => Def (reply u (SCSwitchSeat 1) w)
  end.
(** [CSSwitchShip_Action] and [CSSwitchSlot_Action]: both answer with [SCSwitchShip]. *)
Definition switch_kit (u : Z) (f : kit → kit) (w : server) : ub server :=
  match matched_player u w with
  | inl e => Def (reply u (SCSwitchShip e) w)
  | inr h =>
      let w := set_player u (set_kit (f (kit_ (player_of w u))) (player_of w u)) w in
      room_changed h (update_player_info (room_of w h) w)
  end.
Definition cs_switch_ship (u shipId : Z) : server → ub server :=
  switch_kit u (λ k, Kit shipId (skill_slot_count_ k) (bullet_count_ k) (unique_skills_ k)).
Definition cs_switch_slot (u slotCount : Z) (uniqueSkills : list Z) (bulletCount : Z) : server → ub server :=
  switch_kit u (λ k, Kit (ship_config_id_ k) slotCount bulletCount uniqueSkills).
Definition cs_exit_room (u : Z) (w : server) : ub server :=
  match matched_player u w with
  | inl e => Def (reply u (SCExitRoom e) w)
  | inr _ => exit_room end_battle_when_disconnect u (reply u (SCExitRoom 0) w)
  end.
Definition cs_start_battle (u : Z) (w : server) : ub server :=
  match matched_player u w with
  | inl _ => Def w
  | inr h =>
      let r := room_of w h in
      if (check_master u r =? 0) && (check_room_ready w r =? 0)
      then Def (broadcast_msg h SCBeginLoadResource (set_room h (set_status prepare r) w))
      else Def w
  end.
Definition cs_end_load_resource (u : Z) (w : server) : ub server :=
  match matched_player u w with
  | inl _ => Def w
  | inr h =>
      if check_room_ready w (room_of w h) =? 0 then
        let w := set_player u (set_ready (player_of w u)) w in
        if all_ready w (room_of w h) then i ← get_room_info w h; Def (send [To_battle_server i] w) else Def w
      else Def w
  end.
Definition br_start_battle (result : bool) (master : Z) (w : server) : ub server :=
  match matched_player master w with
  | inl _ => Def w
  | inr h =>
      Def (broadcast_msg h (SCStartBattle (if result then 0 else 1))
             (set_room h (set_status (if result then battle else opened) (room_of w h)) w))
  end.
(** The answer of a failed check is sent, and the player leaves all the same. *)
Definition cs_end_battle (u : Z) (w : server) : ub server :=
  match find_player u true w with
  | None => Undef
  | Some p =>
      let ret := match room_ptr_ p with None => 4 | Some h => check_room_battle (room_of w h) end in
      let w := if ret =? 0 then w else reply u (SCEndBattle ret) w in
      w ← exit_room end_battle_when_disconnect u w;
      Def (reply u (SCEndBattle ret) w)
  end.
Definition process (u : Z) (q : request) : server → ub server :=
  match q with
  | SLoginGame => login_game u
  | CSCreateRoom size mode => cs_create_room u size mode
  | CSRequestRoomList pattern count page => cs_request_room_list u pattern count page
  | CSJoinRoom id => cs_join_room u id
  | CSSwitchSeat v pos => cs_switch_seat u v pos
  | CSSwitchShip ship => cs_switch_ship u ship
  | CSSwitchSlot n skills bullets => cs_switch_slot u n skills bullets
  | CSExitRoom => cs_exit_room u
  | CSStartBattle => cs_start_battle u
  | CSEndLoadResource => cs_end_load_resource u
  | BRStartBattle result master => br_start_battle result master
  | CSEndBattle => cs_end_battle u
  end.
End Actions.

(** ** Rooms and players that fit together *)
Notation place := (option nat * bool * seat)%type.
Definition place_of (p : game_player) : place := (room_ptr_ p, is_login_ p, seat_ p).
Notation places := (gmap Z place).
Definition nowhere : place := place_of login_status.

(** The seats of a room: each is free or one member's, and no two have one. *)
Record room_ok (ss : places) (h : nat) (r : game_room) : Prop := {
  ok_member : ∀ u, u ∈ members r → ∃ s, ss !! u = Some (Some h, true, s) ∧ s = seat_at r (position_ s) ∧
                1 ≤ position_ s ≤ max_size_ r ∧ position_ s ∉ pos_list_ r;
  ok_apart : ∀ u v a b s t, u ∈ members r → v ∈ members r → ss !! u = Some (a, s) → ss !! v = Some (b, t) →
               position_ s = position_ t → u = v;
  ok_free : ∀ x, x ∈ pos_list_ r → 1 ≤ x ≤ max_size_ r;
  ok_taken : ∀ x, 1 ≤ x ≤ max_size_ r → x ∉ pos_list_ r → ∃ u a s, u ∈ members r ∧ ss !! u = Some (a, s) ∧ position_ s = x;
  ok_size : Z.of_nat (size (members r)) + Z.of_nat (size (pos_list_ r)) = max_size_ r;
  ok_master : members r ≠ ∅ → is_Some (master_player_ r)
}.
Record core (ss : places) (hp : gmap nat game_room) (next : nat) : Prop := {
  core_room : ∀ h r, hp !! h = Some r → room_ok ss h r;
  core_player : ∀ u h b s, ss !! u = Some (Some h, b, s) → ∃ r, hp !! h = Some r ∧ u ∈ members r;
  core_next : ∀ h, is_Some (hp !! h) → (h < next)%nat
}.
(** The room service lists the rooms that have members, by their numbers. *)
Record listing (hp : gmap nat game_room) (rs : gmap Z nat) (current : Z) : Prop := {
  listed : ∀ id h, rs !! id = Some h ↔ ∃ r, hp !! h = Some r ∧ members r ≠ ∅ ∧ room_id_ r = id;
  listed_ids : ∀ id, is_Some (rs !! id) → 1 ≤ id ≤ current
}.
Definition wf (w : server) : Prop :=
  core (place_of <$> players w) (heap w) (next_room w) ∧ listing (heap w) (rooms_ w) (current_room_id w) ∧
  0 ≤ current_room_id w.

Lemma wf_new : wf server_new.
Proof.
  split_and!; [split|split|done]; simpl.
  - intros h r Hr. by rewrite lookup_empty in Hr.
  - intros u h b s Hu. by rewrite fmap_empty, lookup_empty in Hu.
  - intros h [r Hr]. by rewrite lookup_empty in Hr.
  - intros id h. rewrite lookup_empty. split; [done|]. intros (r & Hr & _). by rewrite lookup_empty in Hr.
  - intros id [h Hh]. by rewrite lookup_empty in Hh.
Qed.
Lemma in_order_spec (s : gset Z) x : x ∈ in_order s ↔ x ∈ s.
Proof. unfold in_order. by rewrite merge_sort_Permutation, elem_of_elements. Qed.
Lemma in_order_NoDup (s : gset Z) : NoDup (in_order s).
Proof. unfold in_order. rewrite merge_sort_Permutation. apply NoDup_elements. Qed.
Lemma in_order_length (s : gset Z) : length (in_order s) = size s.
Proof. unfold in_order. by rewrite merge_sort_Permutation. Qed.

(** A room keeps its seats when only players elsewhere, or equipment, change. *)
Lemma room_ok_ext ss ss' h r : (∀ u, u ∈ members r → ss' !! u = ss !! u) → room_ok ss h r → room_ok ss' h r.
Proof.
  intros Hss [H1 H2 H3 H4 H5 H6]. split; try done.
  - intros u Hu. rewrite Hss by done. by apply H1.
  - intros u v a b s t Hu Hv. rewrite !Hss by done. by apply H2.
  - intros x Hx Hf. destruct (H4 x Hx Hf) as (u & a & s & Hu & ? & ?). exists u, a, s. by rewrite Hss.
Qed.
Lemma member_place ss hp next h r u :
  core ss hp next → hp !! h = Some r → u ∈ members r → ∃ s, ss !! u = Some (Some h, true, s).
Proof. intros Hc Hr Hu. destruct (ok_member _ _ _ (core_room _ _ _ Hc h r Hr) u Hu) as (s & ? & _). by exists s. Qed.
(** A member of one room is not one of another. *)
Lemma members_apart ss hp next h k r q u :
  core ss hp next → hp !! h = Some r → hp !! k = Some q → u ∈ members r → u ∈ members q → h = k.
Proof.
  intros Hc Hr Hq Hur Huq. destruct (member_place _ _ _ _ _ _ Hc Hr Hur) as [s Hs].
  destruct (member_place _ _ _ _ _ _ Hc Hq Huq) as [t Ht]. rewrite Hs in Ht. by injection Ht.
Qed.
(** Changing one room and the places of its members, old and new, is changing nothing else. *)
Lemma core_update ss ss' hp next h r r' :
  core ss hp next → hp !! h = Some r →
  (∀ u, ss' !! u ≠ ss !! u → u ∈ members r ∨ u ∈ members r') →
  (∀ u, u ∈ members r' → u ∈ members r ∨ ∃ b s, ss !! u = Some (None, b, s)) →
  (∀ u k b s, u ∈ members r → ss' !! u = Some (Some k, b, s) → k = h ∧ u ∈ members r') →
  room_ok ss' h r' → core ss' (<[h := r']> hp) next.
Proof.
  intros Hc Hr Hch Hnew Hold Hok. split.
  - intros k q. destruct (decide (h = k)) as [<-|Hne].
    + rewrite lookup_insert_eq. by intros [= <-].
    + rewrite lookup_insert_ne by done. intros Hq. apply (room_ok_ext ss); [|by eapply core_room].
      intros u Hu. destruct (decide (ss' !! u = ss !! u)) as [|Hd]; [done|]. exfalso.
      assert (u ∉ members r) as Hur by (intros ?; by eapply Hne, members_apart).
      destruct (Hch u Hd) as [|Hu']; [done|]. destruct (Hnew u Hu') as [|(b & s & Hs)]; [done|].
      destruct (member_place _ _ _ _ _ _ Hc Hq Hu) as [t Ht]. by rewrite Hs in Ht.
  - intros u k b s Hu. destruct (decide (u ∈ members r)) as [Hur|Hur].
    + destruct (Hold u k b s Hur Hu) as [-> ?]. exists r'. by rewrite lookup_insert_eq.
    + destruct (decide (u ∈ members r')) as [Hu'|Hu'].
      * destruct (ok_member _ _ _ Hok u Hu') as (t & Ht & _). rewrite Hu in Ht. simplify_eq. exists r'. by rewrite lookup_insert_eq.
      * destruct (decide (ss' !! u = ss !! u)) as [Heq|Hd]; [|by destruct (Hch u Hd)].
        rewrite Heq in Hu. destruct (core_player _ _ _ Hc u k b s Hu) as (q & Hq & Huq).
        destruct (decide (h = k)) as [<-|Hne]; [by simplify_eq|]. exists q. by rewrite lookup_insert_ne.
  - intros k Hk. destruct (decide (h = k)) as [<-|Hne].
    + eapply core_next; [done|]. by exists r.
    + rewrite lookup_insert_ne in Hk by done. by eapply core_next.
Qed.

(** ** Taking a seat *)
Lemma longer_elem {A} (l k : list A) x : x ∈ longer l k → x ∈ l ∨ x ∈ k.
Proof. unfold longer. destruct (length l <? length k)%nat; auto. Qed.
Lemma longer_nil {A} (l k : list A) : longer l k = [] → l = [] ∧ k = [].
Proof.
  unfold longer. destruct (Nat.ltb_spec (length l) (length k)) as [H|H]; intros ->; simpl in H.
  - lia.
  - split; [done|]. by destruct k; simpl in *; [|lia].
Qed.
Lemma teams_elem r x :
  let '(t1, t2, t3) := teams r in x ∈ t1 ∨ x ∈ t2 ∨ x ∈ t3 ↔ x ∈ pos_list_ r.
Proof.
  unfold teams. destruct (mode_ r); rewrite ?list_elem_of_filter, ?in_order_spec, ?elem_of_nil.
  - split; [tauto|]. intros Hx. destruct (decide (x ≤ Z.quot (max_size_ r) 2)); tauto.
  - split; [tauto|]. intros Hx. destruct (decide (x ≤ Z.quot (max_size_ r) 3)); [tauto|].
    destruct (decide (Z.quot (max_size_ r) 3 < x ≤ Z.quot (max_size_ r) 3 * 2)); tauto.
  - tauto.
Qed.
Lemma get_pos_defined r x :
  x ∈ pos_list_ r → ∃ pos, pos ∈ pos_list_ r ∧ get_pos r = Def (pos, set_pos_list (pos_list_ r ∖ {[pos]}) r).
Proof.
  intros Hx. unfold get_pos. pose proof (teams_elem r) as Ht. destruct (teams r) as [[t1 t2] t3].
  destruct (longer (longer t1 t2) t3) as [|pos l] eqn:Hl; simpl.
  - apply longer_nil in Hl as [[-> ->]%longer_nil ->]. apply Ht in Hx as [H|[H|H]]; by apply elem_of_nil in H.
  - exists pos. split; [|done]. apply Ht. assert (pos ∈ longer (longer t1 t2) t3) as Hp by (rewrite Hl; left).
    apply longer_elem in Hp as [[?|?]%longer_elem|?]; auto.
Qed.
Lemma places_set u p w : place_of <$> <[u := p]> (players w) = <[u := place_of p]> (place_of <$> players w).
Proof. apply fmap_insert. Qed.
Lemma places_alter k u (ps : gmap Z game_player) : place_of <$> alter (set_kit k) u ps = place_of <$> ps.
Proof.
  apply map_eq. intros v. rewrite !lookup_fmap. destruct (decide (u = v)) as [<-|Hne].
  - rewrite lookup_alter_eq. by destruct (ps !! u).
  - by rewrite lookup_alter_ne.
Qed.
Lemma places_update r w : place_of <$> players (update_player_info r w) = place_of <$> players w.
Proof.
  unfold update_player_info. simpl. generalize (in_key_order (ships_of w r)) as l. generalize (players w) as ps.
  intros ps l. revert ps. induction l as [|[id [mv sh]] l IH]; intros ps; [done|]. simpl. rewrite IH.
  unfold share_ship. simpl. destruct mv, sh; [|done..]. apply places_alter.
Qed.
Definition joined (u pos : Z) (r : game_room) : game_room :=
  Room (room_id_ r) (status_ r) (mode_ r) (if decide (members r = ∅) then Some u else master_player_ r) (max_size_ r)
    ({[u]} ∪ members r) (pos_list_ r ∖ {[pos]}).
Lemma core_join ss hp next h r u s pos :
  core ss hp next → hp !! h = Some r → ss !! u = Some (None, true, s) → pos ∈ pos_list_ r →
  core (<[u := (Some h, true, seat_at r pos)]> ss) (<[h := joined u pos r]> hp) next.
Proof.
  intros Hc Hr Hu Hpos. pose proof (core_room _ _ _ Hc h r Hr) as Hok.
  assert (u ∉ members r) as Hun. { intros Hm. destruct (member_place _ _ _ _ _ _ Hc Hr Hm). simplify_eq. }
  assert (∀ x, position_ (seat_at r x) = x) as Hat.
  { intros x. unfold seat_at. repeat case_match; done. }
  apply (core_update ss _ _ _ h r); [done|done| | | |].
  - intros v Hv. destruct (decide (u = v)) as [<-|Hne]; [right; simpl; set_solver|]. by rewrite lookup_insert_ne in Hv.
  - simpl. intros v [->%elem_of_singleton|]%elem_of_union; eauto.
  - intros v k b t Hv. rewrite lookup_insert_ne by (by intros ->). intros Hk.
    destruct (member_place _ _ _ _ _ _ Hc Hr Hv). simplify_eq. simpl. set_solver.
  - split; simpl.
    + intros v [->%elem_of_singleton|Hv]%elem_of_union.
      * exists (seat_at r pos). rewrite lookup_insert_eq, Hat. split_and!; [done|done|by eapply ok_free..|set_solver].
      * destruct (ok_member _ _ _ Hok v Hv) as (t & Ht & Hseat & Hin & Hf). exists t.
        rewrite lookup_insert_ne by (by intros ->). split_and!; [done|done|lia|lia|set_solver].
    + assert (∀ v a t, v ∈ members r → <[u := (Some h, true, seat_at r pos)]> ss !! v = Some (a, t) →
        ss !! v = Some (a, t) ∧ position_ t ∉ pos_list_ r) as Hold.
      { intros v a t Hv. rewrite lookup_insert_ne by (by intros ->). intros Ht. split; [done|].
        destruct (ok_member _ _ _ Hok v Hv) as (t' & Ht' & _ & _ & Hf). by simplify_eq. }
      intros v v' a b t t' [->%elem_of_singleton|Hv]%elem_of_union [->%elem_of_singleton|Hv']%elem_of_union Ht Ht' Heq.
      * done.
      * rewrite lookup_insert_eq in Ht. simplify_eq. destruct (Hold _ _ _ Hv' Ht') as [_ Hf]. by rewrite <- Heq, Hat in Hf.
      * rewrite lookup_insert_eq in Ht'. simplify_eq. destruct (Hold _ _ _ Hv Ht) as [_ Hf]. by rewrite Heq, Hat in Hf.
      * destruct (Hold _ _ _ Hv Ht), (Hold _ _ _ Hv' Ht'). by eapply (ok_apart _ _ _ Hok).
    + intros x [Hx _]%elem_of_difference. by eapply ok_free.
    + intros x Hx Hf. destruct (decide (x = pos)) as [->|Hne].
      * exists u, (Some h, true), (seat_at r pos). rewrite lookup_insert_eq, Hat. split_and!; [set_solver|done|done].
      * destruct (ok_taken _ _ _ Hok x Hx) as (v & a & t & Hv & Ht & Hp); [set_solver|]. exists v, a, t.
        rewrite lookup_insert_ne by (by intros ->). split_and!; [set_solver|done|done].
    + rewrite size_union, size_singleton by set_solver. pose proof (ok_size _ _ _ Hok).
      rewrite size_difference, size_singleton by set_solver.
      assert (size (pos_list_ r) ≠ 0)%nat by (apply size_non_empty_iff; set_solver). lia.
    + intros _. destruct (decide (members r = ∅)); [by eexists|]. by apply (ok_master _ _ _ Hok).
Qed.
(** Joining a room that has a free seat works, whatever the room service lists. *)
Lemma join_defined w h r u s x :
  core (place_of <$> players w) (heap w) (next_room w) → heap w !! h = Some r → x ∈ pos_list_ r →
  (place_of <$> players w) !! u = Some (None, true, s) →
  ∃ pos w', pos ∈ pos_list_ r ∧ join h u w = Def w' ∧
    core (place_of <$> players w') (heap w') (next_room w') ∧ heap w' = <[h := joined u pos r]> (heap w) ∧
    next_room w' = next_room w ∧ rooms_ w' = rooms_ w ∧ current_room_id w' = current_room_id w.
Proof.
  intros Hc Hr Hx Hu. unfold join. rewrite Hr. simpl.
  destruct (get_pos_defined (set_members (if decide (members r = ∅) then Some u else master_player_ r) ({[u]} ∪ members r) r) x Hx)
    as (pos & Hpos & ->). simpl in *.
  exists pos. eexists. split; [done|]. split; [done|]. rewrite places_update. simpl. rewrite places_set.
  rewrite lookup_fmap in Hu. apply fmap_Some in Hu as (p & Hp & Hplace).
  assert (place_of (set_seat (seat_at r pos) (set_room_ptr (Some h) (player_of w u))) = (Some h, true, seat_at r pos)) as Hpl.
  { unfold player_of. rewrite Hp. unfold place_of in *. simpl in *. by injection Hplace as _ <- _. }
  change (seat_at (set_pos_list _ _) pos) with (seat_at r pos). rewrite Hpl.
  split_and!; try done. eapply core_join; try done. rewrite lookup_fmap, Hp. simpl. by rewrite Hplace.
Qed.

(** ** Leaving and changing seats *)
Lemma position_seat_at r x : position_ (seat_at r x) = x.
Proof. unfold seat_at. by repeat case_match. Qed.
Lemma member_at ss h r u : room_ok ss h r → u ∈ members r →
  ∃ pos, ss !! u = Some (Some h, true, seat_at r pos) ∧ 1 ≤ pos ≤ max_size_ r ∧ pos ∉ pos_list_ r.
Proof.
  intros Hok Hu. destruct (ok_member _ _ _ Hok u Hu) as (s & Hs & Heq & Hin & Hf).
  exists (position_ s). by rewrite <- Heq.
Qed.
Lemma core_remove ss hp next h r u pos :
  core ss hp next → hp !! h = Some r → u ∈ members r → ss !! u = Some (Some h, true, seat_at r pos) →
  core (<[u := nowhere]> ss)
    (<[h := set_pos_list ({[pos]} ∪ pos_list_ r) (set_members (master_player_ r) (members r ∖ {[u]}) r)]> hp) next.
Proof.
  intros Hc Hr Hu Hs. pose proof (core_room _ _ _ Hc h r Hr) as Hok.
  destruct (member_at _ _ _ _ Hok Hu) as (pos' & Hs' & Hin & Hf). rewrite Hs in Hs'.
  assert (pos' = pos) as -> by (injection Hs' as He; apply (f_equal position_) in He; by rewrite !position_seat_at in He).
  apply (core_update ss _ _ _ h r); [done|done| | | |].
  - intros v Hv. destruct (decide (u = v)) as [<-|Hne]; [by left|]. by rewrite lookup_insert_ne in Hv.
  - simpl. intros v [Hv _]%elem_of_difference. by left.
  - intros v k b t Hv. destruct (decide (u = v)) as [<-|Hne]; [by rewrite lookup_insert_eq|].
    rewrite lookup_insert_ne by done. intros Hk. destruct (member_place _ _ _ _ _ _ Hc Hr Hv). simplify_eq. simpl. set_solver.
  - split; simpl.
    + intros v [Hv Hne%not_elem_of_singleton]%elem_of_difference.
      destruct (ok_member _ _ _ Hok v Hv) as (t & Ht & Hseat & Hint & Hft). exists t.
      rewrite lookup_insert_ne by done. split_and!; [done|done|lia|lia|]. intros [Hp%elem_of_singleton|]%elem_of_union; [|done].
      apply Hne, (ok_apart _ _ _ Hok v u _ _ _ _ Hv Hu Ht Hs). by rewrite position_seat_at.
    + intros v v' a b t t' [Hv Hne%not_elem_of_singleton]%elem_of_difference [Hv' Hne'%not_elem_of_singleton]%elem_of_difference.
      rewrite !lookup_insert_ne by done. by apply (ok_apart _ _ _ Hok).
    + intros x [->%elem_of_singleton|Hx]%elem_of_union; [done|by eapply ok_free].
    + intros x Hx Hfx. destruct (ok_taken _ _ _ Hok x Hx) as (v & a & t & Hv & Ht & Hp); [set_solver|].
      assert (v ≠ u) as Hne. { intros ->. rewrite Hs in Ht. simplify_eq. rewrite position_seat_at in Hfx. set_solver. }
      exists v, a, t. rewrite lookup_insert_ne by done. split_and!; [set_solver|done|done].
    + pose proof (ok_size _ _ _ Hok). rewrite (size_union {[pos]} (pos_list_ r)), size_singleton by set_solver.
      rewrite (size_difference (members r) {[u]}), size_singleton by set_solver.
      assert (size (members r) ≠ 0)%nat by (apply size_non_empty_iff; set_solver). lia.
    + intros Hne. apply (ok_master _ _ _ Hok). set_solver.
Qed.
Definition cleared (r : game_room) : game_room := Room 0 opened (mode_ r) None 0 ∅ ∅.
Lemma core_clear ss ss' hp next h r :
  core ss hp next → hp !! h = Some r →
  (∀ u, ss' !! u = if decide (u ∈ members r) then Some nowhere else ss !! u) →
  core ss' (<[h := cleared r]> hp) next.
Proof.
  intros Hc Hr Hss. apply (core_update ss _ _ _ h r); [done|done| | | |].
  - intros u Hu. rewrite Hss in Hu. case_decide; [by left|done].
  - simpl. intros u Hu. by apply elem_of_empty in Hu.
  - intros u k b s Hu. by rewrite Hss, decide_True.
  - split; simpl; [set_solver|set_solver|set_solver|lia|reflexivity|done].
Qed.
Lemma core_move ss hp next h r u pos target :
  core ss hp next → hp !! h = Some r → u ∈ members r → ss !! u = Some (Some h, true, seat_at r pos) →
  target ∈ pos_list_ r →
  core (<[u := (Some h, true, seat_at r target)]> ss)
    (<[h := set_pos_list ({[pos]} ∪ pos_list_ r ∖ {[target]}) r]> hp) next.
Proof.
  intros Hc Hr Hu Hs Htg. pose proof (core_room _ _ _ Hc h r Hr) as Hok.
  destruct (member_at _ _ _ _ Hok Hu) as (pos' & Hs' & Hin & Hf). rewrite Hs in Hs'.
  assert (pos' = pos) as -> by (injection Hs' as He; apply (f_equal position_) in He; by rewrite !position_seat_at in He).
  assert (∀ v a t, v ∈ members r → <[u := (Some h, true, seat_at r target)]> ss !! v = Some (a, t) →
    v = u ∧ position_ t = target ∨ v ≠ u ∧ ss !! v = Some (a, t) ∧ position_ t ≠ target ∧ position_ t ≠ pos) as Hcase.
  { intros v a t Hv. destruct (decide (u = v)) as [<-|Hne].
    - rewrite lookup_insert_eq. intros [= _ <-]. left. by rewrite position_seat_at.
    - rewrite lookup_insert_ne by done. intros Ht. right. destruct (ok_member _ _ _ Hok v Hv) as (t' & Ht' & _ & _ & Hft').
      simplify_eq. split_and!; [done|done|by intros <-|]. intros Hp. apply Hne.
      apply (ok_apart _ _ _ Hok u v _ _ _ _ Hu Hv Hs Ht). by rewrite position_seat_at. }
  apply (core_update ss _ _ _ h r); [done|done| | | |].
  - intros v Hv. destruct (decide (u = v)) as [<-|Hne]; [by left|]. by rewrite lookup_insert_ne in Hv.
  - simpl. intros v Hv. by left.
  - intros v k b t Hv. destruct (decide (u = v)) as [<-|Hne]; [rewrite lookup_insert_eq; by intros [= <- _ _]|].
    rewrite lookup_insert_ne by done. intros Hk. destruct (member_place _ _ _ _ _ _ Hc Hr Hv). by simplify_eq.
  - split; simpl.
    + intros v Hv. destruct (decide (u = v)) as [<-|Hne].
      * exists (seat_at r target). rewrite lookup_insert_eq, position_seat_at.
        pose proof (ok_free _ _ _ Hok _ Htg). split_and!; [done|done|lia|lia|].
        intros [->%elem_of_singleton|]%elem_of_union; [done|set_solver].
      * destruct (ok_member _ _ _ Hok v Hv) as (t & Ht & Hseat & Hint & Hft). exists t.
        assert (<[u := (Some h, true, seat_at r target)]> ss !! v = Some (Some h, true, t)) as Ht' by by rewrite lookup_insert_ne.
        destruct (Hcase v _ t Hv Ht') as [[]|(_ & _ & H1 & H2)]; [done|].
        split_and!; [done|done|lia|lia|]. intros [Hp%elem_of_singleton|]%elem_of_union; [done|set_solver].
    + intros v v' a b t t' Hv Hv' Ht Ht' Heq.
      destruct (Hcase _ _ _ Hv Ht) as [[-> H1]|(Hn & H1 & H2 & H3)], (Hcase _ _ _ Hv' Ht') as [[-> H1']|(Hn' & H1' & H2' & H3')];
        [done|congruence|congruence|by eapply (ok_apart _ _ _ Hok)].
    + intros x [->%elem_of_singleton|[Hx _]%elem_of_difference]%elem_of_union; [done|by eapply ok_free].
    + intros x Hx Hfx. destruct (decide (x = target)) as [->|Hne].
      * exists u, (Some h, true), (seat_at r target). by rewrite lookup_insert_eq, position_seat_at.
      * destruct (ok_taken _ _ _ Hok x Hx) as (v & a & t & Hv & Ht & Hp); [set_solver|].
        assert (v ≠ u) as Hvu. { intros ->. rewrite Hs in Ht. simplify_eq. rewrite position_seat_at in Hfx. set_solver. }
        exists v, a, t. by rewrite lookup_insert_ne.
    + pose proof (ok_size _ _ _ Hok).
      rewrite size_union, size_singleton by set_solver. rewrite size_difference, size_singleton by set_solver.
      assert (size (pos_list_ r) ≠ 0)%nat by (apply size_non_empty_iff; set_solver). lia.
    + apply (ok_master _ _ _ Hok).
Qed.
Lemma core_swap ss hp next h r u v s t :
  core ss hp next → hp !! h = Some r → u ∈ members r → v ∈ members r → u ≠ v →
  ss !! u = Some (Some h, true, s) → ss !! v = Some (Some h, true, t) →
  core (<[v := (Some h, true, s)]> (<[u := (Some h, true, t)]> ss)) hp next.
Proof.
  intros Hc Hr Hu Hv Huv Hs Ht. pose proof (core_room _ _ _ Hc h r Hr) as Hok.
  set (ss' := <[v := _]> _).
  (* The member that has the seat of [x] now. *)
  set (other x := if decide (x = u) then v else if decide (x = v) then u else x).
  assert (∀ x, ss' !! x = ss !! other x) as Hss.
  { intros x. unfold ss', other. repeat case_decide; subst; rewrite ?lookup_insert_eq; try done.
    - by rewrite lookup_insert_ne, lookup_insert_eq.
    - by rewrite !lookup_insert_ne. }
  assert (∀ x, x ∈ members r → other x ∈ members r) as Hin by (intros x; unfold other; by repeat case_decide).
  assert (∀ x y, other x = other y → x = y) as Hinj by (intros x y; unfold other; repeat case_decide; congruence).
  assert (∀ x, other (other x) = x) as Hinv by (intros x; unfold other; repeat case_decide; congruence).
  rewrite <- (insert_id hp h r) by done. apply (core_update ss _ _ _ h r); [done|done| | | |].
  - intros x Hx. rewrite Hss in Hx. left. destruct (decide (x = u)) as [->|Hxu]; [done|].
    destruct (decide (x = v)) as [->|Hxv]; [done|]. unfold other in Hx. by rewrite !decide_False in Hx.
  - intros x Hx. by left.
  - intros x k b y Hx. rewrite Hss. destruct (member_place _ _ _ _ _ _ Hc Hr (Hin x Hx)) as [z ->]. by intros [= <- _ _].
  - split; try apply Hok.
    + intros x Hx. rewrite Hss. by apply (ok_member _ _ _ Hok), Hin.
    + intros x y a b p q Hx Hy. rewrite !Hss. intros Hp Hq Heq. apply Hinj.
      by apply (ok_apart _ _ _ Hok _ _ _ _ _ _ (Hin x Hx) (Hin y Hy) Hp Hq).
    + intros x Hx Hf. destruct (ok_taken _ _ _ Hok x Hx Hf) as (y & a & p & Hy & Hp & Hpos).
      exists (other y), a, p. rewrite Hss, Hinv. by auto.
Qed.

(** ** Operations keep the server well formed *)
Lemma wf_send os w : wf w → wf (send os w).
Proof. done. Qed.
Lemma wf_places w ps : place_of <$> ps = place_of <$> players w → wf w → wf (set_players ps w).
Proof. intros Hps (Hc & Hl). split; [|done]. simpl. by rewrite Hps. Qed.
Lemma wf_update_info r w : wf w → wf (update_player_info r w).
Proof. intros Hw. apply (wf_places w); [|done]. apply (places_update r w). Qed.
Lemma place_at w u pl : (place_of <$> players w) !! u = Some pl → players w !! u = Some (player_of w u) ∧ place_of (player_of w u) = pl.
Proof. rewrite lookup_fmap. unfold player_of. destruct (players w !! u); simpl; [by intros [= <-]|done]. Qed.
Lemma set_player_id u w ps : players w !! u = Some ps → place_of <$> <[u := ps]> (players w) = place_of <$> players w.
Proof. intros Hu. by rewrite insert_id. Qed.
(** A player's equipment or readiness changes. *)
Lemma wf_set_player u p w : wf w → players w !! u = Some (player_of w u) → place_of p = place_of (player_of w u) → wf (set_player u p w).
Proof.
  intros Hw Hu Hp. apply (wf_places w); [|done]. rewrite fmap_insert, Hp. apply insert_id. by rewrite lookup_fmap, Hu.
Qed.
(** A status changes. *)
Lemma wf_set_status h r s w : wf w → heap w !! h = Some r → wf (set_room h (set_status s r) w).
Proof.
  intros (Hc & Hl & Hcur) Hr. split_and!; [|split|done]; simpl.
  - pose proof (core_room _ _ _ Hc h r Hr) as [H1 H2 H3 H4 H5 H6]. apply (core_update (place_of <$> players w) _ _ _ h r); try done.
    + simpl. auto.
    + intros u k b t Hu Hk. simpl. destruct (member_place _ _ _ _ _ _ Hc Hr Hu). by simplify_eq.
  - intros id k. rewrite (listed _ _ _ Hl). destruct (decide (h = k)) as [<-|Hne].
    + rewrite lookup_insert_eq, Hr. split; intros (q & [= <-] & ? & ?); by eexists.
    + by rewrite lookup_insert_ne.
  - apply (listed_ids _ _ _ Hl).
Qed.
Lemma destroy_places ps l u :
  foldl (λ (ps : gmap Z game_player) v, <[v := login_status]> ps) ps l !! u =
    if decide (u ∈ l) then Some login_status else ps !! u.
Proof.
  revert ps. induction l as [|v l IH]; intros ps; cbn [foldl]; [by rewrite decide_False by set_solver|].
  rewrite IH. destruct (decide (u ∈ l)) as [Hu|Hu]; [by rewrite decide_True by set_solver|].
  destruct (decide (v = u)) as [<-|Hne]; [by rewrite lookup_insert_eq, decide_True by set_solver|].
  rewrite lookup_insert_ne by done. rewrite decide_False; [done|]. set_solver.
Qed.
(** [destroy_room] of a room that has members, or has just lost its last one. *)
Lemma destroy_room_wf w h r hp0 r0 :
  core (place_of <$> players w) (heap w) (next_room w) → 0 ≤ current_room_id w → heap w !! h = Some r →
  listing hp0 (rooms_ w) (current_room_id w) → hp0 !! h = Some r0 → members r0 ≠ ∅ → room_id_ r0 = room_id_ r →
  (∀ k, k ≠ h → heap w !! k = hp0 !! k) →
  ∃ w', destroy_room h w = Def w' ∧ wf w' ∧ heap w' = <[h := cleared r]> (heap w) ∧
    (∀ u, players w' !! u = if decide (u ∈ members r) then Some login_status else players w !! u) ∧
    rooms_ w' = delete (room_id_ r) (rooms_ w) ∧ current_room_id w' = current_room_id w ∧ sent w' = sent w.
Proof.
  intros Hc Hcur Hr Hl Hr0 Hm Hid Hk. unfold destroy_room, destroy. rewrite Hr. simpl. eexists. split; [done|].
  unfold room_of. rewrite Hr. simpl.
  assert (∀ u, foldl (λ (ps : gmap Z game_player) v, <[v := login_status]> ps) (players w) (in_order (members r)) !! u =
    if decide (u ∈ members r) then Some login_status else players w !! u) as Hps.
  { intros u. rewrite destroy_places. pose proof (in_order_spec (members r) u). repeat case_decide; tauto. }
  split_and!; [|done|done|done|done|done]. split_and!; [|split|done]; simpl.
  - apply (core_clear (place_of <$> players w)); [done|done|]. intros u. rewrite !lookup_fmap, Hps. by case_decide.
  - intros id k. rewrite lookup_delete_Some, (listed _ _ _ Hl). split.
    + intros (Hne & q & Hq & Hqm & Hqid). destruct (decide (h = k)) as [<-|Hhk]; [by simplify_eq|].
      exists q. by rewrite lookup_insert_ne, Hk.
    + intros (q & Hq & Hqm & Hqid). destruct (decide (h = k)) as [<-|Hhk].
      * rewrite lookup_insert_eq in Hq. by simplify_eq.
      * rewrite lookup_insert_ne, Hk in Hq by done. split; [|by exists q]. intros Heq.
        assert (rooms_ w !! room_id_ r = Some h) as H1 by (apply (listed _ _ _ Hl); by exists r0).
        assert (rooms_ w !! id = Some k) as H2 by (apply (listed _ _ _ Hl); by exists q).
        rewrite Heq in H1. congruence.
  - intros id [k Hid']. apply lookup_delete_Some in Hid' as [_ Hid']. apply (listed_ids _ _ _ Hl). by exists k.
Qed.
(** The player leaves, others may; nobody else's equipment or readiness changes. *)
Definition left_alone (u : Z) (w w' : server) : Prop :=
  ∀ v, v ≠ u → players w' !! v = players w !! v ∨ players w' !! v = Some login_status ∧ is_Some (players w !! v).
Lemma exit_room_wf flag w u p :
  wf w → players w !! u = Some p → is_login_ p = true →
  ∃ w', exit_room flag u w = Def w' ∧ wf w' ∧ current_room_id w' = current_room_id w ∧
    room_ptr_ (player_of w' u) = None ∧ is_login_ (player_of w' u) = true ∧ is_Some (players w' !! u) ∧ left_alone u w w'.
Proof.
  intros (Hc & Hl & Hcur) Hu Hlog. assert (player_of w u = p) as Hpo by (unfold player_of; by rewrite Hu).
  unfold exit_room. rewrite Hpo.
  destruct (room_ptr_ p) as [h|] eqn:Hp.
  2:{ exists w. rewrite Hpo, Hu. split_and!; try done. intros v _. by left. }
  assert ((place_of <$> players w) !! u = Some (Some h, true, seat_ p)) as Hpl
    by (rewrite lookup_fmap, Hu; simpl; unfold place_of; by rewrite Hp, Hlog).
  destruct (core_player _ _ _ Hc _ _ _ _ Hpl) as (r & Hr & Hur).
  assert (members r ≠ ∅) as Hne by set_solver.
  assert (∀ w1 r1, core (place_of <$> players w1) (heap w1) (next_room w1) → current_room_id w1 = current_room_id w →
    rooms_ w1 = rooms_ w → heap w1 = <[h := r1]> (heap w) → room_id_ r1 = room_id_ r →
    (∀ v, v ∈ members r1 → v ∈ members r) →
    players w1 !! u = Some p ∧ u ∈ members r1 ∨ players w1 !! u = Some login_status →
    (∀ v, v ≠ u → players w1 !! v = players w !! v) →
    ∃ w', destroy_room h w1 = Def w' ∧ wf w' ∧ current_room_id w' = current_room_id w ∧
      room_ptr_ (player_of w' u) = None ∧ is_login_ (player_of w' u) = true ∧ is_Some (players w' !! u) ∧ left_alone u w w') as Hdestroy.
  { intros w1 r1 Hc1 Hcur1 Hrs Hh Hid Hms Hpu Hpv.
    destruct (destroy_room_wf w1 h r1 (heap w) r) as (w' & Hd & Hw' & _ & Hps & _ & Hcur' & _); try done.
    - by rewrite Hcur1.
    - by rewrite Hh, lookup_insert_eq.
    - by rewrite Hrs, Hcur1.
    - intros k Hk. by rewrite Hh, lookup_insert_ne.
    - exists w'. rewrite Hcur'. unfold player_of.
      assert (players w' !! u = Some login_status) as Hu'.
      { rewrite Hps. case_decide; [done|]. destruct Hpu as [[_ Hpu]|Hpu]; [done|]. done. }
      rewrite Hu'. split_and!; try done. intros v Hv. rewrite Hps, Hpv by done.
      case_decide as Hm; [right|by left]. split; [done|].
      destruct (member_place _ _ _ _ _ _ Hc Hr (Hms v Hm)) as [s Hs]. rewrite lookup_fmap in Hs.
      apply fmap_Some in Hs as (q & Hq & _). by exists q. }
  destruct flag.
  - unfold deal_destroy_room. apply (Hdestroy _ r); try done; [simpl; by rewrite insert_id|by left].
  - unfold remove. rewrite Hr. simpl. rewrite decide_True by done. simpl.
    rewrite Hpo.
    set (r1 := set_pos_list _ _). set (w1 := set_player u login_status _).
    destruct (member_at _ _ _ _ (core_room _ _ _ Hc h r Hr) Hur) as (pos & Hs & _). rewrite Hpl in Hs. injection Hs as Hseat.
    assert (core (place_of <$> players w1) (heap w1) (next_room w1)) as Hc1.
    { simpl. rewrite places_set. unfold r1. rewrite Hseat, position_seat_at. apply core_remove; try done. by rewrite Hpl, Hseat. }
    assert (room_of w1 h = r1) as Hrr by (unfold room_of; simpl; by rewrite lookup_insert_eq).
    rewrite Hrr.
    assert (∀ w2, players w2 = players w1 → heap w2 = heap w1 → next_room w2 = next_room w1 → rooms_ w2 = rooms_ w1 →
      current_room_id w2 = current_room_id w1 → ∃ w', destroy_room h w2 = Def w' ∧ wf w' ∧ current_room_id w' = current_room_id w ∧
      room_ptr_ (player_of w' u) = None ∧ is_login_ (player_of w' u) = true ∧ is_Some (players w' !! u) ∧ left_alone u w w') as Hd2.
    { intros w2 Hp2 Hh2 Hn2 Hr2 Hc2. apply (Hdestroy w2 r1); rewrite ?Hp2, ?Hh2, ?Hn2, ?Hr2, ?Hc2; try done.
      - simpl. set_solver.
      - right. simpl. by rewrite lookup_insert_eq.
      - intros v Hv. simpl. by rewrite lookup_insert_ne. }
    destruct (bool_decide (status_ r1 = battle)); cbn [negb]; [|by apply Hd2].
    destruct (decide (members r1 = ∅)) as [He|He]; [by apply Hd2|]. exists w1. split; [done|].
    unfold player_of. simpl. rewrite lookup_insert_eq. split_and!; try done.
    + split_and!; [done|split|done]; simpl.
      * intros id k. rewrite (listed _ _ _ Hl). destruct (decide (h = k)) as [<-|Hhk]; [|by rewrite lookup_insert_ne].
        rewrite lookup_insert_eq, Hr. split; intros (q & [= <-] & ? & ?); by eexists.
      * apply (listed_ids _ _ _ Hl).
    + intros v Hv. left. simpl. by rewrite lookup_insert_ne.
Qed.
(** A player who is in no room changes. *)
Lemma wf_outside w u p :
  wf w → room_ptr_ (player_of w u) = None → room_ptr_ p = None → wf (set_player u p w).
Proof.
  intros (Hc & Hl & Hcur) Hu Hp. split; [|done]. simpl. rewrite fmap_insert.
  assert (∀ h s, (place_of <$> players w) !! u ≠ Some (Some h, true, s)) as Hout.
  { intros h s Hs. apply place_at in Hs as [_ Hs]. unfold place_of in Hs. by rewrite Hu in Hs. }
  split; [|..].
  - intros h r Hr. apply (room_ok_ext (place_of <$> players w)); [|by eapply core_room].
    intros v Hv. rewrite lookup_insert_ne; [done|]. intros ->.
    destruct (member_place _ _ _ _ _ _ Hc Hr Hv) as [s Hs]. by eapply Hout.
  - intros v h b s Hv. destruct (decide (u = v)) as [<-|Hne].
    + rewrite lookup_insert_eq in Hv. unfold place_of in Hv. rewrite Hp in Hv. done.
    + rewrite lookup_insert_ne in Hv by done. by eapply core_player.
  - apply (core_next _ _ _ Hc).
Qed.
Lemma player_of_set w u p : player_of (set_player u p w) u = p.
Proof. unfold player_of. simpl. by rewrite lookup_insert_eq. Qed.
Lemma find_player_logged u w p : find_player u true w = Some p → players w !! u = Some p ∧ is_login_ p = true ∧ player_of w u = p.
Proof.
  unfold find_player, player_of. destruct (players w !! u) as [q|]; simpl; [|done].
  destruct (is_login_ q) eqn:Hq; simpl; [|done]. by intros [= ->].
Qed.
Lemma matched_room u w h :
  wf w → matched_player u w = inr h →
  ∃ r p, heap w !! h = Some r ∧ u ∈ members r ∧ players w !! u = Some p ∧ player_of w u = p ∧ room_ptr_ p = Some h ∧
    is_login_ p = true ∧ is_Some (master_player_ r) ∧ room_of w h = r ∧ room_ok (place_of <$> players w) h r.
Proof.
  intros (Hc & _) Hm. unfold matched_player in Hm. destruct (find_player u true w) as [p|] eqn:Hf; [|done].
  apply find_player_logged in Hf as (Hp & Hlog & Hpo). destruct (room_ptr_ p) as [k|] eqn:Hk; [|done]. injection Hm as ->.
  destruct (core_player _ _ _ Hc u h true (seat_ p)) as (r & Hr & Hu).
  { rewrite lookup_fmap, Hp. simpl. unfold place_of. by rewrite Hk, Hlog. }
  pose proof (core_room _ _ _ Hc h r Hr) as Hok. exists r, p. unfold room_of. rewrite Hr. split_and!; try done.
  apply (ok_master _ _ _ Hok). set_solver.
Qed.
Lemma room_changed_wf h r w : wf w → heap w !! h = Some r → is_Some (master_player_ r) → ∃ w', room_changed h w = Def w' ∧ wf w'.
Proof.
  intros Hw Hr [m Hm]. unfold room_changed, get_room_info. rewrite Hr. simpl. rewrite Hm. simpl. eexists. split; [done|].
  by apply wf_send.
Qed.
Lemma disconnect_wf flag u w :
  wf w → ∃ w', handle_player_disconnect flag u w = Def w' ∧ wf w' ∧
    (is_login_ (player_of w u) = true → room_ptr_ (player_of w' u) = None).
Proof.
  intros Hw. unfold handle_player_disconnect. destruct (find_player u true w) as [p|] eqn:Hf.
  - apply find_player_logged in Hf as (Hp & Hlog & Hpo).
    destruct (exit_room_wf flag w u p Hw Hp Hlog) as (w' & -> & Hw' & _ & Hn & _). simpl. eexists. split; [done|].
    split; [by apply wf_outside|]. by rewrite player_of_set.
  - exists w. split_and!; [done|done|]. unfold find_player, player_of in *. destruct (players w !! u); [|done]. simpl in *.
    intros Hlog. by rewrite Hlog in Hf.
Qed.
Lemma login_wf flag u w : wf w → ∃ w', login_game flag u w = Def w' ∧ wf w'.
Proof.
  intros Hw. unfold login_game. set (w0 := get_player u w).
  assert (wf w0) as Hw0.
  { unfold w0, get_player, find_player. destruct (players w !! u) as [p|] eqn:Hp; simpl; [done|].
    apply wf_outside; [done| |done]. unfold player_of. by rewrite Hp. }
  assert (∀ w1, wf w1 → (is_login_ (player_of w1 u) = false → room_ptr_ (player_of w1 u) = None) →
    ∃ w', (if is_login_ (player_of w1 u) then Def w1 else Def (reply u SCServerInfo (set_player u login_status w1))) = Def w' ∧ wf w') as Hlast.
  { intros w1 Hw1 Hroom. destruct (is_login_ (player_of w1 u)); eexists; (split; [done|]); [done|].
    apply wf_send, wf_outside; auto. }
  destruct (room_ptr_ (player_of w0 u)) as [h|] eqn:Hroom.
  - assert (is_login_ (player_of w0 u) = true) as Hlog.
    { destruct Hw0 as (Hc & _). unfold player_of in *. destruct (players w0 !! u) as [p|] eqn:Hp; [|done]. simpl in *.
      assert ((place_of <$> players w0) !! u = Some (Some h, is_login_ p, seat_ p)) as Hs
        by (rewrite lookup_fmap, Hp; simpl; unfold place_of; by rewrite Hroom).
      destruct (core_player _ _ _ Hc _ _ _ _ Hs) as (r & Hr & Hu).
      destruct (member_place _ _ _ _ _ _ Hc Hr Hu) as [s Hs']. rewrite Hs in Hs'. by injection Hs' as -> _. }
    destruct (disconnect_wf flag u w0 Hw0) as (w1 & -> & Hw1 & Hn). simpl. apply Hlast; [done|]. intros _. by apply Hn.
  - simpl. apply Hlast; [done|]. by rewrite Hroom.
Qed.
Lemma seats_elem n x : 0 ≤ n < 2 ^ 31 → x ∈ (list_to_set (s32 <$> seqZ 1 n) : gset Z) ↔ 1 ≤ x ≤ n.
Proof.
  intros Hn. rewrite elem_of_list_to_set, list_elem_of_fmap. split.
  - intros (y & -> & Hy%elem_of_seqZ). rewrite s32_small by lia. lia.
  - intros Hx. exists x. rewrite elem_of_seqZ, s32_small by lia. lia.
Qed.
Lemma seats_size n : 0 ≤ n < 2 ^ 31 → Z.of_nat (size (list_to_set (s32 <$> seqZ 1 n) : gset Z)) = n.
Proof.
  intros Hn. rewrite size_list_to_set.
  - rewrite length_fmap, length_seqZ. lia.
  - apply NoDup_fmap_2_strong; [|apply NoDup_seqZ]. intros x y Hx%elem_of_seqZ Hy%elem_of_seqZ.
    rewrite !s32_small by lia. done.
Qed.
Lemma core_new_room ss hp next id n mode :
  core ss hp next → 0 ≤ n < 2 ^ 31 → core ss (<[next := room_new id n mode]> hp) (S next).
Proof.
  intros Hc Hn. assert (hp !! next = None) as Hnext.
  { destruct (hp !! next) eqn:Hh; [|done]. assert (next < next)%nat; [|lia]. apply (core_next _ _ _ Hc). by eexists. }
  split.
  - intros h r. destruct (decide (next = h)) as [<-|Hne].
    + rewrite lookup_insert_eq. intros [= <-]. split; simpl; [set_solver|set_solver| | | |done].
      * intros x. by apply seats_elem.
      * intros x Hx. by rewrite seats_elem.
      * rewrite seats_size by done. done.
    + rewrite lookup_insert_ne by done. apply (core_room _ _ _ Hc).
  - intros u h b s Hu. destruct (core_player _ _ _ Hc u h b s Hu) as (r & Hr & Hm). exists r.
    rewrite lookup_insert_ne; [done|]. intros ->. by rewrite Hnext in Hr.
  - intros h Hh. destruct (decide (next = h)) as [<-|Hne]; [lia|]. rewrite lookup_insert_ne in Hh by done.
    pose proof (core_next _ _ _ Hc h Hh). lia.
Qed.
Lemma unmatched_place u w p : unmatched_player u w = inr p → (place_of <$> players w) !! u = Some (None, true, seat_ p).
Proof.
  unfold unmatched_player. destruct (find_player u true w) as [q|] eqn:Hf; [|done].
  apply find_player_logged in Hf as (Hp & Hlog & _). destruct (room_ptr_ q) eqn:Hr; [done|]. intros [= ->].
  rewrite lookup_fmap, Hp. simpl. unfold place_of. by rewrite Hr, Hlog.
Qed.
Lemma joined_master u pos r : (members r ≠ ∅ → is_Some (master_player_ r)) → is_Some (master_player_ (joined u pos r)).
Proof. simpl. intros H. case_decide; [by eexists|auto]. Qed.
Lemma create_room_wf u n mode w s :
  wf w → 1 ≤ n < 2 ^ 31 → current_room_id w < 65535 → (place_of <$> players w) !! u = Some (None, true, s) →
  ∃ h r w', create_room u n mode w = Def (h, w') ∧ wf w' ∧ heap w' !! h = Some r ∧ is_Some (master_player_ r).
Proof.
  intros (Hc & Hl & Hcur) Hn Hid Hu. unfold create_room. set (id := next_id _). set (w0 := Server _ _ _ _ _ _).
  assert (id = current_room_id w + 1) as Hidv.
  { unfold id, next_id. destruct (Z.leb_spec 65535 (current_room_id w)); lia. }
  set (h := next_room w) in *. set (r := room_new id n mode) in *.
  assert (heap w0 !! h = Some r) as Hr by (simpl; by rewrite lookup_insert_eq).
  assert (heap w !! h = None) as Hnone.
  { destruct (heap w !! h) eqn:Hh; [|done]. assert (h < next_room w)%nat; [|unfold h in *; lia]. apply (core_next _ _ _ Hc). by eexists. }
  destruct (join_defined w0 h r u s 1) as (pos & w1 & Hpos & Hj & Hc1 & Hh1 & Hn1 & Hr1 & Hcur1);
    [apply core_new_room; [done|lia]|done|apply seats_elem; lia|done|].
  rewrite Hj. simpl. rewrite Hr1. simpl.
  assert (rooms_ w !! id = None) as Hfresh.
  { destruct (rooms_ w !! id) eqn:Hd; [|done]. pose proof (listed_ids _ _ _ Hl id ltac:(by eexists)). lia. }
  rewrite Hfresh. exists h, (joined u pos r). eexists. split; [done|].
  assert (heap w1 !! h = Some (joined u pos r)) as Hj1 by (by rewrite Hh1, lookup_insert_eq).
  split_and!; [|done|by apply joined_master]. split_and!; simpl; [done|split|rewrite Hcur1; simpl; lia].
  - intros id' k. rewrite lookup_insert_Some, (listed _ _ _ Hl). split.
    + intros [[<- <-]|(Hne & q & Hq & Hqm & Hqid)]; [exists (joined u pos r); split_and!; [done|simpl; set_solver|done]|].
      exists q. split_and!; [|done|done]. rewrite Hh1, lookup_insert_ne by (intros ->; by rewrite Hnone in Hq). simpl.
      rewrite lookup_insert_ne; [done|]. intros ->. by rewrite Hnone in Hq.
    + intros (q & Hq & Hqm & Hqid). destruct (decide (h = k)) as [<-|Hne].
      * rewrite Hj1 in Hq. left. split; [|done]. injection Hq as <-. by rewrite <- Hqid.
      * right. rewrite Hh1, lookup_insert_ne in Hq by done. simpl in Hq. rewrite lookup_insert_ne in Hq by done.
        split; [|by exists q]. intros <-. assert (rooms_ w !! id = Some k) as Hk by (apply (listed _ _ _ Hl); by exists q).
        by rewrite Hfresh in Hk.
  - rewrite ?Hr1, ?Hcur1. simpl. intros id' [k [[<- <-]|[Hne Hk]]%lookup_insert_Some]; [lia|].
    pose proof (listed_ids _ _ _ Hl id' ltac:(by eexists)). lia.
Qed.
(** Joining a listed room that is open and not full. *)
Lemma join_wf u h r w s :
  wf w → heap w !! h = Some r → full r = false → members r ≠ ∅ → (place_of <$> players w) !! u = Some (None, true, s) →
  ∃ r' w', join h u w = Def w' ∧ wf w' ∧ heap w' !! h = Some r' ∧ is_Some (master_player_ r').
Proof.
  intros (Hc & Hl & Hcur) Hr Hf Hm Hu. pose proof (core_room _ _ _ Hc h r Hr) as Hok.
  assert (∃ x, x ∈ pos_list_ r) as [x Hx].
  { apply set_choose_L. intros He. unfold full in Hf. pose proof (ok_size _ _ _ Hok) as Hs. rewrite He, size_empty in Hs.
    apply Z.eqb_neq in Hf. lia. }
  destruct (join_defined w h r u s x) as (pos & w1 & Hpos & Hj & Hc1 & Hh1 & Hn1 & Hr1 & Hcur1); try done.
  exists (joined u pos r), w1. rewrite Hh1, lookup_insert_eq. split_and!; [done| |done|apply joined_master, (ok_master _ _ _ Hok)].
  split_and!; [done|split|by rewrite Hcur1].
  - intros id k. rewrite Hr1, Hh1, (listed _ _ _ Hl). destruct (decide (h = k)) as [<-|Hne]; [|by rewrite lookup_insert_ne].
    rewrite lookup_insert_eq, Hr. split; intros (q & [= <-] & ? & ?); eexists; (split; [done|]); simpl; split; try done.
    set_solver.
  - rewrite Hr1, Hcur1. apply (listed_ids _ _ _ Hl).
Qed.
Lemma switch_seat_wf h r u target w :
  wf w → heap w !! h = Some r → u ∈ members r → 1 ≤ target ≤ max_size_ r →
  ∃ r' w', switch_seat h u target w = Def w' ∧ wf w' ∧ heap w' !! h = Some r' ∧ is_Some (master_player_ r').
Proof.
  intros (Hc & Hl & Hcur) Hr Hu Ht. pose proof (core_room _ _ _ Hc h r Hr) as Hok.
  assert (is_Some (master_player_ r)) as Hmaster by (apply (ok_master _ _ _ Hok); set_solver).
  destruct (member_at _ _ _ _ Hok Hu) as (pos & Hs & Hin & Hf).
  pose proof (place_at _ _ _ Hs) as [Hpu Hplace]. unfold place_of in Hplace. injection Hplace as Hroom Hlog Hseat.
  unfold switch_seat. rewrite Hr. simpl. rewrite Hseat, position_seat_at.
  destruct (Z.eqb_spec target pos) as [->|Hne]; [exists r, w; split_and!; done|].
  destruct (decide (target ∈ pos_list_ r)) as [Hfree|Htaken].
  - eexists _, _. split; [done|]. simpl. rewrite lookup_insert_eq. split_and!; [|done|done]. split_and!; [|split|done]; simpl.
    + rewrite fmap_insert. assert (place_of (set_seat (seat_at r target) (player_of w u)) = (Some h, true, seat_at r target)) as ->
        by (unfold place_of; simpl; by rewrite Hroom, Hlog). by apply core_move.
    + intros id k. rewrite (listed _ _ _ Hl). destruct (decide (h = k)) as [<-|Hhk]; [|by rewrite lookup_insert_ne].
      rewrite lookup_insert_eq, Hr. split; intros (q & [= <-] & ? & ?); by eexists.
    + apply (listed_ids _ _ _ Hl).
  - destruct (ok_taken _ _ _ Hok target Ht Htaken) as (v & a & t & Hv & Hvt & Hvp).
    pose proof (place_at _ _ _ Hvt) as [Hpv Hplv].
    destruct (player_at w r target) as [v'|] eqn:Hat.
    2:{ exfalso. unfold player_at in Hat. apply fmap_None in Hat. rewrite list_find_None in Hat.
        rewrite Forall_forall in Hat. apply (Hat v); [by apply in_order_spec|]. by rewrite <- Hplv in Hvt; injection Hplv as _ <-. }
    unfold player_at in Hat. apply fmap_Some in Hat as ([i v''] & Hfind & ->). simpl.
    apply list_find_Some in Hfind as (Hi & Hposv & _). apply list_elem_of_lookup_2, in_order_spec in Hi.
    destruct (member_at _ _ _ _ Hok Hi) as (pos' & Hs' & _). pose proof (place_at _ _ _ Hs') as [_ Hplace'].
    unfold place_of in Hplace'. injection Hplace' as Hroom' Hlog' Hseat'.
    rewrite Hseat', position_seat_at in Hposv. subst pos'.
    assert (v'' ≠ u) as Hvu. { intros ->. rewrite Hs in Hs'. injection Hs' as He. apply (f_equal position_) in He.
      rewrite !position_seat_at in He. done. }
    eexists _, _. split; [done|]. simpl. split_and!; [|done|done]. split; [|done]. simpl. rewrite !fmap_insert.
    assert (place_of (set_seat (seat_at r pos) (player_of w v'')) = (Some h, true, seat_at r pos)) as ->
      by (unfold place_of; simpl; by rewrite Hroom', Hlog').
    assert (place_of (set_seat (seat_ (player_of w v'')) (player_of w u)) = (Some h, true, seat_at r target)) as ->
      by (unfold place_of; simpl; by rewrite Hroom, Hlog, Hseat').
    by apply core_swap with r.
Qed.
Lemma find_room_listed id w h : find_room id w = Some h → ∃ i, rooms_ w !! i = Some h.
Proof.
  unfold find_room. destruct (id =? -1); [|by exists id]. intros Hf. apply fmap_Some in Hf as ([i [k h']] & Hl & ->).
  apply list_find_Some in Hl as (Hi & _). apply list_elem_of_lookup_2 in Hi. rewrite in_key_order_perm in Hi.
  exists k. simpl. by apply elem_of_map_to_list in Hi.
Qed.
Lemma switch_kit_wf u f w : wf w → ∃ w', switch_kit u f w = Def w' ∧ wf w'.
Proof.
  intros Hw. unfold switch_kit. destruct (matched_player u w) as [e|h] eqn:Hm; [eexists; split; [done|by apply wf_send]|].
  destruct (matched_room u w h Hw Hm) as (r & p & Hr & Hu & Hp & Hpo & Hroom & Hlog & Hmaster & Hrr & Hok).
  apply (room_changed_wf h r); [|done|done]. apply wf_update_info, wf_set_player; [done| |done]. by rewrite Hpo.
Qed.

(** *** The actions *)
Ltac replied := eexists; split; [done|by apply wf_send].
Lemma unmatched_error u w : unmatched_player u w ≠ inl 0.
Proof. unfold unmatched_player. by repeat case_match. Qed.
Lemma create_action_wf u n mode w :
  wf w → 1 ≤ n < 2 ^ 31 → current_room_id w < 65535 → ∃ w', cs_create_room u n mode w = Def w' ∧ wf w'.
Proof.
  intros Hw Hn Hid. unfold cs_create_room. destruct (unmatched_player u w) as [e|p] eqn:Hm; simpl.
  { destruct (Z.eqb_spec e 0) as [->|_]; [by apply unmatched_error in Hm|replied]. }
  destruct (_ =? 0); [|replied]. assert (u64 n = n) as -> by (unfold u64; rewrite Z.mod_small; lia).
  destruct (create_room_wf u n (to_mode mode) w _ Hw Hn Hid (unmatched_place _ _ _ Hm)) as (h & r & w1 & -> & Hw1 & Hr & Hmaster).
  simpl. apply (room_changed_wf h r); [by apply wf_send|done|done].
Qed.
Lemma join_action_wf u id w : wf w → ∃ w', cs_join_room u id w = Def w' ∧ wf w'.
Proof.
  intros Hw. unfold cs_join_room. destruct (unmatched_player u w) as [e|p] eqn:Hm.
  { destruct (Z.eqb_spec e 0) as [->|_]; [by apply unmatched_error in Hm|replied]. }
  unfold check_room. destruct (find_room id w) as [h|] eqn:Hf; [|replied].
  destruct (full (room_of w h)) eqn:Hfull; [replied|]. case_decide; [|replied]. simpl.
  apply find_room_listed in Hf as [i Hi]. pose proof Hw as (_ & Hl & _). apply (listed _ _ _ Hl) in Hi as (r & Hr & Hne & _).
  assert (room_of w h = r) as Hrr by (unfold room_of; by rewrite Hr). rewrite Hrr in *.
  destruct (join_wf u h r w _ Hw Hr Hfull Hne (unmatched_place _ _ _ Hm)) as (r' & w1 & -> & Hw1 & Hr1 & Hm1). simpl.
  apply (room_changed_wf h r'); [by apply wf_send|done|done].
Qed.
Lemma seat_action_wf u v pos w : wf w → pos < 2 ^ 64 → ∃ w', cs_switch_seat u v pos w = Def w' ∧ wf w'.
Proof.
  intros Hw Hpos. unfold cs_switch_seat. destruct (find_player u true w) as [p|] eqn:Hp; [|replied].
  destruct (find_player v true w) as [p'|] eqn:Hp'; [|replied].
  destruct (room_ptr_ p) as [h|] eqn:Hrp; [|replied]. destruct (room_ptr_ p') as [k|] eqn:Hrp'; [|replied].
  destruct (matched_room v w k Hw) as (r & pv & Hr & Hv & _ & _ & _ & _ & _ & Hrr & _); [unfold matched_player; by rewrite Hp', Hrp'|].
  case_bool_decide as Hhk; simpl; [|replied]. subst k. rewrite Hrr.
  destruct (Z.ltb_spec (max_size_ r) (u64 pos)) as [|Hmax]; simpl; [replied|].
  destruct (Z.leb_spec pos 0) as [|Hpos']; simpl; [replied|].
  assert (u64 pos = pos) as Hu by (unfold u64; rewrite Z.mod_small; lia). rewrite Hu in Hmax.
  destruct (switch_seat_wf h r v pos w Hw Hr Hv ltac:(lia)) as (r' & w1 & -> & Hw1 & Hr1 & Hm1). simpl.
  apply (room_changed_wf h r'); [by apply wf_send|done|done].
Qed.
Lemma exit_action_wf flag u w : wf w → ∃ w', cs_exit_room flag u w = Def w' ∧ wf w'.
Proof.
  intros Hw. unfold cs_exit_room. destruct (matched_player u w) as [e|h] eqn:Hm; [replied|].
  destruct (matched_room u w h Hw Hm) as (r & p & _ & _ & Hp & _ & _ & Hlog & _).
  destruct (exit_room_wf flag (reply u (SCExitRoom 0) w) u p) as (w' & -> & Hw' & _); [by apply wf_send|done|done|by exists w'].
Qed.
Lemma status_action_wf h r s m w : wf w → heap w !! h = Some r → wf (broadcast_msg h m (set_room h (set_status s r) w)).
Proof. intros Hw Hr. by apply wf_send, wf_set_status. Qed.
Lemma start_action_wf u w : wf w → ∃ w', cs_start_battle u w = Def w' ∧ wf w'.
Proof.
  intros Hw. unfold cs_start_battle. destruct (matched_player u w) as [e|h] eqn:Hm; [by exists w|].
  destruct (matched_room u w h Hw Hm) as (r & p & Hr & _ & _ & _ & _ & _ & _ & -> & _).
  destruct (_ && _); [|by exists w]. eexists. split; [done|by apply status_action_wf].
Qed.
Lemma battle_action_wf b u w : wf w → ∃ w', br_start_battle b u w = Def w' ∧ wf w'.
Proof.
  intros Hw. unfold br_start_battle. destruct (matched_player u w) as [e|h] eqn:Hm; [by exists w|].
  destruct (matched_room u w h Hw Hm) as (r & p & Hr & _ & _ & _ & _ & _ & _ & -> & _).
  eexists. split; [done|by apply status_action_wf].
Qed.
Lemma load_action_wf u w : wf w → ∃ w', cs_end_load_resource u w = Def w' ∧ wf w'.
Proof.
  intros Hw. unfold cs_end_load_resource. destruct (matched_player u w) as [e|h] eqn:Hm; [by exists w|].
  destruct (matched_room u w h Hw Hm) as (r & p & Hr & _ & Hp & Hpo & _ & _ & [m Hmaster] & Hrr & _).
  destruct (_ =? 0); [|by exists w].
  assert (wf (set_player u (set_ready (player_of w u)) w)) as Hw1 by (apply wf_set_player; [done|by rewrite Hpo|done]).
  destruct (all_ready _ _); [|by eexists]. unfold get_room_info. simpl. rewrite Hr. simpl. rewrite Hmaster. simpl. replied.
Qed.
Lemma end_action_wf flag u w : wf w → is_Some (find_player u true w) → ∃ w', cs_end_battle flag u w = Def w' ∧ wf w'.
Proof.
  intros Hw [p Hp]. unfold cs_end_battle. rewrite Hp. apply find_player_logged in Hp as (Hp & Hlog & _).
  set (w0 := if _ =? 0 then w else _). assert (wf w0 ∧ players w0 = players w) as [Hw0 Hp0].
  { unfold w0. destruct (_ =? 0); [done|]. split; [by apply wf_send|done]. }
  destruct (exit_room_wf flag w0 u p Hw0) as (w' & -> & Hw' & _); [by rewrite Hp0|done|]. simpl. replied.
Qed.

(** ** The server *)
(** What a request may ask for: a number of seats that is positive, while not all room numbers have been given out; and
    the end of a battle only of a player who is logged in. *)
Definition acceptable (u : Z) (q : request) (w : server) : Prop :=
  match q with
  | CSCreateRoom n _ => 1 ≤ n < 2 ^ 31 ∧ current_room_id w < 65535
  | CSSwitchSeat _ pos => - 2 ^ 31 ≤ pos < 2 ^ 31
  | CSEndBattle => is_Some (find_player u true w)
  | _ => True
  end.

Lemma process_wf flag u q w : wf w → acceptable u q w → ∃ w', process flag u q w = Def w' ∧ wf w'.
Proof.
  intros Hw Ha. destruct q; simpl in *.
  - by apply login_wf.
  - by apply create_action_wf; [|apply Ha..].
  - unfold cs_request_room_list. destruct (_ && _); [destruct (request_room_list _ _ _ _)|]; replied.
  - by apply join_action_wf.
  - apply seat_action_wf; [done|lia].
  - by apply switch_kit_wf.
  - by apply switch_kit_wf.
  - by apply exit_action_wf.
  - by apply start_action_wf.
  - by apply load_action_wf.
  - by apply battle_action_wf.
  - by apply end_action_wf.
Qed.

(** Players and rooms always fit together: from the start, whatever the players ask
    for (rooms of at least one seat, no more than 65535 in all, and no end of battle by
    one who is not logged in), no request dereferences a null pointer or an empty list,
    and afterwards every player who is in a room is among the members of exactly this
    room, logged in, on a seat of it that no other member has and with the team, ship
    and number of this seat; every other seat is free, and free seats and members add up
    to the size; every room that has members has a master and is listed under its
    number, and no other is. *)
Theorem rooms_stay_consistent flag :
  wf server_new ∧ ∀ u q w, wf w → acceptable u q w → ∃ w', process flag u q w = Def w' ∧ wf w'.
Proof. split; [exact wf_new|]. intros u q w. apply process_wf. Qed.
Lemma rooms_stay_consistent_witness :
  ∃ w1 w2, process true 1 SLoginGame server_new = Def w1 ∧ process true 1 (CSCreateRoom 4 0) w1 = Def w2 ∧ wf w2.
Proof.
  destruct (rooms_stay_consistent true) as [H0 Hs]. destruct (Hs 1 SLoginGame server_new H0 I) as (w1 & E1 & W1).
  destruct (Hs 1 (CSCreateRoom 4 0) w1 W1) as (w2 & E2 & W2); [|by exists w1, w2].
  vm_compute in E1. injection E1 as <-. vm_compute. done.
Defined.

(** ** What the actions do *)
Lemma page_loop_spec w l c b fuel i :
  0 ≤ i → 0 ≤ b → (Z.to_nat (Z.min c (Z.of_nat (length l) - b) - i) < fuel)%nat →
  page_loop fuel w l c b i = room_data_of w <$> take (Z.to_nat (c - i)) (drop (Z.to_nat (b + i)) l).
Proof.
  revert i. induction fuel as [|fuel IH]; intros i Hi Hb Hfuel; [lia|]. simpl.
  destruct (Z.leb_spec c i) as [Hc|Hc]; [by replace (Z.to_nat (c - i)) with 0%nat by lia|].
  destruct (Z.leb_spec (Z.of_nat (length l)) (b + i)) as [Hl|Hl]; [rewrite drop_ge by lia; by rewrite take_nil|].
  destruct (l !! Z.to_nat (b + i)) as [h|] eqn:Hh; [|apply lookup_ge_None in Hh; lia].
  rewrite (drop_S _ _ _ Hh). replace (Z.to_nat (c - i)) with (S (Z.to_nat (c - (i + 1)))) by lia. simpl. f_equal.
  rewrite IH by lia. by replace (Z.to_nat (b + (i + 1))) with (S (Z.to_nat (b + i))) by lia.
Qed.
Lemma pages_concat {A} (l : list A) (c n : nat) :
  mjoin ((λ k, take c (drop (k * c)%nat l)) <$> seq 0 n) = take (n * c)%nat l.
Proof.
  induction n as [|n IH]; [done|].
  rewrite seq_S, fmap_app, join_app, IH. simpl. rewrite app_nil_r, take_take_drop. f_equal. lia.
Qed.
(** The pages of the room list, one after another, are the list: the rooms of the
    mode asked for that are open, in the order of their numbers, each once; no page has
    more rooms than asked for. *)
Theorem pages_are_the_list pattern c w :
  0 < c → let l := get_room_list (if pattern =? -1 then None else Some (to_mode pattern)) w in
  let total := Z.quot (Z.of_nat (length l)) c + (if 0 <? Z.rem (Z.of_nat (length l)) c then 1 else 0) in
  mjoin ((λ page, (request_room_list pattern c page w).1) <$> seqZ 1 total) = room_data_of w <$> l ∧
  ∀ page, 0 < page → (length (request_room_list pattern c page w).1 ≤ Z.to_nat c)%nat.
Proof.
  intros Hc l total. set (n := Z.of_nat (length l)) in *.
  assert (0 ≤ n ∧ n ≤ total * c ∧ 0 ≤ total ∧ ∀ page, 0 < page ≤ total → 0 ≤ (page - 1) * c) as (Hn & Htot & Ht0 & Hb).
  { pose proof (Z.quot_rem' n c) as Hq. pose proof (Z.rem_bound_pos n c ltac:(lia) Hc) as Hr.
    pose proof (Z.quot_pos n c ltac:(lia) Hc). unfold total. destruct (Z.ltb_spec 0 (Z.rem n c)); split_and!; nia. }
  assert (∀ page, 0 < page ≤ total → (request_room_list pattern c page w).1 =
    room_data_of w <$> take (Z.to_nat c) (drop (Z.to_nat (page - 1) * Z.to_nat c) l)) as Hpage.
  { intros page Hp. unfold request_room_list. fold l. fold n. fold total.
    destruct (Z.eqb_spec n 0) as [H0|H0].
    - simpl. assert (l = []) as -> by (apply length_zero_iff_nil; lia). by rewrite drop_nil, take_nil.
    - destruct (Z.ltb_spec total page) as [|_]; [lia|]. cbn [fst]. specialize (Hb page Hp).
      rewrite page_loop_spec by (fold n; lia). rewrite Z.sub_0_r, Z.add_0_r. do 3 f_equal. by rewrite Z2Nat.inj_mul by lia. }
  split.
  - assert ((λ page, (request_room_list pattern c page w).1) <$> seqZ 1 total =
      (λ k, room_data_of w <$> take (Z.to_nat c) (drop (k * Z.to_nat c) l)) <$> seq 0 (Z.to_nat total)) as ->.
    { unfold seqZ. rewrite <- list_fmap_compose. apply list_fmap_ext. intros i k Hk%lookup_seq. simpl.
      rewrite Hpage by lia. do 4 f_equal. lia. }
    trans (mjoin (fmap (room_data_of w) <$> ((λ k, take (Z.to_nat c) (drop (k * Z.to_nat c) l)) <$> seq 0 (Z.to_nat total)))).
    { by rewrite <- list_fmap_compose. }
    assert (∀ xs : list (list nat), mjoin (fmap (room_data_of w) <$> xs) = room_data_of w <$> mjoin xs) as ->.
    { induction xs as [|x xs IH]; [done|].
      change ((room_data_of w <$> x) ++ mjoin (fmap (room_data_of w) <$> xs) = room_data_of w <$> (x ++ mjoin xs)).
      by rewrite IH, fmap_app. }
    rewrite pages_concat, take_ge; [done|]. apply Nat2Z.inj_le. rewrite Nat2Z.inj_mul, !Z2Nat.id by lia. done.
  - intros page Hp. destruct (decide (page ≤ total)).
    + rewrite Hpage by lia. rewrite length_fmap, length_take. lia.
    + unfold request_room_list. fold l. fold n. fold total. destruct (n =? 0); [simpl; lia|].
      destruct (Z.ltb_spec total page); [simpl; lia|lia].
Qed.
Definition three_rooms : server :=
  Server ∅ {[0%nat := room_new 5 4 moba; 1%nat := room_new 7 2 free; 2%nat := room_new 9 4 moba]} 3
    {[5 := 0%nat; 7 := 1%nat; 9 := 2%nat]} 9 [].
Lemma pages_are_the_list_witness :
  mjoin ((λ page, (request_room_list (-1) 2 page three_rooms).1) <$> seqZ 1 2) = room_data_of three_rooms <$> [0; 1; 2]%nat.
Proof. destruct (pages_are_the_list (-1) 2 three_rooms ltac:(lia)) as [H _]. exact H. Defined.

(** Leaving a room that is not kept ends it: where the configuration ends battles with a disconnection, the exit of
    one member tells every member, in the order of their numbers, that the room is gone, and leaves each of them logged
    in and in no room, every other player as he was, and the room unlisted. *)
Theorem exit_ends_room u w h r :
  wf w → matched_player u w = inr h → heap w !! h = Some r →
  ∃ w', cs_exit_room true u w = Def w' ∧ wf w' ∧
    sent w' = sent w ++ To_client u (SCExitRoom 0) :: ((λ v, To_client v (SCRoomDestroyed 0)) <$> in_order (members r)) ∧
    (∀ v, players w' !! v = if decide (v ∈ members r) then Some login_status else players w !! v) ∧
    rooms_ w' = delete (room_id_ r) (rooms_ w).
Proof.
  intros Hw Hm Hr. destruct (matched_room u w h Hw Hm) as (r' & p & Hr' & Hu & Hp & Hpo & Hroom & Hlog & _ & Hrr & _).
  rewrite Hr in Hr'. injection Hr' as <-. unfold cs_exit_room. rewrite Hm. unfold exit_room.
  change (player_of (reply _ _ w) u) with (player_of w u). rewrite Hpo, Hroom. unfold deal_destroy_room, broadcast_msg.
  change (room_of (reply _ _ w) h) with (room_of w h). rewrite Hrr. pose proof Hw as (Hc & Hl & Hcur).
  destruct (destroy_room_wf (send ((λ v, To_client v (SCRoomDestroyed 0)) <$> in_order (members r)) (reply u (SCExitRoom 0) w))
    h r (heap w) r) as (w' & -> & Hw' & _ & Hps & Hrs & _ & Hsent); try done; [set_solver|].
  exists w'. split_and!; [done|done| |done|done]. rewrite Hsent. simpl. by rewrite <- app_assoc.
Qed.
Lemma exit_ends_room_witness :
  ∃ w w', wf w ∧ cs_exit_room true 2 w = Def w' ∧ rooms_ w' = ∅ ∧ room_ptr_ (player_of w' 1) = None.
Proof.
  destruct (process_wf true 1 SLoginGame server_new wf_new I) as (w1 & E1 & W1). vm_compute in E1. injection E1 as <-.
  destruct (process_wf true 2 SLoginGame _ W1 I) as (w2 & E2 & W2). vm_compute in E2. injection E2 as <-.
  destruct (process_wf true 1 (CSCreateRoom 2 0) _ W2) as (w3 & E3 & W3); [vm_compute; done|].
  vm_compute in E3. injection E3 as <-.
  destruct (process_wf true 2 (CSJoinRoom 1) _ W3 I) as (w4 & E4 & W4). vm_compute in E4. injection E4 as <-.
  destruct (exit_ends_room 2 _ 0%nat _ W4 ltac:(vm_compute; reflexivity) ltac:(vm_compute; reflexivity))
    as (w' & E & _ & _ & Hps & Hrs).
  eexists _, w'. split_and!; [exact W4|exact E|by rewrite Hrs|]. unfold player_of. by rewrite Hps.
Defined.

(** A moba room fills its teams evenly: the seat a player is given is in the first team's half exactly when it has no
    fewer free seats than the second's. *)
Theorem moba_seat_in_emptier_team r pos r' :
  mode_ r = moba → get_pos r = Def (pos, r') →
  let n := Z.quot (max_size_ r) 2 in
  let first := length (filter (λ p, p ≤ n) (elements (pos_list_ r))) in
  let second := length (filter (λ p, ¬ p ≤ n) (elements (pos_list_ r))) in
  (pos ≤ n ↔ (second ≤ first)%nat) ∧ team_ (seat_at r pos) = if decide (second ≤ first)%nat then 1 else 2.
Proof.
  intros Hmode Hget n first second.
  assert (pos ≤ n ↔ (second ≤ first)%nat) as Hpos.
  { unfold get_pos, teams in Hget. rewrite Hmode in Hget. fold n in Hget.
    assert (∀ l : list Z, longer l [] = l) as Hl by (unfold longer; by intros [|]). rewrite Hl in Hget. unfold longer in Hget.
    assert (length (filter (λ p, p ≤ n) (in_order (pos_list_ r))) = first) as H1
      by (unfold first, in_order; by rewrite merge_sort_Permutation).
    assert (length (filter (λ p, ¬ p ≤ n) (in_order (pos_list_ r))) = second) as H2
      by (unfold second, in_order; by rewrite merge_sort_Permutation).
    rewrite H1, H2 in Hget. destruct (Nat.ltb_spec first second) as [Hlt|Hge].
    - destruct (filter (λ p, ¬ p ≤ n) (in_order (pos_list_ r))) as [|x l] eqn:Hf; simpl in Hget; [discriminate Hget|].
      injection Hget as <- <-.
      assert (x ∈ filter (λ p, ¬ p ≤ n) (in_order (pos_list_ r))) as Hx by (rewrite Hf; left).
      apply list_elem_of_filter in Hx as [Hx _]. split; [done|lia].
    - destruct (filter (λ p, p ≤ n) (in_order (pos_list_ r))) as [|x l] eqn:Hf; simpl in Hget; [discriminate Hget|].
      injection Hget as <- <-.
      assert (x ∈ filter (λ p, p ≤ n) (in_order (pos_list_ r))) as Hx by (rewrite Hf; left).
      apply list_elem_of_filter in Hx as [Hx _]. split; [done|lia]. }
  split; [done|]. unfold seat_at. rewrite Hmode. fold n.
  destruct (_ && _); simpl; destruct (Z.leb_spec pos n) as [Hle|Hle]; case_decide as Hd; try done; exfalso; tauto || lia.
Qed.
Definition one_taken : game_room := Room 1 opened moba (Some 1) 4 {[1]} {[2; 3; 4]}.
Lemma moba_seat_in_emptier_team_witness :
  get_pos one_taken = Def (3, set_pos_list (pos_list_ one_taken ∖ {[3]}) one_taken) ∧ team_ (seat_at one_taken 3) = 2.
Proof.
  assert (get_pos one_taken = Def (3, set_pos_list (pos_list_ one_taken ∖ {[3]}) one_taken)) as H by (vm_compute; done).
  split; [exact H|]. destruct (moba_seat_in_emptier_team one_taken 3 _ eq_refl H) as [_ ->]. vm_compute. done.
Defined.

(** A run of requests. *)
Definition run (qs : list (Z * request)) (w : server) : ub server :=
  foldl (λ m q, m ≫= process true q.1 q.2) (Def w) qs.

(** ** What the actions do not mean to do *)
(** The end of a battle asked for by one who is not logged in is answered, and then a null pointer is dereferenced. *)
Theorem end_battle_of_stranger_crashes flag u w : find_player u true w = None → process flag u CSEndBattle w = Undef.
Proof. intros Hu. simpl. unfold cs_end_battle. by rewrite Hu. Qed.
Lemma end_battle_of_stranger_crashes_witness : process true 7 CSEndBattle server_new = Undef.
Proof. by apply end_battle_of_stranger_crashes. Defined.
(** A room without seats passes the checks, and its master is given a seat of an empty list. *)
Lemma room_without_seats_crashes :
  run [(1, SLoginGame); (1, CSCreateRoom 0 0)] server_new = Undef.
Proof. vm_compute. done. Qed.
(** The end of a battle asked for outside a battle is refused, and the player's room is ended all the same. *)
Lemma refused_end_battle_ends_room :
  (λ w, (rooms_ w, drop 3 (sent w))) <$> run [(1, SLoginGame); (1, CSCreateRoom 2 0); (1, CSEndBattle)] server_new = Def (∅, [To_client 1 (SCEndBattle 7); To_client 1 (SCRoomDestroyed 0); To_client 1 (SCEndBattle 7)]).
Proof. vm_compute. done. Qed.
(** Room numbers start again after 65535: a room made with the number of another is not listed, and when it ends the
    other is no longer listed. *)
Theorem room_number_comes_again u n mode w h k w' :
  rooms_ w !! next_id (current_room_id w) = Some k → create_room u n mode w = Def (h, w') → rooms_ w' = rooms_ w.
Proof.
  intros Hk Hcreate. unfold create_room in Hcreate. simpl in Hcreate.
  destruct (join _ u _) as [w1|] eqn:Hj; simpl in Hcreate; [|done].
  assert (rooms_ w1 = rooms_ w) as Hr.
  { unfold join in Hj. simpl in Hj. rewrite lookup_insert_eq in Hj. simpl in Hj.
    destruct (get_pos _) as [[pos r]|]; simpl in Hj; [|done]. by inv_def. }
  rewrite Hr, Hk in Hcreate. by inv_def.
Qed.
Definition last_number : server :=
  Server {[1 := Player (Some 0%nat) true (seat_at (room_new 1 2 moba) 1) (Kit 1 0 0 []) false; 2 := login_status]}
    {[0%nat := joined 1 1 (room_new 1 2 moba)]} 1 {[1 := 0%nat]} 65535 [].
Lemma room_number_comes_again_witness :
  match create_room 2 2 moba last_number with Def (_, w) => rooms_ w = {[1 := 0%nat]} | Undef => False end.
Proof.
  destruct (create_room 2 2 moba last_number) as [[h w]|] eqn:Hc; [|vm_compute in Hc; done].
  by apply (room_number_comes_again 2 2 moba last_number h 0 w).
Defined.
Lemma twin_room_unlists_the_other :
  rooms_ <$> run [(2, CSCreateRoom 2 0); (2, CSExitRoom)] last_number = Def ∅.
Proof. vm_compute. done. Qed.
(** A start that failed leaves the players ready: the next one is sent to the battle server at the first loaded client. *)
Lemma failed_start_leaves_ready :
  (λ w, count (λ o, match o with To_battle_server _ => true | _ => false end) (sent w)) <$>
    run [(1, SLoginGame); (2, SLoginGame); (1, CSCreateRoom 2 0); (2, CSJoinRoom 1); (1, CSStartBattle); (1, CSEndLoadResource);
      (2, CSEndLoadResource); (0, BRStartBattle false 1); (1, CSStartBattle); (1, CSEndLoadResource)] server_new = Def 2%nat.
Proof. vm_compute. done. Qed.
