(* ===== verification/Reflect.v ===== *)
(** * Reflection: the type database ([network/reflect]: [ReflectionDatabase],
      [TypeData], [Type], [TypeInfo], [Enum], [EnumContainer], [MetaManager],
      [Invokable], [Constructor], [Method], [Function], [Field], [Global])

    Types are registered under their names and get ids; base classes,
    constructors, fields, methods, enumerators and properties are entered into
    the record of their type.  A C++ type is a name of its own ([cpp]), the code
    a constructor or accessor runs is a number.  Unordered containers give some
    order: which element [begin] or [find] gives among those that fit is a
    parameter. *)
From stdpp Require Import base option list numbers strings gmap.
From S2P Require Import Prelude.
Local Open Scope Z_scope.

(** ** Definitions *)
(** *** Types as values: arrays are told apart by a flag that no comparison looks at *)
Notation type_id := nat (only parsing).
Definition InvalidTypeID : type_id := 0%nat.
Record ty := Ty { id_ : type_id; isArray_ : bool }.
Definition type_eqb (a b : ty) : bool := (id_ a =? id_ b)%nat.
Definition Invalid : ty := Ty InvalidTypeID false.
Definition IsValid (t : ty) : bool := negb (id_ t =? InvalidTypeID)%nat.
Definition GetArrayType (t : ty) : ty := Ty (id_ t) false.
Fixpoint ListsEqual (a b : list ty) : bool :=
  match a, b with
  | [], [] => true
  | x :: a, y :: b => type_eqb x y && ListsEqual a b
  | _, _ => false
  end.
(** An unordered container finds a signature by its ids. *)
Definition signature := list ty.
Definition key (s : signature) : list type_id := id_ <$> s.
(** [std::set<Type>::insert] *)
Notation type_set := (gmap type_id ty).
Definition set_insert (t : ty) (s : type_set) : type_set :=
  match s !! id_ t with Some _ => s | None => <[id_ t := t]> s end.

(** *** What a type has *)
(** [MetaManager]: properties by their types; a later one replaces. *)
Notation meta_manager := (gmap type_id Z).
Definition SetProperty (m : meta_manager) (p : ty * Z) : meta_manager := <[id_ p.1 := p.2]> m.
Definition meta_of (properties : list (ty * Z)) : meta_manager := foldl SetProperty ∅ properties.
Definition GetProperty (m : meta_manager) (t : ty) : option Z := m !! id_ t.
Record constructor := Constructor {
  c_classType : ty; c_signature : signature; c_isDynamic : bool; c_invoker : Z; c_meta : meta_manager
}.
(** The copy constructor leaves out the properties. *)
Definition constructor_copy (c : constructor) : constructor :=
  Constructor (c_classType c) (c_signature c) (c_isDynamic c) (c_invoker c) ∅.
(** A method or a function. *)
Record callable := Callable {
  m_name : string; m_signature : signature; m_isConst : bool; m_classType : ty; m_invoker : Z; m_meta : meta_manager
}.
(** A field, a static field or a global. *)
Record field := Field {
  f_name : string; f_type : ty; f_classType : ty; f_getter : option Z; f_setter : option Z; f_meta : meta_manager
}.
Definition field_invalid : field := Field "INVALID" Invalid Invalid None None ∅.
Definition field_is_valid (f : field) : bool := match f_getter f with Some _ => true | None => false end.
Definition IsReadOnly (f : field) : bool := match f_setter f with Some _ => false | None => true end.
(** [EnumContainer]: all keys, and the first value of each. *)
Record enum_container := EnumContainer {
  e_name : string; e_type : ty; e_underlying : ty; keys_ : list string; keyToValue_ : gmap string Z
}.
Definition emplace {A} (m : gmap string A) (p : string * A) : gmap string A :=
  match m !! p.1 with Some _ => m | None => <[p.1 := p.2]> m end.
Definition enum_new (name : string) (t u : ty) (initializer : list (string * Z)) : enum_container :=
  EnumContainer name t u (fst <$> initializer) (foldl emplace ∅ initializer).
(** The static facts of a C++ type. *)
Record traits := Traits {
  is_class : bool; is_enum : bool; is_pointer : bool; is_arithmetic : bool; is_floating_point : bool; is_signed : bool;
  is_trivially_default_constructible : bool; is_trivial : bool
}.
(** Two of the flags are not initialised until the type is registered. *)
Record type_flags := Flags {
  isEnum : bool; isPrimitive : bool; isPointer : bool; isClass : bool; isSigned : option bool; isFloatingPoint : option bool
}.
Definition flags_new : type_flags := Flags false false false false None None.
Record type_data := TypeData {
  flags : type_flags;
  meta : meta_manager;
  name : string;
  enumeration : option enum_container;
  baseClasses : type_set;
  derivedClasses : type_set;
  arrayConstructor : option constructor;
  destructor : option ty;
  constructors : gmap (list type_id) constructor;
  dynamicConstructors : gmap (list type_id) constructor;
  fields : list field;
  staticFields : list field;
  methods : gmap string (list callable);
  staticMethods : gmap string (list callable)
}.
Definition set_flags (v : type_flags) (d : type_data) : type_data :=
  TypeData v (meta d) (name d) (enumeration d) (baseClasses d) (derivedClasses d) (arrayConstructor d) (destructor d) (constructors d) (dynamicConstructors d) (fields d) (staticFields d) (methods d) (staticMethods d).
Definition set_meta (v : meta_manager) (d : type_data) : type_data :=
  TypeData (flags d) v (name d) (enumeration d) (baseClasses d) (derivedClasses d) (arrayConstructor d) (destructor d) (constructors d) (dynamicConstructors d) (fields d) (staticFields d) (methods d) (staticMethods d).
Definition set_enumeration (v : option enum_container) (d : type_data) : type_data :=
  TypeData (flags d) (meta d) (name d) v (baseClasses d) (derivedClasses d) (arrayConstructor d) (destructor d) (constructors d) (dynamicConstructors d) (fields d) (staticFields d) (methods d) (staticMethods d).
Definition set_baseClasses (v : type_set) (d : type_data) : type_data :=
  TypeData (flags d) (meta d) (name d) (enumeration d) v (derivedClasses d) (arrayConstructor d) (destructor d) (constructors d) (dynamicConstructors d) (fields d) (staticFields d) (methods d) (staticMethods d).
Definition set_derivedClasses (v : type_set) (d : type_data) : type_data :=
  TypeData (flags d) (meta d) (name d) (enumeration d) (baseClasses d) v (arrayConstructor d) (destructor d) (constructors d) (dynamicConstructors d) (fields d) (staticFields d) (methods d) (staticMethods d).
Definition set_arrayConstructor (v : option constructor) (d : type_data) : type_data :=
  TypeData (flags d) (meta d) (name d) (enumeration d) (baseClasses d) (derivedClasses d) v (destructor d) (constructors d) (dynamicConstructors d) (fields d) (staticFields d) (methods d) (staticMethods d).
Definition set_destructor (v : option ty) (d : type_data) : type_data :=
  TypeData (flags d) (meta d) (name d) (enumeration d) (baseClasses d) (derivedClasses d) (arrayConstructor d) v (constructors d) (dynamicConstructors d) (fields d) (staticFields d) (methods d) (staticMethods d).
Definition set_constructors (v : gmap (list type_id) constructor) (d : type_data) : type_data :=
  TypeData (flags d) (meta d) (name d) (enumeration d) (baseClasses d) (derivedClasses d) (arrayConstructor d) (destructor d) v (dynamicConstructors d) (fields d) (staticFields d) (methods d) (staticMethods d).
Definition set_dynamicConstructors (v : gmap (list type_id) constructor) (d : type_data) : type_data :=
  TypeData (flags d) (meta d) (name d) (enumeration d) (baseClasses d) (derivedClasses d) (arrayConstructor d) (destructor d) (constructors d) v (fields d) (staticFields d) (methods d) (staticMethods d).
Definition set_fields (v : list field) (d : type_data) : type_data :=
  TypeData (flags d) (meta d) (name d) (enumeration d) (baseClasses d) (derivedClasses d) (arrayConstructor d) (destructor d) (constructors d) (dynamicConstructors d) v (staticFields d) (methods d) (staticMethods d).
Definition set_staticFields (v : list field) (d : type_data) : type_data :=
  TypeData (flags d) (meta d) (name d) (enumeration d) (baseClasses d) (derivedClasses d) (arrayConstructor d) (destructor d) (constructors d) (dynamicConstructors d) (fields d) v (methods d) (staticMethods d).
Definition set_methods (v : gmap string (list callable)) (d : type_data) : type_data :=
  TypeData (flags d) (meta d) (name d) (enumeration d) (baseClasses d) (derivedClasses d) (arrayConstructor d) (destructor d) (constructors d) (dynamicConstructors d) (fields d) (staticFields d) v (staticMethods d).
Definition set_staticMethods (v : gmap string (list callable)) (d : type_data) : type_data :=
  TypeData (flags d) (meta d) (name d) (enumeration d) (baseClasses d) (derivedClasses d) (arrayConstructor d) (destructor d) (constructors d) (dynamicConstructors d) (fields d) (staticFields d) (methods d) v.
Definition type_data_new (name : string) : type_data :=
  TypeData flags_new ∅ name None ∅ ∅ None None ∅ ∅ [] [] ∅ ∅.

Section database.
Context {cpp : Type} `{Countable cpp}.
(** The database, with the static [TypeIDs<T>::ID] of every type. *)
Record database := Database {
  types : list type_data;
  ids : gmap string type_id;
  globals : gmap string field;
  globalFunctions : gmap string (list callable);
  m_nextID : type_id;
  typeIDs : gmap cpp type_id
}.
Definition set_types (v : list type_data) (db : database) : database :=
  Database v (ids db) (globals db) (globalFunctions db) (m_nextID db) (typeIDs db).
Definition set_globals (v : gmap string field) (db : database) : database :=
  Database (types db) (ids db) v (globalFunctions db) (m_nextID db) (typeIDs db).
Definition set_globalFunctions (v : gmap string (list callable)) (db : database) : database :=
  Database (types db) (ids db) (globals db) v (m_nextID db) (typeIDs db).
(** Before the native types are registered. *)
Definition database_empty : database := Database [type_data_new "UNKNOWN"] ∅ ∅ ∅ 1%nat ∅.
(** [typeidof], [typeof] *)
Definition typeidof (T : cpp) (db : database) : type_id := default InvalidTypeID (typeIDs db !! T).
Definition typeof (T : cpp) (array : bool) (db : database) : ty := Ty (typeidof T db) array.

(** *** Registration *)
(** [AllocateType] *)
Definition AllocateType (n : string) (db : database) : type_id * database :=
  match ids db !! n with
  | Some _ => (InvalidTypeID, db)
  | None =>
      let id := m_nextID db in
      (id, Database (types db ++ [type_data_new n]) (<[n := id]> (ids db)) (globals db) (globalFunctions db)
             (S id) (typeIDs db))
  end.
(** An operation on the record of a type, [types[id]]. *)
Definition on_type (id : type_id) (f : type_data → type_data) (db : database) : ub database :=
  d ← deref (types db !! id);
  Def (set_types (<[id := f d]> (types db)) db).
Definition emplace_constructor (c : constructor) (m : gmap (list type_id) constructor) : gmap (list type_id) constructor :=
  match m !! key (c_signature c) with
  | Some _ => m
  | None => <[key (c_signature c) := constructor_copy c]> m
  end.
Definition AddConstructor (c : constructor) (d : type_data) : type_data :=
  if c_isDynamic c then set_dynamicConstructors (emplace_constructor c (dynamicConstructors d)) d
  else set_constructors (emplace_constructor c (constructors d)) d.
Definition SetArrayConstructor (class : ty) (invoker : Z) (d : type_data) : type_data :=
  set_arrayConstructor (Some (Constructor class [] false invoker ∅)) d.
Definition SetDestructor (class : ty) (d : type_data) : type_data := set_destructor (Some class) d.
(** [TypeInfo<T>::Register]; the default constructors run [default_code]. *)
Definition default_code : Z := 0.
Definition Register (T : cpp) (tr : traits) (id : type_id) (beingDefined : bool) (db : database) : ub database :=
  if (id =? InvalidTypeID)%nat then Def db
  else
    let db := Database (types db) (ids db) (globals db) (globalFunctions db) (m_nextID db) (<[T := id]> (typeIDs db)) in
    let class := typeof T false db in
    on_type id (λ d,
      let d := set_flags (Flags (is_enum tr) (is_arithmetic tr) (is_pointer tr) (is_class tr)
                            (Some (is_signed tr)) (Some (is_floating_point tr))) d in
      if negb beingDefined then d
      else
        let d := if is_trivially_default_constructible tr
                 then AddConstructor (Constructor class [] true default_code ∅)
                        (AddConstructor (Constructor class [] false default_code ∅) d)
                 else d in
        if is_trivial tr then SetDestructor class d else d) db.
(** [REGISTER_NATIVE_TYPE] *)
Definition register_native_type (n : string) (T : cpp) (tr : traits) (db : database) : ub database :=
  let '(id, db) := AllocateType n db in
  Register T tr id true db.
(** [LoadBaseClasses], one base after the other; the record is that of [thisType]. *)
Definition load_base (thisType : type_id) (db : database) (base : ty) : ub database :=
  if type_eqb base Invalid then Def db
  else
    db ← on_type thisType (λ d, set_baseClasses (set_insert base (baseClasses d)) d) db;
    on_type (id_ base) (λ d, set_derivedClasses (set_insert (Ty thisType false) (derivedClasses d)) d) db.
Fixpoint LoadBaseClasses (thisType : type_id) (classes : list ty) (db : database) : ub database :=
  match classes with
  | [] => Def db
  | base :: classes => db ← load_base thisType db base; LoadBaseClasses thisType classes db
  end.
Definition AddField (f : field) (d : type_data) : type_data := set_fields (fields d ++ [f]) d.
Definition AddStaticField (f : field) (d : type_data) : type_data := set_staticFields (staticFields d ++ [f]) d.
(** An overload is added to those of its name. *)
Definition add_overload (c : callable) (m : gmap string (list callable)) : gmap string (list callable) :=
  <[m_name c := default [] (m !! m_name c) ++ [c]]> m.
Definition AddMethod (c : callable) (d : type_data) : type_data := set_methods (add_overload c (methods d)) d.
Definition AddStaticMethod (c : callable) (d : type_data) : type_data :=
  set_staticMethods (add_overload c (staticMethods d)) d.
Definition SetEnum (e : enum_container) (d : type_data) : type_data := set_enumeration (Some e) d.
Definition AddGlobal (f : field) (db : database) : database := set_globals (emplace (globals db) (f_name f, f)) db.
Definition AddGlobalFunction (c : callable) (db : database) : database :=
  set_globalFunctions (add_overload c (globalFunctions db)) db.

(** *** Queries *)
Definition GetFromName (n : string) (db : database) : ty :=
  match ids db !! n with Some id => Ty id false | None => Invalid end.
(** [GetTypes]: all but the first. *)
Definition GetTypes (db : database) : list ty := (λ i, Ty i false) <$> seq 1 (length (types db) - 1).
Definition type_record (t : ty) (db : database) : ub type_data := deref (types db !! id_ t).
Definition GetName (t : ty) (db : database) : ub string :=
  d ← type_record t db;
  Def (if isArray_ t then ("Array<" ++ name d ++ ">")%string else name d).
Definition IsSigned (t : ty) (db : database) : ub bool := d ← type_record t db; deref (isSigned (flags d)).
Definition IsFloatingPoint (t : ty) (db : database) : ub bool := d ← type_record t db; deref (isFloatingPoint (flags d)).
Definition IsClass (t : ty) (db : database) : ub bool := d ← type_record t db; Def (isClass (flags d)).
Definition IsEnum (t : ty) (db : database) : ub bool := d ← type_record t db; Def (isEnum (flags d)).
Definition IsPrimitive (t : ty) (db : database) : ub bool := d ← type_record t db; Def (isPrimitive (flags d)).
Definition IsPointer (t : ty) (db : database) : ub bool := d ← type_record t db; Def (isPointer (flags d)).
Definition DerivesFrom (t other : ty) (db : database) : ub bool :=
  d ← type_record t db; Def (bool_decide (is_Some (baseClasses d !! id_ other))).
Definition GetConstructor (t : ty) (s : signature) (db : database) : ub (option constructor) :=
  d ← type_record t db; Def (constructors d !! key s).
Definition GetDynamicConstructor (t : ty) (s : signature) (db : database) : ub (option constructor) :=
  d ← type_record t db; Def (dynamicConstructors d !! key s).
Fixpoint find_field (n : string) (fs : list field) : field :=
  match fs with
  | [] => field_invalid
  | f :: fs => if bool_decide (f_name f = n) then f else find_field n fs
  end.
Definition GetField (t : ty) (n : string) (db : database) : ub field :=
  d ← type_record t db; Def (find_field n (fields d)).
Definition GetStaticField (t : ty) (n : string) (db : database) : ub field :=
  d ← type_record t db; Def (find_field n (staticFields d)).

(** The members one by one. *)
Definition GetMeta (t : ty) (db : database) : ub meta_manager := d ← type_record t db; Def (meta d).
Definition GetEnum (t : ty) (db : database) : ub (option enum_container) := d ← type_record t db; Def (enumeration d).
Definition GetBaseClasses (t : ty) (db : database) : ub type_set := d ← type_record t db; Def (baseClasses d).
Definition GetDerivedClasses (t : ty) (db : database) : ub type_set := d ← type_record t db; Def (derivedClasses d).
Definition GetConstructors (t : ty) (db : database) : ub (list constructor) :=
  d ← type_record t db; Def (constructor_copy <$> (snd <$> map_to_list (constructors d))).
Definition GetDynamicConstructors (t : ty) (db : database) : ub (list constructor) :=
  d ← type_record t db; Def (constructor_copy <$> (snd <$> map_to_list (dynamicConstructors d))).
Definition GetArrayConstructor (t : ty) (db : database) : ub (option constructor) :=
  d ← type_record t db; Def (arrayConstructor d).
Definition GetDestructor (t : ty) (db : database) : ub (option ty) := d ← type_record t db; Def (destructor d).
Definition all_overloads (m : gmap string (list callable)) : list callable := map_to_list m ≫= snd.
Definition GetMethods (t : ty) (db : database) : ub (list callable) :=
  d ← type_record t db; Def (all_overloads (methods d)).
Definition GetStaticMethods (t : ty) (db : database) : ub (list callable) :=
  d ← type_record t db; Def (all_overloads (staticMethods d)).
Definition GetGlobalFunctions (db : database) : list callable := all_overloads (globalFunctions db).
Definition GetFields (t : ty) (db : database) : ub (list field) := d ← type_record t db; Def (fields d).
Definition GetStaticFields (t : ty) (db : database) : ub (list field) := d ← type_record t db; Def (staticFields d).
(** [TypeCreator]: the code of the constructor for the types of the arguments is run. *)
Definition CreateVariadic (t : ty) (arguments : signature) (db : database) : ub Z :=
  c ← GetConstructor t arguments db; c ← deref c; Def (c_invoker c).
Definition CreateDynamicVariadic (t : ty) (arguments : signature) (db : database) : ub Z :=
  c ← GetDynamicConstructor t arguments db; c ← deref c; Def (c_invoker c).
(** What an unordered container finds first. *)
Context (pick : ∀ A, list A → option A).
Definition overloads (n : string) (m : gmap string (list callable)) : list callable := default [] (m !! n).
Definition has_signature (s : signature) (c : callable) : bool := bool_decide (key (m_signature c) = key s).
(** [methods[name]] enters the name if it is not there. *)
Definition touch (n : string) (m : gmap string (list callable)) : gmap string (list callable) :=
  <[n := overloads n m]> m.
Definition GetMethod (t : ty) (n : string) (db : database) : ub (option callable * database) :=
  d ← type_record t db;
  db ← on_type (id_ t) (λ d, set_methods (touch n (methods d)) d) db;
  Def (pick _ (overloads n (methods d)), db).
Definition GetMethod_overload (t : ty) (n : string) (s : signature) (db : database) : ub (option callable * database) :=
  d ← type_record t db;
  db ← on_type (id_ t) (λ d, set_methods (touch n (methods d)) d) db;
  Def (pick _ (filter (has_signature s) (overloads n (methods d))), db).
Definition GetStaticMethod (t : ty) (n : string) (db : database) : ub (option callable * database) :=
  d ← type_record t db;
  db ← on_type (id_ t) (λ d, set_staticMethods (touch n (staticMethods d)) d) db;
  Def (pick _ (overloads n (staticMethods d)), db).
Definition GetStaticMethod_overload (t : ty) (n : string) (s : signature) (db : database)
    : ub (option callable * database) :=
  d ← type_record t db;
  db ← on_type (id_ t) (λ d, set_staticMethods (touch n (staticMethods d)) d) db;
  Def (pick _ (filter (has_signature s) (overloads n (staticMethods d))), db).
Definition GetGlobalFunction (n : string) (db : database) : option callable * database :=
  (pick _ (overloads n (globalFunctions db)), set_globalFunctions (touch n (globalFunctions db)) db).
Definition GetGlobalFunction_overload (n : string) (s : signature) (db : database) : option callable * database :=
  (pick _ (filter (has_signature s) (overloads n (globalFunctions db))),
   set_globalFunctions (touch n (globalFunctions db)) db).
(** [globals[name]] enters an invalid global if the name is not there. *)
Definition GetGlobal (n : string) (db : database) : field * database :=
  match globals db !! n with
  | Some f => (f, db)
  | None => (field_invalid, set_globals (<[n := field_invalid]> (globals db)) db)
  end.
Definition GetGlobals (db : database) : list field := snd <$> map_to_list (globals db).
(** [Enum]: keys of values and values of keys. *)
Definition enum_GetValue (e : enum_container) (k : string) : option Z := keyToValue_ e !! k.
Definition enum_GetKey (e : enum_container) (t : ty) (v : Z) : string :=
  if negb (type_eqb t (e_type e)) && negb (type_eqb t (e_underlying e)) then ""%string
  else match pick _ (filter (λ p, bool_decide (p.2 = v)) (map_to_list (keyToValue_ e))) with
       | Some (k, _) => k
       | None => ""%string
       end.

(** *** The native types *)
Context (native : string → cpp) (traits_of : string → traits).
Definition array_code : Z := 1.
Definition register_native_variants (db : database) (n : string) : ub database :=
  db ← register_native_type n (native n) (traits_of n) db;
  db ← register_native_type (n ++ "*")%string (native (n ++ "*")%string) (traits_of (n ++ "*")%string) db;
  register_native_type ("const " ++ n ++ "*")%string (native ("const " ++ n ++ "*")%string)
    (traits_of ("const " ++ n ++ "*")%string) db.
Definition register_native_array (db : database) (n : string) : ub database :=
  db ← register_native_variants db n;
  on_type (typeidof (native n) db) (SetArrayConstructor (typeof (native n) false db) array_code) db.
Fixpoint register_natives (ns : list string) (db : database) : ub database :=
  match ns with
  | [] => Def db
  | n :: ns => db ← register_native_array db n; register_natives ns db
  end.
(** The constructor; for [std::string] it enters the same constructor twice, the
    second meant to be the dynamic one. *)
Definition ReflectionDatabase_new : ub database :=
  db ← register_native_variants database_empty "void";
  db ← register_natives ["int"; "unsigned int"; "bool"; "float"; "double"; "std::string"]%string db;
  let class := typeof (native "std::string") false db in
  on_type (id_ class) (λ d,
    AddConstructor (Constructor class [] false default_code ∅)
      (AddConstructor (Constructor class [] false default_code ∅) d)) db.

(** *** Programs of registrations and queries *)
Inductive action :=
| A_type (n : string) (T : cpp) (tr : traits)
| A_bases (id : type_id) (classes : list ty)
| A_constructor (id : type_id) (c : constructor)
| A_array (id : type_id) (class : ty) (code : Z)
| A_destructor (id : type_id) (class : ty)
| A_enum (id : type_id) (e : enum_container)
| A_field (id : type_id) (f : field)
| A_static_field (id : type_id) (f : field)
| A_method (id : type_id) (c : callable)
| A_static_method (id : type_id) (c : callable)
| A_global (f : field)
| A_function (c : callable)
| Q_method (t : ty) (n : string)
| Q_static_method (t : ty) (n : string)
| Q_function (n : string)
| Q_global (n : string).
Definition step (a : action) (db : database) : ub database :=
  match a with
  | A_type n T tr => register_native_type n T tr db
  | A_bases id classes => LoadBaseClasses id classes db
  | A_constructor id c => on_type id (AddConstructor c) db
  | A_array id class code => on_type id (SetArrayConstructor class code) db
  | A_destructor id class => on_type id (SetDestructor class) db
  | A_enum id e => on_type id (SetEnum e) db
  | A_field id f => on_type id (AddField f) db
  | A_static_field id f => on_type id (AddStaticField f) db
  | A_method id c => on_type id (AddMethod c) db
  | A_static_method id c => on_type id (AddStaticMethod c) db
  | A_global f => Def (AddGlobal f db)
  | A_function c => Def (AddGlobalFunction c db)
  | Q_method t n => '(_, db) ← GetMethod t n db; Def db
  | Q_static_method t n => '(_, db) ← GetStaticMethod t n db; Def db
  | Q_function n => Def (GetGlobalFunction n db).2
  | Q_global n => Def (GetGlobal n db).2
  end.
Fixpoint run (acts : list action) (db : database) : ub database :=
  match acts with
  | [] => Def db
  | a :: acts => db ← step a db; run acts db
  end.
End database.

(** ** What has been declared *)
Section declared.
Context {cpp : Type} `{Countable cpp}.
Notation action := (@action cpp).
Definition add_name (l : list string) (a : action) : list string :=
  match a with A_type n _ _ => if bool_decide (n ∈ l) then l else l ++ [n] | _ => l end.
Definition names_of (acts : list action) : list string := foldl add_name [] acts.
Definition bases_of (a : action) : list (type_id * type_id) :=
  match a with
  | A_bases id cs => (λ c, (id, id_ c)) <$> filter (λ c, negb (type_eqb c Invalid)) cs
  | _ => []
  end.
Definition based (acts : list action) (i j : type_id) : Prop := (i, j) ∈ (acts ≫= bases_of).
Definition methods_of (acts : list action) (i : type_id) (n : string) : list callable :=
  omap (λ a, match a with
             | A_method id c => if bool_decide (id = i ∧ m_name c = n) then Some c else None
             | _ => None end) acts.
Definition static_methods_of (acts : list action) (i : type_id) (n : string) : list callable :=
  omap (λ a, match a with
             | A_static_method id c => if bool_decide (id = i ∧ m_name c = n) then Some c else None
             | _ => None end) acts.
Definition functions_of (acts : list action) (n : string) : list callable :=
  omap (λ a, match a with
             | A_function c => if bool_decide (m_name c = n) then Some c else None
             | _ => None end) acts.
Definition fields_of (acts : list action) (i : type_id) : list field :=
  omap (λ a, match a with A_field id f => if bool_decide (id = i) then Some f else None | _ => None end) acts.
Definition static_fields_of (acts : list action) (i : type_id) : list field :=
  omap (λ a, match a with A_static_field id f => if bool_decide (id = i) then Some f else None | _ => None end) acts.
(** The ids an action names. *)
Definition mentions (a : action) : list type_id :=
  match a with
  | A_bases id cs => id :: (id_ <$> cs)
  | A_constructor id _ | A_array id _ _ | A_destructor id _ | A_enum id _ | A_field id _ | A_static_field id _
  | A_method id _ | A_static_method id _ => [id]
  | Q_method t _ | Q_static_method t _ => [id_ t]
  | _ => []
  end.
(** Every action names types that have been allocated before it; [seen] are the
    names so far. *)
Definition names_below (count : nat) (a : action) : Prop := Forall (λ i, (i < count)%nat) (mentions a).
Fixpoint well_ordered (seen : list string) (acts : list action) : Prop :=
  match acts with
  | [] => True
  | a :: acts => names_below (S (length seen)) a ∧ well_ordered (add_name seen a) acts
  end.
End declared.

(** ** The database implements its declarations *)
Section proofs.
Context {cpp : Type} `{Countable cpp} (pick : ∀ A, list A → option A).
Notation action := (@action cpp).
Notation database := (@database cpp _ _).
Implicit Types (db : database) (acts : list action) (a : action).

Record implements (acts : list action) db : Prop := {
  imp_next : m_nextID db = length (types db);
  imp_names : name <$> types db = "UNKNOWN"%string :: names_of acts;
  imp_ids n i : ids db !! n = Some i ↔ ∃ k, i = S k ∧ names_of acts !! k = Some n;
  imp_unique : NoDup (names_of acts);
  imp_below a : a ∈ acts → Forall (λ i, (i < length (types db))%nat) (mentions a);
  imp_bases i d j : types db !! i = Some d → is_Some (baseClasses d !! j) ↔ based acts i j;
  imp_derived i d j : types db !! i = Some d → is_Some (derivedClasses d !! j) ↔ based acts j i;
  imp_methods i d n : types db !! i = Some d → overloads n (methods d) = methods_of acts i n;
  imp_static i d n : types db !! i = Some d → overloads n (staticMethods d) = static_methods_of acts i n;
  imp_fields i d : types db !! i = Some d → fields d = fields_of acts i;
  imp_static_fields i d : types db !! i = Some d → staticFields d = static_fields_of acts i;
  imp_functions n : overloads n (globalFunctions db) = functions_of acts n
}.

Lemma on_type_def id f db : (id < length (types db))%nat →
  ∃ d, types db !! id = Some d ∧ on_type id f db = Def (set_types (<[id := f d]> (types db)) db).
Proof.
  intros [d Hd]%lookup_lt_is_Some_2. exists d. split; [done|]. unfold on_type. by rewrite Hd.
Qed.
(** A record after an operation on one of them. *)
Lemma on_type_lookup {A} (g : type_data → A) id f db d i d' :
  types db !! id = Some d → types (set_types (<[id := f d]> (types db)) db) !! i = Some d' →
  ∃ d0, types db !! i = Some d0 ∧ g d' = if bool_decide (id = i) then g (f d0) else g d0.
Proof.
  intros Hd. simpl. destruct (decide (id = i)) as [->|Hne].
  - rewrite list_lookup_insert_eq by (by eapply lookup_lt_Some). intros [= <-]. exists d.
    by rewrite bool_decide_eq_true_2.
  - rewrite list_lookup_insert_ne by done. intros Hi. exists d'. by rewrite bool_decide_eq_false_2.
Qed.
Lemma overloads_add n c m :
  overloads n (add_overload c m) = if bool_decide (m_name c = n) then overloads n m ++ [c] else overloads n m.
Proof.
  unfold overloads, add_overload. case_bool_decide as Hn.
  - subst n. by rewrite lookup_insert_eq.
  - by rewrite lookup_insert_ne.
Qed.
Lemma overloads_touch n k m : overloads n (touch k m) = overloads n m.
Proof.
  unfold overloads, touch, overloads. destruct (decide (k = n)) as [->|Hn].
  - by rewrite lookup_insert_eq.
  - by rewrite lookup_insert_ne.
Qed.
Lemma set_insert_some t (s : type_set) j : is_Some (set_insert t s !! j) ↔ is_Some (s !! j) ∨ j = id_ t.
Proof.
  unfold set_insert. destruct (s !! id_ t) eqn:Ht.
  - split; [by left|]. intros [Hj| ->]; [done|]. by rewrite Ht.
  - rewrite lookup_insert_is_Some. destruct (decide (id_ t = j)); naive_solver.
Qed.
Lemma name_add acts a : names_of (acts ++ [a]) = add_name (names_of acts) a.
Proof. unfold names_of. by rewrite foldl_app. Qed.
Lemma imp_length acts db : implements acts db → length (types db) = S (length (names_of acts)).
Proof.
  intros Hi. rewrite <-(length_fmap name), (imp_names acts db Hi). done.
Qed.

(** An operation on one record, which declares [a]. *)
Record declares (id : type_id) (f : type_data → type_data) a : Prop := {
  dec_names l : add_name l a = l;
  dec_bases : bases_of a = [];
  dec_mentions : mentions a = [id];
  dec_functions n : functions_of [a] n = [];
  dec_name d : name (f d) = name d;
  dec_base d : baseClasses (f d) = baseClasses d;
  dec_derived d : derivedClasses (f d) = derivedClasses d;
  dec_methods d n : overloads n (methods (f d)) = overloads n (methods d) ++ methods_of [a] id n;
  dec_static d n : overloads n (staticMethods (f d)) = overloads n (staticMethods d) ++ static_methods_of [a] id n;
  dec_fields d : fields (f d) = fields d ++ fields_of [a] id;
  dec_static_fields d : staticFields (f d) = staticFields d ++ static_fields_of [a] id;
  dec_other i n : id ≠ i → methods_of [a] i n = [] ∧ static_methods_of [a] i n = [] ∧
    fields_of [a] i = [] ∧ static_fields_of [a] i = []
}.
Lemma implements_on_type acts db a id f : implements acts db → (id < length (types db))%nat → declares id f a →
  ∃ db', on_type id f db = Def db' ∧ implements (acts ++ [a]) db'.
Proof.
  intros Hi Hid Hd. destruct (on_type_def id f db Hid) as (d&Hl&->). eexists. split; [done|].
  assert (based (acts ++ [a]) = based acts) as Hb.
  { unfold based. by rewrite bind_app, bind_singleton, (dec_bases _ _ _ Hd), app_nil_r. }
  split.
  - simpl. rewrite length_insert. apply Hi.
  - rewrite name_add, (dec_names _ _ _ Hd), <-(imp_names _ _ Hi). simpl.
    rewrite list_fmap_insert, (dec_name _ _ _ Hd). apply list_insert_id. by rewrite list_lookup_fmap, Hl.
  - rewrite name_add, (dec_names _ _ _ Hd). apply Hi.
  - rewrite name_add, (dec_names _ _ _ Hd). apply Hi.
  - intros b [Hb'|Hb']%elem_of_app; simpl; rewrite length_insert; [by apply Hi|].
    apply list_elem_of_singleton in Hb' as ->. rewrite (dec_mentions _ _ _ Hd). by repeat constructor.
  - intros i d' j Hi'. rewrite Hb. destruct (on_type_lookup baseClasses _ _ _ _ _ _ Hl Hi') as (d0&Hd0&->).
    rewrite (dec_base _ _ _ Hd). case_bool_decide; by apply Hi.
  - intros i d' j Hi'. rewrite Hb. destruct (on_type_lookup derivedClasses _ _ _ _ _ _ Hl Hi') as (d0&Hd0&->).
    rewrite (dec_derived _ _ _ Hd). case_bool_decide; by apply Hi.
  - intros i d' n Hi'. unfold methods_of. rewrite omap_app.
    destruct (on_type_lookup (λ d, overloads n (methods d)) _ _ _ _ _ _ Hl Hi') as (d0&Hd0&->).
    case_bool_decide as Hc; [subst i; rewrite (dec_methods _ _ _ Hd)|];
      rewrite (imp_methods _ _ Hi _ _ _ Hd0); [done|].
    destruct (dec_other _ _ _ Hd i n Hc) as (Ho&_). unfold methods_of in Ho. by rewrite Ho, app_nil_r.
  - intros i d' n Hi'. unfold static_methods_of. rewrite omap_app.
    destruct (on_type_lookup (λ d, overloads n (staticMethods d)) _ _ _ _ _ _ Hl Hi') as (d0&Hd0&->).
    case_bool_decide as Hc; [subst i; rewrite (dec_static _ _ _ Hd)|];
      rewrite (imp_static _ _ Hi _ _ _ Hd0); [done|].
    destruct (dec_other _ _ _ Hd i n Hc) as (_&Ho&_). unfold static_methods_of in Ho. by rewrite Ho, app_nil_r.
  - intros i d' Hi'. unfold fields_of. rewrite omap_app.
    destruct (on_type_lookup fields _ _ _ _ _ _ Hl Hi') as (d0&Hd0&->).
    case_bool_decide as Hc; [subst i; rewrite (dec_fields _ _ _ Hd)|];
      rewrite (imp_fields _ _ Hi _ _ Hd0); [done|].
    destruct (dec_other _ _ _ Hd i "" Hc) as (_&_&Ho&_). unfold fields_of in Ho. by rewrite Ho, app_nil_r.
  - intros i d' Hi'. unfold static_fields_of. rewrite omap_app.
    destruct (on_type_lookup staticFields _ _ _ _ _ _ Hl Hi') as (d0&Hd0&->).
    case_bool_decide as Hc; [subst i; rewrite (dec_static_fields _ _ _ Hd)|];
      rewrite (imp_static_fields _ _ Hi _ _ Hd0); [done|].
    destruct (dec_other _ _ _ Hd i "" Hc) as (_&_&_&Ho). unfold static_fields_of in Ho. by rewrite Ho, app_nil_r.
  - intros n. pose proof (dec_functions _ _ _ Hd n) as Hf. unfold functions_of in *.
    rewrite omap_app, Hf, app_nil_r. apply Hi.
Qed.

Lemma declares_constructor id c : declares id (AddConstructor c) (A_constructor id c).
Proof. split; intros; rewrite ?app_nil_r; try done; unfold AddConstructor; by case_match. Qed.
Lemma declares_array id class code : declares id (SetArrayConstructor class code) (A_array id class code).
Proof. by split; intros; rewrite ?app_nil_r. Qed.
Lemma declares_destructor id class : declares id (SetDestructor class) (A_destructor id class).
Proof. by split; intros; rewrite ?app_nil_r. Qed.
Lemma declares_enum id e : declares id (SetEnum e) (A_enum id e).
Proof. by split; intros; rewrite ?app_nil_r. Qed.
Lemma declares_field id f : declares id (AddField f) (A_field id f).
Proof.
  split; intros; rewrite ?app_nil_r; try done; unfold fields_of; csimpl.
  - by rewrite bool_decide_eq_true_2.
  - by rewrite bool_decide_eq_false_2.
Qed.
Lemma declares_static_field id f : declares id (AddStaticField f) (A_static_field id f).
Proof.
  split; intros; rewrite ?app_nil_r; try done; unfold static_fields_of; csimpl.
  - by rewrite bool_decide_eq_true_2.
  - by rewrite bool_decide_eq_false_2.
Qed.
Lemma declares_method id c : declares id (AddMethod c) (A_method id c).
Proof.
  split; intros; rewrite ?app_nil_r; try done; unfold methods_of; csimpl.
  - unfold AddMethod. simpl. rewrite overloads_add.
    repeat case_bool_decide; try done; [naive_solver|naive_solver|by rewrite app_nil_r].
  - by rewrite bool_decide_eq_false_2 by naive_solver.
Qed.
Lemma declares_static_method id c : declares id (AddStaticMethod c) (A_static_method id c).
Proof.
  split; intros; rewrite ?app_nil_r; try done; unfold static_methods_of; csimpl.
  - unfold AddStaticMethod. simpl. rewrite overloads_add.
    repeat case_bool_decide; try done; [naive_solver|naive_solver|by rewrite app_nil_r].
  - by rewrite bool_decide_eq_false_2 by naive_solver.
Qed.
Lemma declares_touch t n : declares (id_ t) (λ d, set_methods (touch n (methods d)) d) (Q_method t n).
Proof. split; intros; rewrite ?app_nil_r; try done. simpl. by rewrite overloads_touch. Qed.
Lemma declares_static_touch t n : declares (id_ t) (λ d, set_staticMethods (touch n (staticMethods d)) d) (Q_static_method t n).
Proof. split; intros; rewrite ?app_nil_r; try done. simpl. by rewrite overloads_touch. Qed.

(** An action that changes no record. *)
Lemma declared_same acts db db' a : implements acts db → types db' = types db → ids db' = ids db →
  m_nextID db' = m_nextID db → add_name (names_of acts) a = names_of acts → bases_of a = [] → mentions a = [] →
  (∀ i n, methods_of [a] i n = [] ∧ static_methods_of [a] i n = []) →
  (∀ i, fields_of [a] i = [] ∧ static_fields_of [a] i = []) →
  (∀ n, overloads n (globalFunctions db') = overloads n (globalFunctions db) ++ functions_of [a] n) →
  implements (acts ++ [a]) db'.
Proof.
  intros Hi Ht Hids Hn Hnames Hb Hm Hms Hfs Hfn.
  assert (∀ i j, based (acts ++ [a]) i j ↔ based acts i j) as Hbb.
  { intros i j. unfold based. by rewrite bind_app, bind_singleton, Hb, app_nil_r. }
  split; rewrite ?name_add, ?Hnames, ?Ht, ?Hids, ?Hn; try apply Hi.
  - intros b [?|Hb']%elem_of_app; [by apply Hi|]. apply list_elem_of_singleton in Hb' as ->. by rewrite Hm.
  - intros i d j Hd. rewrite Hbb. by apply Hi.
  - intros i d j Hd. rewrite Hbb. by apply Hi.
  - intros i d n Hd. rewrite (imp_methods _ _ Hi _ _ _ Hd). unfold methods_of. rewrite omap_app.
    destruct (Hms i n) as [Ho _]. unfold methods_of in Ho. by rewrite Ho, app_nil_r.
  - intros i d n Hd. rewrite (imp_static _ _ Hi _ _ _ Hd). unfold static_methods_of. rewrite omap_app.
    destruct (Hms i n) as [_ Ho]. unfold static_methods_of in Ho. by rewrite Ho, app_nil_r.
  - intros i d Hd. rewrite (imp_fields _ _ Hi _ _ Hd). unfold fields_of. rewrite omap_app.
    destruct (Hfs i) as [Ho _]. unfold fields_of in Ho. by rewrite Ho, app_nil_r.
  - intros i d Hd. rewrite (imp_static_fields _ _ Hi _ _ Hd). unfold static_fields_of. rewrite omap_app.
    destruct (Hfs i) as [_ Ho]. unfold static_fields_of in Ho. by rewrite Ho, app_nil_r.
  - intros n. rewrite Hfn, (imp_functions _ _ Hi). unfold functions_of. by rewrite omap_app.
Qed.

(** Actions that mention types name allocated ones: there are none of a new type. *)
Lemma nothing_of_new acts db i n : implements acts db → (length (types db) ≤ i)%nat →
  methods_of acts i n = [] ∧ static_methods_of acts i n = [] ∧ fields_of acts i = [] ∧ static_fields_of acts i = [].
Proof.
  intros Hi Hl.
  assert (∀ (A : Type) (f : action → option A), (∀ a x, f a = Some x → i ∈ mentions a) → omap f acts = []) as Hnone.
  { intros A f Hf. apply elem_of_nil_inv. intros x (a&Ha&Hx)%list_elem_of_omap.
    pose proof (imp_below _ _ Hi a Ha) as Hb. rewrite Forall_forall in Hb.
    specialize (Hb i (Hf _ _ Hx)). lia. }
  split_and!; apply Hnone; intros a x Hx; destruct a; try done; simpl in *; case_bool_decide; try done; set_solver.
Qed.
Lemma based_below acts db i j : implements acts db → based acts i j →
  (i < length (types db))%nat ∧ (j < length (types db))%nat.
Proof.
  intros Hi (a&Hb&Ha)%list_elem_of_bind.
  pose proof (imp_below _ _ Hi a Ha) as Hf. rewrite Forall_forall in Hf.
  destruct a; simpl in Hb; try by apply elem_of_nil in Hb.
  apply list_elem_of_fmap in Hb as (c&[= -> ->]&[_ Hc]%list_elem_of_filter). simpl in Hf. split; apply Hf; set_solver.
Qed.
(** What a new record has. *)
Definition fresh_record (n : string) (d : type_data) : Prop :=
  name d = n ∧ baseClasses d = ∅ ∧ derivedClasses d = ∅ ∧ methods d = ∅ ∧ staticMethods d = ∅ ∧
  fields d = [] ∧ staticFields d = [].
Lemma register_new (T : cpp) tr n ts im gs fs k tids : ts ≠ [] → ∃ d, fresh_record n d ∧
  Register T tr (length ts) true (Database (ts ++ [type_data_new n]) im gs fs k tids) =
  Def (Database (ts ++ [d]) im gs fs k (<[T := length ts]> tids)).
Proof.
  intros Hts. unfold Register. rewrite (proj2 (Nat.eqb_neq _ _)) by (by destruct ts).
  unfold on_type. simpl. rewrite list_lookup_middle by done. simpl. unfold set_types. simpl.
  rewrite insert_app_r_alt, Nat.sub_diag by done. simpl. eexists. split; [|reflexivity].
  unfold fresh_record, AddConstructor. simpl. repeat case_match; done.
Qed.
Lemma lookup_snoc {A} (l : list A) x i y : (l ++ [x]) !! i = Some y → l !! i = Some y ∨ i = length l ∧ y = x.
Proof.
  intros Hy. destruct (decide (i < length l)%nat) as [Hi|Hi].
  - left. by rewrite lookup_app_l in Hy.
  - right. rewrite lookup_app_r in Hy by lia.
    destruct (i - length l)%nat eqn:Hd; simpl in Hy; [|done]. injection Hy as <-. split; [lia|done].
Qed.
Lemma implements_type acts db n (T : cpp) tr : implements acts db →
  ∃ db', register_native_type n T tr db = Def db' ∧ implements (acts ++ [A_type n T tr]) db'.
Proof.
  intros Hi. unfold register_native_type, AllocateType. destruct (ids db !! n) as [k|] eqn:Hn.
  - exists db. split; [done|]. apply declared_same with db; try done.
    + simpl. rewrite bool_decide_eq_true_2; [done|].
      apply (imp_ids _ _ Hi) in Hn as (m&_&Hm). by eapply list_elem_of_lookup_2.
    + intros m. by rewrite app_nil_r.
  - assert (n ∉ names_of acts) as Hnew.
    { intros (m&Hm)%list_elem_of_lookup_1.
      assert (ids db !! n = Some (S m)) as Hs by (apply (imp_ids _ _ Hi); eauto). congruence. }
    rewrite (imp_next _ _ Hi). pose proof (imp_length _ _ Hi) as Hlen.
    destruct (register_new T tr n (types db) (<[n := length (types db)]> (ids db)) (globals db) (globalFunctions db)
      (S (length (types db))) (typeIDs db)) as (d&(Hname&Hb&Hd&Hm&Hs&Hf&Hsf)&->); [by intros He; rewrite He in Hlen|].
    eexists. split; [done|].
    assert (names_of (acts ++ [A_type n T tr]) = names_of acts ++ [n]) as Hnames.
    { rewrite name_add. simpl. by rewrite bool_decide_eq_false_2. }
    assert (∀ i j, based (acts ++ [A_type n T tr]) i j ↔ based acts i j) as Hbb.
    { intros i j. unfold based. by rewrite bind_app, bind_singleton, app_nil_r. }
    split; simpl; rewrite ?Hnames.
    + rewrite length_app. simpl. lia.
    + rewrite fmap_app, (imp_names _ _ Hi). csimpl. by rewrite Hname.
    + intros m i. destruct (decide (n = m)) as [<-|Hne].
      * rewrite lookup_insert_eq, Hlen. split.
        -- intros [= <-]. eexists. split; [done|]. by apply list_lookup_middle.
        -- intros (k&->&Hk). f_equal. f_equal. apply lookup_snoc in Hk as [Hk|[-> _]]; [|done].
           by apply list_elem_of_lookup_2 in Hk.
      * rewrite lookup_insert_ne, (imp_ids _ _ Hi) by done. split; intros (k&->&Hk); exists k; (split; [done|]).
        -- by apply lookup_app_l_Some.
        -- by apply lookup_snoc in Hk as [Hk|[_ <-]].
    + apply NoDup_app. split_and!; [apply Hi| |apply NoDup_singleton].
      by intros x Hx ->%list_elem_of_singleton.
    + intros b [Hb'|Hb']%elem_of_app.
      * eapply Forall_impl; [by apply (imp_below _ _ Hi)|]. intros i Hl. simpl in *. rewrite length_app. lia.
      * apply list_elem_of_singleton in Hb' as ->. constructor.
    + intros i d' j [Hl|[-> ->]]%lookup_snoc; rewrite Hbb; [by apply (imp_bases _ _ Hi)|].
      rewrite Hb, lookup_empty. split; [by intros []|]. intros (Hlt&_)%(based_below _ _ _ _ Hi). lia.
    + intros i d' j [Hl|[-> ->]]%lookup_snoc; rewrite Hbb; [by apply (imp_derived _ _ Hi)|].
      rewrite Hd, lookup_empty. split; [by intros []|]. intros (_&Hlt)%(based_below _ _ _ _ Hi). lia.
    + intros i d' m [Hl|[-> ->]]%lookup_snoc; unfold methods_of; rewrite omap_app; csimpl; rewrite app_nil_r;
        [by apply (imp_methods _ _ Hi)|]. rewrite Hm. symmetry. by apply (nothing_of_new _ _ _ m Hi).
    + intros i d' m [Hl|[-> ->]]%lookup_snoc; unfold static_methods_of; rewrite omap_app; csimpl; rewrite app_nil_r;
        [by apply (imp_static _ _ Hi)|]. rewrite Hs. symmetry. by apply (nothing_of_new _ _ _ m Hi).
    + intros i d' [Hl|[-> ->]]%lookup_snoc; unfold fields_of; rewrite omap_app; csimpl; rewrite app_nil_r;
        [by apply (imp_fields _ _ Hi)|]. rewrite Hf. symmetry. by apply (nothing_of_new _ _ _ n Hi).
    + intros i d' [Hl|[-> ->]]%lookup_snoc; unfold static_fields_of; rewrite omap_app; csimpl; rewrite app_nil_r;
        [by apply (imp_static_fields _ _ Hi)|]. rewrite Hsf. symmetry. by apply (nothing_of_new _ _ _ n Hi).
    + intros m. unfold functions_of. rewrite omap_app. csimpl. rewrite app_nil_r. apply Hi.
Qed.

(** Base classes. *)
Definition add_base (c : ty) (d : type_data) : type_data := set_baseClasses (set_insert c (baseClasses d)) d.
Definition add_derived (c : ty) (d : type_data) : type_data := set_derivedClasses (set_insert c (derivedClasses d)) d.
Lemma load_base_types id c db : (id < length (types db))%nat → (id_ c < length (types db))%nat →
  type_eqb c Invalid = false →
  ∃ ts, load_base id db c = Def (set_types ts db) ∧ length ts = length (types db) ∧
    ∀ i d', ts !! i = Some d' → ∃ d, types db !! i = Some d ∧
      (∀ A (g : type_data → A), (∀ d s, g (set_baseClasses s d) = g d) → (∀ d s, g (set_derivedClasses s d) = g d) →
         g d' = g d) ∧
      baseClasses d' = (if bool_decide (id = i) then set_insert c (baseClasses d) else baseClasses d) ∧
      derivedClasses d' = (if bool_decide (id_ c = i) then set_insert (Ty id false) (derivedClasses d) else derivedClasses d).
Proof.
  intros Hid Hc Hv. unfold load_base. rewrite Hv.
  destruct (on_type_def id (add_base c) db Hid) as (d1&Hd1&Ho1). unfold add_base in Ho1. rewrite Ho1. clear Ho1. simpl.
  set (db1 := set_types _ db).
  assert (length (types db1) = length (types db)) as Hl1 by (simpl; by rewrite length_insert).
  destruct (on_type_def (id_ c) (add_derived (Ty id false)) db1) as (d2&Hd2&Ho2); [lia|].
  unfold add_derived in Ho2. rewrite Ho2. clear Ho2.
  eexists. split; [reflexivity|]. split; [by rewrite length_insert|].
  intros i d' Hi.
  assert (∃ d1', types db1 !! i = Some d1' ∧ d' = if bool_decide (id_ c = i) then add_derived (Ty id false) d1' else d1')
    as (d1'&Hi1&->) by (apply (on_type_lookup (λ x, x) (id_ c) (add_derived (Ty id false)) db1 d2 i d' Hd2 Hi)).
  assert (∃ d0, types db !! i = Some d0 ∧ d1' = if bool_decide (id = i) then add_base c d0 else d0)
    as (d0&Hi0&->) by (apply (on_type_lookup (λ x, x) id (add_base c) db d1 i d1' Hd1 Hi1)).
  exists d0. split_and!; [done| | |].
  - intros A g Hg1 Hg2. unfold add_derived, add_base. by repeat case_bool_decide; rewrite ?Hg2, ?Hg1.
  - by repeat case_bool_decide.
  - by repeat case_bool_decide.
Qed.
(** An action that only declares base classes. *)
Lemma declared_bases acts id cs :
  (∀ i n, methods_of (acts ++ [A_bases id cs]) i n = methods_of acts i n) ∧
  (∀ i n, static_methods_of (acts ++ [A_bases id cs]) i n = static_methods_of acts i n) ∧
  (∀ i, fields_of (acts ++ [A_bases id cs]) i = fields_of acts i) ∧
  (∀ i, static_fields_of (acts ++ [A_bases id cs]) i = static_fields_of acts i) ∧
  (∀ n, functions_of (acts ++ [A_bases id cs]) n = functions_of acts n) ∧
  names_of (acts ++ [A_bases id cs]) = names_of acts.
Proof.
  unfold methods_of, static_methods_of, fields_of, static_fields_of, functions_of.
  split_and!; [intros; rewrite omap_app; csimpl; by rewrite app_nil_r ..|]. by rewrite name_add.
Qed.
(** Two lists of actions that declare the same. *)
Lemma implements_bases_more acts db db' id cs : implements acts db →
  m_nextID db' = m_nextID db → ids db' = ids db → globalFunctions db' = globalFunctions db →
  length (types db') = length (types db) → (id < length (types db))%nat →
  Forall (λ c, (id_ c < length (types db))%nat) cs →
  (∀ i d', types db' !! i = Some d' → ∃ d, types db !! i = Some d ∧
     name d' = name d ∧ methods d' = methods d ∧ staticMethods d' = staticMethods d ∧
     fields d' = fields d ∧ staticFields d' = staticFields d ∧
     (∀ j, is_Some (baseClasses d' !! j) ↔ is_Some (baseClasses d !! j) ∨ (i, j) ∈ bases_of (A_bases (cpp:=cpp) id cs)) ∧
     (∀ j, is_Some (derivedClasses d' !! j) ↔
        is_Some (derivedClasses d !! j) ∨ (j, i) ∈ bases_of (A_bases (cpp:=cpp) id cs))) →
  implements (acts ++ [A_bases id cs]) db'.
Proof.
  intros Hi Hn Hids Hfn Hl Hid Hcs Hts. destruct (declared_bases acts id cs) as (Hm&Hs&Hf&Hsf&Hg&Hnm).
  assert (∀ i j, based (acts ++ [A_bases id cs]) i j ↔
    based acts i j ∨ (i, j) ∈ bases_of (A_bases (cpp:=cpp) id cs)) as Hb.
  { intros i j. unfold based. by rewrite bind_app, elem_of_app, bind_singleton. }
  split; rewrite ?Hnm, ?Hn, ?Hids, ?Hl; try apply Hi.
  - rewrite <-(imp_names _ _ Hi). apply list_eq_same_length with (length (types db));
      rewrite ?length_fmap; [done|done|]. intros i x y _ Hx Hy.
    apply list_lookup_fmap_Some in Hx as (d'&->&Hd'). apply list_lookup_fmap_Some in Hy as (d&->&Hd).
    destruct (Hts i d' Hd') as (d0&Hd0&->&_). congruence.
  - intros b [?|Hb']%elem_of_app; [by apply Hi|]. apply list_elem_of_singleton in Hb' as ->. simpl. constructor; [done|].
    by apply Forall_fmap.
  - intros i d' j Hd'. destruct (Hts i d' Hd') as (d&Hd&_&_&_&_&_&HB&_). rewrite HB, Hb.
    by rewrite (imp_bases _ _ Hi _ _ _ Hd).
  - intros i d' j Hd'. destruct (Hts i d' Hd') as (d&Hd&_&_&_&_&_&_&HD). rewrite HD, Hb.
    by rewrite (imp_derived _ _ Hi _ _ _ Hd).
  - intros i d' n Hd'. destruct (Hts i d' Hd') as (d&Hd&_&->&_). rewrite Hm. by apply Hi.
  - intros i d' n Hd'. destruct (Hts i d' Hd') as (d&Hd&_&_&->&_). rewrite Hs. by apply Hi.
  - intros i d' Hd'. destruct (Hts i d' Hd') as (d&Hd&_&_&_&->&_). rewrite Hf. by apply Hi.
  - intros i d' Hd'. destruct (Hts i d' Hd') as (d&Hd&_&_&_&_&->&_). rewrite Hsf. by apply Hi.
  - intros n. rewrite Hfn, Hg. apply Hi.
Qed.
(** [LoadBaseClasses] changes the sets of base and derived classes and nothing else. *)
Lemma LoadBaseClasses_types id cs db : (id < length (types db))%nat →
  Forall (λ c, (id_ c < length (types db))%nat) cs →
  ∃ ts, LoadBaseClasses id cs db = Def (set_types ts db) ∧ length ts = length (types db) ∧
    ∀ i d', ts !! i = Some d' → ∃ d, types db !! i = Some d ∧
      name d' = name d ∧ methods d' = methods d ∧ staticMethods d' = staticMethods d ∧
      fields d' = fields d ∧ staticFields d' = staticFields d ∧
      (∀ j, is_Some (baseClasses d' !! j) ↔ is_Some (baseClasses d !! j) ∨ (i, j) ∈ bases_of (A_bases (cpp:=cpp) id cs)) ∧
      (∀ j, is_Some (derivedClasses d' !! j) ↔
         is_Some (derivedClasses d !! j) ∨ (j, i) ∈ bases_of (A_bases (cpp:=cpp) id cs)).
Proof.
  intros Hid Hcs. revert db Hid Hcs. induction cs as [|c cs IH]; intros db Hid Hcs.
  - exists (types db). split; [by destruct db|]. split; [done|]. intros i d Hd. exists d.
    split_and!; try done; intros j; simpl; rewrite elem_of_nil; naive_solver.
  - inversion_clear Hcs as [|?? Hc Hcs']. simpl. destruct (type_eqb c Invalid) eqn:Hv.
    + unfold load_base. rewrite Hv. simpl. rewrite filter_cons_False by (rewrite Hv; by intros []). by apply IH.
    + destruct (load_base_types id c db Hid Hc Hv) as (ts1&->&Hl1&Hts1). simpl.
      destruct (IH (set_types ts1 db)) as (ts&->&Hl&Hts); simpl; rewrite ?Hl1; [done|done|].
      exists ts. split; [done|]. split; [by rewrite Hl; simpl|]. intros i d' Hd'.
      destruct (Hts i d' Hd') as (d1&Hd1&->&->&->&->&->&HB&HD). simpl in Hd1.
      destruct (Hts1 i d1 Hd1) as (d&Hd&Hg&Hb&Hdv). exists d. split; [done|].
      rewrite (Hg _ name), (Hg _ methods), (Hg _ staticMethods), (Hg _ fields), (Hg _ staticFields) by done.
      split_and!; try done; intros j; [rewrite HB, Hb|rewrite HD, Hdv];
        rewrite filter_cons_True by (by rewrite Hv); csimpl; rewrite elem_of_cons;
        rewrite pair_equal_spec;
        clear Hb Hdv Hts Hts1 HB HD IH Hg; (case_bool_decide as Hij; [subst i; rewrite set_insert_some; simpl; pose proof (eq_refl id); pose proof (eq_refl (id_ c))
                                  |pose proof (not_eq_sym Hij)]); tauto.
Qed.
Lemma implements_bases acts db id cs : implements acts db → (id < length (types db))%nat →
  Forall (λ c, (id_ c < length (types db))%nat) cs →
  ∃ db', LoadBaseClasses id cs db = Def db' ∧ implements (acts ++ [A_bases id cs]) db' ∧
    length (types db') = length (types db).
Proof.
  intros Hi Hid Hcs. destruct (LoadBaseClasses_types id cs db Hid Hcs) as (ts&->&Hl&Hts).
  eexists. split; [done|]. split; [|done]. by apply implements_bases_more with db.
Qed.

Lemma implements_step acts db a : implements acts db → names_below (S (length (names_of acts))) a →
  ∃ db', step pick a db = Def db' ∧ implements (acts ++ [a]) db'.
Proof.
  intros Hi Hm. unfold names_below in Hm. rewrite <-(imp_length _ _ Hi) in Hm.
  destruct a; simpl in Hm; rewrite ?Forall_singleton in Hm;
    first [by apply implements_type
          |by eauto using implements_on_type, declares_constructor, declares_array, declares_destructor, declares_enum,
             declares_field, declares_static_field, declares_method, declares_static_method
          |idtac].
  - inversion_clear Hm as [|?? Hid Hcs]. rewrite Forall_fmap in Hcs.
    destruct (implements_bases acts db id classes Hi Hid Hcs) as (db'&?&?&_). eauto.
  - eexists. split; [done|]. apply declared_same with db; try done. intros n. by rewrite app_nil_r.
  - eexists. split; [done|]. apply declared_same with db; try done. intros n. simpl. rewrite overloads_add.
    unfold functions_of. csimpl. case_bool_decide; [done|by rewrite app_nil_r].
  - destruct (implements_on_type acts db _ (id_ t) _ Hi Hm (declares_touch t n)) as (db'&He&?).
    exists db'. split; [|done]. destruct (on_type_def (id_ t) (λ d, d) db Hm) as (d&Hd&_).
    simpl. unfold GetMethod, type_record. rewrite Hd. simpl. by rewrite He.
  - destruct (implements_on_type acts db _ (id_ t) _ Hi Hm (declares_static_touch t n)) as (db'&He&?).
    exists db'. split; [|done]. destruct (on_type_def (id_ t) (λ d, d) db Hm) as (d&Hd&_).
    simpl. unfold GetStaticMethod, type_record. rewrite Hd. simpl. by rewrite He.
  - eexists. split; [done|]. apply declared_same with db; try done. intros m. simpl.
    by rewrite overloads_touch, app_nil_r.
  - eexists. split; [done|]. unfold GetGlobal. destruct (globals db !! n);
      (apply declared_same with db; try done; intros m; by rewrite app_nil_r).
Qed.
Lemma declared_run acts acts0 db : implements acts0 db → well_ordered (names_of acts0) acts →
  ∃ db', run pick acts db = Def db' ∧ implements (acts0 ++ acts) db'.
Proof.
  revert acts0 db. induction acts as [|a acts IH]; intros acts0 db Hi.
  - exists db. by rewrite app_nil_r.
  - intros [Hm Hw]. destruct (implements_step acts0 db a Hi Hm) as (db1&Hs&Hi1).
    rewrite <-name_add in Hw. destruct (IH _ _ Hi1 Hw) as (db'&Hr&Hi'). exists db'. simpl. rewrite Hs. simpl.
    split; [done|]. by rewrite <-app_assoc in Hi'.
Qed.
Lemma implements_empty : implements [] database_empty.
Proof.
  assert (∀ i d, types (database_empty : database) !! i = Some d → d = type_data_new "UNKNOWN") as Ht.
  { intros i d Hd. apply list_elem_of_lookup_2, list_elem_of_singleton in Hd. done. }
  split; try done.
  - intros n i. simpl. rewrite lookup_empty. split; [done|]. by intros (k&_&Hk).
  - constructor.
  - by intros a Ha%elem_of_nil.
  - intros i d j ->%Ht. split; [by intros []|]. by intros Hb%elem_of_nil.
  - intros i d j ->%Ht. split; [by intros []|]. by intros Hb%elem_of_nil.
  - by intros i d n ->%Ht.
  - by intros i d n ->%Ht.
  - by intros i d ->%Ht.
  - by intros i d ->%Ht.
Qed.

(** *** Different types have different ids *)
Record numbered db : Prop := {
  num_range T i : typeIDs db !! T = Some i → (0 < i < m_nextID db)%nat;
  num_distinct T U i : typeIDs db !! T = Some i → typeIDs db !! U = Some i → T = U;
  num_next : (0 < m_nextID db)%nat
}.
Lemma on_type_ids id f db db' : on_type id f db = Def db' → typeIDs db' = typeIDs db ∧ m_nextID db' = m_nextID db.
Proof. unfold on_type. intros Ho. by inv_def. Qed.
Lemma LoadBaseClasses_ids id cs db db' :
  LoadBaseClasses id cs db = Def db' → typeIDs db' = typeIDs db ∧ m_nextID db' = m_nextID db.
Proof.
  revert db. induction cs as [|c cs IH]; intros db; simpl; intros Ho; inv_def; [done|].
  apply IH in Ho as [-> ->]. unfold load_base in Ha. destruct (type_eqb c Invalid); inv_def; [done|].
  apply on_type_ids in Ha0 as [<- <-]. by apply on_type_ids in Ha.
Qed.
Lemma step_ids a db db' : step pick a db = Def db' → (0 < m_nextID db)%nat →
  (typeIDs db' = typeIDs db ∧ m_nextID db' = m_nextID db) ∨
  (∃ T, typeIDs db' = <[T := m_nextID db]> (typeIDs db) ∧ m_nextID db' = S (m_nextID db)).
Proof.
  intros Ho Hn. destruct a; simpl in Ho;
    first [by left; apply on_type_ids in Ho|by left; eapply LoadBaseClasses_ids|idtac].
  - unfold register_native_type, AllocateType, Register in Ho. destruct (ids db !! n); simpl in Ho; [left; by inv_def|].
    destruct (m_nextID db) eqn:Hz; [lia|]. simpl in Ho. apply on_type_ids in Ho as [-> ->]. right. by exists T.
  - inv_def. by left.
  - inv_def. by left.
  - unfold GetMethod in Ho. inv_def. left. by eapply on_type_ids.
  - unfold GetStaticMethod in Ho. inv_def. left. by eapply on_type_ids.
  - inv_def. by left.
  - inv_def. left. unfold GetGlobal. by destruct (globals db !! n).
Qed.
Lemma numbered_run acts db db' : numbered db → run pick acts db = Def db' → numbered db'.
Proof.
  revert db. induction acts as [|a acts IH]; intros db Hn Hr; simpl in Hr; inv_def; [done|].
  eapply IH; [|done]. clear Hr IH. destruct (step_ids _ _ _ Ha) as [[Ht Hm]|(T&Ht&Hm)]; [apply Hn| |].
  - destruct Hn as [H1 H2 H3]. split; rewrite ?Ht, ?Hm; done.
  - split; rewrite ?Ht, ?Hm.
    + intros U i [[<- <-]|[_ Hi]]%lookup_insert_Some; [pose proof (num_next _ Hn); lia|].
      apply (num_range _ Hn) in Hi. lia.
    + intros U V i [[<- <-]|[_ Hi]]%lookup_insert_Some [[<- Hj]|[_ Hj]]%lookup_insert_Some; try done.
      * apply (num_range _ Hn) in Hj. lia.
      * subst i. apply (num_range _ Hn) in Hi. lia.
      * by eapply num_distinct.
    + lia.
Qed.
Lemma numbered_empty : numbered database_empty.
Proof. split; intros *; simpl; rewrite ?lookup_empty; try done. lia. Qed.
(** An id that is not that of no type belongs to one type. *)
Lemma typeidof_inj db T U : numbered db → typeidof T db = typeidof U db → typeidof T db ≠ InvalidTypeID → T = U.
Proof.
  intros Hn. unfold typeidof. destruct (typeIDs db !! T) as [i|] eqn:HT; simpl; [|done].
  destruct (typeIDs db !! U) as [j|] eqn:HU; simpl; intros ->; [|done]. intros _. by eapply num_distinct.
Qed.
(** *** Constructors are kept under their own signatures *)
Definition keyed (d : type_data) : Prop :=
  (∀ k c, constructors d !! k = Some c → key (c_signature c) = k) ∧
  (∀ k c, dynamicConstructors d !! k = Some c → key (c_signature c) = k).
Lemma emplace_keyed c m : (∀ k c, m !! k = Some c → key (c_signature c) = k) →
  ∀ k c', emplace_constructor c m !! k = Some c' → key (c_signature c') = k.
Proof.
  intros Hm k c'. unfold emplace_constructor. destruct (m !! _); [apply Hm|].
  intros [[<- <-]|[_ Hk]]%lookup_insert_Some; [done|by apply Hm].
Qed.
Lemma AddConstructor_keyed c d : keyed d → keyed (AddConstructor c d).
Proof.
  intros [H1 H2]. unfold AddConstructor. destruct (c_isDynamic c); split; simpl; try done; by apply emplace_keyed.
Qed.
Lemma on_type_keyed id f db db' : (∀ d, keyed d → keyed (f d)) → Forall keyed (types db) →
  on_type id f db = Def db' → Forall keyed (types db').
Proof.
  intros Hf Hk. unfold on_type. intros Ho. inv_def. simpl. apply Forall_insert; [done|]. apply Hf. by eapply Forall_lookup_1.
Qed.
Lemma load_base_keyed id c db db' : Forall keyed (types db) → load_base id db c = Def db' → Forall keyed (types db').
Proof.
  intros Hk Ho. unfold load_base in Ho. destruct (type_eqb c Invalid); inv_def; [done|].
  eapply on_type_keyed; [|by eapply on_type_keyed; [|exact Hk|exact Ha]|exact Ho]; done.
Qed.
Lemma LoadBaseClasses_keyed id cs db db' : Forall keyed (types db) → LoadBaseClasses id cs db = Def db' → Forall keyed (types db').
Proof.
  revert db. induction cs as [|c cs IH]; intros db Hk Ho; simpl in Ho; inv_def; [done|].
  eapply IH; [|done]. by eapply load_base_keyed.
Qed.
Lemma step_keyed a db db' : step pick a db = Def db' → Forall keyed (types db) → Forall keyed (types db').
Proof.
  intros Ho Hk. destruct a; simpl in Ho;
    first [by eapply on_type_keyed; [|exact Hk|exact Ho]|by eapply LoadBaseClasses_keyed|idtac].
  - unfold register_native_type, AllocateType, Register in Ho.
    destruct (ids db !! n); simpl in Ho; [by inv_def|].
    assert (Forall keyed (types db ++ [type_data_new n])) as Hk'.
    { apply Forall_app. split; [done|]. repeat constructor; done. }
    destruct (m_nextID db =? InvalidTypeID)%nat; [by inv_def|].
    refine (on_type_keyed _ _ _ _ _ _ Ho); [|done]. clear. intros d Hd. simpl.
    repeat case_match; repeat apply AddConstructor_keyed; done.
  - eapply on_type_keyed; [|exact Hk|exact Ho]. apply AddConstructor_keyed.
  - by inv_def.
  - by inv_def.
  - unfold GetMethod in Ho. inv_def. by eapply on_type_keyed; [|exact Hk|done].
  - unfold GetStaticMethod in Ho. inv_def. by eapply on_type_keyed; [|exact Hk|done].
  - by inv_def.
  - inv_def. unfold GetGlobal. by destruct (globals db !! n).
Qed.
Lemma keyed_run acts db db' : run pick acts db = Def db' → Forall keyed (types db) → Forall keyed (types db').
Proof.
  revert db. induction acts as [|a acts IH]; intros db Hr Hk; simpl in Hr; inv_def; [done|].
  eapply IH; [done|]. by eapply step_keyed.
Qed.
Lemma keyed_empty : Forall keyed (types (database_empty : database)).
Proof. repeat constructor; done. Qed.
Lemma GetConstructor_keyed t s db c :
  Forall keyed (types db) → GetConstructor t s db = Def (Some c) → key (c_signature c) = key s.
Proof.
  intros Hk Hc. unfold GetConstructor, type_record in Hc. inv_def. destruct (Forall_lookup_1 _ _ _ _ Hk Ha) as [Hc1 _]. by apply Hc1.
Qed.

(** *** Queries of a database that implements its declarations *)
Lemma type_record_def acts db t : implements acts db → (id_ t ≤ length (names_of acts))%nat →
  ∃ d, types db !! id_ t = Some d ∧ type_record t db = Def d.
Proof.
  intros Hi Hl. destruct (lookup_lt_is_Some_2 (types db) (id_ t)) as [d Hd].
  - rewrite (imp_length _ _ Hi). lia.
  - exists d. split; [done|]. unfold type_record. by rewrite Hd.
Qed.
Lemma GetFromName_valid acts db n : implements acts db → IsValid (GetFromName n db) = true ↔ n ∈ names_of acts.
Proof.
  intros Hi. unfold GetFromName. destruct (ids db !! n) as [i|] eqn:Hn.
  - apply (imp_ids _ _ Hi) in Hn as (k&->&Hk). split; [|done]. intros _. by eapply list_elem_of_lookup_2.
  - split; [done|]. intros (k&Hk)%list_elem_of_lookup_1.
    assert (ids db !! n = Some (S k)) by (apply (imp_ids _ _ Hi); eauto). congruence.
Qed.
Lemma GetName_GetFromName acts db n : implements acts db → n ∈ names_of acts → GetName (GetFromName n db) db = Def n.
Proof.
  intros Hi (k&Hk)%list_elem_of_lookup_1.
  assert (ids db !! n = Some (S k)) as Hn by (apply (imp_ids _ _ Hi); eauto).
  unfold GetFromName. rewrite Hn. unfold GetName, type_record. simpl.
  assert ((name <$> types db) !! S k = Some n) as Hm by (by rewrite (imp_names _ _ Hi)).
  rewrite list_lookup_fmap in Hm. destruct (types db !! S k) as [d|]; [|done]. simpl in *. congruence.
Qed.
Lemma DerivesFrom_based acts db t u : implements acts db → (id_ t ≤ length (names_of acts))%nat →
  DerivesFrom t u db = Def (bool_decide ((id_ t, id_ u) ∈ acts ≫= bases_of)).
Proof.
  intros Hi Ht. destruct (type_record_def _ _ _ Hi Ht) as (d&Hd&Hr). unfold DerivesFrom. rewrite Hr. simpl. f_equal.
  apply bool_decide_ext. by apply (imp_bases _ _ Hi).
Qed.
(** Is [t] among the derived classes of [u]? *)
Definition derived_from (t u : ty) db : ub bool :=
  s ← GetDerivedClasses u db; Def (bool_decide (is_Some (s !! id_ t))).
Lemma derived_based acts db t u : implements acts db → (id_ u ≤ length (names_of acts))%nat →
  derived_from t u db = Def (bool_decide ((id_ t, id_ u) ∈ acts ≫= bases_of)).
Proof.
  intros Hi Ht. destruct (type_record_def _ _ _ Hi Ht) as (d&Hd&Hr). unfold derived_from, GetDerivedClasses. rewrite Hr. simpl. f_equal.
  apply bool_decide_ext. by apply (imp_derived _ _ Hi).
Qed.
(** What an unordered container finds is there, and something is found if anything is there. *)
Definition picks : Prop := ∀ A (l : list A), match pick A l with Some x => x ∈ l | None => l = [] end.
(** The overload for a signature among those declared. *)
Definition overload_for (declared : list callable) (s : signature) (r : option callable) : Prop :=
  match r with
  | Some c => c ∈ declared ∧ key (m_signature c) = key s
  | None => ∀ c, c ∈ declared → key (m_signature c) ≠ key s
  end.
Lemma pick_overload l s : picks → overload_for l s (pick _ (filter (has_signature s) l)).
Proof.
  intros Hp. specialize (Hp _ (filter (has_signature s) l)). unfold overload_for. destruct (pick _ _) as [c|].
  - apply list_elem_of_filter in Hp as [Hs%Is_true_true Hc]. split; [done|]. by apply bool_decide_eq_true in Hs.
  - intros c Hc Hs. apply (elem_of_nil (A:=callable) c). rewrite <-Hp. apply list_elem_of_filter. split; [|done].
    apply Is_true_true. by apply bool_decide_eq_true.
Qed.
Lemma GetMethod_declared acts db t n s : picks → implements acts db → (id_ t ≤ length (names_of acts))%nat →
  ∃ r db', GetMethod_overload pick t n s db = Def (r, db') ∧ overload_for (methods_of acts (id_ t) n) s r ∧
    implements (acts ++ [Q_method t n]) db'.
Proof.
  intros Hp Hi Ht. destruct (type_record_def _ _ _ Hi Ht) as (d&Hd&Hr).
  destruct (implements_on_type acts db _ (id_ t) _ Hi (lookup_lt_Some _ _ _ Hd) (declares_touch t n)) as (db'&He&?).
  unfold GetMethod_overload. rewrite Hr. simpl. rewrite He. simpl. eexists _, db'. split; [done|].
  rewrite <-(imp_methods _ _ Hi _ _ n Hd). split; [by apply pick_overload|done].
Qed.
Lemma GetField_declared acts db t n : implements acts db → (id_ t ≤ length (names_of acts))%nat →
  GetField t n db = Def (find_field n (fields_of acts (id_ t))).
Proof.
  intros Hi Ht. destruct (type_record_def _ _ _ Hi Ht) as (d&Hd&Hr). unfold GetField. rewrite Hr. simpl.
  by rewrite (imp_fields _ _ Hi _ _ Hd).
Qed.
Lemma find_field_first n fs : 
  (∃ f, f ∈ fs ∧ f_name f = n) → ∃ k, fs !! k = Some (find_field n fs) ∧ f_name (find_field n fs) = n ∧
    ∀ j f, (j < k)%nat → fs !! j = Some f → f_name f ≠ n.
Proof.
  induction fs as [|f fs IH]; intros (g&Hg&Hn); [by apply elem_of_nil in Hg|]. simpl. case_bool_decide as Hf.
  - exists 0%nat. split; [done|]. split; [done|]. lia.
  - apply elem_of_cons in Hg as [->|Hg]; [done|].
    destruct IH as (k&Hk&Hkn&Hmin); [by eauto|]. exists (S k). split; [done|]. split; [done|].
    intros [|j] h Hj; [by intros [= <-]|]. apply Hmin. lia.
Qed.

(** C19: However registrations and queries are mixed, as long as each names types that
    have been registered before it, the database comes to be and answers what was
    declared: a name gives its type and a type its name, exactly the registered names
    give valid types, [DerivesFrom] is the declared relation and the sets of derived
    classes its converse, a method is found for a name and signature exactly when one
    was declared, and a field is the first declared of its name. *)
Theorem reflection_implements_declarations acts : picks → well_ordered [] acts →
  ∃ db, run pick acts database_empty = Def db ∧
    GetTypes db = (λ i, Ty i false) <$> seq 1 (length (names_of acts)) ∧
    (∀ n, IsValid (GetFromName n db) = true ↔ n ∈ names_of acts) ∧
    (∀ n, n ∈ names_of acts → GetName (GetFromName n db) db = Def n) ∧
    (∀ t u, (id_ t ≤ length (names_of acts))%nat →
       DerivesFrom t u db = Def (bool_decide ((id_ t, id_ u) ∈ acts ≫= bases_of)) ∧
       derived_from u t db = Def (bool_decide ((id_ u, id_ t) ∈ acts ≫= bases_of))) ∧
    (∀ t n s, (id_ t ≤ length (names_of acts))%nat →
       ∃ r db', GetMethod_overload pick t n s db = Def (r, db') ∧ overload_for (methods_of acts (id_ t) n) s r) ∧
    (∀ t n, (id_ t ≤ length (names_of acts))%nat →
       GetField t n db = Def (find_field n (fields_of acts (id_ t)))) ∧
    (∀ n s, overload_for (functions_of acts n) s (GetGlobalFunction_overload pick n s db).1).
Proof.
  intros Hp Hw. destruct (declared_run acts [] _ implements_empty Hw) as (db&Hr&Hi). exists db. split_and!.
  - done.
  - unfold GetTypes. rewrite (imp_length _ _ Hi). simpl. by rewrite Nat.sub_0_r.
  - intros n. by apply GetFromName_valid.
  - intros n. by apply GetName_GetFromName.
  - intros t u Ht. split; [by apply DerivesFrom_based|by apply derived_based].
  - intros t n s Ht. destruct (GetMethod_declared acts db t n s Hp Hi Ht) as (r&db'&?&?&_). eauto.
  - intros t n Ht. by apply GetField_declared.
  - intros n s. simpl. rewrite <-(imp_functions _ _ Hi). by apply pick_overload.
Qed.
End proofs.

(** *** A concrete run *)
Definition first (A : Type) (l : list A) : option A := head l.
Lemma first_picks : picks first.
Proof. intros A [|x l]; [done|]. simpl. by left. Defined.
Definition plain_class : traits := Traits true false false false false false false false.
Definition plain_int : traits := Traits false false false true false true true true.
Definition speak (s : signature) (code : Z) : callable := Callable "speak" s false (Ty 2 false) code ∅.
Definition program : list (action (cpp:=string)) :=
  [A_type "int" "int" plain_int; A_type "Base" "Base" plain_class; A_type "Derived" "Derived" plain_class;
   A_bases 3 [Ty 2 false]; A_method 2 (speak [] 7); Q_method (Ty 2 false) "shout"; A_method 2 (speak [Ty 1 false] 8);
   A_type "int" "other" plain_int; A_field 2 (Field "x" (Ty 1 false) (Ty 2 false) (Some 1) None ∅)].
Lemma reflection_implements_declarations_witness :
  picks first ∧ well_ordered [] program ∧
  ∃ db, run first program database_empty = Def db ∧ names_of program = ["int"; "Base"; "Derived"]%string ∧
    DerivesFrom (Ty 3 false) (Ty 2 false) db = Def true ∧ DerivesFrom (Ty 2 false) (Ty 3 false) db = Def false ∧
    ∃ r db', GetMethod_overload first (Ty 2 false) "speak" [Ty 1 false] db = Def (r, db') ∧
      overload_for [speak [] 7; speak [Ty 1 false] 8] [Ty 1 false] r.
Proof.
  assert (well_ordered [] program) as Hw.
  { simpl. unfold names_below. simpl. repeat split; repeat constructor. }
  split; [exact first_picks|]. split; [exact Hw|].
  destruct (reflection_implements_declarations first program first_picks Hw) as (db&Hr&_&_&_&Hd&Hm&_).
  exists db. split; [exact Hr|]. split; [reflexivity|].
  split; [apply (Hd (Ty 3 false) (Ty 2 false)); vm_compute; lia|].
  split; [apply (Hd (Ty 2 false) (Ty 3 false)); vm_compute; lia|].
  apply (Hm (Ty 2 false) "speak"%string [Ty 1 false]). vm_compute. lia.
Defined.

(** *** Corners *)
(** A type and the arrays of it are one type to signatures: a constructor from an
    array is lost behind one from an element. *)
Lemma array_parameters_share_a_signature t class code code' d :
  constructors d !! [t] = None →
  let c b code := Constructor class [Ty t b] false code ∅ in
  constructors (AddConstructor (c true code') (AddConstructor (c false code) d)) !! key [Ty t true] =
  Some (c false code).
Proof.
  intros Hn. unfold AddConstructor, emplace_constructor, key. csimpl. rewrite Hn. csimpl.
  rewrite lookup_insert_eq. csimpl. by rewrite lookup_insert_eq.
Qed.
(** The properties given to a constructor never reach the database. *)
Lemma constructor_properties_are_lost c m c' :
  m !! key (c_signature c) = None → emplace_constructor c m !! key (c_signature c) = Some c' → c_meta c' = ∅.
Proof. unfold emplace_constructor. intros ->. rewrite lookup_insert_eq. by intros [= <-]. Qed.
(** A global that is asked for too early stays invalid. *)
Lemma early_query_hides_global {cpp} `{Countable cpp} (db : database (cpp:=cpp)) f :
  globals db !! f_name f = None →
  (GetGlobal (f_name f) (AddGlobal f (GetGlobal (f_name f) db).2)).1 = field_invalid ∧
  field_invalid ∈ GetGlobals (GetGlobal (f_name f) db).2.
Proof.
  intros Hn. unfold GetGlobal at 2 3. rewrite Hn. simpl. split.
  - unfold AddGlobal, emplace. simpl. rewrite lookup_insert_eq. unfold GetGlobal. simpl. by rewrite lookup_insert_eq.
  - unfold GetGlobals. apply list_elem_of_fmap. exists (f_name f, field_invalid). split; [done|].
    apply elem_of_map_to_list. simpl. by rewrite lookup_insert_eq.
Qed.
(** A base class that has not been registered yet is left out silently. *)
Lemma unregistered_base_is_skipped {cpp} `{Countable cpp} (db : database (cpp:=cpp)) id T a :
  typeIDs db !! T = None → LoadBaseClasses id [typeof T a db] db = Def db.
Proof. intros Hn. unfold typeof, typeidof. by rewrite Hn. Qed.
Definition natives : ub (database (cpp:=string)) := ReflectionDatabase_new (λ n, n) (λ _, plain_class).
Definition string_constructors : ub (string * option bool * option bool) :=
  db ← natives;
  let t := GetFromName "std::string" db in
  n ← GetName t db;
  c ← GetConstructor t [] db;
  d ← GetDynamicConstructor t [] db;
  Def (n, option_map c_isDynamic c, option_map c_isDynamic d).
(** [std::string] has no dynamic constructor; it was to get one. *)
Lemma string_has_no_dynamic_constructor : string_constructors = Def ("std::string"%string, Some false, None).
Proof. by vm_compute. Qed.
(** A grandparent is no base: only the declared bases count. *)
Definition line : list (action (cpp:=string)) :=
  [A_type "A" "A" plain_class; A_type "B" "B" plain_class; A_type "C" "C" plain_class;
   A_bases 2 [Ty 1 false]; A_bases 3 [Ty 2 false]].
Definition line_derives : ub (bool * bool * bool) :=
  db ← run first line database_empty;
  child ← DerivesFrom (Ty 3 false) (Ty 2 false) db;
  parent ← DerivesFrom (Ty 2 false) (Ty 1 false) db;
  grandparent ← DerivesFrom (Ty 3 false) (Ty 1 false) db;
  Def (child, parent, grandparent).
Lemma grandparent_is_no_base : line_derives = Def (true, true, false).
Proof. by vm_compute. Qed.
(** Whether an unknown type is signed is not initialised. *)
Lemma unknown_signedness : IsSigned Invalid (database_empty (cpp:=string)) = Undef.
Proof. done. Qed.
(** The method found for a name alone need not be the first declared. *)
Definition last_found (A : Type) (l : list A) : option A := last l.
Definition found_by_name : ub (option Z) :=
  db ← run last_found program database_empty;
  '(r, _) ← GetMethod last_found (Ty 2 false) "speak" db;
  Def (option_map m_invoker r).
Lemma method_by_name_is_any : picks last_found ∧ found_by_name = Def (Some 8).
Proof.
  split.
  - intros A l. unfold last_found. destruct (last l) eqn:Hl; [|by apply last_None]. apply last_Some in Hl as (l'&->). set_solver.
  - by vm_compute.
Qed.
