(* ===== verification/Variant.v ===== *)
(** * Variants ([network/reflect]: [Variant], [VariantContainer], [ObjectWrapper],
      [ArrayVariantContainer])

    A variant owns a container on the heap that holds a value, a reference to an
    object or array of the program, or an [Object] it wraps.  The containers, the
    program's objects and the variants in scope are explicit; addresses are numbers
    that are not used again, so that a dangling one is told from a live one.
    Pointers lead into an object or a container and through members and elements. *)
From Stdlib Require Import Ascii.
From Stdlib Require Import Floats.SpecFloat.
From stdpp Require Import base option numbers countable strings pretty gmap list.
From S2P Require Import Prelude Reflect.
Local Open Scope Z_scope.

(** ** Definitions *)
(** *** Types and values *)
(** A class and an enumeration have a number; a scoped enumeration does not convert
    to [int] by itself. *)
Inductive cty :=
| T_void | T_int | T_unsigned | T_bool | T_float | T_double | T_string
| T_enum (n : nat) (scoped : bool) | T_class (n : nat) | T_pointer (t : cty) | T_array (t : cty).
#[export] Instance cty_eq_dec : EqDecision cty.
Proof. solve_decision. Defined.
Fixpoint cty_tree (t : cty) : gen_tree nat :=
  match t with
  | T_void => GenLeaf 0%nat
  | T_int => GenLeaf 1%nat
  | T_unsigned => GenLeaf 2%nat
  | T_bool => GenLeaf 3%nat
  | T_float => GenLeaf 4%nat
  | T_double => GenLeaf 5%nat
  | T_string => GenLeaf 6%nat
  | T_enum n scoped => GenNode n [GenLeaf (Nat.b2n scoped)]
  | T_class n => GenNode n []
  | T_pointer t => GenNode 0 [GenLeaf 0%nat; cty_tree t]
  | T_array t => GenNode 1 [GenLeaf 0%nat; cty_tree t]
  end.
Fixpoint tree_cty (t : gen_tree nat) : option cty :=
  match t with
  | GenLeaf 0%nat => Some T_void
  | GenLeaf 1%nat => Some T_int
  | GenLeaf 2%nat => Some T_unsigned
  | GenLeaf 3%nat => Some T_bool
  | GenLeaf 4%nat => Some T_float
  | GenLeaf 5%nat => Some T_double
  | GenLeaf 6%nat => Some T_string
  | GenLeaf _ => None
  | GenNode n [GenLeaf b] => Some (T_enum n (Nat.eqb b 1))
  | GenNode n [] => Some (T_class n)
  | GenNode 0 [GenLeaf _; t] => T_pointer <$> tree_cty t
  | GenNode _ [GenLeaf _; t] => T_array <$> tree_cty t
  | GenNode _ _ => None
  end.
Lemma tree_cty_tree t : tree_cty (cty_tree t) = Some t.
Proof. induction t as [| | | | | | |n []|n|t IH|t IH]; try done. all: simpl. all: try (destruct n; done). all: by rewrite IH. Qed.
#[export] Instance cty_countable : Countable cty := inj_countable _ _ tree_cty_tree.

Inductive value :=
| V_int (n : Z) | V_unsigned (n : Z) | V_bool (b : bool) | V_float (x : spec_float) | V_double (x : spec_float)
| V_string (s : string) | V_enum (t : nat) (scoped : bool) (n : Z)
| V_class (t : nat) (members : list value) | V_pointer (t : cty) (object : nat) | V_array (t : cty) (elements : list value).
Definition type_of (v : value) : cty :=
  match v with
  | V_int _ => T_int
  | V_unsigned _ => T_unsigned
  | V_bool _ => T_bool
  | V_float _ => T_float
  | V_double _ => T_double
  | V_string _ => T_string
  | V_enum t scoped _ => T_enum t scoped
  | V_class t _ => T_class t
  | V_pointer t _ => T_pointer t
  | V_array t _ => T_array t
  end.

(** *** Pointers, containers, variants *)
Notation loc := nat (only parsing).
Inductive place := B_object (l : loc) | B_container (a : loc).
Record ptr := Ptr { p_base : place; p_path : list nat }.
Definition object_ptr (l : loc) : ptr := Ptr (B_object l) [].
(** [VariantContainer<T>], of [void], of a reference; [ObjectWrapper];
    [ArrayVariantContainer] of an array or a reference to one. *)
Inductive container :=
| C_value (v : value) | C_void | C_ref (t : cty) (p : ptr) | C_object (t : cty) (p : ptr)
| C_array (v : value) | C_array_ref (t : cty) (p : ptr).
Record variant := Variant { isConst_ : bool; base_ : option loc }.
(** The variants in scope; [None] is the temporary of an assignment. *)
Notation var := (option nat) (only parsing).
Record state := State {
  objects : gmap loc (bool * value);
  containers : gmap loc container;
  next : loc;
  vars : gmap (option nat) variant
}.
Definition set_objects (m : gmap loc (bool * value)) (s : state) : state := State m (containers s) (next s) (vars s).
Definition set_containers (m : gmap loc container) (s : state) : state := State (objects s) m (next s) (vars s).
Definition set_vars (m : gmap (option nat) variant) (s : state) : state := State (objects s) (containers s) (next s) m.

(** *** Memory *)
Fixpoint get_path (v : value) (path : list nat) : option value :=
  match path with
  | [] => Some v
  | i :: path =>
      match v with
      | V_class _ l | V_array _ l => w ← l !! i; get_path w path
      | _ => None
      end
  end.
Fixpoint set_path (v : value) (path : list nat) (w : value) : option value :=
  match path with
  | [] => Some w
  | i :: path =>
      match v with
      | V_class t l => x ← l !! i; y ← set_path x path w; Some (V_class t (<[i := y]> l))
      | V_array t l => x ← l !! i; y ← set_path x path w; Some (V_array t (<[i := y]> l))
      | _ => None
      end
  end.
Definition content (c : container) : option value :=
  match c with C_value v | C_array v => Some v | _ => None end.
Definition set_content (c : container) (v : value) : container :=
  match c with C_value _ => C_value v | C_array _ => C_array v | c => c end.
Definition read_place (b : place) (s : state) : option value :=
  match b with
  | B_object l => snd <$> objects s !! l
  | B_container a => c ← containers s !! a; content c
  end.
Definition read (p : ptr) (s : state) : ub value := deref (v ← read_place (p_base p) s; get_path v (p_path p)).
(** A reference of type [t]. *)
Definition typed (t : cty) (p : ptr) (s : state) : ub value :=
  v ← read p s;
  _ ← assert_ub (bool_decide (type_of v = t));
  Def v.
(** Writing a constant object is undefined. *)
Definition write_place (b : place) (v : value) (s : state) : ub state :=
  match b with
  | B_object l =>
      '(k, _) ← deref (objects s !! l);
      _ ← assert_ub (negb k);
      Def (set_objects (<[l := (k, v)]> (objects s)) s)
  | B_container a =>
      c ← deref (containers s !! a);
      _ ← deref (content c);
      Def (set_containers (<[a := set_content c v]> (containers s)) s)
  end.
Definition write (p : ptr) (w : value) (s : state) : ub state :=
  _ ← typed (type_of w) p s;
  v ← deref (read_place (p_base p) s);
  v ← deref (set_path v (p_path p) w);
  write_place (p_base p) v s.
Definition new_container (c : container) (s : state) : loc * state :=
  (next s, State (objects s) (<[next s := c]> (containers s)) (S (next s)) (vars s)).
(** [delete base_] *)
Definition delete_container (b : option loc) (s : state) : ub state :=
  match b with
  | None => Def s
  | Some a => _ ← deref (containers s !! a); Def (set_containers (base.delete a (containers s)) s)
  end.

(** *** The containers *)
Definition GetPtr (a : loc) (c : container) : option ptr :=
  match c with
  | C_value _ | C_array _ => Some (Ptr (B_container a) [])
  | C_void => None
  | C_ref _ p | C_object _ p | C_array_ref _ p => Some p
  end.
Definition container_type (c : container) : cty :=
  match c with
  | C_value v | C_array v => type_of v
  | C_void => T_void
  | C_ref t _ | C_object t _ | C_array_ref t _ => t
  end.
(** A reference is cloned into a value, a wrapper and a reference to an array are
    not. *)
Definition Clone (c : container) (s : state) : ub container :=
  match c with
  | C_ref t p => v ← typed t p s; Def (C_value v)
  | c => Def c
  end.

(** *** Conversions *)
Definition float_of_int (n : Z) : spec_float := binary_normalize 24 128 n 0 false.
Definition double_of_int (n : Z) : spec_float := binary_normalize 53 1024 n 0 false.
Definition round_to (prec emax : Z) (x : spec_float) : spec_float :=
  match x with S754_finite s m e => binary_round prec emax s m e | x => x end.
Definition float_of_double : spec_float → spec_float := round_to 24 128.
Definition double_of_float : spec_float → spec_float := round_to 53 1024.
Definition is_zero (x : spec_float) : bool := match x with S754_zero _ => true | _ => false end.
(** The conversion to [int] truncates; it is undefined out of range. *)
Definition int_of_float (x : spec_float) : ub Z :=
  match x with
  | S754_zero _ => Def 0
  | S754_finite s m e => let n := Z.shiftl (Z.pos m) e in i32 (if s then - n else n)
  | _ => Undef
  end.
(** [std::to_string]: ["%f"], rounded to even in the sixth place. *)
Definition half_even (n d : Z) : Z :=
  let q := n / d in let r := n `mod` d in
  if 2 * r <? d then q else if d <? 2 * r then q + 1 else if Z.even q then q else q + 1.
Definition six_digits (n : Z) : string :=
  let s := pretty n in (String.concat "" (replicate (6 - String.length s) "0") ++ s)%string.
Definition fixed (s : bool) (n : Z) : string :=
  ((if s then "-" else "") ++ pretty (n / 1000000) ++ "." ++ six_digits (n `mod` 1000000))%string.
Definition string_of_float (x : spec_float) : string :=
  match x with
  | S754_zero s => fixed s 0
  | S754_infinity s => if s then "-inf"%string else "inf"%string
  | S754_nan => "nan"%string
  | S754_finite s m e =>
      fixed s (if 0 <=? e then Z.shiftl (Z.pos m * 1000000) e else half_even (Z.pos m * 1000000) (2 ^ (- e)))
  end.
(** [std::stoi]: blanks, a sign, digits; what follows is left.  [None] when it
    throws. *)
Definition is_space (c : ascii) : bool := let n := nat_of_ascii c in (n =? 32)%nat || ((9 <=? n)%nat && (n <=? 13)%nat).
Definition digit (c : ascii) : option Z :=
  let n := Z.of_nat (nat_of_ascii c) in if (48 <=? n) && (n <=? 57) then Some (n - 48) else None.
Fixpoint digits (acc : Z) (s : string) : Z :=
  match s with
  | EmptyString => acc
  | String c s' => match digit c with Some d => digits (10 * acc + d) s' | None => acc end
  end.
Definition number (negative : bool) (s : string) : option Z :=
  match s with
  | String c _ =>
      match digit c with
      | Some _ => let n := digits 0 s in
                  let n := if negative then - n else n in
                  if int_range n then Some n else None
      | None => None
      end
  | EmptyString => None
  end.
Fixpoint stoi (s : string) : option Z :=
  match s with
  | EmptyString => None
  | String c s' =>
      if is_space c then stoi s'
      else if Ascii.eqb c "+" then number false s' else if Ascii.eqb c "-" then number true s' else number false s
  end.
Definition tolower (c : ascii) : ascii :=
  let n := nat_of_ascii c in if (65 <=? n)%nat && (n <=? 90)%nat then ascii_of_nat (n + 32) else c.
Fixpoint lower (s : string) : string :=
  match s with EmptyString => EmptyString | String c s => String (tolower c) (lower s) end.
Definition bool_of_string (s : string) : bool :=
  if bool_decide (s = "0"%string) then false
  else if bool_decide (s = "1"%string) then true
  else bool_decide (lower s = "true"%string).

(** What a container converts to; an [int] is [None] when the conversion throws. *)
Record conversions := Conversions {
  to_int : ub (option Z); to_bool : bool; to_float : option spec_float; to_double : option spec_float; to_string : string
}.
Definition zero : spec_float := S754_zero false.
Definition container_void : conversions := Conversions (Def (Some 0)) false (Some zero) (Some zero) "".
Definition container_int (n : Z) : conversions :=
  Conversions (Def (Some n)) (negb (n =? 0)) (Some (float_of_int n)) (Some (double_of_int n)) (pretty n).
Definition container_unsigned (n : Z) : conversions :=
  Conversions (Def (Some (s32 n))) (negb (n =? 0)) (Some (float_of_int n)) (Some (double_of_int n)) (pretty n).
Definition container_bool (b : bool) : conversions :=
  Conversions (Def (Some (if b then 1 else 0))) b (Some (if b then float_of_int 1 else zero))
    (Some (if b then double_of_int 1 else zero)) (if b then "true" else "false").
Definition container_float (x : spec_float) : conversions :=
  Conversions (Some <$> int_of_float x) (negb (is_zero x)) (Some x) (Some (double_of_float x)) (string_of_float x).
Definition container_double (x : spec_float) : conversions :=
  Conversions (Some <$> int_of_float x) (negb (is_zero x)) (Some (float_of_double x)) (Some x) (string_of_float x).
(** The generic container converts what converts by itself, and has no text: an
    enumeration by its underlying type, through a reference a scoped one not; a
    pointer to [true]. *)
Definition container_generic (reference : bool) (v : value) : conversions :=
  match v with
  | V_int n => Conversions (Def (Some n)) (negb (n =? 0)) (Some (float_of_int n)) (Some (double_of_int n)) ""
  | V_unsigned n => Conversions (Def (Some (s32 n))) (negb (n =? 0)) (Some (float_of_int n)) (Some (double_of_int n)) ""
  | V_bool b =>
      Conversions (Def (Some (Z.b2z b))) b (Some (float_of_int (Z.b2z b))) (Some (double_of_int (Z.b2z b))) ""
  | V_float x => Conversions (Some <$> int_of_float x) (negb (is_zero x)) (Some x) (Some (double_of_float x)) ""
  | V_double x => Conversions (Some <$> int_of_float x) (negb (is_zero x)) (Some (float_of_double x)) (Some x) ""
  | V_enum _ scoped n =>
      if reference && scoped then container_void
      else Conversions (Def (Some (s32 n))) (negb (n =? 0)) (Some (float_of_int n)) (Some (double_of_int n)) ""
  | V_pointer _ _ => Conversions (Def (Some 0)) true (Some zero) (Some zero) ""
  | _ => container_void
  end.
Section parse.
(** [std::stof], [std::stod]; [None] when they throw. *)
Context (stof stod : string → option spec_float).
Definition container_string (s : string) : conversions :=
  Conversions (Def (stoi s)) (bool_of_string s) (stof s) (stod s) s.
Definition container_of (v : value) : conversions :=
  match v with
  | V_int n => container_int n
  | V_unsigned n => container_unsigned n
  | V_bool b => container_bool b
  | V_float x => container_float x
  | V_double x => container_double x
  | V_string s => container_string s
  | v => container_generic false v
  end.
(** Wrappers and arrays convert to nothing, like [void]. *)
Definition convert (c : container) (s : state) : ub conversions :=
  match c with
  | C_value v => Def (container_of v)
  | C_ref t p => v ← typed t p s; Def (container_generic true v)
  | _ => Def container_void
  end.
End parse.

(** *** The variants *)
Definition get_var (x : var) (s : state) : ub variant := deref (vars s !! x).
Definition is_const (p : ptr) (s : state) : bool :=
  match p_base p with B_object l => match objects s !! l with Some (k, _) => k | None => false end | _ => false end.
Definition is_pointer (t : cty) : bool := match t with T_pointer _ => true | _ => false end.
(** What every constructor does: the flag, and a container or none. *)
Definition construct (x : var) (k : bool) (c : option container) (s : state) : state :=
  match c with
  | Some c => let '(a, s) := new_container c s in set_vars (<[x := Variant k (Some a)]> (vars s)) s
  | None => set_vars (<[x := Variant k None]> (vars s)) s
  end.
Definition Variant_new (x : var) (s : state) : state := construct x true None s.
(** [Variant(T&&)], [Variant(T&)], [Variant(T&, NoCopy)], [Variant(T*, WrapObject)] *)
Definition Variant_of_value (x : var) (v : value) (s : state) : state := construct x false (Some (C_value v)) s.
Definition Variant_of (x : var) (t : cty) (p : ptr) (s : state) : ub state :=
  v ← typed t p s;
  Def (construct x (is_pointer t && is_const p s) (Some (C_value v)) s).
Definition Variant_of_reference (x : var) (t : cty) (p : ptr) (s : state) : ub state :=
  _ ← typed t p s;
  Def (construct x (is_pointer t && is_const p s) (Some (C_ref t p)) s).
Definition Variant_of_object (x : var) (t : cty) (p : ptr) (s : state) : ub state :=
  _ ← typed t p s;
  Def (construct x (is_const p s) (Some (C_object t p)) s).
(** [Variant(Array<T>&&)], [Variant(Array<T>&)], and of constant ones *)
Definition Variant_of_array_value (x : var) (k : bool) (v : value) (s : state) : state := construct x k (Some (C_array v)) s.
Definition Variant_of_array (x : var) (t : cty) (p : ptr) (s : state) : ub state :=
  _ ← typed (T_array t) p s;
  Def (construct x (is_const p s) (Some (C_array_ref (T_array t) p)) s).
(** Copy and move constructors *)
Definition Variant_copy (x y : var) (s : state) : ub state :=
  v ← get_var y s;
  match base_ v with
  | None => Def (construct x (isConst_ v) None s)
  | Some a => c ← deref (containers s !! a); c ← Clone c s; Def (construct x (isConst_ v) (Some c) s)
  end.
Definition Variant_move (x y : var) (s : state) : ub state :=
  v ← get_var y s;
  Def (set_vars (<[y := Variant true None]> (<[x := v]> (vars s))) s).
Definition Swap (x y : var) (s : state) : ub state :=
  v ← get_var x s;
  w ← get_var y s;
  Def (set_vars (<[y := Variant (isConst_ w) (base_ v)]> (<[x := Variant (isConst_ v) (base_ w)]> (vars s))) s).
(** The destructor *)
Definition destroy (x : var) (s : state) : ub state :=
  v ← get_var x s;
  s ← delete_container (base_ v) s;
  Def (set_vars (base.delete x (vars s)) s).
(** The assignments; [None] is their temporary. *)
Definition assign (x y : var) (s : state) : ub state :=
  s ← Variant_copy None y s;
  s ← Swap None x s;
  destroy None s.
Definition assign_move (x y : var) (s : state) : ub state :=
  s ← Swap y x s;
  let s := Variant_new None s in
  s ← Swap None y s;
  destroy None s.
Definition assign_value (x : var) (v : value) (s : state) : ub state :=
  let s := Variant_of_value None v s in
  s ← Swap None x s;
  destroy None s.
(** Queries *)
Definition held (x : var) (s : state) : ub (option (loc * container)) :=
  v ← get_var x s;
  match base_ v with
  | None => Def None
  | Some a => c ← deref (containers s !! a); Def (Some (a, c))
  end.
Definition getPtr (x : var) (s : state) : ub (option ptr) :=
  h ← held x s;
  Def (match h with Some (a, c) => GetPtr a c | None => None end).
Definition GetValue (t : cty) (x : var) (s : state) : ub ptr :=
  p ← getPtr x s;
  p ← deref p;
  _ ← typed t p s;
  Def p.
Definition set_value (x : var) (v : value) (s : state) : ub state :=
  p ← GetValue (type_of v) x s;
  write p v s.
Definition IsValid (x : var) (s : state) : ub bool := v ← get_var x s; Def (bool_decide (is_Some (base_ v))).
Definition IsConst (x : var) (s : state) : ub bool := v ← get_var x s; Def (isConst_ v).
Definition IsArray (x : var) (s : state) : ub bool :=
  h ← held x s;
  Def (match h with Some (_, C_array _) | Some (_, C_array_ref _ _) => true | _ => false end).
(** [typeof] in a database of registered types *)
Definition ty_of (t : cty) (db : database (cpp:=cty)) : ty :=
  match t with T_array t => typeof t true db | t => typeof t false db end.
Definition GetType (x : var) (db : database (cpp:=cty)) (s : state) : ub ty :=
  h ← held x s;
  Def (match h with Some (_, c) => ty_of (container_type c) db | None => Invalid end).
(** The conversions; an empty variant converts to nothing. *)
Section parse.
Context (stof stod : string → option spec_float).
Definition base_conversions (x : var) (s : state) : ub conversions :=
  h ← held x s;
  match h with Some (_, c) => convert stof stod c s | None => Def container_void end.
Definition ToInt (x : var) (s : state) : ub (option Z) := c ← base_conversions x s; to_int c.
Definition ToBool (x : var) (s : state) : ub bool := c ← base_conversions x s; Def (to_bool c).
Definition ToFloat (x : var) (s : state) : ub (option spec_float) := c ← base_conversions x s; Def (to_float c).
Definition ToDouble (x : var) (s : state) : ub (option spec_float) := c ← base_conversions x s; Def (to_double c).
Definition ToString (x : var) (s : state) : ub string := c ← base_conversions x s; Def (to_string c).
End parse.

(** *** Programs over variants and objects

    [O_copy] and [O_assign] take a constant source: for another one overload
    resolution prefers the templates over [T&&]. *)
Inductive op :=
| O_new (x : nat) | O_value (x : nat) (v : value) | O_of (x : nat) (l : loc) | O_reference (x : nat) (l : loc)
| O_object (x : nat) (l : loc) | O_array_value (x : nat) (k : bool) (v : value) | O_array (x : nat) (l : loc)
| O_copy (x y : nat) | O_move (x y : nat) | O_swap (x y : nat) | O_assign (x y : nat) | O_assign_move (x y : nat)
| O_assign_value (x : nat) (v : value) | O_set (x : nat) (v : value) | O_write (l : loc) (v : value) | O_destroy (x : nat).
(** The object [l], whose type the program knows. *)
Definition object_type (l : loc) (s : state) : ub cty := '(_, v) ← deref (objects s !! l); Def (type_of v).
Definition element_type (t : cty) : ub cty := match t with T_array t => Def t | _ => Undef end.
Definition step (o : op) (s : state) : ub state :=
  match o with
  | O_new x => Def (Variant_new (Some x) s)
  | O_value x v => Def (Variant_of_value (Some x) v s)
  | O_of x l => t ← object_type l s; Variant_of (Some x) t (object_ptr l) s
  | O_reference x l => t ← object_type l s; Variant_of_reference (Some x) t (object_ptr l) s
  | O_object x l => t ← object_type l s; Variant_of_object (Some x) t (object_ptr l) s
  | O_array_value x k v => Def (Variant_of_array_value (Some x) k v s)
  | O_array x l => t ← object_type l s; t ← element_type t; Variant_of_array (Some x) t (object_ptr l) s
  | O_copy x y => Variant_copy (Some x) (Some y) s
  | O_move x y => Variant_move (Some x) (Some y) s
  | O_swap x y => Swap (Some x) (Some y) s
  | O_assign x y => assign (Some x) (Some y) s
  | O_assign_move x y => assign_move (Some x) (Some y) s
  | O_assign_value x v => assign_value (Some x) v s
  | O_set x v => set_value (Some x) v s
  | O_write l v => write (object_ptr l) v s
  | O_destroy x => destroy (Some x) s
  end.
Fixpoint run (ops : list op) (s : state) : ub state :=
  match ops with
  | [] => Def s
  | o :: ops => s ← step o s; run ops s
  end.
Definition start (objs : gmap loc (bool * value)) : state := State objs ∅ 0 ∅.

(** *** The variants as values *)
(** A variant is its flag and what it holds. *)
Record abstract := Abstract { a_objects : gmap loc (bool * value); a_vars : gmap (option nat) (bool * option container) }.
Definition a_held (s : state) (v : variant) : bool * option container := (isConst_ v, a ← base_ v; containers s !! a).
Definition abs (s : state) : abstract := Abstract (objects s) (a_held s <$> vars s).
Definition put (x : nat) (v : bool * option container) (a : abstract) : abstract :=
  Abstract (a_objects a) (<[Some x := v]> (a_vars a)).
Definition flag (x : nat) (a : abstract) : bool := match a_vars a !! Some x with Some (k, _) => k | None => true end.
Definition what (x : nat) (a : abstract) : option container := '(_, c) ← a_vars a !! Some x; c.
Definition object (l : loc) (a : abstract) : value := match a_objects a !! l with Some (_, v) => v | None => V_bool false end.
Definition object_const (l : loc) (a : abstract) : bool := match a_objects a !! l with Some (k, _) => k | None => false end.
(** A copy of what is held: the value behind a reference, and wrappers as they are. *)
Definition a_clone (c : container) (a : abstract) : container :=
  match c with
  | C_ref _ (Ptr (B_object l) _) => C_value (object l a)
  | c => c
  end.
Definition a_step (o : op) (a : abstract) : abstract :=
  match o with
  | O_new x => put x (true, None) a
  | O_value x v => put x (false, Some (C_value v)) a
  | O_of x l => put x (is_pointer (type_of (object l a)) && object_const l a, Some (C_value (object l a))) a
  | O_reference x l =>
      put x (is_pointer (type_of (object l a)) && object_const l a, Some (C_ref (type_of (object l a)) (object_ptr l))) a
  | O_object x l => put x (object_const l a, Some (C_object (type_of (object l a)) (object_ptr l))) a
  | O_array_value x k v => put x (k, Some (C_array v)) a
  | O_array x l => put x (object_const l a, Some (C_array_ref (type_of (object l a)) (object_ptr l))) a
  | O_copy x y => put x (flag y a, (λ c, a_clone c a) <$> what y a) a
  | O_move x y => put y (true, None) (put x (flag y a, what y a) a)
  | O_swap x y => put y (flag y a, what x a) (put x (flag x a, what y a) a)
  | O_assign x y => put x (flag x a, (λ c, a_clone c a) <$> what y a) a
  | O_assign_move x y => put y (flag y a, None) (if decide (x = y) then a else put x (flag x a, what y a) a)
  | O_assign_value x v => put x (flag x a, Some (C_value v)) a
  | O_set x v =>
      match what x a with
      | Some (C_ref _ (Ptr (B_object l) _)) | Some (C_object _ (Ptr (B_object l) _))
      | Some (C_array_ref _ (Ptr (B_object l) _)) => Abstract (<[l := (false, v)]> (a_objects a)) (a_vars a)
      | Some c => put x (flag x a, Some (set_content c v)) a
      | None => a
      end
  | O_write l v => Abstract (<[l := (false, v)]> (a_objects a)) (a_vars a)
  | O_destroy x => Abstract (a_objects a) (base.delete (Some x) (a_vars a))
  end.
(** What a C++ program may do: names are declared once, used in their scope, values
    keep their type, constants are not written. *)
Definition declared (x : nat) (a : abstract) : Prop := is_Some (a_vars a !! Some x).
Definition new_name (x : nat) (a : abstract) : Prop := a_vars a !! Some x = None.
Definition an_object (l : loc) (a : abstract) : Prop := is_Some (a_objects a !! l).
Definition writable (l : loc) (v : value) (a : abstract) : Prop :=
  ∃ w, a_objects a !! l = Some (false, w) ∧ type_of w = type_of v.
(** Arrays have constructors of their own. *)
Definition no_array (t : cty) : Prop := match t with T_array _ => False | _ => True end.
Definition allowed (o : op) (a : abstract) : Prop :=
  match o with
  | O_new x | O_array_value x _ _ => new_name x a
  | O_value x v => new_name x a ∧ no_array (type_of v)
  | O_of x l => new_name x a ∧ an_object l a ∧ no_array (type_of (object l a))
  | O_reference x l | O_object x l => new_name x a ∧ an_object l a
  | O_array x l => new_name x a ∧ ∃ k t vs, a_objects a !! l = Some (k, V_array t vs)
  | O_copy x y | O_move x y => new_name x a ∧ declared y a
  | O_swap x y | O_assign x y | O_assign_move x y => declared x a ∧ declared y a
  | O_assign_value x v => declared x a ∧ no_array (type_of v)
  | O_destroy x => declared x a
  | O_set x v =>
      match what x a with
      | Some (C_value w) | Some (C_array w) => type_of w = type_of v
      | Some (C_ref _ (Ptr (B_object l) _)) | Some (C_object _ (Ptr (B_object l) _))
      | Some (C_array_ref _ (Ptr (B_object l) _)) => writable l v a
      | _ => False
      end
  | O_write l v => writable l v a
  end.
(** Writing [v] through the variant [x] would write a constant of the program. *)
Definition writes_constant (x : nat) (v : value) (a : abstract) : Prop :=
  match what x a with
  | Some (C_ref _ (Ptr (B_object l) _)) | Some (C_object _ (Ptr (B_object l) _))
  | Some (C_array_ref _ (Ptr (B_object l) _)) => ∃ w, a_objects a !! l = Some (true, w) ∧ type_of w = type_of v
  | _ => False
  end.
Fixpoint all_allowed (ops : list op) (a : abstract) : Prop :=
  match ops with
  | [] => True
  | o :: ops => allowed o a ∧ all_allowed ops (a_step o a)
  end.

(** Some conversions. *)
Example some_conversions :
  string_of_float (double_of_int (-3)) = "-3.000000"%string ∧
  string_of_float (SFdiv 53 1024 (double_of_int 1) (double_of_int 3)) = "0.333333"%string ∧
  string_of_float (SFdiv 24 128 (float_of_int 1) (float_of_int 10)) = "0.100000"%string ∧
  int_of_float (SFdiv 53 1024 (double_of_int (-7)) (double_of_int 2)) = Def (-3) ∧
  float_of_int 16777217 = float_of_int 16777216 ∧
  stoi "  -12x" = Some (-12) ∧ stoi "x1" = None ∧ stoi "2147483648" = None ∧ bool_of_string "TRUE" = true.
Proof. by vm_compute. Qed.

(** ** Proofs *)
(** *** The invariant: every container is owned by exactly one variant, every
    reference is of a living object of its type *)
Definition refers (objs : gmap loc (bool * value)) (c : container) : Prop :=
  match c with
  | C_ref t p | C_object t p | C_array_ref t p =>
      ∃ l k v, p = object_ptr l ∧ objs !! l = Some (k, v) ∧ type_of v = t
  | _ => True
  end.
Record inv (s : state) : Prop := {
  inv_once x y v w a : vars s !! x = Some v → vars s !! y = Some w → base_ v = Some a → base_ w = Some a → x = y;
  inv_live x v a : vars s !! x = Some v → base_ v = Some a → is_Some (containers s !! a);
  inv_owned a c : containers s !! a = Some c → ∃ x v, vars s !! x = Some v ∧ base_ v = Some a;
  inv_next a c : containers s !! a = Some c → (a < next s)%nat;
  inv_refers a c : containers s !! a = Some c → refers (objects s) c
}.
Lemma abs_lookup s x : a_vars (abs s) !! x = a_held s <$> vars s !! x.
Proof. simpl. by rewrite lookup_fmap. Qed.
(** Changing one container changes what its owner holds and nothing else. *)
Lemma abs_container s m x v a : inv s → vars s !! x = Some v → base_ v = Some a →
  (∀ b, b ≠ a → m !! b = containers s !! b) →
  a_vars (abs (set_containers m s)) = <[x := (isConst_ v, m !! a)]> (a_vars (abs s)).
Proof.
  intros Hi Hv Ha Hm. apply map_eq. intros y. rewrite abs_lookup. simpl. destruct (decide (x = y)) as [<-|Hne].
  - rewrite lookup_insert_eq, Hv. simpl. unfold a_held. by rewrite Ha.
  - rewrite lookup_insert_ne, lookup_fmap by done. destruct (vars s !! y) as [w|] eqn:Hw; [|done]. simpl.
    unfold a_held. simpl. destruct (base_ w) as [b|] eqn:Hb; [|done]. simpl. rewrite Hm; [done|].
    intros ->. apply Hne. by eapply inv_once.
Qed.

Lemma inv_start objs : inv (start objs).
Proof. split; intros *; simpl; rewrite ?lookup_empty; done. Qed.

Lemma construct_spec x k c s : inv s → vars s !! x = None → (∀ c', c = Some c' → refers (objects s) c') →
  inv (construct x k c s) ∧ abs (construct x k c s) = Abstract (objects s) (<[x := (k, c)]> (a_vars (abs s))).
Proof.
  intros Hi Hx Hc. destruct c as [c|].
  - assert (containers s !! next s = None) as Hn.
    { destruct (containers s !! next s) eqn:He; [|done]. apply (inv_next _ Hi) in He. lia. }
    assert (∀ y v, vars s !! y = Some v → base_ v ≠ Some (next s)) as Hf.
    { intros y v Hy Hb. destruct (inv_live _ Hi _ _ _ Hy Hb) as [? ?]. congruence. }
    split.
    + split; simpl.
      * intros y z v w a [[<- <-]|[Hy Hvy]]%lookup_insert_Some [[<- <-]|[Hz Hwz]]%lookup_insert_Some; simpl.
        -- done.
        -- intros [= <-] Hb. by destruct (Hf _ _ Hwz).
        -- intros Hb [= <-]. by destruct (Hf _ _ Hvy).
        -- by apply Hi.
      * intros y v a [[<- <-]|[Hy Hvy]]%lookup_insert_Some; simpl.
        -- intros [= <-]. by rewrite lookup_insert_eq.
        -- intros Hb. rewrite lookup_insert_ne by (intros <-; by destruct (Hf _ _ Hvy)). by eapply inv_live.
      * intros a c' [[<- <-]|[Ha Hc']]%lookup_insert_Some.
        -- eexists x, _. by rewrite lookup_insert_eq.
        -- destruct (inv_owned _ Hi _ _ Hc') as (y&v&Hy&Hb). exists y, v. split; [|done].
           rewrite lookup_insert_ne; [done|]. intros ->. congruence.
      * intros a c' [[<- <-]|[Ha Hc']]%lookup_insert_Some; [lia|]. apply (inv_next _ Hi) in Hc'. lia.
      * intros a c' [[<- <-]|[Ha Hc']]%lookup_insert_Some; [by apply Hc|]. by eapply inv_refers.
    + unfold abs. simpl. f_equal. rewrite fmap_insert. unfold a_held at 1. simpl. rewrite lookup_insert_eq. f_equal.
      apply map_fmap_ext. intros y v Hy. unfold a_held. simpl. destruct (base_ v) as [a|] eqn:Hb; [|done]. simpl.
      rewrite lookup_insert_ne; [done|]. intros <-. by destruct (Hf _ _ Hy).
  - split.
    + split; simpl.
      * intros y z v w a [[<- <-]|[Hy Hvy]]%lookup_insert_Some [[<- <-]|[Hz Hwz]]%lookup_insert_Some; try done.
        by apply Hi.
      * intros y v a [[<- <-]|[Hy Hvy]]%lookup_insert_Some; [done|]. by eapply inv_live.
      * intros a c' Hc'. destruct (inv_owned _ Hi _ _ Hc') as (y&v&Hy&Hb). exists y, v. split; [|done].
        rewrite lookup_insert_ne; [done|]. intros ->. congruence.
      * apply Hi.
      * apply Hi.
    + unfold abs. simpl. f_equal. by rewrite fmap_insert.
Qed.
(** Variants that exchange what they own. *)
Lemma inv_exchange x y v w s : inv s → x ≠ y → vars s !! x = Some v →
  (vars s !! y = Some w ∨ vars s !! y = None ∧ base_ w = None) →
  ∀ k k', inv (set_vars (<[y := Variant k (base_ v)]> (<[x := Variant k' (base_ w)]> (vars s))) s).
Proof.
  intros Hi Hne Hx Hy k k'.
  assert (∀ z u a, vars s !! z = Some u → base_ u = Some a → base_ v = Some a → z = x) as Hv.
  { intros z u a Hz Hu Hva. by eapply (inv_once _ Hi z x u v a). }
  assert (∀ z u a, vars s !! z = Some u → base_ u = Some a → base_ w = Some a → z = y) as Hw.
  { intros z u a Hz Hu Hwa. destruct Hy as [Hy|[Hy Hn]]; [|congruence]. by eapply (inv_once _ Hi z y u w a). }
  assert (∀ a, base_ v = Some a → base_ w = Some a → False) as Hvw.
  { intros a Ha Hb. apply Hne. symmetry. destruct Hy as [Hy|[Hy Hn]]; [|congruence]. by eapply Hv. }
  split; simpl.
  - intros z z' u u' a [[<- <-]|[Hz [[<- <-]|[Hz' Hu]]%lookup_insert_Some]]%lookup_insert_Some
      [[<- <-]|[Hzz [[<- <-]|[Hz'' Hu']]%lookup_insert_Some]]%lookup_insert_Some; simpl; intros Ha Hb; try done.
    + by destruct (Hvw a).
    + exfalso. apply Hz''. symmetry. by eapply Hv.
    + by destruct (Hvw a).
    + exfalso. apply Hzz. symmetry. by eapply Hw.
    + exfalso. apply Hz'. symmetry. by eapply Hv.
    + exfalso. apply Hz. symmetry. by eapply Hw.
    + by eapply inv_once.
  - intros z u a [[<- <-]|[Hz [[<- <-]|[Hz' Hu]]%lookup_insert_Some]]%lookup_insert_Some; simpl; intros Ha.
    + by eapply inv_live.
    + destruct Hy as [Hy|[Hy Hn]]; [by eapply inv_live|congruence].
    + by eapply inv_live.
  - intros a c Hc. destruct (inv_owned _ Hi _ _ Hc) as (z&u&Hz&Hu).
    destruct (decide (z = x)) as [->|]; [|destruct (decide (z = y)) as [->|]].
    + eexists y, _. rewrite lookup_insert_eq. split; [done|]. simpl. congruence.
    + eexists x, _. rewrite lookup_insert_ne, lookup_insert_eq by done. split; [done|]. simpl.
      destruct Hy as [Hy|[Hy Hn]]; congruence.
    + exists z, u. by rewrite !lookup_insert_ne.
  - apply Hi.
  - apply Hi.
Qed.

(** *** Each operation, seen from the values *)
(** [m] completes, keeps the invariant and comes to [a]. *)
Definition does (m : ub state) (a : abstract) : Prop := ∃ s, m = Def s ∧ inv s ∧ abs s = a.
Lemma does_bind m f a a' : does m a → (∀ s, inv s → abs s = a → does (f s) a') → does (m ≫= f) a'.
Proof. intros (s&->&Hi&Ha) Hf. by apply Hf. Qed.
Lemma abs_var s x k c : a_vars (abs s) !! x = Some (k, c) →
  ∃ v, vars s !! x = Some v ∧ isConst_ v = k ∧ (a ← base_ v; containers s !! a) = c.
Proof. rewrite abs_lookup. destruct (vars s !! x) as [v|]; [|done]. intros [= <- <-]. by exists v. Qed.
Lemma abs_new s x : a_vars (abs s) !! x = None ↔ vars s !! x = None.
Proof. rewrite abs_lookup. by destruct (vars s !! x). Qed.
Definition refers_opt (objs : gmap loc (bool * value)) (c : option container) : Prop :=
  match c with Some c => refers objs c | None => True end.
Lemma construct_does x k c s : inv s → a_vars (abs s) !! x = None → refers_opt (objects s) c →
  does (Def (construct x k c s)) (Abstract (a_objects (abs s)) (<[x := (k, c)]> (a_vars (abs s)))).
Proof.
  intros Hi Hx Hc. apply abs_new in Hx.
  destruct (construct_spec x k c s Hi Hx) as [Hi' Ha]; [by intros c' ->|]. eexists. by split_and!.
Qed.
Lemma abs_exchange s x y v w :
  abs (set_vars (<[y := v]> (<[x := w]> (vars s))) s) =
  Abstract (objects s) (<[y := a_held s v]> (<[x := a_held s w]> (a_vars (abs s)))).
Proof. unfold abs. simpl. by rewrite !fmap_insert. Qed.
Lemma swap_does x y s k c k' c' : inv s → a_vars (abs s) !! x = Some (k, c) → a_vars (abs s) !! y = Some (k', c') →
  does (Swap x y s) (Abstract (a_objects (abs s)) (<[y := (k', c)]> (<[x := (k, c')]> (a_vars (abs s))))).
Proof.
  intros Hi (v&Hv&<-&<-)%abs_var (w&Hw&<-&<-)%abs_var. unfold Swap, get_var. rewrite Hv, Hw. simpl.
  eexists. split; [done|]. split; [|by rewrite abs_exchange].
  destruct (decide (x = y)) as [->|Hne].
  - assert (w = v) as -> by congruence. destruct v as [k a]. simpl.
    rewrite insert_insert_eq, insert_id by done. by destruct s.
  - apply inv_exchange with (x := x) (y := y) (v := v) (w := w); auto.
Qed.
Lemma move_does x y s k c : inv s → a_vars (abs s) !! x = None → a_vars (abs s) !! y = Some (k, c) →
  does (Variant_move x y s) (Abstract (a_objects (abs s)) (<[y := (true, None)]> (<[x := (k, c)]> (a_vars (abs s))))).
Proof.
  intros Hi Hx%abs_new (v&Hv&<-&<-)%abs_var. unfold Variant_move, get_var. rewrite Hv. simpl.
  assert (x ≠ y) as Hne by congruence.
  eexists. split; [done|]. split; [|by rewrite abs_exchange].
  rewrite insert_insert_ne by done. destruct v as [k a].
  apply (inv_exchange y x (Variant k a) (Variant true None) s Hi); [done|done|by right].
Qed.
Lemma destroy_does x s kc : inv s → a_vars (abs s) !! x = Some kc →
  does (destroy x s) (Abstract (a_objects (abs s)) (base.delete x (a_vars (abs s)))).
Proof.
  destruct kc as [k c]. intros Hi (v&Hv&_&_)%abs_var. unfold destroy, get_var. rewrite Hv. simpl.
  assert (∀ y w a, vars s !! y = Some w → x ≠ y → base_ w = Some a → base_ v ≠ Some a) as Hother.
  { intros y w a Hw Hne Hb Ha. apply Hne. by eapply inv_once. }
  assert (∀ a, base_ v = None ∨ base_ v = Some a → ∀ m, (∀ b, base_ v ≠ Some b → m !! b = containers s !! b) →
    (∀ b, base_ v = Some b → m !! b = None) →
    inv (set_vars (base.delete x (vars s)) (set_containers m s)) ∧
    abs (set_vars (base.delete x (vars s)) (set_containers m s)) =
      Abstract (objects s) (base.delete x (a_vars (abs s)))) as Hall.
  { intros a _ m Hm Hgone.
    assert (∀ b c', m !! b = Some c' → containers s !! b = Some c' ∧ base_ v ≠ Some b) as Hback.
    { intros b c' Hb. assert (base_ v ≠ Some b) as Hn by (intros Hn; rewrite Hgone in Hb by done; done).
      split; [|done]. by rewrite <-Hm. }
    split.
    - split; simpl.
      + intros y z u w b [_ Hu]%lookup_delete_Some [_ Hw]%lookup_delete_Some. by eapply inv_once.
      + intros y u b [Hne Hu]%lookup_delete_Some Hb. rewrite Hm by (by eapply Hother). by eapply inv_live.
      + intros b c' [Hc Hn]%Hback. destruct (inv_owned _ Hi _ _ Hc) as (y&u&Hu&Hb). exists y, u. split; [|done].
        rewrite lookup_delete_ne; [done|]. intros ->. congruence.
      + intros b c' [Hc _]%Hback. by eapply inv_next.
      + intros b c' [Hc _]%Hback. by eapply inv_refers.
    - unfold abs. simpl. f_equal. rewrite <-fmap_delete. apply map_fmap_ext. intros y w [Hne Hw]%lookup_delete_Some.
      unfold a_held. simpl. destruct (base_ w) as [b|] eqn:Hb; [|done]. simpl. rewrite Hm; [done|]. by eapply Hother. }
  destruct (base_ v) as [a|] eqn:Hb; simpl.
  - destruct (inv_live _ Hi _ _ _ Hv Hb) as [c' Hc']. rewrite Hc'. simpl. eexists. split; [done|].
    apply (Hall a); [by right| |].
    + intros b Hn. rewrite lookup_delete_ne; congruence.
    + intros b [= <-]. by rewrite lookup_delete_eq.
  - eexists. split; [done|]. replace s with (set_containers (containers s) s) at 2 4 by (by destruct s).
    by apply (Hall 0%nat); [left| |].
Qed.
Lemma typed_object s l k v : objects s !! l = Some (k, v) → typed (type_of v) (object_ptr l) s = Def v.
Proof. intros Hl. unfold typed, read. simpl. rewrite Hl. simpl. by rewrite bool_decide_eq_true_2. Qed.
Lemma object_eq s l k v : objects s !! l = Some (k, v) → object l (abs s) = v ∧ object_const l (abs s) = k.
Proof. intros Hl. unfold object, object_const. simpl. by rewrite Hl. Qed.
Lemma clone_eq s c : refers (objects s) c → Clone c s = Def (a_clone c (abs s)) ∧ refers (objects s) (a_clone c (abs s)).
Proof.
  destruct c as [v| |t p|t p|v|t p]; try done. intros (l&k&v&->&Hl&<-). simpl.
  rewrite (typed_object _ _ _ _ Hl). by destruct (object_eq _ _ _ _ Hl) as [-> _].
Qed.
Lemma abs_refers s x k c : inv s → a_vars (abs s) !! x = Some (k, Some c) → refers (objects s) c.
Proof.
  intros Hi (v&Hv&<-&Hc)%abs_var. destruct (base_ v) as [a|]; [|done]. simpl in Hc. by eapply inv_refers.
Qed.
Lemma copy_does x y s k c : inv s → a_vars (abs s) !! x = None → a_vars (abs s) !! y = Some (k, c) →
  does (Variant_copy x y s)
    (Abstract (a_objects (abs s)) (<[x := (k, (λ c, a_clone c (abs s)) <$> c)]> (a_vars (abs s)))).
Proof.
  intros Hi Hx Hy. pose proof Hy as (v&Hv&Hk&Hc)%abs_var. unfold Variant_copy, get_var. rewrite Hv. simpl. rewrite Hk.
  destruct (base_ v) as [a|] eqn:Hb; simpl in Hc.
  - destruct (inv_live _ Hi _ _ _ Hv Hb) as [c' Hc']. rewrite Hc' in Hc |- *. subst c. simpl.
    destruct (clone_eq s c') as [-> Hr]; [by eapply inv_refers|]. by apply (construct_does x k (Some (a_clone c' (abs s))) s).
  - subst c. by apply (construct_does x k None s).
Qed.
(** A new variant in the place of the temporary, exchanged and destroyed. *)
Lemma replace_does x s m k c k' c' : inv s → a_vars (abs s) !! None = None → a_vars (abs s) !! Some x = Some (k, c) →
  does m (Abstract (a_objects (abs s)) (<[None := (k', c')]> (a_vars (abs s)))) →
  does (s ← m; s ← Swap None (Some x) s; destroy None s)
    (Abstract (a_objects (abs s)) (<[Some x := (k, c')]> (a_vars (abs s)))).
Proof.
  intros Hi Hn Hx Hm. eapply does_bind; [exact Hm|]. intros s1 Hi1 Ha1. eapply does_bind.
  - apply (swap_does None (Some x) s1 k' c' k c Hi1); rewrite Ha1; simpl; [by rewrite lookup_insert_eq|].
    by rewrite lookup_insert_ne.
  - intros s2 Hi2 Ha2. destruct (destroy_does None s2 (k', c) Hi2) as (s3&Hd&Hi3&Ha3).
    + rewrite Ha2. simpl. by rewrite lookup_insert_ne, lookup_insert_eq.
    + exists s3. split_and!; [done|done|]. rewrite Ha3, Ha2, Ha1. simpl. f_equal.
      apply map_eq. intros y. destruct (decide (y = None)) as [->|]; [|destruct (decide (y = Some x)) as [->|]].
      * by rewrite lookup_delete_eq, lookup_insert_ne by done.
      * by rewrite lookup_delete_ne, !lookup_insert_eq by done.
      * by rewrite lookup_delete_ne, !lookup_insert_ne by congruence.
Qed.

Lemma assign_move_does x y s k c k' c' : inv s → a_vars (abs s) !! None = None →
  a_vars (abs s) !! Some x = Some (k, c) → a_vars (abs s) !! Some y = Some (k', c') →
  does (assign_move (Some x) (Some y) s) (a_step (O_assign_move x y) (abs s)).
Proof.
  intros Hi Hn Hx Hy. unfold assign_move. eapply does_bind; [by apply swap_does|]. intros s1 Hi1 Ha1. cbv zeta.
  assert (∃ c1, a_vars (abs s1) !! Some y = Some (k', c1)) as [c1 Hy1].
  { rewrite Ha1. simpl. destruct (decide (x = y)) as [->|]; [rewrite lookup_insert_eq; naive_solver|].
    rewrite lookup_insert_ne, lookup_insert_eq by congruence. eauto. }
  assert (a_vars (abs s1) !! None = None) as Hn1 by (by rewrite Ha1; simpl; rewrite !lookup_insert_ne by done).
  destruct (replace_does y s1 (Def (Variant_new None s1)) k' c1 true None Hi1 Hn1 Hy1) as (s2&Hd&Hi2&Ha2).
  { by apply construct_does. }
  exists s2. split_and!; [done|done|]. rewrite Ha2, Ha1. simpl. unfold put, flag, what. rewrite Hx, Hy. simpl.
  destruct (decide (x = y)) as [->|Hne]; simpl; f_equal.
  - rewrite !insert_insert_eq. done.
  - rewrite (insert_insert_ne _ (Some x)), insert_insert_eq by congruence. by rewrite insert_insert_ne by congruence.
Qed.
Lemma refers_write objs l k w v c : objs !! l = Some (k, w) → type_of w = type_of v →
  refers objs c → refers (<[l := (k, v)]> objs) c.
Proof.
  intros Hl Ht. assert (∀ t p, (∃ l' k' u, p = object_ptr l' ∧ objs !! l' = Some (k', u) ∧ type_of u = t) →
    ∃ l' k' u, p = object_ptr l' ∧ <[l := (k, v)]> objs !! l' = Some (k', u) ∧ type_of u = t) as Hp.
  { intros t p (l'&k'&u&->&Hu&<-). destruct (decide (l = l')) as [<-|Hne].
    - exists l, k, v. rewrite lookup_insert_eq. split_and!; [done|done|congruence].
    - exists l', k', u. by rewrite lookup_insert_ne. }
  destruct c; simpl; auto.
Qed.
Lemma write_does s l v : inv s → writable l v (abs s) →
  does (write (object_ptr l) v s) (Abstract (<[l := (false, v)]> (a_objects (abs s))) (a_vars (abs s))).
Proof.
  intros Hi (w&Hl&Ht). simpl in Hl. unfold write. rewrite <-Ht, (typed_object _ _ _ _ Hl). simpl.
  rewrite Hl. simpl. eexists. split; [done|]. split; [|done].
  split; simpl; [apply Hi|apply Hi|apply Hi|apply Hi|].
  intros a c Hc. eapply refers_write; [done|done|]. by eapply inv_refers.
Qed.
Lemma set_container_does s x k c v w a : inv s → vars s !! x = Some w → base_ w = Some a → isConst_ w = k →
  containers s !! a = Some c → content c ≠ None →
  does (Def (set_containers (<[a := set_content c v]> (containers s)) s))
    (Abstract (a_objects (abs s)) (<[x := (k, Some (set_content c v))]> (a_vars (abs s)))).
Proof.
  intros Hi Hw Hb <- Hc Hv. eexists. split; [done|]. split.
  - split; simpl; [apply Hi| | | |].
    + intros y u b Hu Hub. destruct (decide (a = b)) as [<-|Hne]; [by rewrite lookup_insert_eq|].
      rewrite lookup_insert_ne by done. by eapply inv_live.
    + intros b c' [[<- <-]|[Hne Hc']]%lookup_insert_Some; [by exists x, w|]. by eapply inv_owned.
    + intros b c' [[<- <-]|[Hne Hc']]%lookup_insert_Some; by eapply inv_next.
    + intros b c' [[<- <-]|[Hne Hc']]%lookup_insert_Some; [|by eapply inv_refers]. by destruct c.
  - assert (a_vars (abs (set_containers (<[a := set_content c v]> (containers s)) s)) =
      <[x := (isConst_ w, (<[a := set_content c v]> (containers s)) !! a)]> (a_vars (abs s))) as He.
    { apply abs_container; [done|done|done|]. intros b Hne. by rewrite lookup_insert_ne. }
    rewrite lookup_insert_eq in He. unfold abs in *. simpl in *. by rewrite He.
Qed.
Lemma set_does s x k c v : inv s → a_vars (abs s) !! Some x = Some (k, c) → allowed (O_set x v) (abs s) →
  does (set_value (Some x) v s) (a_step (O_set x v) (abs s)).
Proof.
  intros Hi Hx. pose proof Hx as (w&Hw&Hk&Hc)%abs_var. unfold allowed, a_step, what, flag. rewrite Hx. simpl.
  unfold set_value, GetValue, getPtr, held, get_var. rewrite Hw. simpl.
  destruct (base_ w) as [a|] eqn:Hb; simpl in Hc; [|by subst c].
  destruct (inv_live _ Hi _ _ _ Hw Hb) as [c' Hc']. rewrite Hc' in Hc |- *. subst c. simpl.
  pose proof (inv_refers _ Hi _ _ Hc') as Hr.
  assert (∀ l, writable l v (abs s) → does (_ ← typed (type_of v) (object_ptr l) s; write (object_ptr l) v s)
     (Abstract (<[l := (false, v)]> (objects s)) (a_vars (abs s)))) as Hobj.
  { intros l Hwr. pose proof Hwr as (u&Hu&Ht). rewrite <-Ht, (typed_object _ _ _ _ Hu). simpl. by apply write_does. }
  assert (∀ u, content c' = Some u → type_of u = type_of v →
    does (_ ← typed (type_of v) (Ptr (B_container a) []) s; write (Ptr (B_container a) []) v s)
      (put x (k, Some (set_content c' v)) (abs s))) as Hcon.
  { intros u Hu Ht. unfold write, typed, read. simpl.
    repeat (rewrite ?Hc', ?Hu; simpl; try rewrite bool_decide_eq_true_2 by done; simpl).
    apply set_container_does with w; try done. by rewrite Hu. }
  destruct c' as [u| |t p|t p|u|t p]; simpl; rewrite ?ub_bind_assoc; try done.
  - intros Ht. by apply (Hcon u).
  - destruct Hr as (l&?&?&->&_). apply Hobj.
  - destruct Hr as (l&?&?&->&_). apply Hobj.
  - intros Ht. by apply (Hcon u).
  - destruct Hr as (l&?&?&->&_). apply Hobj.
Qed.

Lemma set_constant x v s : inv s → writes_constant x v (abs s) → set_value (Some x) v s = Undef.
Proof.
  intros Hi. unfold writes_constant, what. destruct (a_vars (abs s) !! Some x) as [[k c]|] eqn:Hx; [|done].
  apply abs_var in Hx as (w&Hw&Hk&Hc). simpl.
  unfold set_value, GetValue, getPtr, held, get_var. rewrite Hw. simpl.
  destruct (base_ w) as [a|] eqn:Hb; simpl in Hc; [|by subst c].
  destruct (inv_live _ Hi _ _ _ Hw Hb) as [c' Hc']. rewrite Hc' in Hc |- *. subst c. simpl.
  pose proof (inv_refers _ Hi _ _ Hc') as Hr.
  assert (∀ l, (∃ u, objects s !! l = Some (true, u) ∧ type_of u = type_of v) →
    (_ ← typed (type_of v) (object_ptr l) s; write (object_ptr l) v s) = Undef) as Hobj.
  { intros l (u&Hu&Ht). rewrite <-Ht, (typed_object _ _ _ _ Hu). simpl. unfold write.
    rewrite <-Ht, (typed_object _ _ _ _ Hu). simpl. by rewrite Hu. }
  destruct c' as [u| |t p|t p|u|t p]; simpl; rewrite ?ub_bind_assoc; try done;
    destruct Hr as (l&?&?&->&_); apply Hobj.
Qed.

(** *** Programs *)
Lemma object_type_spec s l : an_object l (abs s) → ∃ k v, objects s !! l = Some (k, v) ∧ object_type l s = Def (type_of v).
Proof. intros [[k v] Hl]. exists k, v. split; [done|]. unfold object_type. simpl in Hl. by rewrite Hl. Qed.
Lemma is_const_eq s l : is_const (object_ptr l) s = object_const l (abs s).
Proof. done. Qed.
Lemma declared_var x a : declared x a → ∃ k c, a_vars a !! Some x = Some (k, c) ∧ flag x a = k ∧ what x a = c.
Proof. intros [[k c] Hx]. exists k, c. unfold flag, what. by rewrite Hx. Qed.
Lemma step_does o s : inv s → a_vars (abs s) !! None = None → allowed o (abs s) → does (step o s) (a_step o (abs s)).
Proof.
  intros Hi Hn Ho.
  assert (∀ x k c, new_name x (abs s) → refers_opt (objects s) c →
    does (Def (construct (Some x) k c s)) (put x (k, c) (abs s))) as Hnew by (intros; by apply construct_does).
  assert (∀ l k v, objects s !! l = Some (k, v) → ∀ t, t = type_of v →
    refers (objects s) (C_ref t (object_ptr l))) as Href by (intros l k v Hl t ->; by exists l, k, v).
  destruct o as [x|x v|x l|x l|x l|x k v|x l|x y|x y|x y|x y|x y|x v|x v|l v|x]; simpl in Ho; cbn [step a_step].
  - by apply (Hnew x true None).
  - destruct Ho as [Hx _]. by apply (Hnew x false (Some (C_value v))).
  - destruct Ho as (Hx&(k&v&Hl&->)%object_type_spec&_). simpl. unfold Variant_of.
    rewrite (typed_object _ _ _ _ Hl), is_const_eq. destruct (object_eq _ _ _ _ Hl) as [-> ->]. by apply Hnew.
  - destruct Ho as (Hx&(k&v&Hl&->)%object_type_spec). simpl. unfold Variant_of_reference.
    rewrite (typed_object _ _ _ _ Hl), is_const_eq. destruct (object_eq _ _ _ _ Hl) as [-> ->]. apply Hnew; [done|].
    by eapply Href.
  - destruct Ho as (Hx&(k&v&Hl&->)%object_type_spec). simpl. unfold Variant_of_object.
    rewrite (typed_object _ _ _ _ Hl), is_const_eq. destruct (object_eq _ _ _ _ Hl) as [-> ->]. apply Hnew; [done|].
    by eapply Href.
  - by apply (Hnew x k (Some (C_array v))).
  - destruct Ho as (Hx&k&t&vs&Hl). unfold object_type. simpl in Hl. rewrite Hl. simpl. unfold Variant_of_array.
    rewrite (typed_object _ _ _ _ Hl : typed (T_array t) _ _ = _), is_const_eq.
    destruct (object_eq _ _ _ _ Hl) as [-> ->]. apply Hnew; [done|]. by eapply Href.
  - destruct Ho as [Hx (k&c&Hy&->&->)%declared_var]. by apply copy_does.
  - destruct Ho as [Hx (k&c&Hy&->&->)%declared_var]. by apply move_does.
  - destruct Ho as [(k&c&Hx&->&->)%declared_var (k'&c'&Hy&->&->)%declared_var]. by apply swap_does.
  - destruct Ho as [(k&c&Hx&->&_)%declared_var (k'&c'&Hy&_&->)%declared_var]. unfold assign.
    apply (replace_does x s _ k c k' ((λ c, a_clone c (abs s)) <$> c')); [done|done|done|]. by apply copy_does.
  - destruct Ho as [(k&c&Hx&_&_)%declared_var (k'&c'&Hy&_&_)%declared_var]. by eapply assign_move_does.
  - destruct Ho as [(k&c&Hx&->&_)%declared_var _]. unfold assign_value.
    apply (replace_does x s (Def (Variant_of_value None v s)) k c false (Some (C_value v))); [done|done|done|].
    by apply (construct_does None false (Some (C_value v))).
  - assert (declared x (abs s)) as (k&c&Hx&_&_)%declared_var.
    { unfold what in Ho. destruct (a_vars (abs s) !! Some x) eqn:Hx; [by eexists|done]. }
    by eapply set_does.
  - by apply write_does.
  - destruct Ho as [kc Hx]. by eapply destroy_does.
Qed.
Lemma run_app ops ops' s : run (ops ++ ops') s = run ops s ≫= run ops'.
Proof.
  revert s. induction ops as [|o ops IH]; intros s; [done|]. simpl.
  destruct (step o s); simpl; [apply IH|done].
Qed.
Lemma a_step_temp o a : a_vars a !! None = None → a_vars (a_step o a) !! None = None.
Proof.
  intros Hn. destruct o; simpl; unfold put; simpl; rewrite ?lookup_insert_ne, ?lookup_delete_ne by done; try done.
  - by case_decide; simpl; rewrite ?lookup_insert_ne.
  - repeat case_match; simpl; rewrite ?lookup_insert_ne by done; done.
Qed.
Lemma run_does ops s : inv s → a_vars (abs s) !! None = None → all_allowed ops (abs s) →
  does (run ops s) (foldl (λ a o, a_step o a) (abs s) ops).
Proof.
  revert s. induction ops as [|o ops IH]; intros s Hi Hn; [by exists s|].
  intros [Ho Hops]. simpl. eapply does_bind; [by apply step_does|]. intros s1 Hi1 Ha1. rewrite <-Ha1 in Hops |- *.
  apply IH; [done| |done]. rewrite Ha1. by apply a_step_temp.
Qed.

Definition an_int : gmap loc (bool * value) := {[0%nat := (false, V_int 7)]}.
Definition scene : list op :=
  [O_reference 0 0; O_copy 1 0; O_set 0 (V_int 8); O_new 2; O_assign 2 1; O_assign_move 1 0; O_destroy 0].

(** *** Corners *)
Definition after {A} (ops : list op) (objs : gmap loc (bool * value)) (f : state → ub A) : ub A := run ops (start objs) ≫= f.
(** A variant that was declared without a value stays constant when it is assigned
    one; one constructed from the value is not. *)
Lemma assignment_keeps_constness v objs :
  after [O_new 0; O_assign_value 0 v] objs (IsConst (Some 0%nat)) = Def true ∧
  after [O_value 0 v] objs (IsConst (Some 0%nat)) = Def false.
Proof. done. Qed.
(** A variant moved into itself is emptied. *)
Lemma self_move_loses_value v objs :
  after [O_value 0 v; O_assign_move 0 0] objs (IsValid (Some 0%nat)) = Def false.
Proof. done. Qed.
(** The text of a value behind a reference is empty, and a string there is no
    number. *)
Lemma references_have_no_text stof stod n s k :
  after [O_reference 0 0] {[0%nat := (k, V_int n)]} (ToString stof stod (Some 0%nat)) = Def ""%string ∧
  after [O_of 0 0] {[0%nat := (k, V_int n)]} (ToString stof stod (Some 0%nat)) = Def (pretty n) ∧
  after [O_reference 0 0] {[0%nat := (k, V_string s)]} (ToInt stof stod (Some 0%nat)) = Def (Some 0) ∧
  after [O_of 0 0] {[0%nat := (k, V_string s)]} (ToInt stof stod (Some 0%nat)) = Def (stoi s).
Proof. done. Qed.
(** A reference to a constant is not constant: the constant is written. *)
Lemma reference_to_constant_is_writable n m :
  after [O_reference 0 0] {[0%nat := (true, V_int n)]} (IsConst (Some 0%nat)) = Def false ∧
  after [O_reference 0 0; O_set 0 (V_int m)] {[0%nat := (true, V_int n)]} (IsConst (Some 0%nat)) = Undef.
Proof. done. Qed.
(** Copies of a variant of an array write to the array, those of a variant of a
    reference do not. *)
Lemma array_copies_share vs ws :
  let array l := {[0%nat := (false, V_array T_int l)]} in
  let copied := [O_copy 1 0; O_set 1 (V_array T_int ws)] in
  let seen s := deref (objects s !! 0%nat) in
  after (O_array 0 0 :: copied) (array vs) seen = Def (false, V_array T_int ws) ∧
  after (O_reference 0 0 :: copied) (array vs) seen = Def (false, V_array T_int vs).
Proof. done. Qed.
