(* ===== verification/Invoke.v ===== *)
(** * Calls through reflection ([network/reflect]: [Argument], [MethodInvoker],
      [ConstructorInvoker], [FunctionInvoker], [TypeCreator], [Field], [Global],
      [ArrayWrapper])

    What the database of [Reflect] finds is called with the variants of [Variant].
    The code of a function, method or constructor is a function of the values of its
    parameters, found by the number that [Reflect] keeps. *)
From stdpp Require Import base option numbers countable strings gmap list.
From S2P Require Import Prelude Reflect Variant.
Local Open Scope Z_scope.

(** ** Definitions *)
Notation type_db := (database (cpp:=cty)).
(** *** Arguments: a type and a pointer *)
Record argument := Argument { typeID_ : nat; arg_isArray_ : bool; data_ : option ptr }.
Definition Argument_new : argument := Argument InvalidTypeID false None.
Definition Argument_of (t : cty) (p : ptr) (db : type_db) : argument :=
  Argument (id_ (ty_of t db)) (isArray_ (ty_of t db)) (Some p).
Definition Argument_of_variant (x : option nat) (db : type_db) (s : state) : ub argument :=
  t ← GetType x db s;
  p ← getPtr x s;
  Def (Argument (id_ t) (isArray_ t) p).
(** The assignment leaves the array flag. *)
Definition argument_assign (this rhs : argument) : argument := Argument (typeID_ rhs) (arg_isArray_ this) (data_ rhs).
Definition argument_GetType (a : argument) : ty := Ty (typeID_ a) (arg_isArray_ a).
Definition argument_GetValue (t : cty) (a : argument) (s : state) : ub value := p ← deref (data_ a); typed t p s.

(** *** Invokers: each parameter takes the argument of its place as its type *)
Fixpoint unpack (params : list cty) (i : nat) (arguments : list argument) (s : state) : ub (list value) :=
  match params with
  | [] => Def []
  | t :: params =>
      a ← deref (arguments !! i);
      v ← argument_GetValue t a s;
      vs ← unpack params (S i) arguments s;
      Def (v :: vs)
  end.
(** The parameters and the code of a constructor, a function and a method. *)
Record invoker := Invoker { params : list cty; body : list value → value }.
Inductive method_body :=
| M_const (f : value → list value → option value)
| M_mutable (f : value → list value → value * option value).
Record method_invoker := MethodInvoker { m_class : cty; m_params : list cty; m_body : method_body }.
(** A function of type [void] gives no value. *)
Record function_invoker := FunctionInvoker { f_params : list cty; f_body : list value → option value }.
Definition result (x : option nat) (r : option value) (s : state) : state :=
  match r with Some v => Variant_of_value x v s | None => Variant_new x s end.
(** [ClassType(...)], [new ClassType(...)] and a wrapped [new ClassType(...)] *)
Definition new_object (v : value) (s : state) : nat * state :=
  let l := fresh (dom (objects s)) in (l, set_objects (<[l := (false, v)]> (objects s)) s).
Definition construct_value (c : invoker) (x : option nat) (arguments : list argument) (s : state) : ub state :=
  vs ← unpack (params c) 0 arguments s;
  Def (Variant_of_value x (body c vs) s).
Definition construct_dynamic (c : invoker) (x : option nat) (arguments : list argument) (s : state) : ub state :=
  vs ← unpack (params c) 0 arguments s;
  let '(l, s) := new_object (body c vs) s in
  Def (Variant_of_value x (V_pointer (type_of (body c vs)) l) s).
Definition construct_wrapped (c : invoker) (x : option nat) (arguments : list argument) (s : state) : ub state :=
  vs ← unpack (params c) 0 arguments s;
  let '(l, s) := new_object (body c vs) s in
  Variant_of_object x (type_of (body c vs)) (object_ptr l) s.
Definition function_invoke (f : function_invoker) (x : option nat) (arguments : list argument) (s : state) : ub state :=
  vs ← unpack (f_params f) 0 arguments s;
  Def (result x (f_body f vs) s).
Definition method_invoke (m : method_invoker) (obj x : option nat) (arguments : list argument) (s : state) : ub state :=
  p ← GetValue (m_class m) obj s;
  v ← typed (m_class m) p s;
  vs ← unpack (m_params m) 0 arguments s;
  match m_body m with
  | M_const f => Def (result x (f v vs) s)
  | M_mutable f => let '(v, r) := f v vs in s ← write p v s; Def (result x r s)
  end.

(** *** Calls by name and by the types of the arguments *)
Section calls.
Context (pick : ∀ A, list A → option A).
Context (constructor_code : Z → option invoker) (function_code : Z → option function_invoker)
  (method_code : Z → option method_invoker).
(** [TypeCreator::CreateVariadic]; the code of an invalid constructor is a null
    pointer. *)
Definition Create (t : ty) (x : option nat) (arguments : list argument) (db : type_db) (s : state) : ub state :=
  n ← CreateVariadic t (argument_GetType <$> arguments) db;
  c ← deref (constructor_code n);
  construct_value c x arguments s.
Definition CreateDynamic (t : ty) (x : option nat) (arguments : list argument) (db : type_db) (s : state) : ub state :=
  n ← CreateDynamicVariadic t (argument_GetType <$> arguments) db;
  c ← deref (constructor_code n);
  construct_dynamic c x arguments s.
(** A global function for the types of the arguments, [InvokeVariadic] *)
Definition Call (name : string) (x : option nat) (arguments : list argument) (db : type_db) (s : state) : ub state :=
  f ← deref (GetGlobalFunction_overload pick name (argument_GetType <$> arguments) db).1;
  f ← deref (function_code (m_invoker f));
  function_invoke f x arguments s.
(** A method of the type of the object, [Method::Invoke] *)
Definition CallMethod (obj : option nat) (name : string) (x : option nat) (arguments : list argument) (db : type_db) (s : state)
    : ub state :=
  t ← GetType obj db s;
  '(m, _) ← GetMethod_overload pick t name (argument_GetType <$> arguments) db;
  m ← deref m;
  m ← deref (method_code (m_invoker m));
  method_invoke m obj x arguments s.
End calls.

(** *** Fields *)
Inductive getter := G_field (i : nat) (t : cty) | G_method (f : value → value).
Inductive setter := S_field (i : nat) (t : cty) | S_method (t : cty) (f : value → value → value).
Definition field_ptr (p : ptr) (i : nat) : ptr := Ptr (p_base p) (p_path p ++ [i]).
(** [Variant(T&)], which for an array refers to it *)
Definition Variant_of_lvalue (x : option nat) (t : cty) (p : ptr) (s : state) : ub state :=
  match t with T_array e => Variant_of_array x e p s | t => Variant_of x t p s end.
Definition field_GetValue (class : cty) (g : getter) (obj x : option nat) (s : state) : ub state :=
  p ← GetValue class obj s;
  match g with
  | G_field i t => Variant_of_lvalue x t (field_ptr p i) s
  | G_method f => v ← typed class p s; Def (Variant_of_value x (f v) s)
  end.
(** A method that returns a value gives a copy. *)
Definition field_GetValueReference (class : cty) (g : getter) (obj x : option nat) (s : state) : ub state :=
  match g with
  | G_field i t => p ← GetValue class obj s; Variant_of_reference x t (field_ptr p i) s
  | G_method _ => field_GetValue class g obj x s
  end.
Definition setter_SetValue (class : cty) (g : setter) (obj value : option nat) (s : state) : ub state :=
  p ← GetValue class obj s;
  match g with
  | S_field i t => q ← GetValue t value s; v ← typed t q s; write (field_ptr p i) v s
  | S_method t f => q ← GetValue t value s; v ← typed t q s; w ← typed class p s; write p (f w v) s
  end.
(** False for a constant instance and a field without setter. *)
Definition field_SetValue (class : cty) (g : option setter) (obj value : option nat) (s : state) : ub (bool * state) :=
  k ← IsConst obj s;
  match g, k with
  | Some g, false => s ← setter_SetValue class g obj value s; Def (true, s)
  | _, _ => Def (false, s)
  end.

(** *** Globals *)
Definition global_GetValue (t : cty) (l : nat) (x : option nat) (s : state) : ub state :=
  Variant_of_lvalue x t (object_ptr l) s.
Definition global_SetValue (t : cty) (l : nat) (a : argument) (s : state) : ub state :=
  v ← argument_GetValue t a s; write (object_ptr l) v s.

(** *** Arrays: [std::vector] behind a pointer; [None] when [at] throws *)
Definition GetArray (x : option nat) (s : state) : ub (option ptr) :=
  h ← held x s;
  Def (match h with
       | Some (a, C_array v) => Some (Ptr (B_container a) [])
       | Some (_, C_array_ref _ p) => Some p
       | _ => None
       end).
Definition elements (t : cty) (p : ptr) (s : state) : ub (list value) :=
  v ← typed (T_array t) p s;
  match v with V_array _ l => Def l | _ => Undef end.
Definition array_GetValue (t : cty) (w : option ptr) (i : nat) (x : option nat) (s : state) : ub state :=
  match w with
  | None => Def (Variant_new x s)
  | Some p => l ← elements t p s; _ ← deref (l !! i); Variant_of_lvalue x t (field_ptr p i) s
  end.
Definition array_SetValue (t : cty) (w : option ptr) (i : nat) (a : argument) (s : state) : ub (option state) :=
  match w with
  | None => Def (Some s)
  | Some p =>
      l ← elements t p s;
      v ← argument_GetValue t a s;
      match l !! i with
      | None => Def None
      | Some _ => s ← write p (V_array t (<[i := v]> l)) s; Def (Some s)
      end
  end.
Definition array_Insert (t : cty) (w : option ptr) (i : nat) (a : argument) (s : state) : ub state :=
  match w with
  | None => Def s
  | Some p =>
      l ← elements t p s;
      v ← argument_GetValue t a s;
      _ ← assert_ub (bool_decide (i ≤ length l)%nat);
      write p (V_array t (take i l ++ v :: drop i l)) s
  end.
Definition array_Remove (t : cty) (w : option ptr) (i : nat) (s : state) : ub state :=
  match w with
  | None => Def s
  | Some p =>
      l ← elements t p s;
      _ ← deref (l !! i);
      write p (V_array t (base.delete i l)) s
  end.
Definition array_Size (t : cty) (w : option ptr) (s : state) : ub nat :=
  match w with None => Def 0%nat | Some p => l ← elements t p s; Def (length l) end.

(** ** Proofs *)
(** *** Arguments are taken as what they are *)
Definition registered (t : cty) (db : type_db) : Prop := is_Some (typeIDs db !! t).
(** An argument for the value [v], of a type that is registered. *)
Definition given (db : type_db) (s : state) (a : argument) (v : value) : Prop :=
  ∃ t p, a = Argument_of t p db ∧ typed t p s = Def v ∧ no_array t ∧ registered t db.
(** The parameters that a signature was made of. *)
Definition coded (db : type_db) (sig : signature) (params : list cty) : Prop :=
  sig = (λ t, ty_of t db) <$> params.
(** A call whose arguments are no arrays: [r], unless a parameter is one. *)
Definition is_array (t : cty) : bool := match t with T_array _ => true | _ => false end.
Definition called {A} (params : list cty) (r : ub A) : ub A := if existsb is_array params then Undef else r.
Lemma is_array_no t : is_array t = false → no_array t.
Proof. by destruct t. Qed.
Lemma ty_of_id t db : no_array t → id_ (ty_of t db) = typeidof t db.
Proof. by destruct t. Qed.
Lemma given_param db s a v t : numbered db → given db s a v → no_array t → id_ (ty_of t db) = typeID_ a →
  argument_GetValue t a s = Def v.
Proof.
  intros Hn (u&p&->&Hp&Hu&[i Hi]) Ht Hid. simpl in Hid. rewrite !ty_of_id in Hid by done.
  assert (t = u) as ->; [|done]. apply (typeidof_inj db); [done|done|].
  rewrite Hid. unfold typeidof. rewrite Hi. simpl. apply (num_range _ Hn) in Hi. unfold InvalidTypeID. lia.
Qed.
Lemma called_bind {A B} ts (v : A) (f : A → ub B) : called ts (Def v) ≫= f = called ts (f v).
Proof. unfold called. by destruct (existsb _ _). Qed.
(** An argument that is no array is taken for one by an array's element type id. *)
Lemma given_array db s a v t : given db s a v → is_array t = true → argument_GetValue t a s = Undef.
Proof.
  intros (u&p&->&(w&Hr&Hp)%ub_bind_Def&Hu&_) Ht. unfold argument_GetValue. simpl. unfold typed.
  rewrite Hr. simpl. destruct (bool_decide (type_of w = u)) eqn:Hw; [|done].
  apply bool_decide_eq_true in Hw. rewrite bool_decide_eq_false_2; [done|]. intros Hwt.
  rewrite <-Hw, Hwt in Hu. by destruct t.
Qed.
Lemma unpack_given_at db s pre args vs ts : numbered db → Forall2 (given db s) args vs →
  (λ t, id_ (ty_of t db)) <$> ts = typeID_ <$> args → unpack ts (length pre) (pre ++ args) s = called ts (Def vs).
Proof.
  intros Hn Hg. revert pre ts. induction Hg as [|a v args vs Ha Hg IH]; intros pre [|t ts] Hids; try done.
  injection Hids as Hid Hids. simpl. rewrite list_lookup_middle by done. simpl.
  specialize (IH (pre ++ [a]) ts). rewrite <-app_assoc, length_app, Nat.add_1_r in IH. simpl in IH.
  unfold called. simpl. destruct (is_array t) eqn:Ht; [by rewrite (given_array db s a v t)|].
  rewrite (given_param db s a v t) by (done || by apply is_array_no). simpl. rewrite IH by done.
  unfold called. by destruct (existsb is_array ts).
Qed.
Lemma unpack_given db s args vs sig ts : numbered db → Forall2 (given db s) args vs → coded db sig ts →
  key sig = key (argument_GetType <$> args) → unpack ts 0 args s = called ts (Def vs).
Proof.
  intros Hn Hg -> Hk. apply (unpack_given_at db s []); [done|done|].
  unfold key in Hk. rewrite <-!list_fmap_compose in Hk. exact Hk.
Qed.

(** A variant that holds a value of a registered type is an argument for it. *)
Lemma variant_argument_given x db s v k a : vars s !! x = Some (Variant k (Some a)) → containers s !! a = Some (C_value v) →
  no_array (type_of v) → registered (type_of v) db → ∃ arg, Argument_of_variant x db s = Def arg ∧ given db s arg v.
Proof.
  intros Hx Hc Hv Hr. unfold Argument_of_variant, GetType, getPtr, held, get_var. rewrite Hx. simpl. rewrite Hc. simpl.
  eexists. split; [done|]. exists (type_of v), (Ptr (B_container a) []). split_and!; [done| |done|done].
  unfold typed, read. simpl. rewrite Hc. simpl. by rewrite bool_decide_eq_true_2.
Qed.
Section calls_proofs.
Context (pick : ∀ A, list A → option A).
Context (constructor_code : Z → option invoker) (function_code : Z → option function_invoker)
  (method_code : Z → option method_invoker).
Lemma overload_key l s r : overload_for l s (Some r) → key (m_signature r) = key s.
Proof. by intros [_ ?]. Qed.

(** C22: Calls get their arguments. Take a database built by any registrations in any
    order and arguments of registered types that are no arrays, and look for a
    constructor, a global function or a method of the object's type by the arguments'
    types, the first that fits chosen in any way. If the code that is found takes the
    parameters its signature was made from (as every registration does), and for a
    method the object is of the method's class, then the call takes each argument as the
    type it has: the code runs once, on the values behind the arguments in their order,
    and its result, or the object it constructs or changes, is what the call leaves. The
    one exception is code with a parameter that is an array, which the lookup does not
    tell from its element: such a call is found too, and is undefined. *)
Theorem calls_get_their_arguments acts db s args vs x :
  picks pick → Reflect.run pick acts database_empty = Def db → Forall2 (given db s) args vs →
  let sig := argument_GetType <$> args in
  (∀ t c k, GetConstructor t sig db = Def (Some c) → constructor_code (c_invoker c) = Some k →
     coded db (c_signature c) (params k) →
     Create constructor_code t x args db s = called (params k) (Def (Variant_of_value x (body k vs) s))) ∧
  (∀ n f k, (GetGlobalFunction_overload pick n sig db).1 = Some f → function_code (m_invoker f) = Some k →
     coded db (m_signature f) (f_params k) →
     Call pick function_code n x args db s = called (f_params k) (Def (result x (f_body k vs) s))) ∧
  (∀ obj t n m db' k p v, GetType obj db s = Def t → GetMethod_overload pick t n sig db = Def (Some m, db') →
     method_code (m_invoker m) = Some k → coded db (m_signature m) (m_params k) →
     GetValue (m_class k) obj s = Def p → typed (m_class k) p s = Def v →
     CallMethod pick method_code obj n x args db s = called (m_params k)
       match m_body k with
       | M_const f => Def (result x (f v vs) s)
       | M_mutable f => s ← write p (f v vs).1 s; Def (result x (f v vs).2 s)
       end).
Proof.
  intros Hp Hr Hg sig. pose proof (numbered_run pick acts _ _ numbered_empty Hr) as Hn.
  pose proof (keyed_run pick acts _ _ Hr keyed_empty) as Hk. split_and!.
  - intros t c k Hc Hcode Hco. unfold Create, CreateVariadic. fold sig. rewrite Hc. simpl. rewrite Hcode. simpl.
    unfold construct_value. rewrite (unpack_given db s args vs _ _ Hn Hg Hco);
      [exact (called_bind (params k) vs (λ vs, Def (Variant_of_value x (body k vs) s)))|].
    by eapply GetConstructor_keyed.
  - intros n f k Hf Hcode Hco. unfold Call. fold sig. rewrite Hf. simpl. rewrite Hcode. simpl.
    unfold function_invoke. rewrite (unpack_given db s args vs _ _ Hn Hg Hco);
      [exact (called_bind (f_params k) vs (λ vs, Def (result x (f_body k vs) s)))|].
    eapply overload_key. rewrite <-Hf. simpl. by apply pick_overload.
  - intros obj t n m db' k p v Ht Hm Hcode Hco Hpv Hv. unfold CallMethod. rewrite Ht. simpl. fold sig. rewrite Hm. simpl.
    rewrite Hcode. simpl. unfold method_invoke. rewrite Hpv. simpl. rewrite Hv. simpl.
    rewrite (unpack_given db s args vs _ _ Hn Hg Hco).
    + rewrite called_bind. f_equal. destruct (m_body k) as [f|f]; [done|]. by destruct (f v vs).
    + unfold GetMethod_overload in Hm. inv_def. eapply overload_key. match goal with H : pick _ _ = Some _ |- _ => rewrite <-H end.
      by apply pick_overload.
Qed.
End calls_proofs.

(** *** A concrete program *)
Definition int_traits : traits := Traits false false false true false true true true.
Definition point_traits : traits := Traits true false false false false false false false.
Definition declarations : list (action (cpp:=cty)) :=
  [A_type "int" T_int int_traits; A_type "Point" (T_class 0) point_traits;
   A_constructor 2 (Constructor (Ty 2 false) [Ty 1 false] false 5 ∅);
   A_function (Callable "twice" [Ty 1 false] false Invalid 7 ∅);
   A_method 2 (Callable "move" [Ty 1 false] false (Ty 2 false) 9 ∅)].
Definition point (vs : list value) : value := V_class 0 vs.
Definition twice (vs : list value) : option value := match vs with [V_int n] => Some (V_int (2 * n)) | _ => None end.
Definition move (v : value) (vs : list value) : value * option value := (V_class 0 vs, None).
Definition constructor_code (n : Z) : option invoker := if n =? 5 then Some (Invoker [T_int] point) else None.
Definition function_code (n : Z) : option function_invoker := if n =? 7 then Some (FunctionInvoker [T_int] twice) else None.
Definition method_code (n : Z) : option method_invoker :=
  if n =? 9 then Some (MethodInvoker (T_class 0) [T_int] (M_mutable move)) else None.
(** An int object, a variant of a point, and an argument for the int. *)
Definition a_point : state :=
  Variant_of_value (Some 0%nat) (point [V_int 1]) (start {[0%nat := (false, V_int 42)]}).
Lemma calls_get_their_arguments_witness :
  ∃ db, Reflect.run first declarations database_empty = Def db ∧
    let args := [Argument_of T_int (object_ptr 0) db] in
    Create constructor_code (Ty 2 false) (Some 1%nat) args db a_point =
      Def (Variant_of_value (Some 1%nat) (point [V_int 42]) a_point) ∧
    Call first function_code "twice" (Some 1%nat) args db a_point = Def (Variant_of_value (Some 1%nat) (V_int 84) a_point).
Proof.
  destruct (Reflect.run first declarations database_empty) as [db|] eqn:Hr; [|exfalso; revert Hr; vm_compute; discriminate].
  exists db. split; [reflexivity|].
  assert (typeIDs db !! T_int = Some 1%nat) as Hid.
  { change ((match Def db with Def d => typeIDs d !! T_int | Undef => None end) = Some 1%nat). rewrite <-Hr.
    vm_compute. reflexivity. }
  assert (ty_of T_int db = Ty 1 false) as Hty by (unfold ty_of, typeof, typeidof; rewrite Hid; reflexivity).
  intros args.
  assert (Forall2 (given db a_point) args [V_int 42]) as Hg.
  { constructor; [|constructor]. exists T_int, (object_ptr 0). split; [reflexivity|]. split; [reflexivity|].
    split; [exact I|]. exists 1%nat. exact Hid. }
  assert (argument_GetType <$> args = [Ty 1 false]) as Hsig.
  { unfold args, Argument_of. rewrite Hty. reflexivity. }
  assert (coded db [Ty 1 false] [T_int]) as Hco.
  { change ([Ty 1 false] = [ty_of T_int db]). rewrite Hty. reflexivity. }
  destruct (calls_get_their_arguments first constructor_code function_code method_code declarations db a_point args [V_int 42]
    (Some 1%nat) first_picks Hr Hg) as (Hc&Hf&_).
  rewrite Hsig in Hc, Hf. split.
  - apply (Hc _ (Constructor (Ty 2 false) [Ty 1 false] false 5 ∅) (Invoker [T_int] point)); [|reflexivity|exact Hco].
    change ((match Def db with Def d => GetConstructor (Ty 2 false) [Ty 1 false] d | Undef => Undef end) =
      Def (Some (Constructor (Ty 2 false) [Ty 1 false] false 5 ∅))). rewrite <-Hr. vm_compute. reflexivity.
  - apply (Hf _ (Callable "twice" [Ty 1 false] false Invalid 7 ∅) (FunctionInvoker [T_int] twice)); [|reflexivity|exact Hco].
    change ((match Def db with Def d => (GetGlobalFunction_overload first "twice" [Ty 1 false] d).1 | Undef => None end) =
      Some (Callable "twice" [Ty 1 false] false Invalid 7 ∅)). rewrite <-Hr. vm_compute. reflexivity.
Defined.

(** *** Fields *)
Lemma get_set_path v path w u : set_path v path w = Some u → get_path u path = Some w.
Proof.
  revert v u. induction path as [|i path IH]; intros v u; simpl; [by intros [= ->]|].
  assert (∀ (l : list value) (C : list value → value), (∀ l, get_path (C l) (i :: path) = (w ← l !! i; get_path w path)) →
    (x ← l !! i; y ← set_path x path w; Some (C (<[i := y]> l))) = Some u → get_path u (i :: path) = Some w) as Hl.
  { intros l C HC (x&Hx&(y&Hy&[= <-])%bind_Some)%bind_Some. rewrite HC.
    rewrite list_lookup_insert_eq by (by eapply lookup_lt_Some). simpl. by eapply IH. }
  destruct v as [| | | | | | |t l| |t l]; try done; by apply (Hl l).
Qed.
Lemma write_place_read b v s s' : write_place b v s = Def s' → read_place b s' = Some v.
Proof.
  destruct b as [l|a]; simpl; intros Hw; inv_def; simpl.
  - by rewrite lookup_insert_eq.
  - rewrite lookup_insert_eq. simpl. by destruct a0.
Qed.
(** What is written is read back. *)
Lemma write_typed p w s s' : write p w s = Def s' → typed (type_of w) p s' = Def w.
Proof.
  unfold write. intros Hw. inv_def. unfold typed, read. rewrite (write_place_read _ _ _ _ Hw). simpl.
  erewrite get_set_path by done. simpl. by rewrite bool_decide_eq_true_2.
Qed.
Lemma typed_type t p s v : typed t p s = Def v → type_of v = t.
Proof. unfold typed. intros Ht. inv_def. by apply bool_decide_eq_true in Ha0. Qed.
(** A field that was set by a variant is read back as its value. *)
Lemma field_reads_back class i t obj value p s s' :
  GetValue class obj s = Def p → field_SetValue class (Some (S_field i t)) obj value s = Def (true, s') →
  ∃ q v, GetValue t value s = Def q ∧ typed t q s = Def v ∧ typed t (field_ptr p i) s' = Def v.
Proof.
  intros Hp Hs. unfold field_SetValue in Hs. inv_def. destruct a; [by inv_def|]. unfold setter_SetValue in Hs.
  rewrite Hp in Hs. simpl in Hs. inv_def. eexists _, _. split_and!; [done|done|].
  match goal with H : typed t _ s = Def ?v |- _ => rewrite <-(typed_type _ _ _ _ H) at 1 end. by eapply write_typed.
Qed.

(** *** Corners *)
(** The database keeps arrays and their elements apart nowhere: a constructor from an
    array is found for an element, which it takes for an array. *)
Lemma element_taken_for_array db s c x t :
  GetConstructor t [ty_of T_int db] db = Def (Some c) → 
  ∀ code b, code (c_invoker c) = Some (Invoker [T_array T_int] b) →
  ∀ l k n, objects s !! l = Some (k, V_int n) → isArray_ (ty_of T_int db) = false →
  Create code t x [Argument_of T_int (object_ptr l) db] db s = Undef.
Proof.
  intros Hc code b Hcode l k n Hl Ha. unfold Create, CreateVariadic. simpl.
  change (argument_GetType (Argument_of T_int (object_ptr l) db)) with (ty_of T_int db) in *.
  rewrite Hc. simpl. rewrite Hcode. simpl. unfold construct_value. simpl. unfold argument_GetValue, typed, read. simpl.
  by rewrite Hl.
Qed.
(** A name or types for which nothing was declared: the call goes through a null
    pointer. *)
Lemma missing_constructor_is_undefined db s t args code x :
  GetConstructor t (argument_GetType <$> args) db = Def None → Create code t x args db s = Undef.
Proof. intros Hc. unfold Create, CreateVariadic. by rewrite Hc. Qed.
(** Too few arguments are read past the end; what is more than the parameters is
    left. *)
Lemma missing_argument_is_undefined f x args s : (length args < length (f_params f))%nat → function_invoke f x args s = Undef.
Proof.
  intros Hl. unfold function_invoke.
  assert (∀ ts i, (i ≤ length args)%nat → (length args < i + length ts)%nat → unpack ts i args s = Undef) as Hu.
  { induction ts as [|t ts IH]; intros i; simpl; intros Hi Hlt; [lia|].
    destruct (args !! i) as [a|] eqn:Ha; [|done]. simpl. destruct (argument_GetValue t a s) as [v|]; [|done]. simpl.
    rewrite IH; [done| |lia]. by eapply lookup_lt_Some. }
  rewrite Hu; [done|lia|lia].
Qed.
(** An assigned argument has the type id of its source and its own array flag. *)
Lemma assigned_argument_keeps_array_flag : 
  argument_GetType (argument_assign Argument_new (Argument 3 true None)) = Ty 3 false.
Proof. done. Qed.
(** A field of a variant that was assigned its value cannot be set. *)
Lemma assigned_instance_is_read_only v g value :
  (s ← run [O_new 0; O_assign_value 0 v] (start ∅); '(b, _) ← field_SetValue (type_of v) g (Some 0%nat) value s; Def b) = Def false.
Proof. by destruct g. Qed.
